(** * WeFlow export pipeline: a shallow embedding of [exportService.ts]

    The development follows [electron/services/exportService.ts]: the
    content decoder, the message content parser, the roster merge, the
    media extractor, the CDN download helpers and the batch orchestrator.

    JavaScript strings are sequences of UTF-16 code units ([list Z]),
    buffers are sequences of bytes ([list Z], each in 0..255), exceptions
    are explicit in the result type [outcome], and the collaborators the
    service calls (file system, network, database, zstd) are section
    variables or explicit state. *)

From Stdlib Require Import ZArith List Bool Lia String Ascii DecimalString.
From Stdlib Require Import Sorting.Sorted Permutation Floats.
From stdpp Require Import base option list gmap.

Local Open Scope Z_scope.

(** ** JavaScript strings and buffers *)

Module JS.

(** A string value: its UTF-16 code units. *)
Definition jsstring : Type := list Z.

(** A [Buffer]: its bytes. *)
Definition buffer : Type := list Z.

Definition REPLACEMENT : Z := 0xFFFD.

(** *** [Buffer.prototype.toString('utf-8')]

    Modelled from the WHATWG UTF-8 decoder, which Node follows for
    [Buffer#toString]: an ill-formed sequence yields one U+FFFD per maximal
    subpart, the byte that ended it is read again as a lead byte, and no
    byte-order mark is removed. *)

Inductive u8state : Type :=
| U8Start
| U8Cont (needed : nat) (cp lower upper : Z).

(** What a byte does when no sequence is open: emit a code point, or open
    a sequence. *)
Definition u8_lead (b : Z) : list Z * u8state :=
  if b <=? 0x7F then ([b], U8Start)
  else if (0xC2 <=? b) && (b <=? 0xDF) then ([], U8Cont 1 (Z.land b 0x1F) 0x80 0xBF)
  else if (0xE0 <=? b) && (b <=? 0xEF) then
    ([], U8Cont 2 (Z.land b 0xF)
           (if b =? 0xE0 then 0xA0 else 0x80)
           (if b =? 0xED then 0x9F else 0xBF))
  else if (0xF0 <=? b) && (b <=? 0xF4) then
    ([], U8Cont 3 (Z.land b 0x7)
           (if b =? 0xF0 then 0x90 else 0x80)
           (if b =? 0xF4 then 0x8F else 0xBF))
  else ([REPLACEMENT], U8Start).

Fixpoint utf8_code_points (st : u8state) (bs : list Z) : list Z :=
  match bs with
  | [] => match st with U8Start => [] | U8Cont _ _ _ _ => [REPLACEMENT] end
  | b :: bs' =>
    match st with
    | U8Start =>
      let '(out, st') := u8_lead b in out ++ utf8_code_points st' bs'
    | U8Cont needed cp lower upper =>
      if (lower <=? b) && (b <=? upper) then
        let cp' := Z.lor (Z.shiftl cp 6) (Z.land b 0x3F) in
        match needed with
        | O | S O => cp' :: utf8_code_points U8Start bs'
        | S n => utf8_code_points (U8Cont n cp' 0x80 0xBF) bs'
        end
      else
        let '(out, st') := u8_lead b in
        REPLACEMENT :: out ++ utf8_code_points st' bs'
    end
  end.

(** A code point as UTF-16: one unit, or a surrogate pair. *)
Definition utf16_units (cp : Z) : list Z :=
  if cp <? 0x10000 then [cp]
  else let c := cp - 0x10000 in
       [0xD800 + Z.shiftr c 10; 0xDC00 + Z.land c 0x3FF].

Definition toString_utf8 (data : buffer) : jsstring :=
  concat (map utf16_units (utf8_code_points U8Start data)).

(** [Buffer.prototype.toString('latin1')]: one code unit per byte. *)
Definition toString_latin1 (data : buffer) : jsstring := data.

(** A string literal of the source file (stored as UTF-8 there). *)
Definition bytes_of_string (s : string) : buffer :=
  map (fun a => Z.of_N (N_of_ascii a)) (list_ascii_of_string s).

Definition js (s : string) : jsstring := toString_utf8 (bytes_of_string s).

(** *** String primitives *)

Fixpoint startsWith (s p : jsstring) : bool :=
  match p, s with
  | [], _ => true
  | c :: p', d :: s' => (c =? d) && startsWith s' p'
  | _ :: _, [] => false
  end.

(** [String.prototype.includes] *)
Fixpoint includes (s p : jsstring) : bool :=
  startsWith s p ||
  match s with
  | [] => false
  | _ :: s' => includes s' p
  end.

(** WhiteSpace and LineTerminator code points: what [trim] strips and
    what [\s] matches. *)
Definition is_space (c : Z) : bool :=
  ((0x9 <=? c) && (c <=? 0xD)) || (c =? 0x20) || (c =? 0xA0) || (c =? 0x1680)
  || ((0x2000 <=? c) && (c <=? 0x200A)) || (c =? 0x2028) || (c =? 0x2029)
  || (c =? 0x202F) || (c =? 0x205F) || (c =? 0x3000) || (c =? 0xFEFF).

Definition is_line_terminator (c : Z) : bool :=
  (c =? 0xA) || (c =? 0xD) || (c =? 0x2028) || (c =? 0x2029).

Definition is_digit (c : Z) : bool := (0x30 <=? c) && (c <=? 0x39).

Definition is_upper (c : Z) : bool := (0x41 <=? c) && (c <=? 0x5A).
Definition is_lower (c : Z) : bool := (0x61 <=? c) && (c <=? 0x7A).

Definition is_word (c : Z) : bool :=
  is_digit c || is_upper c || is_lower c || (c =? 0x5F).

Fixpoint trimStart (s : jsstring) : jsstring :=
  match s with
  | c :: s' => if is_space c then trimStart s' else s
  | [] => []
  end.

Definition trimEnd (s : jsstring) : jsstring := rev (trimStart (rev s)).

Definition trim (s : jsstring) : jsstring := trimEnd (trimStart s).

(** [parseInt(digits, 10)] on a string of decimal digits (the only use:
    captures of [(\d+)]). *)
Definition parseInt_digits (s : jsstring) : Z :=
  fold_left (fun acc c => 10 * acc + (c - 0x30)) s 0.

(** *** Numbers

    A Number as the service reads one out of a database column: an
    integer, or [NaN], which is what [parseInt] makes of text that does
    not begin with a number. *)
Inductive number : Type :=
| Num (z : Z)
| NaN.

(** [a - b]: [NaN] when either is. *)
Definition number_sub (a b : number) : number :=
  match a, b with
  | Num x, Num y => Num (x - y)
  | _, _ => NaN
  end.

(** [a < b]: a comparison with [NaN] is false. *)
Definition number_ltb (a b : number) : bool :=
  match a, b with
  | Num x, Num y => x <? y
  | _, _ => false
  end.

(** [a <= b] as a proposition: false when either is [NaN]. *)
Definition number_le (a b : number) : Prop :=
  match a, b with
  | Num x, Num y => x <= y
  | _, _ => False
  end.

Definition is_Num (a : number) : bool :=
  match a with Num _ => true | NaN => false end.

End JS.


(** ** Regular expressions

    The pattern language of the regular expressions the service uses,
    their parser (what [new RegExp(source)] and a regular expression literal
    do) and the backtracking matcher of ECMAScript (262, section 22.2.2)
    with continuations.  Patterns are kept as the source writes them and
    parsed here, so each one can be compared with the TypeScript text. *)

Module Regex.
Import JS.

Inductive class_item : Type :=
| CChar (c : Z)
| CRange (lo hi : Z)
| CDigit (neg : bool)
| CSpace (neg : bool)
| CWord (neg : bool).

Inductive re : Type :=
| Empty
| Char (c : Z)
| Dot
| Class (neg : bool) (items : list class_item)
| Seq (r1 r2 : re)
| Alt (r1 r2 : re)
| Group (i : nat) (r : re)
| Repeat (min : nat) (max : option nat) (greedy : bool) (r : re)
| Bol
| Eol
| WordB (neg : bool)
| Look (neg : bool) (r : re).

(** *** Parsing a pattern

    [PSyntaxError] is the early error that makes the constructor throw
    [SyntaxError]. [PUnsupported] marks syntax this development does not
    interpret: back references and legacy octal escapes, [\c] and [\k]
    escapes, look-behind, named groups and group modifiers, quantified
    look-ahead, and, under the [i] flag, pattern characters outside ASCII
    that are not CJK ideographs and class ranges that reach outside ASCII
    or outside the ideographs (their case folding needs the Unicode
    tables). *)

Inductive parsed (A : Type) : Type :=
| POk (a : A)
| PSyntaxError
| PUnsupported.
Arguments POk {A} a.
Arguments PSyntaxError {A}.
Arguments PUnsupported {A}.

#[global] Instance parsed_ret : MRet parsed := fun A a => POk a.
#[global] Instance parsed_bind : MBind parsed := fun A B f m =>
  match m with
  | POk a => f a
  | PSyntaxError => PSyntaxError
  | PUnsupported => PUnsupported
  end.

Definition ch (a : ascii) : Z := Z.of_N (N_of_ascii a).

Definition is_cjk (c : Z) : bool := (0x4E00 <=? c) && (c <=? 0x9FFF).

(** A pattern character the matcher can compare under the given flag. *)
Definition char_ok (icase : bool) (c : Z) : bool :=
  negb icase || (c <? 0x80) || is_cjk c.

(** A class range the matcher can compare under the given flag: under
    [i], one that lies within ASCII or within the CJK ideographs. *)
Definition range_ok (icase : bool) (lo hi : Z) : bool :=
  negb icase || (hi <? 0x80) || (is_cjk lo && is_cjk hi).

Fixpoint take_digits (p : list Z) : list Z * list Z :=
  match p with
  | c :: p' => if is_digit c then let '(ds, rest) := take_digits p' in (c :: ds, rest)
               else ([], p)
  | [] => ([], [])
  end.

(** A braced quantifier [{n}], [{n,}] or [{n,m}] at the head of [p]. *)
Definition braced (p : list Z) : option (nat * option nat * list Z) :=
  match p with
  | c :: p1 =>
    if c =? ch "{" then
      match take_digits p1 with
      | ([], _) => None
      | (ds, c1 :: p2) =>
        let n := Z.to_nat (parseInt_digits ds) in
        if c1 =? ch "}" then Some (n, Some n, p2)
        else if c1 =? ch "," then
          match take_digits p2 with
          | ([], c2 :: p3) => if c2 =? ch "}" then Some (n, None, p3) else None
          | (ds', c2 :: p3) =>
            if c2 =? ch "}" then Some (n, Some (Z.to_nat (parseInt_digits ds')), p3)
            else None
          | (_, []) => None
          end
        else None
      | (_, []) => None
      end
    else None
  | [] => None
  end.

(** The quantifier that follows an atom, if any. *)
Definition quantifier (p : list Z) : parsed (option (nat * option nat * bool) * list Z) :=
  let lazy (q : nat * option nat) (rest : list Z) :=
    match rest with
    | c :: rest' => if c =? ch "?" then POk (Some (q.1, q.2, false), rest')
                    else POk (Some (q.1, q.2, true), rest)
    | [] => POk (Some (q.1, q.2, true), [])
    end in
  match p with
  | [] => POk (None, [])
  | c :: p' =>
    if c =? ch "*" then lazy (O, None) p'
    else if c =? ch "+" then lazy (1%nat, None) p'
    else if c =? ch "?" then lazy (O, Some 1%nat) p'
    else match braced p with
         | Some (n, Some m, rest) =>
           if (m <? n)%nat then PSyntaxError else lazy (n, Some m) rest
         | Some (n, None, rest) => lazy (n, None) rest
         | None => POk (None, p)
         end
  end.

Definition quantify (r : re) (q : option (nat * option nat * bool)) : re :=
  match q with
  | Some (mn, mx, greedy) => Repeat mn mx greedy r
  | None => r
  end.

Definition hex_value (c : Z) : option Z :=
  if is_digit c then Some (c - 0x30)
  else if (0x41 <=? c) && (c <=? 0x46) then Some (c - 0x41 + 10)
  else if (0x61 <=? c) && (c <=? 0x66) then Some (c - 0x61 + 10)
  else None.

(** [n] hexadecimal digits at the head of [p], as a number. *)
Fixpoint hex_digits (n : nat) (acc : Z) (p : list Z) : option (Z * list Z) :=
  match n with
  | O => Some (acc, p)
  | S n' =>
    match p with
    | c :: p' => v ← hex_value c; hex_digits n' (16 * acc + v) p'
    | [] => None
    end
  end.

(** The character or set an escape denotes, [p] being the pattern after
    the backslash; [in_class] selects the reading of [\b] (backspace)
    inside a class. *)
Definition escape (icase in_class : bool) (p : list Z) : parsed (class_item * list Z) :=
  match p with
  | [] => PSyntaxError
  | c :: p' =>
    let hex (n : nat) :=
      match hex_digits n 0 p' with
      | Some (v, rest) => if char_ok icase v then POk (CChar v, rest) else PUnsupported
      | None => POk (CChar c, p')
      end in
    if c =? ch "d" then POk (CDigit false, p')
    else if c =? ch "D" then POk (CDigit true, p')
    else if c =? ch "s" then POk (CSpace false, p')
    else if c =? ch "S" then POk (CSpace true, p')
    else if c =? ch "w" then POk (CWord false, p')
    else if c =? ch "W" then POk (CWord true, p')
    else if c =? ch "f" then POk (CChar 0xC, p')
    else if c =? ch "n" then POk (CChar 0xA, p')
    else if c =? ch "r" then POk (CChar 0xD, p')
    else if c =? ch "t" then POk (CChar 0x9, p')
    else if c =? ch "v" then POk (CChar 0xB, p')
    else if (c =? ch "b") && in_class then POk (CChar 0x8, p')
    else if c =? ch "x" then hex 2%nat
    else if c =? ch "u" then hex 4%nat
    else if c =? ch "0" then
      match p' with
      | d :: _ => if is_digit d then PUnsupported else POk (CChar 0, p')
      | [] => POk (CChar 0, p')
      end
    else if is_digit c || (c =? ch "c") || (c =? ch "k") then PUnsupported
    else if char_ok icase c then POk (CChar c, p')
    else PUnsupported
  end.

Definition item_char (it : class_item) : option Z :=
  match it with CChar c => Some c | _ => None end.

(** One class atom at the head of [p]. *)
Definition class_atom (icase : bool) (p : list Z) : parsed (class_item * list Z) :=
  match p with
  | [] => PSyntaxError
  | c :: p' =>
    if c =? ch "\" then escape icase true p'
    else if char_ok icase c then POk (CChar c, p') else PUnsupported
  end.

(** The items of a class up to its closing bracket. *)
Fixpoint class_items (fuel : nat) (icase : bool) (p : list Z) : parsed (list class_item * list Z) :=
  match fuel with
  | O => PUnsupported
  | S fuel' =>
    match p with
    | [] => PSyntaxError
    | c :: p' =>
      if c =? ch "]" then POk ([], p')
      else
        '(a, p1) ← class_atom icase p;
        match p1 with
        | d :: e :: _ =>
          if (d =? ch "-") && negb (e =? ch "]") then
            '(b, p2) ← class_atom icase (tail p1);
            '(rest, p3) ← class_items fuel' icase p2;
            match item_char a, item_char b with
            | Some lo, Some hi =>
              if hi <? lo then PSyntaxError
              else if range_ok icase lo hi
                   then POk (CRange lo hi :: rest, p3) else PUnsupported
            | _, _ => POk (a :: CChar (ch "-") :: b :: rest, p3)
            end
          else
            '(rest, p3) ← class_items fuel' icase p1; POk (a :: rest, p3)
        | _ =>
          '(rest, p3) ← class_items fuel' icase p1; POk (a :: rest, p3)
        end
    end
  end.

Definition parse_class (icase : bool) (p : list Z) : parsed (re * list Z) :=
  match p with
  | c :: p' =>
    if c =? ch "^" then
      '(items, rest) ← class_items (S (length p')) icase p'; POk (Class true items, rest)
    else
      '(items, rest) ← class_items (S (length p)) icase p; POk (Class false items, rest)
  | [] => PSyntaxError
  end.

Definition item_re (it : class_item) : re :=
  match it with
  | CChar c => Char c
  | _ => Class false [it]
  end.

(** The closing parenthesis of a group. *)
Definition close_group (p : list Z) : parsed (list Z) :=
  match p with
  | c :: p' => if c =? ch ")" then POk p' else PSyntaxError
  | [] => PSyntaxError
  end.

(** Disjunction, alternative and term; [ng] counts the capture groups
    opened so far. *)
Fixpoint parse_disj (fuel : nat) (icase : bool) (p : list Z) (ng : nat)
  : parsed (re * list Z * nat) :=
  match fuel with
  | O => PUnsupported
  | S fuel' =>
    '(a, p1, ng1) ← parse_alt fuel' icase p ng;
    match p1 with
    | c :: p2 =>
      if c =? ch "|" then
        '(b, p3, ng2) ← parse_disj fuel' icase p2 ng1; POk (Alt a b, p3, ng2)
      else POk (a, p1, ng1)
    | [] => POk (a, p1, ng1)
    end
  end
with parse_alt (fuel : nat) (icase : bool) (p : list Z) (ng : nat)
  : parsed (re * list Z * nat) :=
  match fuel with
  | O => PUnsupported
  | S fuel' =>
    match p with
    | [] => POk (Empty, [], ng)
    | c :: _ =>
      if (c =? ch "|") || (c =? ch ")") then POk (Empty, p, ng)
      else
        '(t, p1, ng1) ← parse_term fuel' icase p ng;
        '(rest, p2, ng2) ← parse_alt fuel' icase p1 ng1;
        POk (match rest with Empty => t | _ => Seq t rest end, p2, ng2)
    end
  end
with parse_term (fuel : nat) (icase : bool) (p : list Z) (ng : nat)
  : parsed (re * list Z * nat) :=
  match fuel with
  | O => PUnsupported
  | S fuel' =>
    let atom (r : re) (rest : list Z) (ng' : nat) :=
      '(q, rest') ← quantifier rest; POk (quantify r q, rest', ng') in
    let unquantified (r : re) (rest : list Z) (ng' : nat) :=
      '(q, _) ← quantifier rest;
      match q with Some _ => PUnsupported | None => POk (r, rest, ng') end in
    match p with
    | [] => POk (Empty, [], ng)
    | c :: p1 =>
      if c =? ch "^" then POk (Bol, p1, ng)
      else if c =? ch "$" then POk (Eol, p1, ng)
      else if (c =? ch "*") || (c =? ch "+") || (c =? ch "?") then PSyntaxError
      else if c =? ch "{" then
        match braced p with
        | Some _ => PSyntaxError
        | None => atom (Char c) p1 ng
        end
      else if c =? ch "." then atom Dot p1 ng
      else if c =? ch "[" then
        '(r, rest) ← parse_class icase p1; atom r rest ng
      else if c =? ch "\" then
        match p1 with
        | [] => PSyntaxError
        | e :: p2 =>
          if e =? ch "b" then POk (WordB false, p2, ng)
          else if e =? ch "B" then POk (WordB true, p2, ng)
          else '(it, p3) ← escape icase false p1; atom (item_re it) p3 ng
        end
      else if c =? ch "(" then
        match p1 with
        | q :: p2 =>
          if q =? ch "?" then
            match p2 with
            | k :: p3 =>
              if k =? ch ":" then
                '(d, p4, ng1) ← parse_disj fuel' icase p3 ng;
                p5 ← close_group p4; atom d p5 ng1
              else if (k =? ch "=") || (k =? ch "!") then
                '(d, p4, ng1) ← parse_disj fuel' icase p3 ng;
                p5 ← close_group p4;
                unquantified (Look (k =? ch "!") d) p5 ng1
              else if (k =? ch "<") || is_lower k || (k =? ch "-") then PUnsupported
              else PSyntaxError
            | [] => PSyntaxError
            end
          else
            '(d, p4, ng1) ← parse_disj fuel' icase p1 (S ng);
            p5 ← close_group p4; atom (Group (S ng) d) p5 ng1
        | [] => PSyntaxError
        end
      else if char_ok icase c then atom (Char c) p1 ng
      else PUnsupported
    end
  end.

(** A whole pattern: the disjunction must use it up (a [)] left over has
    no group to close). *)
Definition parse (icase : bool) (p : jsstring) : parsed (re * nat) :=
  '(r, rest, ng) ← parse_disj (3 * length p + 3) icase p O;
  match rest with
  | [] => POk (r, ng)
  | _ :: _ => PSyntaxError
  end.

(** *** Matching

    The state of a match: the input still ahead, the code unit just
    behind (none at the start of the input), and the captures. *)

Record mstate : Type := MState {
  m_rest : jsstring;
  m_prev : option Z;
  m_caps : list (option jsstring)
}.

(** Canonicalize (22.2.5.6) without the [u] flag, on the characters
    [char_ok] lets a pattern hold: ASCII letters fold to upper case. *)
Definition canon (icase : bool) (c : Z) : Z :=
  if icase && is_lower c then c - 32 else c.

Definition item_matches (icase : bool) (it : class_item) (c : Z) : bool :=
  let cc := canon icase c in
  match it with
  | CChar a => canon icase a =? cc
  | CRange lo hi =>
    ((lo <=? c) && (c <=? hi))
    || (icase && (((lo <=? cc) && (cc <=? hi))
                  || (is_upper cc && (lo <=? cc + 32) && (cc + 32 <=? hi))))
  | CDigit neg => xorb neg (is_digit c)
  | CSpace neg => xorb neg (is_space c)
  | CWord neg => xorb neg (is_word c)
  end.

Definition class_matches (icase neg : bool) (items : list class_item) (c : Z) : bool :=
  xorb neg (existsb (fun it => item_matches icase it c) items).

(** Consume one code unit that satisfies [ok]. *)
Definition step (ok : Z -> bool) (x : mstate) (k : mstate -> option mstate) : option mstate :=
  match m_rest x with
  | c :: rest => if ok c then k (MState rest (Some c) (m_caps x)) else None
  | [] => None
  end.

Fixpoint groups_of (r : re) : list nat :=
  match r with
  | Group i r' => i :: groups_of r'
  | Seq a b | Alt a b => groups_of a ++ groups_of b
  | Repeat _ _ _ r' | Look _ r' => groups_of r'
  | _ => []
  end.

Definition set_cap (i : nat) (v : option jsstring) (caps : list (option jsstring)) :=
  <[ i := v ]> caps.

Definition clear_caps (gs : list nat) (x : mstate) : mstate :=
  MState (m_rest x) (m_prev x) (foldr (fun i c => set_cap i None c) (m_caps x) gs).

(** What was consumed between two states. *)
Definition consumed (x y : mstate) : jsstring :=
  take (length (m_rest x) - length (m_rest y)) (m_rest x).

Definition at_word_boundary (x : mstate) : bool :=
  let a := match m_prev x with Some c => is_word c | None => false end in
  let b := match m_rest x with c :: _ => is_word c | [] => false end in
  xorb a b.

Definition orelse {A} (a : option A) (b : option A) : option A :=
  match a with Some _ => a | None => b end.

(** A matcher: it runs on a state with a continuation (22.2.2). *)
Definition matcher : Type := mstate -> (mstate -> option mstate) -> option mstate.

(** RepeatMatcher (22.2.2.3.1) for the matcher [m] of the atom, whose
    capture groups are [gs]. An iteration that consumes nothing once the
    minimum is met fails, so [min] plus the length of the input bounds
    the iterations; [fuel] is what the recursion descends on. *)
Fixpoint RepeatMatcher (m : matcher) (gs : list nat) (greedy : bool)
    (k : mstate -> option mstate) (fuel : nat) (mn : nat) (mx : option nat) (x : mstate)
  : option mstate :=
  match fuel with
  | O => None
  | S fuel' =>
    match mx with
    | Some O => k x
    | _ =>
      let d := fun y =>
        if (mn =? 0)%nat && (length (m_rest y) =? length (m_rest x))%nat then None
        else RepeatMatcher m gs greedy k fuel' (pred mn) (pred <$> mx) y in
      let xr := clear_caps gs x in
      if (0 <? mn)%nat then m xr d
      else if greedy then orelse (m xr d) (k x)
           else orelse (k x) (m xr d)
    end
  end.

(** The matcher of a pattern (22.2.2.3 to 22.2.2.7). *)
Fixpoint rmatch (icase : bool) (r : re) (x : mstate) (k : mstate -> option mstate)
  {struct r} : option mstate :=
  match r with
  | Empty => k x
  | Char c => step (fun d => canon icase c =? canon icase d) x k
  | Dot => step (fun d => negb (is_line_terminator d)) x k
  | Class neg items => step (class_matches icase neg items) x k
  | Seq a b => rmatch icase a x (fun y => rmatch icase b y k)
  | Alt a b => orelse (rmatch icase a x k) (rmatch icase b x k)
  | Group i a =>
    rmatch icase a x
      (fun y => k (MState (m_rest y) (m_prev y) (set_cap i (Some (consumed x y)) (m_caps y))))
  | Repeat mn mx greedy a =>
    RepeatMatcher (rmatch icase a) (groups_of a) greedy k
      (S (mn + length (m_rest x))) mn mx x
  | Bol => match m_prev x with None => k x | Some _ => None end
  | Eol => match m_rest x with [] => k x | _ :: _ => None end
  | WordB neg => if xorb neg (at_word_boundary x) then k x else None
  | Look neg a =>
    match rmatch icase a x Some with
    | Some y => if neg then None else k (MState (m_rest x) (m_prev x) (m_caps y))
    | None => if neg then k x else None
    end
  end.

(** *** Regular expression objects and the string methods that use them *)

Record regex : Type := RegExp {
  re_body : re;
  re_groups : nat;
  re_icase : bool
}.

(** The result of [exec]: where the match starts, the matched text, the
    captures [1..n] and the input after the match. *)
Record match_result : Type := MatchResult {
  mr_index : nat;
  mr_text : jsstring;
  mr_caps : list (option jsstring);
  mr_after : jsstring
}.

(** Capture [i] of a match ([match[i]]; [undefined] is [None]). *)
Definition group (m : match_result) (i : nat) : option jsstring :=
  match i with
  | O => Some (mr_text m)
  | _ => mjoin (mr_caps m !! i)
  end.

(** One attempt at the current position. *)
Definition match_here (rx : regex) (prev : option Z) (s : jsstring) (idx : nat)
  : option match_result :=
  let x := MState s prev (replicate (S (re_groups rx)) None) in
  match rmatch (re_icase rx) (re_body rx) x Some with
  | Some y => Some (MatchResult idx (consumed x y) (m_caps y) (m_rest y))
  | None => None
  end.

(** The leftmost match at or after the current position: [RegExp#exec]
    with [lastIndex] at it. *)
Fixpoint search (rx : regex) (prev : option Z) (s : jsstring) (idx : nat)
  : option match_result :=
  match match_here rx prev s idx with
  | Some m => Some m
  | None =>
    match s with
    | [] => None
    | c :: s' => search rx (Some c) s' (S idx)
    end
  end.

Definition exec (rx : regex) (s : jsstring) : option match_result := search rx None s O.

Definition test (rx : regex) (s : jsstring) : bool := bool_decide (is_Some (exec rx s)).

(** [s.replace(rx, f)] for a regular expression without the [g] flag:
    the first match is replaced. *)
Definition replace_first (rx : regex) (f : match_result -> jsstring) (s : jsstring) : jsstring :=
  match exec rx s with
  | Some m => take (mr_index m) s ++ f m ++ mr_after m
  | None => s
  end.

(** All matches of a [g] regular expression, left to right; after an
    empty match the search resumes one code unit further. *)
Fixpoint matches_from (fuel : nat) (rx : regex) (prev : option Z) (s : jsstring) (idx : nat)
  : list match_result :=
  match fuel with
  | O => []
  | S fuel' =>
    match search rx prev s idx with
    | None => []
    | Some m =>
      let stop := (mr_index m + length (mr_text m))%nat in
      let before := take (stop - idx) s in
      m :: match mr_text m, mr_after m with
           | [], [] => []
           | [], c :: rest => matches_from fuel' rx (Some c) rest (S stop)
           | _ :: _, rest => matches_from fuel' rx (last before) rest stop
           end
    end
  end.

Definition match_all (rx : regex) (s : jsstring) : list match_result :=
  matches_from (S (length s)) rx None s O.

(** The text of [s] between the matches, with [f m] in place of each
    match [m]: [s.replace(rx, f)] for a [g] regular expression. *)
Fixpoint splice (ms : list (match_result * jsstring)) (s : jsstring) (idx : nat) : jsstring :=
  match ms with
  | [] => s
  | (m, by_) :: ms' =>
    let skip := (mr_index m - idx)%nat in
    let len := length (mr_text m) in
    take skip s ++ by_ ++ splice ms' (drop (skip + len) s) (mr_index m + len)
  end.

Definition replace_all (rx : regex) (f : match_result -> jsstring) (s : jsstring) : jsstring :=
  splice (map (fun m => (m, f m)) (match_all rx s)) s O.

(** The matches of the one-character pattern [c], read off the string:
    what [match_all] is shown to compute for it. *)
Fixpoint occurrences (c : Z) (s : jsstring) (idx : nat) : list match_result :=
  match s with
  | [] => []
  | d :: s' =>
    if c =? d then MatchResult idx [d] [None] s' :: occurrences c s' (S idx)
    else occurrences c s' (S idx)
  end.

(** What the fuel of [RepeatMatcher] and of [matches_from] rests on: a
    matcher only moves forward. [y] is no further back than [x]; a
    matcher is [local] when it looks at its continuation only there, and
    [forward] when its result is one its continuation gave there. *)
Definition no_further (x y : mstate) : Prop := (length (m_rest y) <= length (m_rest x))%nat.

Definition local (m : matcher) : Prop :=
  forall x k k', (forall y, no_further x y -> k y = k' y) -> m x k = m x k'.

Definition forward (m : matcher) : Prop :=
  forall x k z, m x k = Some z -> exists y, no_further x y /\ k y = Some z.

(** The character before the position, after the run [w] was consumed
    from a position that had [prev] before it. *)
Definition prev_after (prev : option Z) (w : list Z) : option Z :=
  match w with [] => prev | _ :: _ => last w end.

End Regex.

(** ** Where a text occurs

    What the statements about message contents are written with: a
    literal text at the head of a string and inside one, compared as a
    pattern character is compared with a code unit (without regard to
    case under [icase]). *)

Module Occurs.
Import JS Regex.

(** [s] begins with [lit]. *)
Fixpoint begins (icase : bool) (lit s : jsstring) : bool :=
  match lit, s with
  | [], _ => true
  | a :: lit', c :: s' => (canon icase a =? canon icase c) && begins icase lit' s'
  | _ :: _, [] => false
  end.

(** [lit] occurs in [s]. *)
Fixpoint mentions (icase : bool) (lit s : jsstring) : bool :=
  begins icase lit s
  || match s with
     | [] => false
     | _ :: s' => mentions icase lit s'
     end.

(** No occurrence of [lit] in [w ++ rest] begins within [w]. *)
Fixpoint none_begins (icase : bool) (lit w rest : jsstring) : bool :=
  match w with
  | [] => true
  | _ :: w' => negb (begins icase lit (w ++ rest)) && none_begins icase lit w' rest
  end.

(** The pattern of the text [lit] followed by the pattern [r]. *)
Fixpoint literal (lit : jsstring) (r : re) : re :=
  match lit with
  | [] => r
  | c :: lit' => Seq (Char c) (literal lit' r)
  end.

End Occurs.

(** ** Results of evaluating service code

    [Throw] is a JavaScript exception leaving the function. [Unmodelled]
    is not a behaviour of the program: it marks an evaluation that left
    what this development interprets (a dynamic pattern outside [Regex]);
    no [try] catches it and no theorem below is about it. *)

Inductive outcome (A : Type) : Type :=
| Ret (a : A)
| Throw
| Unmodelled.
Arguments Ret {A} a.
Arguments Throw {A}.
Arguments Unmodelled {A}.

#[global] Instance outcome_ret : MRet outcome := fun A a => Ret a.
#[global] Instance outcome_bind : MBind outcome := fun A B f m =>
  match m with
  | Ret a => f a
  | Throw => Throw
  | Unmodelled => Unmodelled
  end.
#[global] Instance outcome_fmap : FMap outcome := fun A B f m =>
  match m with
  | Ret a => Ret (f a)
  | Throw => Throw
  | Unmodelled => Unmodelled
  end.

(** [try { body } catch { handler }] *)
Definition try_catch {A} (body handler : outcome A) : outcome A :=
  match body with
  | Throw => handler
  | _ => body
  end.

(** A collaborator that either returns or throws. *)
Definition lift_throwing {A} (r : option A) : outcome A :=
  match r with
  | Some a => Ret a
  | None => Throw
  end.

Import JS Regex.

(** A regular expression literal [/pattern/flags] of the source. Every
    literal of the service parses (the TypeScript file would not load
    otherwise), so the fall-back is never used. *)
Definition regex_of (pattern : jsstring) (flags : string) : regex :=
  let icase := includes (js flags) (js "i") in
  match parse icase pattern with
  | POk (r, n) => RegExp r n icase
  | _ => RegExp Empty 0 icase
  end.

Definition rx (pattern flags : string) : regex := regex_of (js pattern) flags.

(** Whether a pattern is one this development reads. *)
Definition parses (pattern : jsstring) (flags : string) : bool :=
  match parse (includes (js flags) (js "i")) pattern with
  | POk _ => true
  | _ => false
  end.

(** [new RegExp(source, flags)]: throws [SyntaxError] on a malformed
    pattern. *)
Definition RegExp_new (source : jsstring) (flags : string) : outcome regex :=
  let icase := includes (js flags) (js "i") in
  match parse icase source with
  | POk (r, n) => Ret (RegExp r n icase)
  | PSyntaxError => Throw
  | PUnsupported => Unmodelled
  end.

(** [a || b] on strings: the empty string is falsy. *)
Definition or_else (a b : jsstring) : jsstring :=
  match a with [] => b | _ :: _ => a end.

(** Truthiness of an optional string: present and not empty. *)
Definition truthy (s : option jsstring) : bool :=
  match s with
  | Some (_ :: _) => true
  | _ => false
  end.

(** [a || b] on optional strings. *)
Definition por (a b : option jsstring) : option jsstring :=
  if truthy a then a else b.

(** ** The message content parser *)

Module Parser.

(** [MESSAGE_TYPE_MAP]: WeChat localType to ChatLab type. *)
Definition MESSAGE_TYPE_MAP : gmap Z Z :=
  list_to_map
    [ (1, 0); (3, 1); (34, 2); (43, 3); (49, 7); (47, 5); (48, 8); (42, 27);
      (50, 23); (10000, 80) ].

Definition convertMessageType (localType : Z) (content : jsstring) : Z :=
  let fallback := default 99 (MESSAGE_TYPE_MAP !! localType) in
  if localType =? 49 then
    match exec (rx "<type>(\d+)<\/type>" "i") content with
    | Some typeMatch =>
      let subType := parseInt_digits (default [] (group typeMatch 1)) in
      if subType =? 6 then 4
      else if (subType =? 33) || (subType =? 36) then 24
      else if subType =? 57 then 25
      else 7
    | None => fallback
    end
  else fallback.

Definition stripSenderPrefix (content : jsstring) : jsstring :=
  replace_first (rx "^[\s]*([a-zA-Z0-9_-]+):(?!\/\/)" "") (fun _ => []) content.

Definition strip_cdata (s : jsstring) : jsstring :=
  replace_all (rx "\]\]>" "g") (fun _ => [])
    (replace_all (rx "<!\[CDATA\[" "g") (fun _ => []) s).

Definition extractXmlValue (xml tagName : jsstring) : outcome jsstring :=
  regex ← RegExp_new (js "<" ++ tagName ++ js ">([\s\S]*?)</" ++ tagName ++ js ">") "i";
  match exec regex xml with
  | Some m => Ret (trim (strip_cdata (default [] (group m 1))))
  | None => Ret []
  end.

(** The expression [extractXmlValue] builds for the tag [title]. *)
Definition title_regex : regex := rx "<title>([\s\S]*?)</title>" "i".

(** [s.replace(rx, callback)] for a [g] regular expression whose
    callback may throw: the callbacks run left to right. *)
Definition replace_all_with (r : regex) (f : match_result -> outcome jsstring) (s : jsstring)
  : outcome jsstring :=
  ms ← mapM (fun m => by_ ← f m; Ret (m, by_)) (match_all r s);
  Ret (splice ms s O).

(** The pattern the pat-template branch builds for a variable; the text
    is the template literal of the source after its own escapes are
    read (two backslashes are one, and a backslash before a bracket or
    a slash is dropped). *)
Definition pat_variable_pattern (varName : jsstring) : jsstring :=
  js "<" ++ varName ++ js "><!\[CDATA\[([^]]*)\]\]></" ++ varName ++ js ">".

Definition cleanSystemMessage (content : jsstring) : outcome jsstring :=
  match content with
  | [] => Ret (js "[系统消息]")
  | _ :: _ =>
    let content :=
      match exec (rx "<sysmsg[^>]*>([\s\S]*?)<\/sysmsg>" "i") content with
      | Some m => default [] (group m 1)
      | None => content
      end in
    match exec (rx "<replacemsg><!\[CDATA\[(.*?)\]\]><\/replacemsg>" "i") content with
    | Some revokeMatch => Ret (trim (default [] (group revokeMatch 1)))
    | None =>
      match exec (rx "<template><!\[CDATA\[(.*?)\]\]><\/template>" "i") content with
      | Some patMatch =>
        filled ← replace_all_with (rx "\$\{([^}]+)\}" "g")
          (fun m =>
             let varName := default [] (group m 1) in
             regex ← RegExp_new (pat_variable_pattern varName) "i";
             match exec regex content with
             | Some varMatch => Ret (default [] (group varMatch 1))
             | None => Ret []
             end)
          (default [] (group patMatch 1));
        Ret (trim (replace_all (rx "<[^>]+>" "g") (fun _ => []) filled))
      | None =>
        let content := strip_cdata content in
        Ret (or_else
               (trim
                  (replace_all (rx "\s+" "g") (fun _ => js " ")
                     (replace_all (rx "<\/?[a-zA-Z0-9_:]+[^>]*>" "g") (fun _ => [])
                        (replace_all (rx "<img[^>]*>" "gi") (fun _ => []) content))))
               (js "[系统消息]"))
      end
    end
  end.

Definition label (callType : jsstring) (status : jsstring) : jsstring :=
  js "[" ++ callType ++ js "] " ++ status.

Definition parseVoipMessage (content : jsstring) : outcome jsstring :=
  try_catch
    (match content with
     | [] => Ret (js "[通话]")
     | _ :: _ =>
       let msgMatch := exec (rx "<msg><!\[CDATA\[(.*?)\]\]><\/msg>" "i") content in
       let msg := or_else (default [] (trim <$> (msgMatch ≫= fun m => group m 1))) [] in
       let roomTypeMatch := exec (rx "<room_type>(\d+)<\/room_type>" "i") content in
       let roomType :=
         match roomTypeMatch with
         | Some m => parseInt_digits (default [] (group m 1))
         | None => -1
         end in
       let callType :=
         if roomType =? 0 then js "视频通话"
         else if roomType =? 1 then js "语音通话"
         else js "通话" in
       if includes msg (js "通话时长") then
         let durationMatch := exec (rx "通话时长\s*(\d{1,2}:\d{2}(?::\d{2})?)" "i") msg in
         let duration := or_else (default [] (durationMatch ≫= fun m => group m 1)) [] in
         match duration with
         | _ :: _ => Ret (label callType duration)
         | [] => Ret (label callType (js "已接听"))
         end
       else if includes msg (js "对方无应答") then Ret (label callType (js "对方无应答"))
       else if includes msg (js "已取消") then Ret (label callType (js "已取消"))
       else if includes msg (js "已在其它设备接听") || includes msg (js "已在其他设备接听")
       then Ret (label callType (js "已在其他设备接听"))
       else if includes msg (js "对方已拒绝") || includes msg (js "已拒绝")
       then Ret (label callType (js "对方已拒绝"))
       else if includes msg (js "忙线未接听") || includes msg (js "忙线")
       then Ret (label callType (js "忙线未接听"))
       else if includes msg (js "未接听") then Ret (label callType (js "未接听"))
       else match msg with
            | _ :: _ => Ret (label callType msg)
            | [] => Ret (js "[" ++ callType ++ js "]")
            end
     end)
    (Ret (js "[通话]")).

(** [string | null]: [None] is [null]. *)
Definition parseMessageContent (content : jsstring) (localType : Z) : outcome (option jsstring) :=
  match content with
  | [] => Ret None
  | _ :: _ =>
    if localType =? 1 then Ret (Some (stripSenderPrefix content))
    else if localType =? 3 then Ret (Some (js "[图片]"))
    else if localType =? 34 then Ret (Some (js "[语音消息]"))
    else if localType =? 42 then Ret (Some (js "[名片]"))
    else if localType =? 43 then Ret (Some (js "[视频]"))
    else if localType =? 47 then Ret (Some (js "[动画表情]"))
    else if localType =? 48 then Ret (Some (js "[位置]"))
    else if localType =? 49 then
      title ← extractXmlValue content (js "title");
      Ret (Some (or_else title (js "[链接]")))
    else if localType =? 50 then Some <$> parseVoipMessage content
    else if localType =? 10000 then Some <$> cleanSystemMessage content
    else if localType =? 266287972401 then Some <$> cleanSystemMessage content
    else if includes content (js "<type>57</type>") then
      title ← extractXmlValue content (js "title");
      Ret (Some (or_else title (js "[引用消息]")))
    else
      match stripSenderPrefix content with
      | [] => Ret None
      | s => Ret (Some s)
      end
  end.

End Parser.

(** ** The content decoder *)

Module Decoder.

(** A value of type [any], as far as the decoder looks at it: a string,
    [null], [undefined], or any other value (a number, a boolean, an
    object such as a [Buffer]) with its truthiness. *)
Inductive value : Type :=
| VUndefined
| VNull
| VString (s : jsstring)
| VOther (truthy : bool).

Definition looksLikeHex (s : jsstring) : bool :=
  if negb (Z.of_nat (length s) mod 2 =? 0) then false
  else test (rx "^[0-9a-fA-F]+$" "") s.

Definition looksLikeBase64 (s : jsstring) : bool :=
  if negb (Z.of_nat (length s) mod 4 =? 0) then false
  else test (rx "^[A-Za-z0-9+/=]+$" "") s.

(** [Buffer.from(s, 'hex')]: pairs of hexadecimal digits, up to the first
    pair that is not one. *)
Fixpoint Buffer_from_hex (s : jsstring) : buffer :=
  match s with
  | a :: b :: rest =>
    match hex_value a, hex_value b with
    | Some x, Some y => (16 * x + y) :: Buffer_from_hex rest
    | _, _ => []
    end
  | _ => []
  end.

(** [data.readUInt32LE(0)] on a buffer of four bytes or more, as Node
    computes it: [first + b1 * 2 ** 8 + b2 * 2 ** 16 + last * 2 ** 24]. *)
Definition readUInt32LE (data : buffer) : Z :=
  match data with
  | b0 :: b1 :: b2 :: b3 :: _ => b0 + b1 * 2 ^ 8 + b2 * 2 ^ 16 + b3 * 2 ^ 24
  | _ => 0
  end.

Definition ZSTD_MAGIC : Z := 0xFD2FB528.

(** The guard of the zstd branch: four bytes or more, and the magic
    number in the first four, little-endian. *)
Definition begins_with_magic (data : buffer) : bool :=
  (4 <=? length data)%nat && (readUInt32LE data =? ZSTD_MAGIC).

(** Occurrences of U+FFFD: [(decoded.match(/\uFFFD/g) || []).length]. *)
Definition replacementCount (decoded : jsstring) : nat :=
  length (match_all (rx "\uFFFD" "g") decoded).

(** [replacementCount < length * 0.2] as JavaScript evaluates it, on
    binary64 numbers; the constant is the double nearest to 0.2. *)
Definition below_fifth_double (replacementCount length : nat) : bool :=
  let number (n : nat) := PrimFloat.of_uint63 (Uint63.of_Z (Z.of_nat n)) in
  PrimFloat.ltb (number replacementCount)
                (PrimFloat.mul (number length) 0x1.999999999999ap-3%float).

(** Every pair of a length up to [n] and a count up to that length. *)
Definition counts_up_to (n : nat) : list (nat * nat) :=
  len ← seq 0 (S n); (fun count => (count, len)) <$> seq 0 (S len).

Section WithCollaborators.

(** [fzstd.decompress]: the decompressed bytes, or [None] when it throws
    (a truncated or corrupt frame, or the module failing to load). *)
Variable fzstd_decompress : buffer -> option buffer.

(** [Buffer.from(s, 'base64')], which Node defines on every string. *)
Variable Buffer_from_base64 : jsstring -> buffer.

(** [decodeBinaryContent] (lines 198 to 218). The two nested guards of
    the zstd branch are [begins_with_magic]. The comparison
    [replacementCount < decoded.length * 0.2] is on doubles
    ([below_fifth_double]): the product is a fifth of the length rounded
    to the nearest double, which for the length of a string lies on the
    same side of every integer as the exact fifth, so the test is
    [5 * replacementCount < length]. *)
Definition decodeBinaryContent (data : buffer) : outcome jsstring :=
  match data with
  | [] => Ret []
  | _ :: _ =>
    try_catch
      (if begins_with_magic data then
         decompressed ← lift_throwing (fzstd_decompress data);
         Ret (toString_utf8 decompressed)
       else
         let decoded := toString_utf8 data in
         if (5 * replacementCount decoded <? length decoded)%nat then
           Ret (replace_all (rx "\uFFFD" "g") (fun _ => []) decoded)
         else Ret (toString_latin1 data))
      (Ret [])
  end.

Definition decodeMaybeCompressed (raw : value) : outcome jsstring :=
  match raw with
  | VUndefined | VNull | VOther false | VString [] => Ret []
  | VString raw =>
    let fallthrough :=
      if looksLikeBase64 raw then
        try_catch (decodeBinaryContent (Buffer_from_base64 raw)) (Ret raw)
      else Ret raw in
    if looksLikeHex raw then
      let bytes := Buffer_from_hex raw in
      if (0 <? length bytes)%nat then decodeBinaryContent bytes else fallthrough
    else fallthrough
  | VOther true => Ret []
  end.

Definition decodeMessageContent (messageContent compressContent : value) : outcome jsstring :=
  content ← decodeMaybeCompressed compressContent;
  match content with
  | [] => decodeMaybeCompressed messageContent
  | _ :: _ => Ret content
  end.

End WithCollaborators.

(** A decoded string without its U+FFFD, and their number. *)
Definition strip_replacement (s : jsstring) : jsstring :=
  List.filter (fun d => negb (REPLACEMENT =? d)) s.

Definition count_replacement (s : jsstring) : nat :=
  length (List.filter (fun d => REPLACEMENT =? d) s).

(** The fall-back rule in the words of the specification: latin1 when
    more than 20% of the characters of the UTF-8 decoding are U+FFFD,
    the UTF-8 decoding otherwise. *)
Definition spec_decode (data : buffer) : jsstring :=
  let decoded := toString_utf8 data in
  if (length decoded <? 5 * count_replacement decoded)%nat
  then toString_latin1 data else decoded.

End Decoder.

(** ** Binary content written as text *)

Module Wire.

(** The characters [looksLikeHex] and [looksLikeBase64] accept. *)
Definition is_hex_digit (c : Z) : bool :=
  is_digit c || ((0x61 <=? c) && (c <=? 0x66)) || ((0x41 <=? c) && (c <=? 0x46)).

Definition is_base64_char (c : Z) : bool :=
  is_upper c || is_lower c || is_digit c || (c =? 0x2B) || (c =? 0x2F) || (c =? 0x3D).

(** [Buffer.prototype.toString('hex')]: two lower-case digits a byte. *)
Definition hex_digit_of (n : Z) : Z := if n <? 10 then 0x30 + n else 0x61 + (n - 10).

Definition toString_hex (data : buffer) : jsstring :=
  flat_map (fun b => [hex_digit_of (b / 16); hex_digit_of (b mod 16)]) data.

Definition is_byte (b : Z) : Prop := 0 <= b < 256.

End Wire.

(** ** Sender ids *)

Module Names.

(** The characters of the sender id that [stripSenderPrefix] takes off
    the front of a message: [[a-zA-Z0-9_-]]. *)
Definition is_id_char (c : Z) : bool :=
  is_lower c || is_upper c || is_digit c || (c =? 0x5F) || (c =? 0x2D).

(** The characters of the suffix that [cleanAccountDirName] takes off an
    account directory: [[a-zA-Z0-9]]. *)
Definition is_alnum (c : Z) : bool := is_lower c || is_upper c || is_digit c.

End Names.

(** ** The identity resolver *)

Module Identity.

(** [s.toLowerCase().startsWith(p)] for an ASCII lower-case [p]: the only
    characters whose lower case is an ASCII letter of [wxid_] are the
    ASCII letters themselves. *)
Fixpoint startsWith_lower (s p : jsstring) : bool :=
  match p, s with
  | [], _ => true
  | c :: p', d :: s' => (c =? (if is_upper d then d + 32 else d)) && startsWith_lower s' p'
  | _ :: _, [] => false
  end.

Definition cleanAccountDirName (dirName : jsstring) : jsstring :=
  let trimmed := trim dirName in
  match trimmed with
  | [] => trimmed
  | _ :: _ =>
    if startsWith_lower trimmed (js "wxid_") then
      match exec (rx "^(wxid_[^_]+)" "i") trimmed with
      | Some m => default [] (group m 1)
      | None => trimmed
      end
    else
      match exec (rx "^(.+)_([a-zA-Z0-9]{4})$" "") trimmed with
      | Some suffixMatch => default [] (group suffixMatch 1)
      | None => trimmed
      end
  end.

(** [interface ChatLabMember]; an optional field that is absent is
    [None]. *)
Record ChatLabMember : Type := {
  platformId : jsstring;
  accountName : jsstring;
  groupNickname : option jsstring;
  avatar : option jsstring
}.

(** A value of the member map: [{ member, avatarUrl? }]. *)
Record memberInfo : Type := {
  member : ChatLabMember;
  avatarUrl : option jsstring
}.

(** A roster entry as [wcdbService.getGroupMembers] returns it. *)
Record rawMember : Type := {
  rm_username : option jsstring;
  rm_avatarUrl : option jsstring;
  rm_nickname : option jsstring;
  rm_displayName : option jsstring;
  rm_remark : option jsstring;
  rm_originalName : option jsstring
}.

Record membersResult : Type := {
  members_success : bool;
  members : option (list rawMember)
}.

(** The result of [getDisplayNames] and [getAvatarUrls]. *)
Record mapResult : Type := {
  map_success : bool;
  map : option (gmap jsstring jsstring)
}.

(** [Set#add] on the insertion-ordered set of lookup names. *)
Definition set_add (x : jsstring) (l : list jsstring) : list jsstring :=
  if bool_decide (x ∈ l) then l else l ++ [x].

Definition with_accountName (m : ChatLabMember) (n : jsstring) : ChatLabMember :=
  {| platformId := platformId m; accountName := n;
     groupNickname := groupNickname m; avatar := avatar m |}.

Definition with_groupNickname (m : ChatLabMember) (n : option jsstring) : ChatLabMember :=
  {| platformId := platformId m; accountName := accountName m;
     groupNickname := n; avatar := avatar m |}.

Section Merge.

(** The database collaborators: [wcdbService.getGroupMembers],
    [getDisplayNames] and [getAvatarUrls]; [None] is a rejected
    promise. *)
Variable getGroupMembers : jsstring -> option membersResult.
Variable getDisplayNames : list jsstring -> option mapResult.
Variable getAvatarUrls : list jsstring -> option mapResult.

(** [map[username] || (cleaned ? map[cleaned] : undefined)] *)
Definition lookup_both (m : gmap jsstring jsstring) (username cleaned : jsstring)
  : option jsstring :=
  por (m !! username) (match cleaned with [] => None | _ :: _ => m !! cleaned end).

(** One turn of the loop over the roster (lines 875 to 911). The member
    map is a JavaScript [Map]; its insertion order does not matter to
    what is proved here, so it is a [gmap]. *)
Definition merge_member (includeAvatars : bool) (displayNames avatarUrls : mapResult)
    (memberSet : gmap jsstring memberInfo) (m : rawMember) : gmap jsstring memberInfo :=
  match rm_username m with
  | None | Some [] => memberSet
  | Some username =>
    let cleaned := cleanAccountDirName username in
    let displayName :=
      match map_success displayNames, map displayNames with
      | true, Some names => default username (por (lookup_both names username cleaned) (Some username))
      | _, _ => username
      end in
    let groupNickname' :=
      por (rm_nickname m) (por (rm_displayName m) (por (rm_remark m) (rm_originalName m))) in
    let avatarUrl' :=
      match includeAvatars && map_success avatarUrls, map avatarUrls with
      | true, Some urls => por (lookup_both urls username cleaned) (rm_avatarUrl m)
      | _, _ => rm_avatarUrl m
      end in
    match memberSet !! username with
    | Some existing =>
      let mem := member existing in
      let mem :=
        if truthy (Some displayName)
           && bool_decide (accountName mem = platformId mem)
           && negb (bool_decide (displayName = platformId mem))
        then with_accountName mem displayName else mem in
      let mem :=
        if truthy groupNickname' && negb (truthy (groupNickname mem))
        then with_groupNickname mem groupNickname' else mem in
      let url :=
        if negb (truthy (avatarUrl existing)) && truthy avatarUrl'
        then avatarUrl' else avatarUrl existing in
      <[ username := {| member := mem; avatarUrl := url |} ]> memberSet
    | None =>
      let chatlabMember :=
        {| platformId := username; accountName := displayName;
           groupNickname := if truthy groupNickname' then groupNickname' else None;
           avatar := None |} in
      <[ username := {| member := chatlabMember; avatarUrl := avatarUrl' |} ]> memberSet
    end
  end.

(** [mergeGroupMembers] (lines 840 to 912) updates the member map in
    place: the result is how the call ends and the map after it. The
    three lookups are awaited before the first update, so a rejected one
    leaves the map as it was. *)
Definition mergeGroupMembers (chatroomId : jsstring) (memberSet : gmap jsstring memberInfo)
    (includeAvatars : bool) : outcome () * gmap jsstring memberInfo :=
  match getGroupMembers chatroomId with
  | None => (Throw, memberSet)
  | Some result =>
    match members_success result, members result with
    | true, Some ((_ :: _) as rawMembers) =>
      let usernames := filter (fun u => truthy (Some u)) (omap rm_username rawMembers) in
      match usernames with
      | [] => (Ret (), memberSet)
      | _ :: _ =>
        let lookupUsernames :=
          foldl (fun acc username =>
                   let acc := set_add username acc in
                   let cleaned := cleanAccountDirName username in
                   if truthy (Some cleaned) && negb (bool_decide (cleaned = username))
                   then set_add cleaned acc else acc)
                [] usernames in
        match getDisplayNames lookupUsernames,
              (if includeAvatars then getAvatarUrls lookupUsernames
               else Some {| map_success := true; map := Some ∅ |}) with
        | Some displayNames, Some avatarUrls =>
          (Ret (),
           foldl (merge_member includeAvatars displayNames avatarUrls) memberSet rawMembers)
        | _, _ => (Throw, memberSet)
        end
      end
    | _, _ => (Ret (), memberSet)
    end
  end.

End Merge.

(** What the merge may do to an entry that was already there: the id
    stays; the account name stays unless it was still the id; the group
    nickname and the avatar reference stay unless they were absent; the
    exported avatar is not touched. *)
Definition keeps_resolved (e e' : memberInfo) : Prop :=
  platformId (member e') = platformId (member e)
  /\ (accountName (member e) ≠ platformId (member e) ->
      accountName (member e') = accountName (member e))
  /\ (truthy (groupNickname (member e)) = true ->
      groupNickname (member e') = groupNickname (member e))
  /\ (truthy (avatarUrl e) = true -> avatarUrl e' = avatarUrl e)
  /\ avatar (member e') = avatar (member e).

End Identity.

(** ** Effects

    Code that touches the disk, the network or the database runs in
    [io W]: a state transformer over the world [W] whose result may be an
    exception, and which may fail to finish. A computation that has not
    finished when its fuel is spent yields [None]. *)

Definition io (W A : Type) : Type := W -> option (outcome A * W).

#[global] Instance io_ret W : MRet (io W) := fun A a w => Some (Ret a, w).
#[global] Instance io_bind W : MBind (io W) := fun A B f m w =>
  match m w with
  | Some (Ret a, w') => f a w'
  | Some (Throw, w') => Some (Throw, w')
  | Some (Unmodelled, w') => Some (Unmodelled, w')
  | None => None
  end.

#[global] Instance io_fmap W : FMap (io W) := fun A B f m w =>
  match m w with
  | Some (r, w') => Some (f <$> r, w')
  | None => None
  end.

(** [try { body } catch { handler }] *)
Definition io_try {W A} (body handler : io W A) : io W A := fun w =>
  match body w with
  | Some (Throw, w') => handler w'
  | r => r
  end.

Definition io_throw {W A} : io W A := fun w => Some (Throw, w).

(** A total step on the world. *)
Definition io_step {W A} (f : W -> A * W) : io W A := fun w =>
  let '(a, w') := f w in Some (Ret a, w').

(** A step on the world that may throw, leaving the world as it was. *)
Definition io_may_throw {W} (f : W -> option W) : io W () := fun w =>
  match f w with
  | Some w' => Some (Ret (), w')
  | None => Some (Throw, w)
  end.

(** A pure computation inside [io]. *)
Definition io_pure {W A} (r : outcome A) : io W A := fun w => Some (r, w).

(** A collaborator on a world that carries a record [L] beside it, which
    the collaborator leaves as it is. *)
Definition beside {S L A} (f : S -> A * S) : S * L -> A * (S * L) := fun s =>
  let '(a, s') := f s.1 in (a, (s', s.2)).

(** [String(n)] for an integer. *)
Definition String_of_Z (n : Z) : jsstring :=
  js (DecimalString.NilZero.string_of_int (Z.to_int n)).

(** ** CDN downloads *)

Module Download.

(** What a request comes to: [get] throws on the spot (a malformed URL),
    the request emits [error] or [timeout], or a response arrives. *)
Inductive response : Type :=
| GetThrows
| RequestError
| RequestTimeout
| Response (statusCode : Z) (location : option jsstring) (body : buffer)
           (contentType : option jsstring).

Section WithNetwork.

Variable W : Type.

(** [https.get] or [http.get] (the first argument tells which) with the
    timeout the caller sets on the request, in milliseconds. *)
Variable get : bool -> jsstring -> option Z -> W -> response * W.

(** Piping a response body into [fs.createWriteStream(destPath)]: [true]
    on [finish], [false] on [error]. *)
Variable pipe_to_file : jsstring -> buffer -> W -> bool * W.

(** [new URL(location, base).href], or [None] when the constructor
    throws. *)
Variable resolve_url : jsstring -> jsstring -> option jsstring.

(** A promise that is never settled. *)
Definition pending {A} : io W A := fun _ => None.

(** [downloadFile] (lines 710 to 745). Every call issues one request;
    [fuel] bounds the requests, and the result is [None] when the promise
    is still unresolved after that many. *)
Fixpoint downloadFile (fuel : nat) (url destPath : jsstring) : io W bool :=
  match fuel with
  | O => pending
  | S fuel' =>
    r ← io_step (get (startsWith url (js "https")) url (Some 30000));
    match r with
    | GetThrows | RequestError | RequestTimeout => mret false
    | Response statusCode location body _ =>
      let rest : io W bool :=
        if negb (statusCode =? 200) then mret false
        else io_step (pipe_to_file destPath body) in
      if (statusCode =? 301) || (statusCode =? 302) then
        match location with
        | Some ((_ :: _) as redirectUrl) => downloadFile fuel' redirectUrl destPath
        | _ => rest
        end
      else rest
    end
  end.

(** [downloadToBuffer] (lines 946 to 977): the recursion is on
    [remainingRedirects]. [get] is called in the promise executor, where
    an exception rejects the promise; the [URL] constructor is called in
    the response callback, where an exception leaves the promise
    unsettled. *)
Fixpoint downloadToBuffer (url : jsstring) (remainingRedirects : nat)
  : io W (option (buffer * option jsstring)) :=
  r ← io_step (get (startsWith url (js "https:")) url (Some 15000));
  match r with
  | GetThrows => io_throw
  | RequestError | RequestTimeout => mret None
  | Response status location body contentType =>
    let rest : io W (option (buffer * option jsstring)) :=
      if (status <? 200) || (300 <=? status) then mret None
      else mret (Some (body, contentType)) in
    if (300 <=? status) && (status <? 400) then
      match location, remainingRedirects with
      | Some ((_ :: _) as loc), S n =>
        match resolve_url loc url with
        | Some redirectedUrl => downloadToBuffer redirectedUrl n
        | None => pending
        end
      | _, _ => rest
      end
    else rest
  end.

End WithNetwork.

(** A server that answers every request with a redirect to the address
    asked for, and a disk that takes every file. *)
Definition redirecting_get : bool -> jsstring -> option Z -> () -> response * () :=
  fun _ url _ s => (Response 302 (Some url) [] None, s).

Definition accepting_pipe : jsstring -> buffer -> () -> bool * () :=
  fun _ _ s => (true, s).

(** A network with a count of the requests made on it. *)
Definition counting {W} (get : bool -> jsstring -> option Z -> W -> response * W)
  : bool -> jsstring -> option Z -> W * nat -> response * (W * nat) :=
  fun secure url timeout w =>
    let '(r, w') := get secure url timeout w.1 in (r, (w', S w.2)).

End Download.

(** ** The media extractor *)

Module Media.
Import Download.

Inductive mediaKind : Type := image | voice | emoji.

(** [interface MediaExportItem] *)
Record MediaExportItem : Type := {
  relativePath : jsstring;
  kind : mediaKind
}.

(** A row as [collectMessages] pushes it. *)
Record message : Type := {
  localId : Z;
  createTime : number;
  localType : Z;
  content : jsstring;
  senderUsername : jsstring;
  isSend : bool;
  imageMd5 : option jsstring;
  imageDatName : option jsstring;
  emojiCdnUrl : option jsstring;
  emojiMd5 : option jsstring
}.

(** The result of [decryptImage] and [resolveCachedImage]. *)
Record imageResult : Type := {
  image_success : bool;
  localPath : option jsstring
}.

(** The result of [chatService.getVoiceData]. *)
Record voiceResult : Type := {
  voice_success : bool;
  data : option jsstring
}.

(** What the extractor itself puts on the disk. A download opens its
    file when the response arrives with status 200, before the outcome
    is known: the file is [Downloaded] when the stream finishes, and
    [Started] when it fails, which can leave the file behind. *)
Inductive effect : Type :=
| Wrote (destPath : jsstring)
| Copied (sourcePath destPath : jsstring)
| Downloaded (url destPath : jsstring)
| Started (url destPath : jsstring).

Definition getExtFromDataUrl (dataUrl : jsstring) : jsstring :=
  if includes dataUrl (js "image/png") then js ".png"
  else if includes dataUrl (js "image/gif") then js ".gif"
  else if includes dataUrl (js "image/webp") then js ".webp"
  else js ".jpg".

(** [s.split(',')[1]] *)
Fixpoint after_first_comma (s : jsstring) : option jsstring :=
  match s with
  | [] => None
  | c :: s' => if c =? 0x2C then Some s' else after_first_comma s'
  end.

Fixpoint up_to_comma (s : jsstring) : jsstring :=
  match s with
  | [] => []
  | c :: s' => if c =? 0x2C then [] else c :: up_to_comma s'
  end.

Definition split_comma_1 (s : jsstring) : option jsstring :=
  up_to_comma <$> after_first_comma s.

Section WithWorld.

(** The world outside the service: disk, network, database, the image
    and chat services. The extractor's own writes are logged beside it. *)
Variable S : Type.

Definition world : Type := S * list effect.

(** [fs] *)
Variable existsSync : jsstring -> S -> bool.
Variable mkdirSync : jsstring -> S -> option S.
Variable writeFileSync : jsstring -> buffer -> S -> option S.
Variable copyFileSync : jsstring -> jsstring -> S -> option S.

(** [path] and [url] *)
Variable path_join : list jsstring -> jsstring.
Variable path_extname : jsstring -> jsstring.
Variable fileURLToPath : jsstring -> option jsstring.

Variable Buffer_from_base64 : jsstring -> buffer.

(** [imageDecryptService.decryptImage] with [force: false] and
    [resolveCachedImage], by session, MD5 and DAT name; [None] is a
    rejected promise. *)
Variable decryptImage :
  jsstring -> option jsstring -> option jsstring -> S -> option imageResult * S.
Variable resolveCachedImage :
  jsstring -> option jsstring -> option jsstring -> S -> option imageResult * S.

(** [chatService.getVoiceData] *)
Variable getVoiceData : jsstring -> jsstring -> S -> option voiceResult * S.

(** The network of [Download]. *)
Variable get : bool -> jsstring -> option Z -> S -> response * S.
Variable pipe_to_file : jsstring -> buffer -> S -> bool * S.
Variable resolve_url : jsstring -> jsstring -> option jsstring.

Definition lift {A} (f : S -> A * S) : io world A := fun w =>
  let '(a, s') := f w.1 in Some (Ret a, (s', w.2)).

(** A collaborator whose promise may be rejected. *)
Definition await {A} (f : S -> option A * S) : io world A := fun w =>
  let '(a, s') := f w.1 in Some (lift_throwing a, (s', w.2)).

Definition fs_exists (p : jsstring) : io world bool := lift (fun s => (existsSync p s, s)).

Definition fs_do (f : S -> option S) (e : list effect) : io world () := fun w =>
  match f w.1 with
  | Some s' => Some (Ret (), (s', e ++ w.2))
  | None => Some (Throw, w)
  end.

Definition ensure_dir (dir : jsstring) : io world () :=
  there ← fs_exists dir;
  if (there : bool) then mret () else fs_do (mkdirSync dir) [].

(** The download of [Download] on the outside part of the world; the
    file is noted where [fs.createWriteStream] opens it (line 726). *)
Definition download (fuel : nat) (url destPath : jsstring) : io world bool :=
  downloadFile world
    (fun secure address timeout w =>
       let '(r, s') := get secure address timeout w.1 in (r, (s', w.2)))
    (fun path body w =>
       let '(finished, s') := pipe_to_file path body w.1 in
       (finished, (s', (if finished then Downloaded url path else Started url path) :: w.2)))
    fuel url destPath.

(** [`${key || fallback}${ext}`]: the checksum, or the fall-back id. *)
Definition file_name (key : option jsstring) (fallback : Z) (ext : jsstring) : jsstring :=
  (if truthy key then default [] key else String_of_Z fallback) ++ ext.

Definition exportImage (msg : message) (sessionId mediaDir : jsstring)
  : io world (option MediaExportItem) :=
  io_try
    (let imagesDir := path_join [mediaDir; js "media"; js "images"] in
     _ ← ensure_dir imagesDir;
     let imageMd5 := imageMd5 msg in
     let imageDatName := imageDatName msg in
     if negb (truthy imageMd5) && negb (truthy imageDatName) then mret None
     else
       result ← await (decryptImage sessionId imageMd5 imageDatName);
       resolved ←
         (if negb (image_success result) || negb (truthy (localPath result)) then
            thumbResult ← await (resolveCachedImage sessionId imageMd5 imageDatName);
            if negb (image_success thumbResult) || negb (truthy (localPath thumbResult))
            then mret None
            else mret (localPath thumbResult)
          else mret (localPath result));
       match resolved with
       | None => mret None
       | Some sourcePath =>
         let key := por imageMd5 imageDatName in
         if startsWith sourcePath (js "data:") then
           let ext := getExtFromDataUrl sourcePath in
           let fileName := file_name key (localId msg) ext in
           let destPath := path_join [imagesDir; fileName] in
           base64Data ← io_pure (lift_throwing (split_comma_1 sourcePath));
           _ ← fs_do (writeFileSync destPath (Buffer_from_base64 base64Data)) [Wrote destPath];
           mret (Some {| relativePath := js "media/images/" ++ fileName; kind := image |})
         else
           sourcePath ←
             (if startsWith sourcePath (js "file://")
              then io_pure (lift_throwing (fileURLToPath sourcePath))
              else mret sourcePath);
           there ← fs_exists sourcePath;
           if (there : bool) then
             let ext := or_else (path_extname sourcePath) (js ".jpg") in
             let fileName := file_name key (localId msg) ext in
             let destPath := path_join [imagesDir; fileName] in
             present ← fs_exists destPath;
             _ ← (if (present : bool) then mret ()
                  else fs_do (copyFileSync sourcePath destPath) [Copied sourcePath destPath]);
             mret (Some {| relativePath := js "media/images/" ++ fileName; kind := image |})
           else mret None
       end)
    (mret None).

(** The image service hands the image of a message over as
    [sourcePath] (lines 463 to 481): [decryptImage] does, or, where it
    reports a failure or no path, [resolveCachedImage] does. *)
Definition handed_over (sessionId : jsstring) (msg : message) (s : S)
    (sourcePath : jsstring) (s1 : S) : Prop :=
  exists result s0,
    decryptImage sessionId (imageMd5 msg) (imageDatName msg) s = (Some result, s0)
    /\ ((image_success result = true /\ localPath result = Some sourcePath /\ s1 = s0)
        \/ ((image_success result = false \/ truthy (localPath result) = false)
            /\ exists thumbResult,
                 resolveCachedImage sessionId (imageMd5 msg) (imageDatName msg) s0
                 = (Some thumbResult, s1)
                 /\ image_success thumbResult = true
                 /\ localPath thumbResult = Some sourcePath)).

Definition exportVoice (msg : message) (sessionId mediaDir : jsstring)
  : io world (option MediaExportItem) :=
  io_try
    (let voicesDir := path_join [mediaDir; js "media"; js "voices"] in
     _ ← ensure_dir voicesDir;
     let msgId := String_of_Z (localId msg) in
     let fileName := js "voice_" ++ msgId ++ js ".wav" in
     let destPath := path_join [voicesDir; fileName] in
     present ← fs_exists destPath;
     if (present : bool) then
       mret (Some {| relativePath := js "media/voices/" ++ fileName; kind := voice |})
     else
       voiceResult ← await (getVoiceData sessionId msgId);
       if negb (voice_success voiceResult) || negb (truthy (data voiceResult)) then mret None
       else
         let wavBuffer := Buffer_from_base64 (default [] (data voiceResult)) in
         _ ← fs_do (writeFileSync destPath wavBuffer) [Wrote destPath];
         mret (Some {| relativePath := js "media/voices/" ++ fileName; kind := voice |}))
    (mret None).

(** The extension an emoji is stored under. *)
Definition emoji_ext (emojiUrl : option jsstring) : jsstring :=
  match emojiUrl with
  | Some ((_ :: _) as url) =>
    if includes url (js ".png") then js ".png"
    else if includes url (js ".jpg") || includes url (js ".jpeg") then js ".jpg"
    else js ".gif"
  | _ => js ".gif"
  end.

(** [exportEmoji]; [fuel] bounds the requests of its download. *)
Definition exportEmoji (fuel : nat) (msg : message) (sessionId mediaDir : jsstring)
  : io world (option MediaExportItem) :=
  io_try
    (let emojisDir := path_join [mediaDir; js "media"; js "emojis"] in
     _ ← ensure_dir emojisDir;
     let emojiUrl := emojiCdnUrl msg in
     let emojiMd5 := emojiMd5 msg in
     if negb (truthy emojiUrl) && negb (truthy emojiMd5) then mret None
     else
       let fileName := file_name emojiMd5 (localId msg) (emoji_ext emojiUrl) in
       let destPath := path_join [emojisDir; fileName] in
       present ← fs_exists destPath;
       if (present : bool) then
         mret (Some {| relativePath := js "media/emojis/" ++ fileName; kind := emoji |})
       else
         match emojiUrl with
         | Some ((_ :: _) as url) =>
           downloaded ← download fuel url destPath;
           if (downloaded : bool) then
             mret (Some {| relativePath := js "media/emojis/" ++ fileName; kind := emoji |})
           else mret None
         | _ => mret None
         end)
    (mret None).

(** The options [exportMediaForMessage] reads. *)
Record mediaOptions : Type := {
  exportImages : bool;
  exportVoices : bool;
  exportEmojis : bool;
  exportVoiceAsText : bool
}.

Definition exportMediaForMessage (fuel : nat) (msg : message) (sessionId mediaDir : jsstring)
    (options : mediaOptions) : io world (option MediaExportItem) :=
  if (localType msg =? 3) && exportImages options then exportImage msg sessionId mediaDir
  else if (localType msg =? 34) && exportVoiceAsText options then mret None
  else if (localType msg =? 34) && exportVoices options then exportVoice msg sessionId mediaDir
  else if (localType msg =? 47) && exportEmojis options
  then exportEmoji fuel msg sessionId mediaDir
  else mret None.

End WithWorld.

End Media.

(** ** The files of a media export *)

Module Files.
Import Download Media.

(** The file an effect creates. *)
Definition dest (e : effect) : jsstring :=
  match e with
  | Wrote destPath => destPath
  | Copied _ destPath => destPath
  | Downloaded _ destPath => destPath
  | Started _ destPath => destPath
  end.

Definition dir_of (k : mediaKind) : jsstring :=
  match k with image => js "images" | voice => js "voices" | emoji => js "emojis" end.

Definition prefix_of (k : mediaKind) : jsstring :=
  match k with
  | image => js "media/images/"
  | voice => js "media/voices/"
  | emoji => js "media/emojis/"
  end.

(** The kind of media a message type stands for. *)
Definition kind_of (localType : Z) : option mediaKind :=
  if localType =? 3 then Some image
  else if localType =? 34 then Some voice
  else if localType =? 47 then Some emoji
  else None.

(** An item of kind [k] and the files [new] created for it in the
    directory [dir]: no file, or the one file the item names; the file
    of a download that failed comes without an item. *)
Definition filed (path_join : list jsstring -> jsstring) (dir : jsstring) (k : mediaKind)
    (item : option MediaExportItem) (new : list effect) : Prop :=
  match new with
  | [] =>
    match item with
    | Some i => kind i = k /\ exists name, relativePath i = prefix_of k ++ name
    | None => True
    end
  | [e] =>
    exists name,
      dest e = path_join [dir; name]
      /\ match e with
         | Started _ _ => item = None
         | _ => item = Some {| relativePath := prefix_of k ++ name; kind := k |}
         end
  | _ => False
  end.

Section WithWorld.

Variable S : Type.
Variable path_join : list jsstring -> jsstring.

(** A step that creates no file. *)
Definition quiet {A} (m : io (world S) A) : Prop :=
  forall w r w', m w = Some (r, w') -> w'.2 = w.2 /\ r <> Unmodelled.

(** A computation whose result and new files satisfy [Q]. *)
Definition leaves {A} (Q : outcome A -> list effect -> Prop) (m : io (world S) A) : Prop :=
  forall w r w', m w = Some (r, w') -> exists new, w'.2 = new ++ w.2 /\ Q r new.

(** The body of an exporter: an item with its file, or an exception
    before any file. *)
Definition body_leaves (dir : jsstring) (k : mediaKind)
  : outcome (option MediaExportItem) -> list effect -> Prop :=
  fun r new =>
    match r with
    | Ret item => filed path_join dir k item new
    | Throw => new = []
    | Unmodelled => False
    end.

(** An exporter: an item with its file, never an exception. *)
Definition tidy (dir : jsstring) (k : mediaKind)
  : outcome (option MediaExportItem) -> list effect -> Prop :=
  fun r new => exists item, r = Ret item /\ filed path_join dir k item new.

End WithWorld.

End Files.

(** ** The export orchestrator *)

Module Orchestrator.
Import Identity Media.

(** *** [Array.prototype.sort]

    Modelled from ECMAScript (23.1.3.30): the sort is stable, and for a
    consistent comparator its result is the one stable sorted arrangement
    of the array, which insertion from the right computes. When the
    comparator is not consistent for the values of the array (it yields
    [NaN] for a pair of them, or is not reflexive, symmetric or
    transitive on them), the order of the result is
    implementation-defined: that is left uninterpreted. *)

Fixpoint sort_insert {A} (comparefn : A -> A -> Z) (x : A) (l : list A) : list A :=
  match l with
  | [] => [x]
  | y :: l' => if comparefn x y <=? 0 then x :: l else y :: sort_insert comparefn x l'
  end.

(** The value of a comparison, once it is known to be a number. *)
Definition compared {A} (comparefn : A -> A -> number) (a b : A) : Z :=
  match comparefn a b with
  | Num v => v
  | NaN => 0
  end.

(** The requirements on a consistent comparator, for three values. *)
Definition consistent_on {A} (comparefn : A -> A -> number) (a b c : A) : bool :=
  let v := compared comparefn in
  is_Num (comparefn a b)
  && (v a a =? 0)
  && implb (v a b =? 0) (v b a =? 0)
  && implb ((v a b =? 0) && (v b c =? 0)) (v a c =? 0)
  && implb ((v a b <? 0) && (v b c <? 0)) (v a c <? 0)
  && implb ((0 <? v a b) && (0 <? v b c)) (0 <? v a c).

Definition consistent {A} (comparefn : A -> A -> number) (l : list A) : bool :=
  forallb (fun a => forallb (fun b => forallb (consistent_on comparefn a b) l) l) l.

(** The stable sorted arrangement. *)
Definition arranged {A} (comparefn : A -> A -> number) (l : list A) : list A :=
  foldr (sort_insert (compared comparefn)) [] l.

Definition Array_sort {A} (comparefn : A -> A -> number) (l : list A) : outcome (list A) :=
  if consistent comparefn l then Ret (arranged comparefn l) else Unmodelled.

(** [(a, b) => a.createTime - b.createTime] *)
Definition byCreateTime (a b : message) : number := number_sub (createTime a) (createTime b).

(** [allMessages.sort((a, b) => a.createTime - b.createTime)], the last
    reordering before the ChatLab and the Excel writer emit the
    messages. *)
Definition sortMessages (rows : list message) : outcome (list message) :=
  Array_sort byCreateTime rows.

(** [interface ChatLabMessage] *)
Record ChatLabMessage : Type := {
  sender : jsstring;
  msg_accountName : jsstring;
  msg_groupNickname : option jsstring;
  timestamp : number;
  type : Z;
  msg_content : option jsstring
}.

Inductive exportFormat : Type :=
| chatlab | chatlab_jsonl | json | html | txt | excel | sql.

(** [interface ExportOptions], as far as the orchestrator reads it. *)
Record ExportOptions : Type := {
  format : exportFormat;
  exportAvatars : bool;
  exportVoiceAsText : bool
}.

Inductive phase : Type := preparing | exporting | writing | complete.

(** [interface ExportProgress] *)
Record ExportProgress : Type := {
  current : nat;
  total : nat;
  currentSession : jsstring;
  progress_phase : phase
}.

(** A contact cache entry: [{ displayName, avatarUrl? }]. *)
Record contactInfo : Type := {
  displayName : jsstring;
  contact_avatarUrl : option jsstring
}.

Record connection : Type := {
  conn_success : bool;
  cleanedWxid : option jsstring;
  conn_error : option jsstring
}.

(** The [error] of a summary: a message, or [String(e)] of what was
    caught. *)
Inductive errorText : Type :=
| Message (s : jsstring)
| OfException.

(** What [exportSessions] resolves to. *)
Record summary : Type := {
  success : bool;
  sum_successCount : nat;
  sum_failCount : nat;
  error : option errorText
}.

Section WithWorld.

(** Everything outside the service. *)
Variable S : Type.

(** The service and one call of [exportSessions]: the contact cache of
    the instance, the two counters of the call, and, as a record of what
    happened, the exporter calls made with their results, latest first. *)
Record world : Type := World {
  outside : S;
  contactCache : gmap jsstring contactInfo;
  successCount : nat;
  failCount : nat;
  attempts : list (jsstring * bool)
}.

(** [configService.get] *)
Variable config_get : jsstring -> S -> option jsstring.

(** [wcdbService]; [None] is a rejected promise. *)
Variable wcdb_open : jsstring -> jsstring -> jsstring -> S -> option bool * S.
Variable getDisplayNames : list jsstring -> S -> option mapResult * S.
Variable getAvatarUrls : list jsstring -> S -> option mapResult * S.

(** [chatService.getVoiceTranscript]: success and transcript. *)
Variable getVoiceTranscript : jsstring -> jsstring -> S -> option (bool * option jsstring) * S.

(** [fs] and [path] *)
Variable existsSync : jsstring -> S -> bool.
Variable mkdirSync : jsstring -> S -> option S.
Variable path_join : list jsstring -> jsstring.

(** The caller's progress callback, if any; [None] when it throws. *)
Variable onProgress : option (ExportProgress -> S -> option S).

(** The three single-conversation exporters, by conversation id, output
    path and options, as [exportSessions] sees them: each wraps its whole
    body in [try] and resolves to a result with a [success] flag, so none
    throws; [None] is an exporter that does not finish. They share the
    contact cache. *)
Variable exportSessionToDetailedJson exportSessionToChatLab exportSessionToExcel :
  jsstring -> jsstring -> ExportOptions ->
  S * gmap jsstring contactInfo -> option (bool * (S * gmap jsstring contactInfo)).

Definition on_outside {A} (f : S -> A * S) : io world A := fun w =>
  let '(a, s') := f (outside w) in
  Some (Ret a, World s' (contactCache w) (successCount w) (failCount w) (attempts w)).

Definition awaiting {A} (f : S -> option A * S) : io world A := fun w =>
  let '(a, s') := f (outside w) in
  Some (lift_throwing a, World s' (contactCache w) (successCount w) (failCount w) (attempts w)).

(** [await Promise.all([f, g])]: both calls are made, and the result is
    rejected when either is. *)
Definition awaiting_all {A B} (f : S -> option A * S) (g : S -> option B * S)
  : io world (A * B) := fun w =>
  let '(a, s1) := f (outside w) in
  let '(b, s2) := g s1 in
  Some (match a, b with
        | Some x, Some y => Ret (x, y)
        | _, _ => Throw
        end,
        World s2 (contactCache w) (successCount w) (failCount w) (attempts w)).

Definition outside_may_throw (f : S -> option S) : io world () := fun w =>
  match f (outside w) with
  | Some s' =>
    Some (Ret (), World s' (contactCache w) (successCount w) (failCount w) (attempts w))
  | None => Some (Throw, w)
  end.

Definition read {A} (f : world -> A) : io world A := fun w => Some (Ret (f w), w).

Definition report (p : ExportProgress) : io world () :=
  match onProgress with
  | Some callback => outside_may_throw (callback p)
  | None => mret ()
  end.

Definition ensureConnected : io world connection :=
  wxid ← read (fun w => config_get (js "myWxid") (outside w));
  dbPath ← read (fun w => config_get (js "dbPath") (outside w));
  decryptKey ← read (fun w => config_get (js "decryptKey") (outside w));
  let failed (e : jsstring) :=
    {| conn_success := false; cleanedWxid := None; conn_error := Some e |} in
  match wxid, dbPath, decryptKey with
  | Some ((_ :: _) as wxid), Some ((_ :: _) as dbPath), Some ((_ :: _) as decryptKey) =>
    let cleanedWxid := cleanAccountDirName wxid in
    ok ← awaiting (wcdb_open dbPath decryptKey cleanedWxid);
    if (ok : bool) then
      mret {| conn_success := true; cleanedWxid := Some cleanedWxid; conn_error := None |}
    else mret (failed (js "WCDB 打开失败"))
  | Some (_ :: _), Some (_ :: _), _ => mret (failed (js "请先在设置页面配置解密密钥"))
  | Some (_ :: _), _, _ => mret (failed (js "请先在设置页面配置数据库路径"))
  | _, _, _ => mret (failed (js "请先在设置页面配置微信ID"))
  end.

(** [this.contactCache.set(username, info)] *)
Definition cache_set (username : jsstring) (info : contactInfo) : io world () := fun w =>
  Some (Ret (),
        World (outside w) (<[ username := info ]> (contactCache w))
              (successCount w) (failCount w) (attempts w)).

Definition getContactInfo (username : jsstring) : io world contactInfo :=
  cached ← read (fun w => contactCache w !! username);
  match cached with
  | Some info => mret info
  | None =>
    '(displayNames, avatarUrls) ←
      awaiting_all (getDisplayNames [username]) (getAvatarUrls [username]);
    let displayName :=
      match map_success displayNames, map displayNames with
      | true, Some names => default username (por (names !! username) (Some username))
      | _, _ => username
      end in
    let avatarUrl :=
      match map_success avatarUrls, map avatarUrls with
      | true, Some urls => urls !! username
      | _, _ => None
      end in
    let info := {| displayName := displayName; contact_avatarUrl := avatarUrl |} in
    _ ← cache_set username info;
    mret info
  end.

Definition transcribeVoice (sessionId msgId : jsstring) : io world jsstring :=
  io_try
    (transcript ← awaiting (getVoiceTranscript sessionId msgId);
     match transcript with
     | (true, Some ((_ :: _) as text)) => mret (js "[语音转文字] " ++ text)
     | _ => mret (js "[语音消息 - 转文字失败]")
     end)
    (mret (js "[语音消息 - 转文字失败]")).

(** The message list of a ChatLab document (lines 1122 to 1153): the
    rows are sorted, then turned into messages one by one in that
    order. *)
Definition toChatLabMessage (sessionId : jsstring) (memberSet : gmap jsstring memberInfo)
    (options : ExportOptions) (msg : message) : io world ChatLabMessage :=
  let memberInfo :=
    match memberSet !! senderUsername msg with
    | Some info => member info
    | None => {| platformId := senderUsername msg; accountName := senderUsername msg;
                 groupNickname := None; avatar := None |}
    end in
  content ← io_pure (Parser.parseMessageContent (Media.content msg) (localType msg));
  content ←
    (if (localType msg =? 34) && exportVoiceAsText options then
       text ← transcribeVoice sessionId (String_of_Z (localId msg)); mret (Some text)
     else mret content);
  mret {| sender := senderUsername msg;
          msg_accountName := accountName memberInfo;
          msg_groupNickname := groupNickname memberInfo;
          timestamp := createTime msg;
          type := Parser.convertMessageType (localType msg) (Media.content msg);
          msg_content := content |}.

Definition chatLabMessages (sessionId : jsstring) (rows : list message)
    (memberSet : gmap jsstring memberInfo) (options : ExportOptions)
  : io world (list ChatLabMessage) :=
  allMessages ← io_pure (sortMessages rows);
  mapM (toChatLabMessage sessionId memberSet options) allMessages.

(** *** The batch export (lines 1640 to 1713) *)

Definition ensure_dir (dir : jsstring) : io world () :=
  there ← read (fun w => existsSync dir (outside w));
  if (there : bool) then mret () else outside_may_throw (mkdirSync dir).

(** The display name with each of the nine characters Windows forbids in
    a file name replaced by an underscore ([displayName.replace] with a
    [g] class); the double quote of the class is spelled by its code. *)
Definition safeName (displayName : jsstring) : jsstring :=
  replace_all (regex_of (js "[<>:" ++ [0x22] ++ js "/\\|?*]") "g") (fun _ => js "_") displayName.

Definition extension (f : exportFormat) : jsstring :=
  match f with
  | chatlab_jsonl => js ".jsonl"
  | excel => js ".xlsx"
  | _ => js ".json"
  end.

(** A call of one exporter, noted in [attempts]. *)
Definition call
    (exporter : jsstring -> jsstring -> ExportOptions ->
                S * gmap jsstring contactInfo -> option (bool * (S * gmap jsstring contactInfo)))
    (sessionId outputPath : jsstring) (options : ExportOptions) : io world bool := fun w =>
  match exporter sessionId outputPath options (outside w, contactCache w) with
  | Some (ok, (s', cache')) =>
    Some (Ret ok, World s' cache' (successCount w) (failCount w) ((sessionId, ok) :: attempts w))
  | None => None
  end.

(** The dispatch on [options.format]; an unsupported format is a failed
    result without a call. *)
Definition exportOne (sessionId outputPath : jsstring) (options : ExportOptions)
  : io world bool :=
  match format options with
  | json => call exportSessionToDetailedJson sessionId outputPath options
  | chatlab | chatlab_jsonl => call exportSessionToChatLab sessionId outputPath options
  | excel => call exportSessionToExcel sessionId outputPath options
  | html | txt | sql => mret false
  end.

Definition count (ok : bool) : io world () := fun w =>
  Some (Ret (),
        if ok then World (outside w) (contactCache w) (Datatypes.S (successCount w)) (failCount w)
                         (attempts w)
        else World (outside w) (contactCache w) (successCount w) (Datatypes.S (failCount w))
                   (attempts w)).

(** The [for] loop from index [i] on. *)
Fixpoint sessions_loop (i n : nat) (sessionIds : list jsstring) (outputDir : jsstring)
    (options : ExportOptions) : io world () :=
  match sessionIds with
  | [] => mret ()
  | sessionId :: rest =>
    sessionInfo ← getContactInfo sessionId;
    _ ← report {| current := i + 1; total := n;
                  currentSession := displayName sessionInfo; progress_phase := exporting |};
    let safeName := safeName (displayName sessionInfo) in
    let sessionDir := path_join [outputDir; safeName] in
    _ ← ensure_dir sessionDir;
    let outputPath := path_join [sessionDir; safeName ++ extension (format options)] in
    ok ← exportOne sessionId outputPath options;
    _ ← count ok;
    sessions_loop (Datatypes.S i) n rest outputDir options
  end.

(** [let successCount = 0; let failCount = 0] *)
Definition fresh_counters (w : world) : world :=
  World (outside w) (contactCache w) 0 0 (attempts w).

Definition reset_counters : io world () := fun w => Some (Ret (), fresh_counters w).

Definition exportSessions (sessionIds : list jsstring) (outputDir : jsstring)
    (options : ExportOptions) : io world summary :=
  _ ← reset_counters;
  io_try
    (conn ← ensureConnected;
     if negb (conn_success conn) then
       mret {| success := false; sum_successCount := 0; sum_failCount := length sessionIds;
               error := Message <$> conn_error conn |}
     else
       _ ← ensure_dir outputDir;
       _ ← sessions_loop 0 (length sessionIds) sessionIds outputDir options;
       _ ← report {| current := length sessionIds; total := length sessionIds;
                     currentSession := []; progress_phase := complete |};
       successes ← read successCount;
       failures ← read failCount;
       mret {| success := true; sum_successCount := successes; sum_failCount := failures;
               error := None |})
    (successes ← read successCount;
     failures ← read failCount;
     mret {| success := false; sum_successCount := successes; sum_failCount := failures;
             error := Some OfException |}).

(** A computation that leaves the counters and the record of attempts
    as they were, and one that returns in every world. *)
Definition same_counts (w w' : world) : Prop :=
  successCount w' = successCount w /\ failCount w' = failCount w
  /\ attempts w' = attempts w.

Definition frames {A} (m : io world A) : Prop :=
  forall w r w', m w = Some (r, w') -> same_counts w w'.

Definition returns {A} (m : io world A) : Prop :=
  forall w, exists a w', m w = Some (Ret a, w').

End WithWorld.

(** Chronological order, and the rows of one instant. *)
Definition earlier (a b : message) : Prop := number_le (createTime a) (createTime b).

Definition at_time (t : Z) (m : message) : bool :=
  match createTime m with
  | Num z => z =? t
  | NaN => false
  end.

(** A row whose time is a number. *)
Definition timed (m : message) : Prop := is_Num (createTime m) = true.

(** A ChatLab message that was made from a row. *)
Definition renders (m : message) (o : ChatLabMessage) : Prop :=
  timestamp o = createTime m /\ sender o = senderUsername m.

(** The formats [exportSessions] has an exporter for. *)
Definition supported (f : exportFormat) : bool :=
  match f with
  | json | chatlab | chatlab_jsonl | excel => true
  | html | txt | sql => false
  end.

Definition count_of (b : bool) (oks : list bool) : nat :=
  length (List.filter (fun ok => eqb ok b) oks).

End Orchestrator.

(** ** The message sequences of the detailed JSON and the Excel document *)

Module Exporters.
Import JS Regex Identity Media Orchestrator.

(** [getMessageTypeName] (lines 375 to 389) *)
Definition getMessageTypeName (localType : Z) : jsstring :=
  if localType =? 1 then js "文本消息"
  else if localType =? 3 then js "图片消息"
  else if localType =? 34 then js "语音消息"
  else if localType =? 42 then js "名片消息"
  else if localType =? 43 then js "视频消息"
  else if localType =? 47 then js "动画表情"
  else if localType =? 48 then js "位置消息"
  else if localType =? 49 then js "链接消息"
  else if localType =? 50 then js "通话消息"
  else if localType =? 10000 then js "系统消息"
  else js "其他消息".

(** [s.padStart(2, '0')] *)
Definition padStart2 (s : jsstring) : jsstring :=
  match s with
  | [] => js "00"
  | [c] => [0x30; c]
  | _ => s
  end.

(** A [Date] read in the local time zone. *)
Record localTime : Type := {
  getFullYear : Z;
  getMonth : Z;
  getDate : Z;
  getHours : Z;
  getMinutes : Z;
  getSeconds : Z
}.

(** A message of the detailed JSON document (lines 1260 to 1272). *)
Record DetailedMessage : Type := {
  d_localId : nat;
  d_createTime : number;
  d_formattedTime : jsstring;
  d_type : jsstring;
  d_localType : Z;
  d_content : option jsstring;
  d_isSend : Z;
  d_senderUsername : jsstring;
  d_senderDisplayName : jsstring;
  d_source : jsstring;
  d_senderAvatarKey : jsstring
}.

(** [(a, b) => a.createTime - b.createTime] on the messages of the
    detailed JSON document. *)
Definition byDetailedTime (a b : DetailedMessage) : number :=
  number_sub (d_createTime a) (d_createTime b).

(** The value of a cell of the sheet. *)
Inductive cell : Type :=
| Number (n : Z)
| Text (s : jsstring).

(** The result of [wcdbService.getContact]. *)
Record contactDetail : Type := {
  nickName : option jsstring;
  remark : option jsstring
}.

Record contactResult : Type := {
  contact_success : bool;
  contact : option contactDetail
}.

(** [`${msg.localType}_${msg.localId}`] *)
Definition mediaKey (msg : message) : jsstring :=
  String_of_Z (localType msg) ++ js "_" ++ String_of_Z (localId msg).

(** [Math.floor(x)] for a binary64 [x] between 0 and [k]. *)
Fixpoint floor_up_to (k : nat) (x : float) : nat :=
  match k with
  | O => O
  | Datatypes.S k' =>
    if PrimFloat.leb (PrimFloat.of_uint63 (Uint63.of_Z (Z.of_nat k))) x then k
    else floor_up_to k' x
  end.

(** [30 + Math.floor((i + 1) / n * 50)] on binary64 numbers. *)
Definition progress_at (i n : nat) : nat :=
  let number (k : nat) := PrimFloat.of_uint63 (Uint63.of_Z (Z.of_nat k)) in
  30 + floor_up_to 50 (PrimFloat.mul (PrimFloat.div (number (i + 1)%nat) (number n)) (number 50%nat)).

Section WithClock.

(** [new Date(ms)] for a time value [ms] in the range of [Date], read in
    the local time zone. *)
Variable Date_local : Z -> localTime.

(** [formatTimestamp] (lines 394 to 403); the fields of an invalid date
    are [NaN]. *)
Definition formatTimestamp (timestamp : number) : jsstring :=
  let invalid := js "NaN-NaN-NaN NaN:NaN:NaN" in
  match timestamp with
  | Num t =>
    if Z.abs (t * 1000) <=? 8640000000000000 then
      let date := Date_local (t * 1000) in
      String_of_Z (getFullYear date)
      ++ js "-" ++ padStart2 (String_of_Z (getMonth date + 1))
      ++ js "-" ++ padStart2 (String_of_Z (getDate date))
      ++ js " " ++ padStart2 (String_of_Z (getHours date))
      ++ js ":" ++ padStart2 (String_of_Z (getMinutes date))
      ++ js ":" ++ padStart2 (String_of_Z (getSeconds date))
    else invalid
  | NaN => invalid
  end.

(** *** The detailed JSON document (lines 1246 to 1275) *)

Section DetailedJson.

Variable S : Type.
Variable getDisplayNames : list jsstring -> S -> option mapResult * S.
Variable getAvatarUrls : list jsstring -> S -> option mapResult * S.
Variable getVoiceTranscript : jsstring -> jsstring -> S -> option (bool * option jsstring) * S.

(** One turn of the loop over [collected.rows]: the message that is
    pushed when [allMessages] holds [pushed] messages. *)
Definition toDetailedMessage (sessionId : jsstring) (options : ExportOptions) (pushed : nat)
    (msg : message) : io (world S) DetailedMessage :=
  senderInfo ← getContactInfo S getDisplayNames getAvatarUrls (senderUsername msg);
  let sourceMatch := exec (rx "<msgsource>[\s\S]*?<\/msgsource>" "i") (Media.content msg) in
  let source := match sourceMatch with Some m => mr_text m | None => [] end in
  content ← io_pure (Parser.parseMessageContent (Media.content msg) (localType msg));
  content ←
    (if (localType msg =? 34) && exportVoiceAsText options then
       text ← transcribeVoice S getVoiceTranscript sessionId (String_of_Z (localId msg));
       mret (Some text)
     else mret content);
  mret {| d_localId := pushed + 1;
          d_createTime := createTime msg;
          d_formattedTime := formatTimestamp (createTime msg);
          d_type := getMessageTypeName (localType msg);
          d_localType := localType msg;
          d_content := content;
          d_isSend := if isSend msg then 1 else 0;
          d_senderUsername := senderUsername msg;
          d_senderDisplayName := displayName senderInfo;
          d_source := source;
          d_senderAvatarKey := senderUsername msg |}.

Fixpoint detailed_loop (sessionId : jsstring) (options : ExportOptions)
    (allMessages : list DetailedMessage) (rows : list message)
  : io (world S) (list DetailedMessage) :=
  match rows with
  | [] => mret allMessages
  | msg :: rest =>
    m ← toDetailedMessage sessionId options (length allMessages) msg;
    detailed_loop sessionId options (allMessages ++ [m]) rest
  end.

(** The [messages] of the document: built in the order the rows were
    fetched in, then sorted. *)
Definition detailedMessages (sessionId : jsstring) (rows : list message)
    (options : ExportOptions) : io (world S) (list DetailedMessage) :=
  allMessages ← detailed_loop sessionId options [] rows;
  io_pure (Array_sort byDetailedTime allMessages).

End DetailedJson.

(** *** The Excel sheet (lines 1481 to 1594) *)

Section Excel.

(** Everything outside the service; the files of the media extractor are
    noted beside it. *)
Variable S : Type.

Variable existsSync : jsstring -> S -> bool.
Variable mkdirSync : jsstring -> S -> option S.
Variable writeFileSync : jsstring -> buffer -> S -> option S.
Variable copyFileSync : jsstring -> jsstring -> S -> option S.
Variable path_join : list jsstring -> jsstring.
Variable path_extname : jsstring -> jsstring.
Variable path_dirname : jsstring -> jsstring.
Variable fileURLToPath : jsstring -> option jsstring.
Variable Buffer_from_base64 : jsstring -> buffer.
Variable decryptImage :
  jsstring -> option jsstring -> option jsstring -> S -> option imageResult * S.
Variable resolveCachedImage :
  jsstring -> option jsstring -> option jsstring -> S -> option imageResult * S.
Variable getVoiceData : jsstring -> jsstring -> S -> option voiceResult * S.
Variable get : bool -> jsstring -> option Z -> S -> Download.response * S.
Variable pipe_to_file : jsstring -> buffer -> S -> bool * S.
Variable getVoiceTranscript : jsstring -> jsstring -> S -> option (bool * option jsstring) * S.

(** [wcdbService.getContact]; [None] is a rejected promise. *)
Variable getContact : jsstring -> S -> option contactResult * S.

(** The caller's progress callback, if any; [None] when it throws. *)
Variable onProgress : option (ExportProgress -> S -> option S).

Definition sheet_world : Type := world (Media.world S).

(** The media extractor inside the exporter. *)
Definition extracting {A} (m : io (Media.world S) A) : io sheet_world A := fun w =>
  match m (outside _ w) with
  | Some (r, s') =>
    Some (r, World _ s' (contactCache _ w) (successCount _ w) (failCount _ w) (attempts _ w))
  | None => None
  end.

Definition sheet_report (p : ExportProgress) : io sheet_world () :=
  report (Media.world S)
    (option_map (fun callback p s =>
                   match callback p s.1 with
                   | Some s' => Some (s', s.2)
                   | None => None
                   end) onProgress) p.

(** The media of a message, through [mediaCache]. *)
Definition media_item (fuel : nat) (sessionId sessionDir : jsstring) (options : mediaOptions)
    (mediaCache : gmap jsstring (option MediaExportItem)) (msg : message)
  : io sheet_world (option MediaExportItem * gmap jsstring (option MediaExportItem)) :=
  if exportImages options || exportVoices options || exportEmojis options then
    let mediaKey := mediaKey msg in
    match mediaCache !! mediaKey with
    | Some cached => mret (cached, mediaCache)
    | None =>
      mediaItem ← extracting
        (exportMediaForMessage S existsSync mkdirSync writeFileSync copyFileSync path_join
           path_extname fileURLToPath Buffer_from_base64 decryptImage resolveCachedImage
           getVoiceData get pipe_to_file fuel msg sessionId sessionDir options);
      mret (mediaItem, <[ mediaKey := mediaItem ]> mediaCache)
    end
  else mret (None, mediaCache).

(** The sender of a row: nickname, id, remark and role. *)
Definition sender_cells (sessionId cleanedMyWxid : jsstring) (isGroup : bool)
    (sessionInfo myInfo : contactInfo) (msg : message)
  : io sheet_world (jsstring * jsstring * jsstring * jsstring) :=
  if isSend msg then
    mret (or_else (displayName myInfo) cleanedMyWxid, cleanedMyWxid, [], js "我")
  else if isGroup && truthy (Some (senderUsername msg)) then
    contactDetail ← awaiting (Media.world S) (beside (getContact (senderUsername msg)));
    match contact_success contactDetail, contact contactDetail with
    | true, Some c =>
      let senderNickname := or_else (default [] (nickName c)) (senderUsername msg) in
      let senderRemark := default [] (remark c) in
      mret (senderNickname, senderUsername msg, senderRemark,
            or_else senderRemark senderNickname)
    | _, _ => mret (senderUsername msg, senderUsername msg, [], senderUsername msg)
    end
  else
    contactDetail ← awaiting (Media.world S) (beside (getContact sessionId));
    match contact_success contactDetail, contact contactDetail with
    | true, Some c =>
      let senderNickname := or_else (default [] (nickName c)) sessionId in
      let senderRemark := default [] (remark c) in
      mret (senderNickname, sessionId, senderRemark, or_else senderRemark senderNickname)
    | _, _ =>
      let senderNickname := or_else (displayName sessionInfo) sessionId in
      mret (senderNickname, sessionId, [], senderNickname)
    end.

(** The cells of the row of message [i] of the sorted messages. *)
Definition sheet_row (fuel : nat) (sessionId sessionDir cleanedMyWxid : jsstring)
    (isGroup : bool) (sessionInfo myInfo : contactInfo) (options : mediaOptions)
    (useCompactColumns : bool) (i : nat)
    (mediaCache : gmap jsstring (option MediaExportItem)) (msg : message)
  : io sheet_world (list cell * gmap jsstring (option MediaExportItem)) :=
  '(mediaItem, mediaCache) ← media_item fuel sessionId sessionDir options mediaCache msg;
  '(senderNickname, senderWxid, senderRemark, senderRole) ←
    sender_cells sessionId cleanedMyWxid isGroup sessionInfo myInfo msg;
  contentValue ←
    match mediaItem with
    | Some item => mret (relativePath item)
    | None =>
      parsed ← io_pure (Parser.parseMessageContent (Media.content msg) (localType msg));
      mret (default [] parsed)
    end;
  contentValue ←
    (if negb (bool_decide (is_Some mediaItem)) && (localType msg =? 34)
        && Media.exportVoiceAsText options
     then transcribeVoice (Media.world S) (fun a b => beside (getVoiceTranscript a b))
            sessionId (String_of_Z (localId msg))
     else mret contentValue);
  let first := [Number (Z.of_nat i + 1); Text (formatTimestamp (createTime msg))] in
  let typeName := Text (getMessageTypeName (localType msg)) in
  mret (if useCompactColumns
        then first ++ [Text senderRole; typeName; Text contentValue]
        else first ++ [Text senderNickname; Text senderWxid; Text senderRemark;
                       Text senderRole; typeName; Text contentValue],
        mediaCache).

(** The loop over the sorted messages from index [i] on, [n] of them in
    all; [sheet] holds the rows written so far. *)
Fixpoint sheet_loop (fuel : nat) (sessionId sessionDir cleanedMyWxid : jsstring)
    (isGroup : bool) (sessionInfo myInfo : contactInfo) (options : mediaOptions)
    (useCompactColumns : bool) (i n : nat)
    (mediaCache : gmap jsstring (option MediaExportItem)) (sheet : list (list cell))
    (sortedMessages : list message) : io sheet_world (list (list cell)) :=
  match sortedMessages with
  | [] => mret sheet
  | msg :: rest =>
    '(row, mediaCache) ←
      sheet_row fuel sessionId sessionDir cleanedMyWxid isGroup sessionInfo myInfo options
        useCompactColumns i mediaCache msg;
    _ ← (if (Z.of_nat i + 1) mod 100 =? 0 then
           sheet_report {| current := progress_at i n; total := 100;
                           currentSession := displayName sessionInfo;
                           progress_phase := exporting |}
         else mret ());
    sheet_loop fuel sessionId sessionDir cleanedMyWxid isGroup sessionInfo myInfo options
      useCompactColumns (Datatypes.S i) n mediaCache (sheet ++ [row]) rest
  end.

(** The message rows of the sheet, top to bottom; [fuel] bounds the
    requests of each emoji download. *)
Definition sheetRows (fuel : nat) (sessionId outputPath cleanedMyWxid : jsstring)
    (isGroup : bool) (sessionInfo myInfo : contactInfo) (options : mediaOptions)
    (useCompactColumns : bool) (rows : list message) : io sheet_world (list (list cell)) :=
  sortedMessages ← io_pure (sortMessages rows);
  sheet_loop fuel sessionId (path_dirname outputPath) cleanedMyWxid isGroup sessionInfo myInfo
    options useCompactColumns 0 (length sortedMessages) ∅ [] sortedMessages.

End Excel.

End WithClock.

(** A message of the detailed JSON document that was made from a row,
    and a row of the sheet that shows a message. *)
Definition details (formatted : number -> jsstring) (m : message) (d : DetailedMessage) : Prop :=
  d_createTime d = createTime m
  /\ d_formattedTime d = formatted (createTime m)
  /\ d_senderUsername d = senderUsername m.

Definition shows (formatted : number -> jsstring) (numbered : nat * message)
    (row : list cell) : Prop :=
  exists rest,
    row = Number (Z.of_nat numbered.1) :: Text (formatted (createTime numbered.2)) :: rest.

End Exporters.

(** ** Fields read out of message content *)

Module Fields.
Import JS Regex.

(** [parseInt(s, 10)]: leading white space, a sign, then decimal digits;
    [None] is [NaN]. A run of more than fifteen digits, where the result
    need not be the exact integer, is left out of what is interpreted. *)
Definition parseInt (s : jsstring) : outcome (option Z) :=
  let s := trimStart s in
  let '(negative, s) :=
    match s with
    | c :: s' => if c =? 0x2D then (true, s') else if c =? 0x2B then (false, s')
                 else (false, s)
    | [] => (false, [])
    end in
  match (take_digits s).1 with
  | [] => Ret None
  | ds => if (15 <? length ds)%nat then Unmodelled
          else Ret (Some (if negative then - parseInt_digits ds else parseInt_digits ds))
  end.

(** The Number a parse gives. *)
Definition of_parsed (v : option Z) : number :=
  match v with
  | Some z => Num z
  | None => NaN
  end.

(** The type and the id of a row, which the service compares with
    integer literals and prints into file names: they are interpreted
    when they are integers. A row whose type or id column is not numeric
    is outside what is interpreted, and nothing is stated about it. *)
Definition integer (n : outcome (option Z)) : outcome Z :=
  n ≫= fun v => match v with Some z => Ret z | None => Unmodelled end.

(** [s.split(sep)] for a separator of one code unit. *)
Fixpoint split (sep : Z) (s : jsstring) : list jsstring :=
  match s with
  | [] => [[]]
  | c :: s' =>
    if c =? sep then [] :: split sep s'
    else match split sep s' with
         | part :: parts => (c :: part) :: parts
         | [] => [[c]]
         end
  end.

Definition quote : jsstring := [0x22].

Definition extractImageMd5 (content : jsstring) : option jsstring :=
  match content with
  | [] => None
  | _ :: _ =>
    m ← exec (regex_of (js "md5=" ++ quote ++ js "([^" ++ quote ++ js "]+)" ++ quote) "i")
             content;
    group m 1
  end.

Definition extractImageDatName (content : jsstring) : option jsstring :=
  match content with
  | [] => None
  | _ :: _ =>
    match exec (rx "cdnthumburl[^>]*>([^<]+)" "i") content with
    | Some urlMatch =>
      let urlParts := split 0x2F (default [] (group urlMatch 1)) in
      let last := default [] (last urlParts) in
      if truthy (Some last) && includes last (js "_")
      then head (split 0x5F last) else None
    | None => None
    end
  end.

Section WithBuiltins.

(** [decodeURIComponent]; [None] when it throws [URIError]. *)
Variable decodeURIComponent : jsstring -> option jsstring.

Definition extractEmojiUrl (content : jsstring) : option jsstring :=
  match content with
  | [] => None
  | _ :: _ =>
    match exec (regex_of (js "cdnurl\s*=\s*['" ++ quote ++ js "]([^'" ++ quote ++ js "]+)['"
                          ++ quote ++ js "]") "i") content with
    | Some attrMatch =>
      let url := replace_all (rx "&amp;" "g") (fun _ => js "&") (default [] (group attrMatch 1)) in
      Some (if includes url (js "%")
            then match decodeURIComponent url with Some decoded => decoded | None => url end
            else url)
    | None =>
      tagMatch ← exec (rx "cdnurl[^>]*>([^<]+)" "i") content;
      group tagMatch 1
    end
  end.

End WithBuiltins.

Definition extractEmojiMd5 (content : jsstring) : option jsstring :=
  match content with
  | [] => None
  | _ :: _ =>
    m ← match exec (regex_of (js "md5=" ++ quote ++ js "([^" ++ quote ++ js "]+)" ++ quote) "i")
                   content with
        | Some m => Some m
        | None => exec (rx "<md5>([^<]+)<\/md5>" "i") content
        end;
    group m 1
  end.

End Fields.

(** ** Collecting the rows of a conversation *)

Module Collector.
Import JS Identity Media Orchestrator Fields.

(** A row of [fetchMessageBatch], as far as [collectMessages] reads it.
    A column is a string, or absent ([undefined] or [null]); a numeric
    column that comes as a number is its decimal text, which is what
    [parseInt] makes of it first. The two content columns are values of
    the decoder. *)
Record dbRow : Type := {
  create_time : option jsstring;
  message_content : Decoder.value;
  compress_content : Decoder.value;
  local_type : option jsstring;
  row_type : option jsstring;
  sender_username : option jsstring;
  computed_is_send : option jsstring;
  is_send : option jsstring;
  local_id : option jsstring;
  row_localId : option jsstring
}.

(** The result of [openMessageCursor]; the handle is a number. *)
Record cursorResult : Type := {
  cursor_success : bool;
  cursor : option Z
}.

(** The result of [fetchMessageBatch]; [hasMore] is [batch.hasMore ===
    true]. *)
Record batchResult : Type := {
  batch_success : bool;
  batch_rows : option (list dbRow);
  hasMore : bool
}.

(** What [collectMessages] resolves to. *)
Record collected : Type := {
  rows : list message;
  memberSet : gmap jsstring memberInfo;
  firstTime : option number;
  lastTime : option number
}.

Definition nothing_collected : collected :=
  {| rows := []; memberSet := ∅; firstTime := None; lastTime := None |}.

(** [for (const b of l)] over an accumulator. *)
Fixpoint for_of {W A B} (f : A -> B -> io W A) (acc : A) (l : list B) : io W A :=
  match l with
  | [] => mret acc
  | b :: l' => acc' ← f acc b; for_of f acc' l'
  end.

(** [try { body } finally { cleanup }]: the clean-up runs however the
    body ends, and its own exception replaces the body's result. *)
Definition io_finally {W A B} (body : io W A) (cleanup : io W B) : io W A := fun w =>
  match body w with
  | Some (Unmodelled, w') => Some (Unmodelled, w')
  | Some (r, w') =>
    match cleanup w' with
    | Some (Ret _, w'') => Some (r, w'')
    | Some (Throw, w'') => Some (Throw, w'')
    | Some (Unmodelled, w'') => Some (Unmodelled, w'')
    | None => None
    end
  | None => None
  end.

Section WithDatabase.

Variable S : Type.

(** [wcdbService]; [None] is a rejected promise. *)
Variable openMessageCursor : jsstring -> Z -> bool -> Z -> Z -> S -> option cursorResult * S.
Variable fetchMessageBatch : Z -> S -> option batchResult * S.
Variable closeMessageCursor : Z -> S -> option () * S.
Variable getDisplayNames : list jsstring -> S -> option mapResult * S.
Variable getAvatarUrls : list jsstring -> S -> option mapResult * S.

(** The builtins of the decoder and of the emoji address. *)
Variable fzstd_decompress : buffer -> option buffer.
Variable Buffer_from_base64 : jsstring -> buffer.
Variable decodeURIComponent : jsstring -> option jsstring.

(** [a || d] for a column [a] and a default [d]. *)
Definition present_or (a : option jsstring) (d : jsstring) : jsstring :=
  if truthy a then default [] a else d.

(** [a ?? b ?? '0'] *)
Definition first_present (a b : option jsstring) : jsstring :=
  match a, b with
  | Some x, _ => x
  | None, Some y => y
  | None, None => js "0"
  end.

(** [parseInt(row.create_time || '0', 10)] *)
Definition time_of (row : dbRow) : outcome number :=
  of_parsed <$> parseInt (present_or (create_time row) (js "0")).

(** [parseInt(row.local_id || row.localId || '0', 10)] *)
Definition id_of (row : dbRow) : outcome Z :=
  integer (parseInt (present_or (por (local_id row) (row_localId row)) (js "0"))).

(** [createTime < dateRange.start || createTime > dateRange.end], under
    [if (dateRange)]: false for a time that is [NaN]. *)
Definition outside_range (dateRange : option (Z * Z)) (createTime : number) : bool :=
  match dateRange with
  | Some (start, end_) =>
    number_ltb createTime (Num start) || number_ltb (Num end_) createTime
  | None => false
  end.

(** One turn of the [for] loop over a batch (lines 773 to 829); a row
    outside the date range leaves everything as it was. *)
Definition collect_row (sessionId cleanedMyWxid : jsstring) (dateRange : option (Z * Z))
    (acc : collected) (row : dbRow) : io (world S) collected :=
  createTime ← io_pure (time_of row);
  if outside_range dateRange createTime then mret acc
  else
    content ← io_pure (Decoder.decodeMessageContent fzstd_decompress Buffer_from_base64
                         (message_content row) (compress_content row));
    localType ← io_pure
      (integer (parseInt (present_or (por (local_type row) (row_type row)) (js "1"))));
    let senderUsername := present_or (sender_username row) [] in
    isSendRaw ← io_pure (parseInt (first_present (computed_is_send row) (is_send row)));
    let isSend := bool_decide (isSendRaw = Some 1) in
    localId ← io_pure (id_of row);
    let actualSender := if isSend then cleanedMyWxid else or_else senderUsername sessionId in
    memberInfo ← getContactInfo S getDisplayNames getAvatarUrls actualSender;
    let memberSet' :=
      match memberSet acc !! actualSender with
      | Some _ => memberSet acc
      | None =>
        <[ actualSender :=
             {| member := {| platformId := actualSender;
                             accountName := displayName memberInfo;
                             groupNickname := None; avatar := None |};
                avatarUrl := contact_avatarUrl memberInfo |} ]> (memberSet acc)
      end in
    let is_image := (localType =? 3) && truthy (Some content) in
    let is_emoji := (localType =? 47) && truthy (Some content) in
    let row' :=
      {| localId := localId; createTime := createTime; localType := localType;
         content := content; senderUsername := actualSender; isSend := isSend;
         imageMd5 := if is_image then extractImageMd5 content else None;
         imageDatName := if is_image then extractImageDatName content else None;
         emojiCdnUrl := if is_image then None
                        else if is_emoji then extractEmojiUrl decodeURIComponent content
                        else None;
         emojiMd5 := if is_image then None
                     else if is_emoji then extractEmojiMd5 content else None |} in
    mret {| rows := rows acc ++ [row'];
            memberSet := memberSet';
            firstTime := match firstTime acc with
                         | Some t => if number_ltb createTime t then Some createTime
                                     else Some t
                         | None => Some createTime
                         end;
            lastTime := match lastTime acc with
                        | Some t => if number_ltb t createTime then Some createTime
                                    else Some t
                        | None => Some createTime
                        end |}.

(** The [while (hasMore)] loop; [fuel] bounds the batches fetched, and
    the result is [None] when the database still has more after them. *)
Fixpoint collect_batches (fuel : nat) (sessionId cleanedMyWxid : jsstring)
    (dateRange : option (Z * Z)) (handle : Z) (acc : collected) : io (world S) collected :=
  match fuel with
  | O => fun _ => None
  | Datatypes.S fuel' =>
    batch ← awaiting S (fetchMessageBatch handle);
    match batch_success batch, batch_rows batch with
    | true, Some batchRows =>
      acc' ← for_of (collect_row sessionId cleanedMyWxid dateRange) acc batchRows;
      if hasMore batch
      then collect_batches fuel' sessionId cleanedMyWxid dateRange handle acc'
      else mret acc'
    | _, _ => mret acc
    end
  end.

(** [collectMessages] (lines 747 to 837). *)
Definition collectMessages (fuel : nat) (sessionId cleanedMyWxid : jsstring)
    (dateRange : option (Z * Z)) : io (world S) collected :=
  opened ← awaiting S
    (openMessageCursor sessionId 500 true
       (match dateRange with Some (start, _) => start | None => 0 end)
       (match dateRange with Some (_, end_) => end_ | None => 0 end));
  match cursor_success opened, cursor opened with
  | true, Some handle =>
    if handle =? 0 then mret nothing_collected
    else
      io_finally
        (collect_batches fuel sessionId cleanedMyWxid dateRange handle nothing_collected)
        (awaiting S (closeMessageCursor handle))
  | _, _ => mret nothing_collected
  end.

End WithDatabase.

(** *** The cursor protocol

    The database with a record of what was done with cursors, latest
    first. An [Opened] is noted when [openMessageCursor] hands out a
    cursor the collector can use. *)
Inductive cursor_event : Type :=
| Opened (handle : Z)
| Fetched (handle : Z)
| Closed (handle : Z).

Definition recorded (S : Type) : Type := S * list cursor_event.

Definition recording {S A} (f : S -> A * S) : recorded S -> A * recorded S := fun s =>
  let '(a, s') := f s.1 in (a, (s', s.2)).

Definition recording_event {S A} (e : cursor_event) (f : S -> A * S)
  : recorded S -> A * recorded S := fun s =>
  let '(a, s') := f s.1 in (a, (s', e :: s.2)).

Definition recording_open {S}
    (open : jsstring -> Z -> bool -> Z -> Z -> S -> option cursorResult * S)
  : jsstring -> Z -> bool -> Z -> Z -> recorded S -> option cursorResult * recorded S :=
  fun sessionId batchSize ascending start end_ s =>
    let '(r, s') := open sessionId batchSize ascending start end_ s.1 in
    (r, (s', match r with
             | Some {| cursor_success := true; cursor := Some handle |} =>
               if handle =? 0 then s.2 else Opened handle :: s.2
             | _ => s.2
             end)).

(** The record a world holds. *)
Definition events {S} (w : world (recorded S)) : list cursor_event := (outside _ w).2.

(** A computation that leaves the record beside the database as it
    is. *)
Definition silent {S L A} (m : io (world (S * L)) A) : Prop :=
  forall w r w', m w = Some (r, w') -> (outside _ w').2 = (outside _ w).2.

(** The database with a record of the rows it has delivered, oldest
    first: the rows of every batch the collector goes through. *)
Definition delivering {S} (fetch : Z -> S -> option batchResult * S)
  : Z -> S * list dbRow -> option batchResult * (S * list dbRow) :=
  fun handle s =>
    let '(r, s') := fetch handle s.1 in
    (r, (s', s.2 ++ match r with
                    | Some {| batch_success := true; batch_rows := Some batchRows |} =>
                      batchRows
                    | _ => []
                    end)).

Definition delivered {S} (w : world (S * list dbRow)) : list dbRow := (outside _ w).2.

(** A delivered row that the date range lets through, and a collected
    row that was made from a delivered one. *)
Definition passes (dateRange : option (Z * Z)) (row : dbRow) : bool :=
  match time_of row with
  | Ret createTime => negb (outside_range dateRange createTime)
  | _ => true
  end.

Definition made_from (row : dbRow) (m : message) : Prop :=
  time_of row = Ret (createTime m) /\ id_of row = Ret (localId m).

(** What the collector keeps true of its result. A row whose time is not
    a number is not outside any range. *)
Definition in_range (dateRange : option (Z * Z)) (row : message) : Prop :=
  match dateRange, createTime row with
  | Some (start, end_), Num t => start <= t <= end_
  | _, _ => True
  end.

Definition sender_listed (members : gmap jsstring memberInfo) (row : message) : Prop :=
  exists e, members !! senderUsername row = Some e
            /\ platformId (member e) = senderUsername row.

Definition well_keyed (members : gmap jsstring memberInfo) : Prop :=
  forall k e, members !! k = Some e -> platformId (member e) = k.

(** [firstTime] and [lastTime] are [null] when there is no row. When
    the time of the first row is a number they are the least and the
    greatest of the times that are numbers; when it is [NaN] they are
    [NaN], as no later comparison with them holds. *)
Definition spans (c : collected) : Prop :=
  match rows c with
  | [] => firstTime c = None /\ lastTime c = None
  | first :: _ =>
    match createTime first with
    | Num _ =>
      exists lo hi, firstTime c = Some (Num lo) /\ lastTime c = Some (Num hi)
        /\ Forall (fun row => forall t, createTime row = Num t -> lo <= t <= hi) (rows c)
        /\ Exists (fun row => createTime row = Num lo) (rows c)
        /\ Exists (fun row => createTime row = Num hi) (rows c)
    | NaN => firstTime c = Some NaN /\ lastTime c = Some NaN
    end
  end.

(** What every step of the collection keeps. *)
Definition kept (cleanedMyWxid : jsstring) (dateRange : option (Z * Z)) (c : collected) : Prop :=
  Forall (in_range dateRange) (rows c)
  /\ Forall (sender_listed (memberSet c)) (rows c)
  /\ well_keyed (memberSet c)
  /\ spans c
  /\ Forall (fun row => isSend row = true -> senderUsername row = cleanedMyWxid) (rows c).

End Collector.

(** ** JSON text

    [JSON.stringify] (ECMAScript 25.5.2) on the values the exporters
    write: objects with their properties in insertion order and without
    the properties that are [undefined], arrays, strings, integers, the
    booleans and [null]. *)

Module Json.
Import JS Wire.

#[warnings="-register-all"]
Inductive jvalue : Type :=
| JNull
| JBool (b : bool)
| JNum (n : Z)
| JStr (s : jsstring)
| JArr (items : list jvalue)
| JObj (properties : list (jsstring * jvalue)).

(** A Number: one that is not finite is serialized as [null]. *)
Definition of_number (n : number) : jvalue :=
  match n with
  | Num z => JNum z
  | NaN => JNull
  end.

(** A property that is left out when its value is [undefined]. *)
Definition optional (key : string) (v : option jvalue) : list (jsstring * jvalue) :=
  match v with
  | Some j => [(js key, j)]
  | None => []
  end.

Definition is_leading_surrogate (c : Z) : bool := (0xD800 <=? c) && (c <=? 0xDBFF).
Definition is_trailing_surrogate (c : Z) : bool := (0xDC00 <=? c) && (c <=? 0xDFFF).

(** UnicodeEscape: [\u] and four lower-case hexadecimal digits. *)
Definition UnicodeEscape (c : Z) : jsstring :=
  js "\u" ++ [hex_digit_of (c / 4096 mod 16); hex_digit_of (c / 256 mod 16);
              hex_digit_of (c / 16 mod 16); hex_digit_of (c mod 16)].

(** One code point of QuoteJSONString that is a single code unit. *)
Definition quote_unit (c : Z) : jsstring :=
  if c =? 0x8 then js "\b"
  else if c =? 0x9 then js "\t"
  else if c =? 0xA then js "\n"
  else if c =? 0xC then js "\f"
  else if c =? 0xD then js "\r"
  else if c =? 0x22 then [0x5C; 0x22]
  else if c =? 0x5C then [0x5C; 0x5C]
  else if (c <? 0x20) || is_leading_surrogate c || is_trailing_surrogate c
  then UnicodeEscape c
  else [c].

(** The code points of a string, quoted: a surrogate pair is kept, a lone
    surrogate is escaped. *)
Fixpoint quote_units (s : jsstring) : jsstring :=
  match s with
  | [] => []
  | c :: rest =>
    match rest with
    | d :: rest' =>
      if is_leading_surrogate c && is_trailing_surrogate d
      then c :: d :: quote_units rest'
      else quote_unit c ++ quote_units rest
    | [] => quote_unit c
    end
  end.

Definition QuoteJSONString (s : jsstring) : jsstring := [0x22] ++ quote_units s ++ [0x22].

(** [xs.join(sep)] *)
Fixpoint join (sep : jsstring) (xs : list jsstring) : jsstring :=
  match xs with
  | [] => []
  | [x] => x
  | x :: xs' => x ++ sep ++ join sep xs'
  end.

(** Number::toString writes an integer in decimal below 10^21 in
    magnitude; beyond it writes an exponent, which is left out of what is
    interpreted. *)
Definition number_text (n : Z) : outcome jsstring :=
  if Z.abs n <? 10 ^ 21 then Ret (String_of_Z n) else Unmodelled.

(** [outcome] over a list, left to right. *)
Fixpoint all_of {A} (xs : list (outcome A)) : outcome (list A) :=
  match xs with
  | [] => Ret []
  | x :: xs' => a ← x; rest ← all_of xs'; Ret (a :: rest)
  end.

(** SerializeJSONProperty with the gap [gap] at the indentation
    [indent]; [gap] is empty for [JSON.stringify(v)] and two spaces for
    [JSON.stringify(v, null, 2)]. *)
Fixpoint serialize (gap indent : jsstring) (v : jvalue) : outcome jsstring :=
  let inner := indent ++ gap in
  let wrap (open close : jsstring) (parts : list jsstring) : jsstring :=
    match parts with
    | [] => open ++ close
    | _ :: _ =>
      match gap with
      | [] => open ++ join (js ",") parts ++ close
      | _ :: _ =>
        open ++ [0xA] ++ inner ++ join (js "," ++ [0xA] ++ inner) parts
        ++ [0xA] ++ indent ++ close
      end
    end in
  match v with
  | JNull => Ret (js "null")
  | JBool true => Ret (js "true")
  | JBool false => Ret (js "false")
  | JNum n => number_text n
  | JStr s => Ret (QuoteJSONString s)
  | JArr items =>
    parts ← all_of (map (serialize gap inner) items);
    Ret (wrap (js "[") (js "]") parts)
  | JObj properties =>
    parts ← all_of (map (fun '(key, value) =>
                           text ← serialize gap inner value;
                           Ret (QuoteJSONString key ++ js ":"
                                ++ match gap with [] => [] | _ :: _ => js " " end ++ text))
                        properties);
    Ret (wrap (js "{") (js "}") parts)
  end.

Definition stringify (v : jvalue) : outcome jsstring := serialize [] [] v.

Definition stringify_indented (v : jvalue) : outcome jsstring := serialize (js "  ") [] v.

(** A text without a line feed. *)
Definition one_line (s : jsstring) : Prop := Forall (fun c => c <> 0xA) s.

End Json.

(** ** The ChatLab file *)

Module ChatLabFile.
Import JS Identity Orchestrator Json Fields.

(** [interface ChatLabHeader] and [interface ChatLabMeta] *)
Record ChatLabHeader : Type := {
  version : jsstring;
  exportedAt : Z;
  generator : jsstring;
  description : option jsstring
}.

Record ChatLabMeta : Type := {
  name : jsstring;
  platform : jsstring;
  meta_type : jsstring;
  groupId : option jsstring;
  groupAvatar : option jsstring
}.

(** [interface ChatLabExport] *)
Record ChatLabExport : Type := {
  chatlab : ChatLabHeader;
  meta : ChatLabMeta;
  members : list ChatLabMember;
  messages : list ChatLabMessage
}.

(** [getExportMeta] (lines 1069 to 1089); [now] is [Date.now()], in
    milliseconds. *)
Definition getExportMeta (now : Z) (sessionId displayName : jsstring) (isGroup : bool)
    (sessionAvatar : option jsstring) : ChatLabHeader * ChatLabMeta :=
  ({| version := js "0.0.2"; exportedAt := now / 1000; generator := js "WeFlow";
      description := None |},
   {| name := displayName; platform := js "wechat";
      meta_type := if isGroup then js "group" else js "private";
      groupId := if isGroup then Some sessionId else None;
      groupAvatar := if truthy sessionAvatar then sessionAvatar else None |}).

(** The objects as [JSON.stringify] sees them: properties in the order
    they were set, absent ones left out. *)
Definition header_json (h : ChatLabHeader) : jvalue :=
  JObj ([(js "version", JStr (version h)); (js "exportedAt", JNum (exportedAt h));
         (js "generator", JStr (generator h))]
        ++ optional "description" (JStr <$> description h)).

Definition meta_json (m : ChatLabMeta) : jvalue :=
  JObj ([(js "name", JStr (name m)); (js "platform", JStr (platform m));
         (js "type", JStr (meta_type m))]
        ++ optional "groupId" (JStr <$> groupId m)
        ++ optional "groupAvatar" (JStr <$> groupAvatar m)).

Definition member_properties (m : ChatLabMember) : list (jsstring * jvalue) :=
  [(js "platformId", JStr (platformId m)); (js "accountName", JStr (accountName m))]
  ++ optional "groupNickname" (JStr <$> groupNickname m)
  ++ optional "avatar" (JStr <$> avatar m).

Definition message_properties (m : ChatLabMessage) : list (jsstring * jvalue) :=
  [(js "sender", JStr (sender m)); (js "accountName", JStr (msg_accountName m))]
  ++ optional "groupNickname" (JStr <$> msg_groupNickname m)
  ++ [(js "timestamp", of_number (timestamp m)); (js "type", JNum (type m));
      (js "content", match msg_content m with Some s => JStr s | None => JNull end)].

Definition export_json (e : ChatLabExport) : jvalue :=
  JObj [(js "chatlab", header_json (chatlab e)); (js "meta", meta_json (meta e));
        (js "members", JArr (List.map (fun m => JObj (member_properties m)) (members e)));
        (js "messages", JArr (List.map (fun m => JObj (message_properties m)) (messages e)))].

(** The records of the line-delimited form, in the order of their
    lines (lines 1190 to 1201). *)
Definition records (e : ChatLabExport) : list jvalue :=
  JObj [(js "_type", JStr (js "header")); (js "chatlab", header_json (chatlab e));
        (js "meta", meta_json (meta e))]
  :: List.map (fun m => JObj ((js "_type", JStr (js "member")) :: member_properties m)) (members e)
  ++ List.map (fun m => JObj ((js "_type", JStr (js "message")) :: message_properties m))
         (messages e).

(** The text [exportSessionToChatLab] writes to [outputPath] (lines 1189
    to 1205). *)
Definition file_text (f : exportFormat) (e : ChatLabExport) : outcome jsstring :=
  match f with
  | chatlab_jsonl =>
    lines ← all_of (List.map stringify (records e));
    Ret (join [0xA] lines)
  | _ => stringify_indented (export_json e)
  end.

End ChatLabFile.

(** ** Avatars *)

Module Avatars.
Import JS Regex Download.

(** [buffer[i] === v] *)
Definition byte_is (buffer : buffer) (i : nat) (v : Z) : bool :=
  match buffer !! i with
  | Some b => b =? v
  | None => false
  end.

(** [detectMimeType] (lines 1018 to 1049): [None] is [null]. *)
Definition detectMimeType (buffer : buffer) : option jsstring :=
  if (length buffer <? 4)%nat then None
  else if byte_is buffer 0 0x89 && byte_is buffer 1 0x50 && byte_is buffer 2 0x4E
          && byte_is buffer 3 0x47
  then Some (js "image/png")
  else if byte_is buffer 0 0xFF && byte_is buffer 1 0xD8 && byte_is buffer 2 0xFF
  then Some (js "image/jpeg")
  else if byte_is buffer 0 0x47 && byte_is buffer 1 0x49 && byte_is buffer 2 0x46
          && byte_is buffer 3 0x38
  then Some (js "image/gif")
  else if (12 <=? length buffer)%nat
          && byte_is buffer 0 0x52 && byte_is buffer 1 0x49 && byte_is buffer 2 0x46
          && byte_is buffer 3 0x46
          && byte_is buffer 8 0x57 && byte_is buffer 9 0x45 && byte_is buffer 10 0x42
          && byte_is buffer 11 0x50
  then Some (js "image/webp")
  else if byte_is buffer 0 0x42 && byte_is buffer 1 0x4D
  then Some (js "image/bmp")
  else None.

(** [s.toLowerCase()] on a string of ASCII characters. *)
Definition toLowerCase_ascii (s : jsstring) : jsstring :=
  List.map (fun c => if is_upper c then c + 32 else c) s.

(** [s.toLowerCase() === p] for an ASCII lower-case [p] without the
    letter k: the only characters whose lower case is a character of
    [p] are that character and its ASCII upper case. *)
Definition lower_is (s p : jsstring) : bool :=
  (length s =? length p)%nat && Identity.startsWith_lower s p.

(** [inferImageMime] (lines 1051 to 1064) *)
Definition inferImageMime (ext : jsstring) : jsstring :=
  if lower_is ext (js ".png") then js "image/png"
  else if lower_is ext (js ".gif") then js "image/gif"
  else if lower_is ext (js ".webp") then js "image/webp"
  else if lower_is ext (js ".bmp") then js "image/bmp"
  else js "image/jpeg".

(** What [resolveAvatarFile] returns; a field that is absent is
    [None]. *)
Record avatarFile : Type := {
  file_data : option buffer;
  sourcePath : option jsstring;
  sourceUrl : option jsstring;
  ext : jsstring;
  mime : option jsstring
}.

(** An element of the array [exportAvatars] is given. *)
Record avatarMember : Type := {
  username : jsstring;
  avatarUrl : option jsstring
}.

Section WithWorld.

Variable S : Type.

(** [fs.existsSync], and [fs.promises.readFile], whose promise may be
    rejected. *)
Variable existsSync : jsstring -> S -> bool.
Variable readFile : jsstring -> S -> option buffer * S.

(** [path.extname]; [fileURLToPath] and [new URL(u).pathname], [None]
    when they throw. *)
Variable path_extname : jsstring -> jsstring.
Variable fileURLToPath : jsstring -> option jsstring.
Variable URL_pathname : jsstring -> option jsstring.

(** [Buffer.from(s, 'base64')] and [buffer.toString('base64')] *)
Variable Buffer_from_base64 : jsstring -> buffer.
Variable toString_base64 : buffer -> jsstring.

(** The network of [Download]. *)
Variable get : bool -> jsstring -> option Z -> S -> response * S.
Variable resolve_url : jsstring -> jsstring -> option jsstring.

(** [resolveAvatarFile] (lines 914 to 944). The type of a data URL is
    a match of [image\/[a-zA-Z0-9.+-]+], which is ASCII. *)
Definition resolveAvatarFile (avatarUrl : option jsstring) : outcome (option avatarFile) :=
  match avatarUrl with
  | None | Some [] => Ret None
  | Some avatarUrl =>
    if startsWith avatarUrl (js "data:") then
      match exec (rx "^data:(image\/[a-zA-Z0-9.+-]+);base64,(.+)$" "i") avatarUrl with
      | None => Ret None
      | Some m =>
        let mime := toLowerCase_ascii (default [] (group m 1)) in
        let data := Buffer_from_base64 (default [] (group m 2)) in
        let ext :=
          if includes mime (js "png") then js ".png"
          else if includes mime (js "gif") then js ".gif"
          else if includes mime (js "webp") then js ".webp"
          else js ".jpg" in
        Ret (Some {| file_data := Some data; sourcePath := None; sourceUrl := None;
                     ext := ext; mime := Some mime |})
      end
    else if startsWith avatarUrl (js "file://") then
      match fileURLToPath avatarUrl with
      | Some sourcePath =>
        Ret (Some {| file_data := None; sourcePath := Some sourcePath; sourceUrl := None;
                     ext := or_else (path_extname sourcePath) (js ".jpg"); mime := None |})
      | None => Ret None
      end
    else if startsWith avatarUrl (js "http://") || startsWith avatarUrl (js "https://") then
      pathname ← lift_throwing (URL_pathname avatarUrl);
      Ret (Some {| file_data := None; sourcePath := None; sourceUrl := Some avatarUrl;
                   ext := or_else (path_extname pathname) (js ".jpg"); mime := None |})
    else
      Ret (Some {| file_data := None; sourcePath := Some avatarUrl; sourceUrl := None;
                   ext := or_else (path_extname avatarUrl) (js ".jpg"); mime := None |})
  end.

(** [await] on a promise that may be rejected. *)
Definition awaited {A} (f : S -> option A * S) : io S A := fun s =>
  let '(r, s') := f s in Some (lift_throwing r, s').

(** The bytes of an avatar and the type that comes with them (lines 991
    to 1003); [None] for the bytes is [null]. *)
Definition avatar_bytes (fileInfo : avatarFile)
  : io S (option buffer * option jsstring) :=
  match file_data fileInfo with
  | Some data => mret (Some data, mime fileInfo)
  | None =>
    there ← (if truthy (sourcePath fileInfo)
             then io_step (fun s => (existsSync (default [] (sourcePath fileInfo)) s, s))
             else mret false);
    if (there : bool) then
      data ← awaited (readFile (default [] (sourcePath fileInfo)));
      mret (Some data, mime fileInfo)
    else if truthy (sourceUrl fileInfo) then
      downloaded ← downloadToBuffer S get resolve_url (default [] (sourceUrl fileInfo)) 2;
      match downloaded with
      | Some (data, served) =>
        mret (Some data, if truthy served then served else mime fileInfo)
      | None => mret (None, mime fileInfo)
      end
    else mret (None, mime fileInfo)
  end.

(** The data URL of an avatar (lines 1004 to 1009), or [None] where the
    loop continues without one. *)
Definition avatar_url (fileInfo : avatarFile) : io S (option jsstring) :=
  '(data, mime) ← avatar_bytes fileInfo;
  match data with
  | None => mret None
  | Some data =>
    let detectedMime := detectMimeType data in
    let finalMime :=
      if truthy detectedMime then default [] detectedMime
      else if truthy mime then default [] mime
      else inferImageMime (ext fileInfo) in
    let base64 := toString_base64 data in
    mret (Some (js "data:" ++ finalMime ++ js ";base64," ++ base64))
  end.

(** One turn of the loop of [exportAvatars]: [resolveAvatarFile] is
    called outside the [try]. *)
Definition export_avatar (result : gmap jsstring jsstring) (member : avatarMember)
  : io S (gmap jsstring jsstring) :=
  fileInfo ← io_pure (resolveAvatarFile (avatarUrl member));
  match fileInfo with
  | None => mret result
  | Some fileInfo =>
    url ← io_try (avatar_url fileInfo) (mret None);
    match url with
    | Some url => mret (<[ username member := url ]> result)
    | None => mret result
    end
  end.

(** [exportAvatars] (lines 979 to 1016); the result is a [Map] that its
    callers only look names up in. *)
Fixpoint exportAvatars_from (result : gmap jsstring jsstring) (members : list avatarMember)
  : io S (gmap jsstring jsstring) :=
  match members with
  | [] => mret result
  | member :: members' =>
    result' ← export_avatar result member;
    exportAvatars_from result' members'
  end.

Definition exportAvatars (members : list avatarMember) : io S (gmap jsstring jsstring) :=
  exportAvatars_from ∅ members.

(** The type an avatar is exported with: the one its bytes show, else
    the one that comes with the bytes, else the one its extension
    stands for. *)
Definition avatar_type (data : buffer) (given : option jsstring) (ext : jsstring)
  : jsstring :=
  match detectMimeType data with
  | Some sniffed => sniffed
  | None =>
    match given with
    | Some (c :: type) => c :: type
    | _ => inferImageMime ext
    end
  end.

(** Where the bytes of an avatar come from, and the type that comes
    with them: the payload of a data URL, with the type the URL
    declares; the file at the address, as [readFile] reads it at a
    moment when it is there; or, where there is no such file, the body
    that the server of the address answers with, with the type it
    serves it as when it names one. *)
Definition obtained (fileInfo : avatarFile) (data : buffer) (given : option jsstring)
  : Prop :=
  match file_data fileInfo with
  | Some payload => data = payload /\ given = mime fileInfo
  | None =>
    (exists path s s',
       sourcePath fileInfo = Some path /\ path <> []
       /\ existsSync path s = true
       /\ readFile path s = (Some data, s')
       /\ given = mime fileInfo)
    \/ (exists url s s' served,
          sourceUrl fileInfo = Some url /\ url <> []
          /\ (truthy (sourcePath fileInfo) = false
              \/ existsSync (default [] (sourcePath fileInfo)) s = false)
          /\ downloadToBuffer S get resolve_url url 2 s = Some (Ret (Some (data, served)), s')
          /\ given = if truthy served then served else mime fileInfo)
  end.

(** What the result of [exportAvatars] holds, for the members [all]:
    under the name of a member whose avatar address resolves, the data
    URL of the bytes obtained from it, with their type. *)
Definition exported (all : list avatarMember) (result : gmap jsstring jsstring) : Prop :=
  forall name url, result !! name = Some url ->
    exists member fileInfo data given,
      member ∈ all /\ username member = name /\ truthy (avatarUrl member) = true
      /\ resolveAvatarFile (avatarUrl member) = Ret (Some fileInfo)
      /\ obtained fileInfo data given
      /\ avatar_type data given (ext fileInfo) <> []
      /\ url = js "data:" ++ avatar_type data given (ext fileInfo) ++ js ";base64,"
                 ++ toString_base64 data.

End WithWorld.

(** A computation that stays within what is interpreted. *)
Definition modelled (S : Type) {A} (m : io S A) : Prop :=
  forall s s', m s <> Some (Unmodelled, s').

End Avatars.

(** ** Worlds to run the service in

    Small concrete collaborators, used where a statement below is run on
    an input. *)

Module Scenario.
Import Identity Media Download Orchestrator.

(** *** A group with one member who has spoken *)

Definition alice : memberInfo :=
  {| member := {| platformId := js "wxid_alice"; accountName := js "Alice";
                  groupNickname := None; avatar := None |};
     avatarUrl := None |}.

Definition spoken : gmap jsstring memberInfo := {[ js "wxid_alice" := alice ]}.

(** The roster lists her under a group nickname, and the name lookup
    knows her under another name. *)
Definition roster (chatroomId : jsstring) : option membersResult :=
  Some {| members_success := true;
          members := Some [ {| rm_username := Some (js "wxid_alice"); rm_avatarUrl := None;
                               rm_nickname := Some (js "Ali"); rm_displayName := None;
                               rm_remark := None; rm_originalName := None |} ] |}.

Definition other_names (usernames : list jsstring) : option mapResult :=
  Some {| map_success := true; map := Some {[ js "wxid_alice" := js "Alice Liddell" ]} |}.

Definition no_avatars (usernames : list jsstring) : option mapResult :=
  Some {| map_success := true; map := Some ∅ |}.

(** *** A service without state *)

Definition config_get (key : jsstring) (s : ()) : option jsstring :=
  if bool_decide (key = js "myWxid") then Some (js "wxid_me_1a2b")
  else if bool_decide (key = js "dbPath") then Some (js "C:/xwechat_files")
  else Some (js "00ff").

Definition wcdb_open (dbPath key wxid : jsstring) (s : ()) : option bool * () :=
  (Some true, s).

Definition no_names (usernames : list jsstring) (s : ()) : option mapResult * () :=
  (Some {| map_success := true; map := Some ∅ |}, s).

Definition nothing_exists (p : jsstring) (s : ()) : bool := false.

Definition everything_exists (p : jsstring) (s : ()) : bool := true.

Definition mkdir_ok (p : jsstring) (s : ()) : option () := Some s.

(** A disk that refuses the directory of one conversation. *)
Definition mkdir_refusing (p : jsstring) (s : ()) : option () :=
  if includes p (js "bad") then None else Some s.

Definition join (parts : list jsstring) : jsstring :=
  foldr (fun a b => match b with [] => a | _ :: _ => a ++ js "/" ++ b end) [] parts.

Definition exporter_ok (sessionId outputPath : jsstring) (options : ExportOptions)
    (x : () * gmap jsstring contactInfo) : option (bool * (() * gmap jsstring contactInfo)) :=
  Some (true, x).

(** An exporter that fails on one conversation. *)
Definition exporter_picky (sessionId outputPath : jsstring) (options : ExportOptions)
    (x : () * gmap jsstring contactInfo) : option (bool * (() * gmap jsstring contactInfo)) :=
  Some (negb (includes sessionId (js "bad")), x).

Definition three_sessions : list jsstring := [js "alice"; js "bad"; js "carol"].

Definition chatlab_options : ExportOptions :=
  {| format := chatlab; exportAvatars := false; exportVoiceAsText := false |}.

Definition start : world () := World () () ∅ 0 0 [].

(** The batch on a disk that takes every directory, with the picky
    exporter; and on the disk that refuses one, with exporters that
    succeed. *)
Definition batch_one_failing : option (outcome summary * world ()) :=
  exportSessions () config_get wcdb_open no_names no_names nothing_exists mkdir_ok join None
    exporter_picky exporter_picky exporter_picky three_sessions (js "out") chatlab_options start.

Definition batch_one_throwing : option (outcome summary * world ()) :=
  exportSessions () config_get wcdb_open no_names no_names nothing_exists mkdir_refusing join
    None exporter_ok exporter_ok exporter_ok three_sessions (js "out") chatlab_options start.

(** What a finished batch shows: its summary and the exporter calls made,
    latest first. *)
Definition observed (r : option (outcome summary * world ()))
  : option (summary * list (jsstring * bool)) :=
  match r with
  | Some (Ret s, w) => Some (s, attempts () w)
  | _ => None
  end.

(** *** An image service that answers with a data URL *)

Definition png_data_url : jsstring := js "data:image/png;base64,iVBORw0KGgo=".

Definition decrypt_to_data_url (sessionId : jsstring) (md5 datName : option jsstring) (s : ())
  : option imageResult * () :=
  (Some {| image_success := true; localPath := Some png_data_url |}, s).

Definition no_image (sessionId : jsstring) (md5 datName : option jsstring) (s : ())
  : option imageResult * () :=
  (Some {| image_success := false; localPath := None |}, s).

Definition write_ok (p : jsstring) (bytes : buffer) (s : ()) : option () := Some s.

Definition copy_ok (src dst : jsstring) (s : ()) : option () := Some s.

Definition extname_none (p : jsstring) : jsstring := [].

Definition no_file_url (u : jsstring) : option jsstring := None.

Definition base64_stub (s : jsstring) : buffer := [].

Definition image_message : message :=
  {| localId := 7; createTime := Num 1700000000; localType := 3; content := js "<img />";
     senderUsername := js "wxid_alice"; isSend := false;
     imageMd5 := Some (js "0cc175b9c0f1b6a8"); imageDatName := None;
     emojiCdnUrl := None; emojiMd5 := None |}.

Definition emoji_message : message :=
  {| localId := 8; createTime := Num 1700000001; localType := 47; content := js "<emoji />";
     senderUsername := js "wxid_alice"; isSend := false;
     imageMd5 := None; imageDatName := None;
     emojiCdnUrl := Some (js "http://emoji.example/a.png");
     emojiMd5 := Some (js "92eb5ffee6ae2fec") |}.

Definition voice_message : message :=
  {| localId := 9; createTime := Num 1700000002; localType := 34; content := js "<voicemsg />";
     senderUsername := js "wxid_alice"; isSend := false;
     imageMd5 := None; imageDatName := None; emojiCdnUrl := None; emojiMd5 := None |}.

(** An image service that answers with a path on the disk. *)
Definition decrypt_to_path (sessionId : jsstring) (md5 datName : option jsstring) (s : ())
  : option imageResult * () :=
  (Some {| image_success := true; localPath := Some (js "C:/cache/0cc175b9c0f1b6a8.jpg") |}, s).

Definition extname_jpg (p : jsstring) : jsstring := js ".jpg".

(** An image message that has a DAT name and no checksum, and an image
    service that only has its cached thumbnail. *)
Definition dat_message : message :=
  {| localId := 8; createTime := Num 1700000001; localType := 3; content := js "<img />";
     senderUsername := js "wxid_alice"; isSend := false;
     imageMd5 := None; imageDatName := Some (js "a1b2c3d4_t");
     emojiCdnUrl := None; emojiMd5 := None |}.

Definition cached_thumbnail (sessionId : jsstring) (md5 datName : option jsstring) (s : ())
  : option imageResult * () :=
  (Some {| image_success := true; localPath := Some (js "C:/cache/a1b2c3d4_t.jpg") |}, s).

Definition no_voice (sessionId msgId : jsstring) (s : ()) : option voiceResult * () :=
  (None, s).

(** A network nobody answers on, and addresses that resolve to
    themselves. *)
Definition get_error (secure : bool) (url : jsstring) (timeout : option Z) (s : ())
  : response * () :=
  (RequestError, s).

Definition same_url (location base : jsstring) : option jsstring := Some location.

(** A server that answers every request, and a disk on which every
    download stream fails. *)
Definition get_answer (secure : bool) (url : jsstring) (timeout : option Z) (s : ())
  : response * () :=
  (Response 200 None [0x47; 0x49; 0x46] None, s).

Definition failing_pipe (destPath : jsstring) (body : buffer) (s : ()) : bool * () :=
  (false, s).

(** *** Message contents *)

(** The call bubble in the format the source documents, for a voice call
    of 01:23. *)
Definition voip_bubble : jsstring :=
  js "<voipmsg type=" ++ [0x22] ++ js "VoIPBubbleMsg" ++ [0x22]
  ++ js "><VoIPBubbleMsg><msg><![CDATA[通话时长 01:23]]></msg>"
  ++ js "<room_type>1</room_type></VoIPBubbleMsg></voipmsg>".

(** What stands around the two elements of a call bubble. *)
Definition voip_opening : jsstring :=
  js "<voipmsg type=" ++ [0x22] ++ js "VoIPBubbleMsg" ++ [0x22] ++ js "><VoIPBubbleMsg>".

Definition voip_closing : jsstring := js "</VoIPBubbleMsg></voipmsg>".

(** A call bubble with two [room_type] elements, and one whose payload
    is not wrapped in CDATA. *)
Definition two_room_types : jsstring :=
  js "<room_type>0</room_type><msg><![CDATA[通话时长 01:23]]></msg><room_type>1</room_type>".

Definition unwrapped_call : jsstring := js "<msg>通话时长 01:23</msg><room_type>1</room_type>".

(** A file message. *)
Definition file_appmsg : jsstring := js "<type>6</type><title>report.pdf</title>".

(** A message with a title and a type before those of the file. *)
Definition two_titles : jsstring :=
  js "<title>cover</title><type>5</type><type>6</type><title>report.pdf</title>".

(** A pat template whose placeholder is an opening parenthesis. *)
Definition pat_with_parenthesis : jsstring := js "<template><![CDATA[${(}]]></template>".

(** *** Rows out of order *)

Definition row (id time : Z) (text : string) : message :=
  {| localId := id; createTime := Num time; localType := 1; content := js text;
     senderUsername := js "wxid_alice"; isSend := false;
     imageMd5 := None; imageDatName := None; emojiCdnUrl := None; emojiMd5 := None |}.

Definition fetched : list message :=
  [row 1 30 "third"; row 2 10 "first"; row 3 20 "second"; row 4 10 "also first"].

Definition no_transcript (sessionId msgId : jsstring) (s : ())
  : option (bool * option jsstring) * () :=
  (Some (false, None), s).

(** *** Decoders *)

Definition zstd_fails (data : buffer) : option buffer := None.

(** A base64 decoder that knows one text. *)
Definition base64_of_one (s : jsstring) : buffer :=
  if bool_decide (s = js "aGkh") then bytes_of_string "hi!" else [].

Definition uri_fails (s : jsstring) : option jsstring := None.

(** *** A database with one conversation

    Four rows in two batches; the state of the database is the number
    of batches fetched. *)

Definition db_row (time sender sent text : string) : Collector.dbRow :=
  {| Collector.create_time := Some (js time);
     Collector.message_content := Decoder.VString (js text);
     Collector.compress_content := Decoder.VNull;
     Collector.local_type := Some (js "1"); Collector.row_type := None;
     Collector.sender_username := Some (js sender);
     Collector.computed_is_send := None; Collector.is_send := Some (js sent);
     Collector.local_id := Some (js "1"); Collector.row_localId := None |}.

Definition batches : list (list Collector.dbRow) :=
  [ [db_row "1700000005" "wxid_alice" "0" "too early";
     db_row "1700000010" "wxid_alice" "1" "on my way"];
    [db_row "1700000015" "wxid_bob" "0" "see you there";
     db_row "1700000025" "wxid_alice" "0" "too late"] ].

Definition open_cursor (sessionId : jsstring) (batchSize : Z) (ascending : bool)
    (start end_ : Z) (s : nat) : option Collector.cursorResult * nat :=
  (Some {| Collector.cursor_success := true; Collector.cursor := Some 7 |}, s).

Definition fetch_batch (handle : Z) (s : nat) : option Collector.batchResult * nat :=
  (Some {| Collector.batch_success := true; Collector.batch_rows := batches !! s;
           Collector.hasMore := (S s <? length batches)%nat |}, S s).

Definition close_cursor (handle : Z) (s : nat) : option () * nat := (Some (), s).

Definition names_known (usernames : list jsstring) (s : nat) : option mapResult * nat :=
  (Some {| map_success := true; map := Some {[ js "wxid_alice" := js "Alice" ]} |}, s).

Definition avatars_unknown (usernames : list jsstring) (s : nat) : option mapResult * nat :=
  (Some {| map_success := true; map := Some ∅ |}, s).

Definition second_ten : option (Z * Z) := Some (1700000010, 1700000020).

Definition started : world nat := World nat 0%nat ∅ 0 0 [].

(** The collection of the conversation within [second_ten]. *)
Definition collection : option (outcome Collector.collected * world nat) :=
  Collector.collectMessages nat open_cursor fetch_batch close_cursor names_known
    avatars_unknown zstd_fails base64_of_one uri_fails 5 (js "wxid_alice") (js "wxid_me")
    second_ten started.

(** The same with the cursor events recorded. *)
Definition recorded_collection
  : option (outcome Collector.collected * world (Collector.recorded nat)) :=
  Collector.collectMessages (Collector.recorded nat)
    (Collector.recording_open open_cursor)
    (fun h => Collector.recording_event (Collector.Fetched h) (fetch_batch h))
    (fun h => Collector.recording_event (Collector.Closed h) (close_cursor h))
    (fun l => Collector.recording (names_known l))
    (fun l => Collector.recording (avatars_unknown l))
    zstd_fails base64_of_one uri_fails 5 (js "wxid_alice") (js "wxid_me") second_ten
    (World (Collector.recorded nat) (0%nat, []) ∅ 0 0 []).

(** The same with the rows the cursor delivers recorded. *)
Definition delivered_collection
  : option (outcome Collector.collected * world (nat * list Collector.dbRow)) :=
  Collector.collectMessages (nat * list Collector.dbRow)
    (fun sessionId batchSize ascending start end_ =>
       beside (open_cursor sessionId batchSize ascending start end_))
    (Collector.delivering fetch_batch)
    (fun h => beside (close_cursor h))
    (fun l => beside (names_known l))
    (fun l => beside (avatars_unknown l))
    zstd_fails base64_of_one uri_fails 5 (js "wxid_alice") (js "wxid_me") second_ten
    (World (nat * list Collector.dbRow) (0%nat, []) ∅ 0 0 []).

(** *** A conversation with a row whose time is not a number *)

Definition undated_batches : list (list Collector.dbRow) :=
  [ [db_row "soon" "wxid_alice" "0" "undated";
     db_row "1700000015" "wxid_alice" "0" "dated";
     db_row "1700000010" "wxid_alice" "0" "dated before"] ].

Definition fetch_undated (handle : Z) (s : nat) : option Collector.batchResult * nat :=
  (Some {| Collector.batch_success := true; Collector.batch_rows := undated_batches !! s;
           Collector.hasMore := (S s <? length undated_batches)%nat |}, S s).

Definition undated_collection : option (outcome Collector.collected * world nat) :=
  Collector.collectMessages nat open_cursor fetch_undated close_cursor names_known
    avatars_unknown zstd_fails base64_of_one uri_fails 5 (js "wxid_alice") (js "wxid_me")
    second_ten started.

(** *** A ChatLab document

    One member and two messages, the second of two lines. *)
Definition two_lines : jsstring := js "see you" ++ [0xA] ++ js "there".

Definition document : ChatLabFile.ChatLabExport :=
  {| ChatLabFile.chatlab := (ChatLabFile.getExportMeta 1700000000123 (js "wxid_alice")
                               (js "Alice") false None).1;
     ChatLabFile.meta := (ChatLabFile.getExportMeta 1700000000123 (js "wxid_alice")
                            (js "Alice") false None).2;
     ChatLabFile.members := [member alice];
     ChatLabFile.messages :=
       [ {| sender := js "wxid_alice"; msg_accountName := js "Alice";
            msg_groupNickname := None; timestamp := Num 1700000010; type := 0;
            msg_content := Some (js "on my way") |};
         {| sender := js "wxid_alice"; msg_accountName := js "Alice";
            msg_groupNickname := None; timestamp := Num 1700000015; type := 0;
            msg_content := Some two_lines |} ] |}.

(** *** A disk that refuses every file, and every kind of media asked for *)

Definition write_refused (p : jsstring) (bytes : buffer) (s : ()) : option () := None.

Definition every_media : mediaOptions :=
  {| Media.exportImages := true; Media.exportVoices := true; Media.exportEmojis := true;
     Media.exportVoiceAsText := false |}.

(** *** The detailed JSON document and the sheet of [fetched]

    A clock that tells the seconds only, and a database without contact
    details. *)

Definition clock (ms : Z) : Exporters.localTime :=
  {| Exporters.getFullYear := 2023; Exporters.getMonth := 10; Exporters.getDate := 14;
     Exporters.getHours := 22; Exporters.getMinutes := 13;
     Exporters.getSeconds := ms / 1000 mod 60 |}.

Definition contact_unknown (username : jsstring) (s : ())
  : option Exporters.contactResult * () :=
  (Some {| Exporters.contact_success := false; Exporters.contact := None |}, s).

Definition dirname (p : jsstring) : jsstring := js "out".

Definition detailed_fetched
  : option (outcome (list Exporters.DetailedMessage) * world ()) :=
  Exporters.detailedMessages clock () no_names no_names no_transcript (js "1234@chatroom")
    fetched chatlab_options start.

Definition sheet_fetched : option (outcome (list (list Exporters.cell)) * world (() * list effect)) :=
  Exporters.sheetRows clock () everything_exists mkdir_ok write_ok copy_ok join extname_none
    dirname no_file_url base64_stub decrypt_to_data_url no_image no_voice get_error
    accepting_pipe no_transcript contact_unknown None 3 (js "1234@chatroom")
    (js "out/chat.xlsx") (js "wxid_me") true
    {| displayName := js "chat"; contact_avatarUrl := None |}
    {| displayName := js "me"; contact_avatarUrl := None |}
    every_media true fetched (World (() * list effect) ((), []) ∅ 0 0 []).

(** *** Avatars *)

Definition read_fails (p : jsstring) (s : ()) : option buffer * () := (None, s).

Definition url_path (u : jsstring) : option jsstring := Some (js "/a.png").

Definition no_url (u : jsstring) : option jsstring := None.

(** A base64 decoder and an encoder that know the first bytes of a PNG
    file. *)
Definition png_bytes (s : jsstring) : buffer := [0x89; 0x50; 0x4E; 0x47; 0x0D; 0x0A; 0x1A; 0x0A].

Definition base64_text (data : buffer) : jsstring := js "iVBORw0KGgo=".

Definition two_members : list Avatars.avatarMember :=
  [ {| Avatars.username := js "wxid_alice";
       Avatars.avatarUrl := Some (js "data:image/jpeg;base64,iVBORw0KGgo=") |};
    {| Avatars.username := js "wxid_bob"; Avatars.avatarUrl := None |} ].

Definition remote_member : list Avatars.avatarMember :=
  [ {| Avatars.username := js "wxid_carol";
       Avatars.avatarUrl := Some (js "http://avatars.example/a.png") |} ].

Definition avatars_exported : option (outcome (gmap jsstring jsstring) * ()) :=
  Avatars.exportAvatars () nothing_exists read_fails extname_none no_file_url url_path
    png_bytes base64_text get_error same_url two_members ().

End Scenario.

(** * Properties *)

(** ** The matcher moves forward *)

Module MatcherFacts.
Import JS Regex.

Lemma no_further_refl x y : m_rest y = m_rest x -> no_further x y.
Proof. unfold no_further. intros ->. lia. Qed.

Lemma no_further_trans x y z : no_further x y -> no_further y z -> no_further x z.
Proof. unfold no_further. lia. Qed.

Lemma step_local ok : local (step ok).
Proof.
  intros x k k' H. unfold step. destruct (m_rest x) as [|c rest] eqn:E; [reflexivity|].
  destruct (ok c); [|reflexivity]. apply H. unfold no_further. rewrite E. cbn. lia.
Qed.

Lemma step_forward ok : forward (step ok).
Proof.
  intros x k z. unfold step. destruct (m_rest x) as [|c rest] eqn:E; [discriminate|].
  destruct (ok c); [|discriminate]. intros H. eexists; split; [|exact H].
  unfold no_further. rewrite E. cbn. lia.
Qed.

Lemma clear_caps_rest gs x : m_rest (clear_caps gs x) = m_rest x.
Proof. reflexivity. Qed.

Lemma RepeatMatcher_local m gs greedy : local m ->
  forall fuel mn mx, local (fun x k => RepeatMatcher m gs greedy k fuel mn mx x).
Proof.
  intros Hm fuel. induction fuel as [|fuel IH]; intros mn mx x k k' H; [reflexivity|].
  cbn [RepeatMatcher].
  assert (Hx : k x = k' x) by (apply H, no_further_refl; reflexivity).
  assert (Hd : m (clear_caps gs x)
                 (fun y => if (mn =? 0)%nat && (length (m_rest y) =? length (m_rest x))%nat
                           then None
                           else RepeatMatcher m gs greedy k fuel (pred mn) (pred <$> mx) y)
               = m (clear_caps gs x)
                 (fun y => if (mn =? 0)%nat && (length (m_rest y) =? length (m_rest x))%nat
                           then None
                           else RepeatMatcher m gs greedy k' fuel (pred mn) (pred <$> mx) y)).
  { apply Hm. intros y Hy. destruct (_ && _); [reflexivity|].
    apply (IH (pred mn) (pred <$> mx) y k k'). intros z Hz. apply H.
    eapply no_further_trans; [exact Hy|exact Hz]. }
  destruct mx as [[|mx]|]; [exact Hx| |]; cbv zeta; rewrite Hd, Hx; reflexivity.
Qed.

Lemma orelse_Some {A} (a b : option A) z :
  orelse a b = Some z -> a = Some z \/ b = Some z.
Proof. destruct a; cbn; auto. Qed.

Lemma RepeatMatcher_forward m gs greedy : forward m ->
  forall fuel mn mx, forward (fun x k => RepeatMatcher m gs greedy k fuel mn mx x).
Proof.
  intros Hm fuel. induction fuel as [|fuel IH]; intros mn mx x k z; [discriminate|].
  cbn [RepeatMatcher].
  assert (Hx : k x = Some z -> exists y, no_further x y /\ k y = Some z).
  { intros H. exists x. split; [apply no_further_refl; reflexivity|exact H]. }
  assert (Hd : m (clear_caps gs x)
                 (fun y => if (mn =? 0)%nat && (length (m_rest y) =? length (m_rest x))%nat
                           then None
                           else RepeatMatcher m gs greedy k fuel (pred mn) (pred <$> mx) y)
               = Some z -> exists y, no_further x y /\ k y = Some z).
  { intros H. apply Hm in H as (y & Hy & H).
    destruct (_ && _); [discriminate|].
    apply IH in H as (y' & Hy' & H). exists y'. split; [|exact H].
    eapply no_further_trans; [exact Hy|exact Hy']. }
  destruct mx as [[|mx]|]; [exact Hx| |]; cbv zeta;
    (destruct (0 <? mn)%nat; [exact Hd|]);
    destruct greedy; intros H; apply orelse_Some in H as [H|H]; auto.
Qed.

Lemma rmatch_local icase r : local (rmatch icase r).
Proof.
  induction r as [|c| |neg items|a IHa b IHb|a IHa b IHb|i a IHa|mn mx greedy a IHa| | |neg
                 |neg a IHa];
    intros x k k' H; cbn [rmatch].
  - apply H, no_further_refl; reflexivity.
  - apply step_local, H.
  - apply step_local, H.
  - apply step_local, H.
  - apply IHa. intros y Hy. apply IHb. intros z Hz. apply H.
    eapply no_further_trans; eauto.
  - rewrite (IHa x k k' H), (IHb x k k' H). reflexivity.
  - apply IHa. intros y Hy. apply H. exact Hy.
  - apply (RepeatMatcher_local _ _ _ IHa). exact H.
  - destruct (m_prev x); [reflexivity|]. apply H, no_further_refl; reflexivity.
  - destruct (m_rest x); [|reflexivity]. apply H, no_further_refl; reflexivity.
  - destruct (xorb _ _); [|reflexivity]. apply H, no_further_refl; reflexivity.
  - destruct (rmatch icase a x Some), neg; try reflexivity;
      apply H; apply no_further_refl; reflexivity.
Qed.

(** The continuation was called where the matcher stood. *)
Local Ltac stays H := eexists; split; [|exact H]; apply no_further_refl; reflexivity.

Lemma rmatch_forward icase r : forward (rmatch icase r).
Proof.
  induction r as [|c| |neg items|a IHa b IHb|a IHa b IHb|i a IHa|mn mx greedy a IHa| | |neg
                 |neg a IHa];
    intros x k z; cbn [rmatch].
  - intros H. stays H.
  - apply step_forward.
  - apply step_forward.
  - apply step_forward.
  - intros H. apply IHa in H as (y & Hy & H). apply IHb in H as (y' & Hy' & H).
    exists y'. split; [eapply no_further_trans; eauto|exact H].
  - intros H. apply orelse_Some in H as [H|H]; [apply IHa in H|apply IHb in H]; exact H.
  - intros H. apply IHa in H as (y & Hy & H). eexists; split; [|exact H]. exact Hy.
  - apply (RepeatMatcher_forward _ _ _ IHa).
  - destruct (m_prev x); [discriminate|]. intros H. stays H.
  - destruct (m_rest x); [|discriminate]. intros H. stays H.
  - destruct (xorb _ _); [|discriminate]. intros H. stays H.
  - destruct (rmatch icase a x Some), neg; try discriminate; intros H; stays H.
Qed.

Lemma RepeatMatcher_fuel m gs greedy k : local m ->
  forall fuel fuel' mn mx x,
    (mn + length (m_rest x) < fuel)%nat -> (mn + length (m_rest x) < fuel')%nat ->
    RepeatMatcher m gs greedy k fuel mn mx x = RepeatMatcher m gs greedy k fuel' mn mx x.
Proof.
  intros Hm fuel. induction fuel as [|fuel IH]; intros fuel' mn mx x Hf Hf'; [lia|].
  destruct fuel' as [|fuel']; [lia|]. cbn [RepeatMatcher].
  assert (Hd : m (clear_caps gs x)
                 (fun y => if (mn =? 0)%nat && (length (m_rest y) =? length (m_rest x))%nat
                           then None
                           else RepeatMatcher m gs greedy k fuel (pred mn) (pred <$> mx) y)
               = m (clear_caps gs x)
                 (fun y => if (mn =? 0)%nat && (length (m_rest y) =? length (m_rest x))%nat
                           then None
                           else RepeatMatcher m gs greedy k fuel' (pred mn) (pred <$> mx) y)).
  { apply Hm. intros y Hy. unfold no_further in Hy. rewrite clear_caps_rest in Hy.
    destruct (Nat.eqb_spec mn 0) as [->|Hmn]; cbn [andb].
    - destruct (Nat.eqb_spec (length (m_rest y)) (length (m_rest x))); [reflexivity|].
      apply IH; cbn; lia.
    - apply IH; lia. }
  destruct mx as [[|mx]|]; [reflexivity| |]; cbv zeta; rewrite Hd; reflexivity.
Qed.

(** The matcher of a quantified atom does not depend on the fuel it
    gives the loop. *)
Theorem rmatch_Repeat_fuel icase mn mx greedy a x k fuel :
  (mn + length (m_rest x) < fuel)%nat ->
  rmatch icase (Repeat mn mx greedy a) x k
  = RepeatMatcher (rmatch icase a) (groups_of a) greedy k fuel mn mx x.
Proof.
  intros H. cbn [rmatch]. apply RepeatMatcher_fuel; [apply rmatch_local|lia|exact H].
Qed.

(** The list of all matches. *)

Lemma match_here_lengths rx prev s idx m :
  match_here rx prev s idx = Some m ->
  (length (mr_text m) + length (mr_after m) = length s)%nat.
Proof.
  unfold match_here.
  destruct (rmatch _ _ _ Some) as [y|] eqn:E; [|discriminate].
  apply rmatch_forward in E as (y' & Hy & E). inversion E; subst y'; clear E.
  intros H. inversion H; subst m; clear H. cbn [mr_text mr_after].
  unfold no_further in Hy. cbn [m_rest] in Hy.
  unfold consumed. cbn [m_rest]. rewrite length_take. lia.
Qed.

Lemma search_lengths rx s : forall prev idx m,
  search rx prev s idx = Some m ->
  (length (mr_text m) + length (mr_after m) <= length s)%nat.
Proof.
  induction s as [|c s IH]; intros prev idx m; cbn [search].
  - destruct (match_here rx prev [] idx) eqn:E; [|discriminate].
    intros H; inversion H; subst. apply match_here_lengths in E. lia.
  - destruct (match_here rx prev (c :: s) idx) eqn:E.
    + intros H; inversion H; subst. apply match_here_lengths in E. lia.
    + intros H. apply IH in H. cbn [length]. lia.
Qed.

Lemma matches_from_fuel rx : forall fuel fuel' prev s idx,
  (length s < fuel)%nat -> (length s < fuel')%nat ->
  matches_from fuel rx prev s idx = matches_from fuel' rx prev s idx.
Proof.
  induction fuel as [|fuel IH]; intros fuel' prev s idx Hf Hf'; [lia|].
  destruct fuel' as [|fuel']; [lia|]. cbn [matches_from].
  destruct (search rx prev s idx) as [m|] eqn:E; [|reflexivity].
  apply search_lengths in E. f_equal.
  destruct (mr_text m) as [|t text], (mr_after m) as [|c rest]; cbn [length] in E;
    try reflexivity; apply IH; cbn [length]; lia.
Qed.

(** [match_all] does not depend on the fuel it gives the iteration. *)
Theorem match_all_fuel rx s fuel :
  (length s < fuel)%nat -> match_all rx s = matches_from fuel rx None s O.
Proof. intros H. unfold match_all. apply matches_from_fuel; [lia|exact H]. Qed.

End MatcherFacts.

(** ** A global one-character pattern *)

Module RegexFacts.
Import JS Regex.

Section SingleChar.

Variable c : Z.

Local Abbreviation r := (RegExp (Char c) 0 false).

Lemma match_here_char prev s idx :
  match_here r prev s idx =
  match s with
  | d :: s' => if c =? d then Some (MatchResult idx [d] [None] s') else None
  | [] => None
  end.
Proof.
  unfold match_here. simpl. unfold step. simpl.
  destruct s as [|d s']; [reflexivity|].
  unfold canon. simpl. destruct (c =? d); [|reflexivity].
  unfold consumed. simpl. f_equal. f_equal.
  replace (S (length s') - length s')%nat with 1%nat by lia. reflexivity.
Qed.

Lemma search_char s : forall prev idx, search r prev s idx = head (occurrences c s idx).
Proof.
  induction s as [|d s' IH]; intros prev idx.
  - cbn [search occurrences]. rewrite match_here_char. reflexivity.
  - cbn [search occurrences]. rewrite match_here_char.
    destruct (c =? d); [reflexivity|]. apply IH.
Qed.

(** The first occurrence determines the others. *)
Lemma occurrences_cons s : forall idx m ms,
  occurrences c s idx = m :: ms ->
  ms = occurrences c (mr_after m) (S (mr_index m))
  /\ (length (mr_after m) < length s)%nat
  /\ exists d, mr_text m = [d].
Proof.
  induction s as [|d s' IH]; intros idx m ms H; [discriminate|].
  cbn [occurrences] in H. destruct (c =? d).
  - inversion H; subst; clear H. cbn. repeat split; eauto; lia.
  - apply IH in H as (? & ? & ?). cbn [length]. repeat split; auto; lia.
Qed.

Lemma matches_char fuel : forall s prev idx,
  (length s < fuel)%nat -> matches_from fuel r prev s idx = occurrences c s idx.
Proof.
  induction fuel as [|fuel IH]; intros s prev idx Hlen; [lia|].
  cbn [matches_from]. rewrite search_char.
  destruct (occurrences c s idx) as [|m ms] eqn:E; [reflexivity|].
  cbn [head]. apply occurrences_cons in E as (-> & Hl & d & Ht).
  rewrite Ht. f_equal. cbn [length]. rewrite Nat.add_1_r. apply IH. lia.
Qed.

Lemma match_all_char s : match_all r s = occurrences c s O.
Proof. unfold match_all. apply matches_char. lia. Qed.

Lemma occurrences_index s : forall idx m,
  m ∈ occurrences c s idx -> (idx <= mr_index m)%nat.
Proof.
  induction s as [|d s' IH]; intros idx m Hm; cbn [occurrences] in Hm.
  - inversion Hm.
  - destruct (c =? d).
    + apply elem_of_cons in Hm as [-> | Hm]; [cbn; lia|]. apply IH in Hm. lia.
    + apply IH in Hm. lia.
Qed.

(** A code unit before every match is kept. *)
Lemma splice_skip (f : match_result -> jsstring) d s ms idx :
  (forall m, m ∈ ms -> (S idx <= mr_index m)%nat) ->
  splice (map (fun m => (m, f m)) ms) (d :: s) idx
  = d :: splice (map (fun m => (m, f m)) ms) s (S idx).
Proof.
  destruct ms as [|m ms]; intros H; [reflexivity|].
  cbn [map splice]. specialize (H m (proj2 (elem_of_cons _ _ _) (or_introl eq_refl))).
  replace (mr_index m - idx)%nat with (S (mr_index m - S idx)) by lia.
  reflexivity.
Qed.

Lemma splice_occurrences s : forall idx,
  splice (map (fun m => (m, [])) (occurrences c s idx)) s idx
  = List.filter (fun d => negb (c =? d)) s.
Proof.
  induction s as [|d s' IH]; intros idx; [reflexivity|].
  cbn [occurrences List.filter]. destruct (c =? d); cbn [negb].
  - cbn [map splice mr_index mr_text length]. rewrite Nat.sub_diag.
    cbn [take app Nat.add drop]. rewrite Nat.add_1_r. apply IH.
  - rewrite splice_skip by (apply occurrences_index). f_equal. apply IH.
Qed.

(** [s.replace(/c/g, '')] removes every [c]. *)
Lemma replace_all_char s :
  replace_all r (fun _ => []) s = List.filter (fun d => negb (c =? d)) s.
Proof. unfold replace_all. rewrite match_all_char. apply splice_occurrences. Qed.

Lemma occurrences_length s : forall idx,
  length (occurrences c s idx) = length (List.filter (fun d => c =? d) s).
Proof.
  induction s as [|d s' IH]; intros idx; [reflexivity|].
  cbn [occurrences List.filter]. destruct (c =? d); cbn [length]; rewrite IH; reflexivity.
Qed.

(** [s.match(/c/g)] has one entry for every [c]. *)
Lemma match_all_char_length s :
  length (match_all r s) = length (List.filter (fun d => c =? d) s).
Proof. rewrite match_all_char. apply occurrences_length. Qed.

End SingleChar.

End RegexFacts.

(** ** The regular expression literals of the service *)

Module LiteralFacts.
Import JS Regex.

(** Every literal of [exportService.ts] that the development uses is read
    by [parse], so [regex_of] never falls back. *)
Lemma literals_parse :
  Forall (fun '(pattern, flags) => parses (js pattern) flags = true)
    [ ("<type>(\d+)<\/type>", "i");
      ("^[\s]*([a-zA-Z0-9_-]+):(?!\/\/)", "");
      ("\]\]>", "g");
      ("<!\[CDATA\[", "g");
      ("<sysmsg[^>]*>([\s\S]*?)<\/sysmsg>", "i");
      ("<replacemsg><!\[CDATA\[(.*?)\]\]><\/replacemsg>", "i");
      ("<template><!\[CDATA\[(.*?)\]\]><\/template>", "i");
      ("\$\{([^}]+)\}", "g");
      ("<[^>]+>", "g");
      ("\s+", "g");
      ("<\/?[a-zA-Z0-9_:]+[^>]*>", "g");
      ("<img[^>]*>", "gi");
      ("<msg><!\[CDATA\[(.*?)\]\]><\/msg>", "i");
      ("<room_type>(\d+)<\/room_type>", "i");
      ("通话时长\s*(\d{1,2}:\d{2}(?::\d{2})?)", "i");
      ("^[0-9a-fA-F]+$", "");
      ("^[A-Za-z0-9+/=]+$", "");
      ("\uFFFD", "g");
      ("^(wxid_[^_]+)", "i");
      ("^(.+)_([a-zA-Z0-9]{4})$", "") ]%string
  /\ parses (js "[<>:" ++ [0x22] ++ js "/\\|?*]") "g" = true.
Proof. split; [repeat constructor|reflexivity]. Qed.

End LiteralFacts.

(** ** The content decoder *)

Module DecoderFacts.
Import JS Regex Decoder RegexFacts.

Lemma rx_replacement : rx "\uFFFD" "g" = RegExp (Char REPLACEMENT) 0 false.
Proof. vm_compute. reflexivity. Qed.

(** The guard of the zstd branch holds of the buffers that begin with
    the bytes 28 B5 2F FD. *)
Lemma begins_with_magic_bytes (data : buffer) :
  Forall (fun b => 0 <= b < 256) data ->
  begins_with_magic data = true <-> exists rest, data = 0x28 :: 0xB5 :: 0x2F :: 0xFD :: rest.
Proof.
  intros Hbytes. split.
  - unfold begins_with_magic, readUInt32LE, ZSTD_MAGIC. intros H.
    apply andb_prop in H as [_ H]. apply Z.eqb_eq in H.
    destruct data as [|b0 [|b1 [|b2 [|b3 rest]]]]; try discriminate H.
    repeat match goal with
           | Hf : Forall _ (_ :: _) |- _ => apply Forall_cons in Hf as [? Hf]
           end.
    exists rest. repeat f_equal; lia.
  - intros [rest ->]. reflexivity.
Qed.

(** The comparison on doubles agrees with the comparison on integers,
    checked on every length up to 120. *)
Lemma below_fifth_double_exact :
  forallb (fun '(count, len) => eqb (below_fifth_double count len) (5 * count <? len)%nat)
    (counts_up_to 120) = true.
Proof. vm_compute. reflexivity. Qed.

Lemma decodeBinaryContent_returns fzstd_decompress data :
  exists s, decodeBinaryContent fzstd_decompress data = Ret s.
Proof.
  unfold decodeBinaryContent. destruct data as [|b data]; [eauto|].
  destruct (begins_with_magic _).
  - destruct (fzstd_decompress (b :: data)); cbn; eauto.
  - cbv zeta. destruct (_ <? _)%nat; cbn; eauto.
Qed.

Lemma decodeBinaryContent_failure fzstd_decompress data :
  begins_with_magic data = true -> fzstd_decompress data = None ->
  decodeBinaryContent fzstd_decompress data = Ret [].
Proof.
  unfold decodeBinaryContent. intros Hm Hf.
  destruct data as [|b data]; [reflexivity|]. rewrite Hm, Hf. reflexivity.
Qed.

Lemma decodeMaybeCompressed_returns fzstd_decompress Buffer_from_base64 raw :
  exists s, decodeMaybeCompressed fzstd_decompress Buffer_from_base64 raw = Ret s.
Proof.
  unfold decodeMaybeCompressed.
  destruct raw as [| |[|c s]|[|]]; eauto.
  assert (Hfall : exists r,
    (if looksLikeBase64 (c :: s)
     then try_catch (decodeBinaryContent fzstd_decompress (Buffer_from_base64 (c :: s)))
                    (Ret (c :: s))
     else Ret (c :: s)) = Ret r).
  { destruct (looksLikeBase64 _); eauto.
    destruct (decodeBinaryContent_returns fzstd_decompress (Buffer_from_base64 (c :: s)))
      as [r ->].
    cbn. eauto. }
  destruct (looksLikeHex _); [|exact Hfall].
  destruct (_ <? _)%nat; [|exact Hfall]. apply decodeBinaryContent_returns.
Qed.

(** C1: on every value the decoder returns a string and never throws,
    and when the one step of the chain that can fail does fail (zstd
    decompression of a buffer that begins with the magic number), the
    result is the empty string, also for a buffer that came out of a
    hexadecimal or a base64 string. *)
Theorem decoder_never_throws
    (fzstd_decompress : buffer -> option buffer) (Buffer_from_base64 : jsstring -> buffer) :
  (forall raw, exists s,
      decodeMaybeCompressed fzstd_decompress Buffer_from_base64 raw = Ret s)
  /\ (forall data, exists s, decodeBinaryContent fzstd_decompress data = Ret s)
  /\ (forall data,
        begins_with_magic data = true -> fzstd_decompress data = None ->
        decodeBinaryContent fzstd_decompress data = Ret [])
  /\ (forall raw,
        looksLikeHex raw = true ->
        begins_with_magic (Buffer_from_hex raw) = true ->
        fzstd_decompress (Buffer_from_hex raw) = None ->
        decodeMaybeCompressed fzstd_decompress Buffer_from_base64 (VString raw) = Ret [])
  /\ (forall raw,
        looksLikeHex raw = false -> looksLikeBase64 raw = true ->
        begins_with_magic (Buffer_from_base64 raw) = true ->
        fzstd_decompress (Buffer_from_base64 raw) = None ->
        decodeMaybeCompressed fzstd_decompress Buffer_from_base64 (VString raw) = Ret []).
Proof.
  split; [intros raw; apply decodeMaybeCompressed_returns|].
  split; [intros data; apply decodeBinaryContent_returns|].
  split; [intros data; apply decodeBinaryContent_failure|].
  split.
  - intros raw Hhex Hm Hf. unfold decodeMaybeCompressed.
    destruct raw as [|c s]; [reflexivity|]. rewrite Hhex.
    assert (Hlen : (0 <? length (Buffer_from_hex (c :: s)))%nat = true).
    { unfold begins_with_magic in Hm. apply andb_prop in Hm as [Hl _].
      apply Nat.leb_le in Hl. apply Nat.ltb_lt. lia. }
    rewrite Hlen. apply decodeBinaryContent_failure; assumption.
  - intros raw Hhex Hb64 Hm Hf. unfold decodeMaybeCompressed.
    destruct raw as [|c s]; [reflexivity|]. rewrite Hhex, Hb64.
    rewrite decodeBinaryContent_failure by assumption. reflexivity.
Qed.

(** The decoder on a truncated zstd frame given in hexadecimal: the
    four bytes of the magic number and nothing that decompresses. *)
Lemma decoder_never_throws_witness :
  decodeMaybeCompressed (fun _ => None) (fun _ => []) (VString (js "28b52ffd00")) = Ret [].
Proof.
  exact (proj1 (proj2 (proj2 (proj2 (decoder_never_throws (fun _ => None) (fun _ => [])))))
           (js "28b52ffd00") eq_refl eq_refl eq_refl).
Defined.

(** C7, as amended: on a buffer that does not begin with the magic
    number the result is the latin1 decoding when the U+FFFD of the UTF-8
    decoding are a fifth of its code units or more, and the UTF-8
    decoding without its U+FFFD otherwise. *)
Theorem decodeBinaryContent_heuristic (fzstd_decompress : buffer -> option buffer) data :
  begins_with_magic data = false ->
  decodeBinaryContent fzstd_decompress data =
  Ret (let decoded := toString_utf8 data in
       if (5 * count_replacement decoded <? length decoded)%nat
       then strip_replacement decoded else toString_latin1 data).
Proof.
  unfold decodeBinaryContent. intros Hm.
  destruct data as [|b data]; [reflexivity|]. rewrite Hm. cbv zeta.
  unfold replacementCount, count_replacement, strip_replacement.
  rewrite rx_replacement, match_all_char_length, replace_all_char.
  destruct (_ <? _)%nat; reflexivity.
Qed.

(** One invalid byte among ten: the nine letters come back, without the
    marker. *)
Lemma decodeBinaryContent_heuristic_witness :
  decodeBinaryContent (fun _ => None) (bytes_of_string "aaaaaaaaa" ++ [0xFF])
  = Ret (js "aaaaaaaaa").
Proof.
  rewrite (decodeBinaryContent_heuristic (fun _ => None)); reflexivity.
Defined.

(** C7 as the specification words it fails: with one invalid byte among
    five, U+FFFD is exactly 20% of the decoding, not more, and the
    result is the latin1 decoding; with one among ten the result is not
    the UTF-8 decoding either, which keeps its U+FFFD. *)
Lemma spec_decode_differs :
  ~ (forall (fzstd_decompress : buffer -> option buffer) data,
        begins_with_magic data = false ->
        decodeBinaryContent fzstd_decompress data = Ret (spec_decode data)).
Proof.
  intros H. specialize (H (fun _ => None) (bytes_of_string "aaaa" ++ [0xFF]) eq_refl).
  vm_compute in H. discriminate.
Qed.

End DecoderFacts.

(** ** The message content parser *)

Module ParserFacts.
Import JS Regex Parser.

Lemma extractXmlValue_title xml :
  extractXmlValue xml (js "title") =
  Ret (match exec title_regex xml with
       | Some m => trim (strip_cdata (default [] (group m 1)))
       | None => []
       end).
Proof.
  unfold extractXmlValue.
  assert (E : RegExp_new (js "<" ++ js "title" ++ js ">([\s\S]*?)</" ++ js "title" ++ js ">") "i"
              = Ret title_regex) by (vm_compute; reflexivity).
  rewrite E. cbn [mbind outcome_bind]. destruct (exec title_regex xml); reflexivity.
Qed.

(** What the call parser makes of its two captures. *)
Lemma call_duration_of_captures (content : jsstring) (m r : match_result) :
  exec (rx "<msg><!\[CDATA\[(.*?)\]\]><\/msg>" "i") content = Some m ->
  group m 1 = Some (js "通话时长 01:23") ->
  exec (rx "<room_type>(\d+)<\/room_type>" "i") content = Some r ->
  group r 1 = Some (js "1") ->
  parseMessageContent content 50 = Ret (Some (js "[语音通话] 01:23")).
Proof.
  intros Hm Hg Hr Hrg.
  destruct content as [|c content]; [vm_compute in Hm; discriminate Hm|].
  unfold parseMessageContent.
  change (50 =? 1) with false. change (50 =? 3) with false. change (50 =? 34) with false.
  change (50 =? 42) with false. change (50 =? 43) with false. change (50 =? 47) with false.
  change (50 =? 48) with false. change (50 =? 49) with false. change (50 =? 50) with true.
  cbv iota. unfold parseVoipMessage.
  rewrite Hm, Hr. cbn [mbind option_bind]. rewrite Hg, Hrg.
  vm_compute. reflexivity.
Qed.

(** What the parser and the classifier make of the captures of the
    title and of the type. *)
Lemma file_link_of_captures (content title : jsstring) (t ty : match_result) :
  exec title_regex content = Some t ->
  group t 1 = Some title ->
  trim (strip_cdata title) = js "report.pdf" ->
  exec (rx "<type>(\d+)<\/type>" "i") content = Some ty ->
  group ty 1 = Some (js "6") ->
  parseMessageContent content 49 = Ret (Some (js "report.pdf"))
  /\ convertMessageType 49 content = 4.
Proof.
  intros Ht Htg Htrim Hy Hyg. split.
  - destruct content as [|c content]; [vm_compute in Ht; discriminate Ht|].
    unfold parseMessageContent.
    change (49 =? 1) with false. change (49 =? 3) with false. change (49 =? 34) with false.
    change (49 =? 42) with false. change (49 =? 43) with false. change (49 =? 47) with false.
    change (49 =? 48) with false. change (49 =? 49) with true. cbv iota.
    rewrite extractXmlValue_title, Ht. cbv beta iota. rewrite Htg.
    change (default [] (Some title)) with title. rewrite Htrim.
    vm_compute. reflexivity.
  - unfold convertMessageType. change (49 =? 49) with true. cbv iota.
    rewrite Hy, Hyg. vm_compute. reflexivity.
Qed.

(** The call bubble and the file message as the source documents
    them. *)
Example documented_contents :
  parseMessageContent Scenario.voip_bubble 50 = Ret (Some (js "[语音通话] 01:23"))
  /\ parseMessageContent Scenario.file_appmsg 49 = Ret (Some (js "report.pdf"))
  /\ convertMessageType 49 Scenario.file_appmsg = 4.
Proof. repeat split; vm_compute; reflexivity. Qed.

(** The pattern built for the placeholder is not a regular expression:
    its two groups are never closed. *)
Lemma pat_variable_pattern_is_malformed :
  RegExp_new (pat_variable_pattern (js "(")) "i" = Throw.
Proof. vm_compute. reflexivity. Qed.

(** C6, the failing input: on a system message whose pat template holds
    the placeholder of [Scenario.pat_with_parenthesis], the exception of
    the [RegExp] constructor leaves [cleanSystemMessage] and
    [parseMessageContent], for both system codes. *)
Theorem parseMessageContent_throws_on_pat_placeholder :
  cleanSystemMessage Scenario.pat_with_parenthesis = Throw
  /\ parseMessageContent Scenario.pat_with_parenthesis 10000 = Throw
  /\ parseMessageContent Scenario.pat_with_parenthesis 266287972401 = Throw.
Proof. repeat split; vm_compute; reflexivity. Qed.

(** The parts of C6 that hold: the empty content is [null] for every
    type, and the call parser returns on every content. *)
Lemma parseMessageContent_empty localType : parseMessageContent [] localType = Ret None.
Proof. reflexivity. Qed.

Lemma parseVoipMessage_returns content : exists s, parseVoipMessage content = Ret s.
Proof.
  unfold parseVoipMessage. destruct content as [|c content]; [eexists; reflexivity|].
  cbv zeta.
  repeat match goal with
         | |- context [if ?b then _ else _] => destruct b
         | |- context [match ?x with [] => _ | _ :: _ => _ end] => destruct x
         end; eexists; reflexivity.
Qed.

Lemma parseMessageContent_call_returns content :
  exists r, parseMessageContent content 50 = Ret r.
Proof.
  destruct content as [|c content]; [eexists; reflexivity|].
  unfold parseMessageContent.
  change (50 =? 1) with false. change (50 =? 3) with false. change (50 =? 34) with false.
  change (50 =? 42) with false. change (50 =? 43) with false. change (50 =? 47) with false.
  change (50 =? 48) with false. change (50 =? 49) with false. change (50 =? 50) with true.
  cbv iota. destruct (parseVoipMessage_returns (c :: content)) as [s ->].
  eexists; reflexivity.
Qed.

(** Outside the two system codes the parser returns on every content:
    the expression built for the [title] tag is well formed, and the call
    parser catches what it throws. *)
Lemma parseMessageContent_returns_outside_system (content : jsstring) (localType : Z) :
  localType <> 10000 -> localType <> 266287972401 ->
  exists r, parseMessageContent content localType = Ret r.
Proof.
  intros H1 H2. unfold parseMessageContent.
  destruct content as [|c content]; [eauto|].
  apply Z.eqb_neq in H1, H2. rewrite H1, H2.
  repeat match goal with
         | |- context [if ?b then _ else _] => destruct b; [eexists; reflexivity|]
         end;
    repeat match goal with
           | |- context [if ?b then _ else _] => destruct b
           end.
  - rewrite extractXmlValue_title. eexists; reflexivity.
  - destruct (parseVoipMessage_returns (c :: content)) as [s ->]. eexists; reflexivity.
  - rewrite extractXmlValue_title. eexists; reflexivity.
  - destruct (stripSenderPrefix _); eexists; reflexivity.
Qed.

Lemma parseMessageContent_returns_outside_system_witness :
  exists r, parseMessageContent Scenario.file_appmsg 49 = Ret r.
Proof.
  apply (parseMessageContent_returns_outside_system Scenario.file_appmsg 49); discriminate.
Defined.

End ParserFacts.

(** ** The roster merge *)

Module IdentityFacts.
Import JS Regex Identity.

Lemma keeps_resolved_refl e : keeps_resolved e e.
Proof. repeat split; auto. Qed.

Lemma keeps_resolved_trans e1 e2 e3 :
  keeps_resolved e1 e2 -> keeps_resolved e2 e3 -> keeps_resolved e1 e3.
Proof.
  intros (Hp & Ha & Hg & Hu & Hv) (Hp' & Ha' & Hg' & Hu' & Hv').
  repeat split.
  - congruence.
  - intros H. rewrite <- (Ha H). apply Ha'. rewrite (Ha H), Hp. exact H.
  - intros H. rewrite <- (Hg H). apply Hg'. rewrite (Hg H). exact H.
  - intros H. rewrite <- (Hu H). apply Hu'. rewrite (Hu H). exact H.
  - congruence.
Qed.

Section Merge.

Variable getGroupMembers : jsstring -> option membersResult.
Variable getDisplayNames : list jsstring -> option mapResult.
Variable getAvatarUrls : list jsstring -> option mapResult.

Lemma merge_member_keeps (includeAvatars : bool) (names urls : mapResult)
    (memberSet : gmap jsstring memberInfo) (m : rawMember) (k : jsstring) (e : memberInfo) :
  memberSet !! k = Some e ->
  exists e', merge_member includeAvatars names urls memberSet m !! k = Some e'
             /\ keeps_resolved e e'.
Proof.
  intros Hk. unfold merge_member.
  destruct (rm_username m) as [[|c u]|]; try (exists e; split; [exact Hk|apply keeps_resolved_refl]).
  remember (c :: u) as username eqn:Hu0. clear Hu0. cbv zeta.
  match goal with
  | |- context [match ?x with Some _ => _ | None => _ end] =>
    destruct x as [existing|] eqn:Hex
  end.
  - destruct (decide (username = k)) as [<-|Hne].
    + rewrite lookup_insert_eq. eexists; split; [reflexivity|].
      rewrite Hex in Hk. inversion Hk; subst e; clear Hk.
      repeat split; cbn.
      * destruct (_ && _ && _), (_ && _); reflexivity.
      * intros Hacc.
        rewrite (bool_decide_eq_false_2 _ Hacc), andb_false_r, andb_false_l.
        destruct (_ && _); reflexivity.
      * intros Hg. destruct (_ && _ && _); cbn; rewrite Hg, andb_false_r; reflexivity.
      * intros Hu. rewrite Hu. reflexivity.
      * destruct (_ && _ && _), (_ && _); reflexivity.
    + rewrite lookup_insert_ne by exact Hne. exists e; split; [exact Hk|apply keeps_resolved_refl].
  - rewrite lookup_insert_ne by congruence. exists e; split; [exact Hk|apply keeps_resolved_refl].
Qed.

Lemma merge_members_keeps (includeAvatars : bool) (names urls : mapResult)
    (rawMembers : list rawMember) :
  forall (memberSet : gmap jsstring memberInfo) (k : jsstring) (e : memberInfo),
  memberSet !! k = Some e ->
  exists e', foldl (merge_member includeAvatars names urls) memberSet rawMembers !! k = Some e'
             /\ keeps_resolved e e'.
Proof.
  induction rawMembers as [|m ms IH]; intros memberSet k e Hk.
  - exists e; split; [exact Hk|apply keeps_resolved_refl].
  - cbn [foldl].
    destruct (merge_member_keeps includeAvatars names urls memberSet m k e Hk) as (e1 & H1 & R1).
    destruct (IH _ k e1 H1) as (e2 & H2 & R2).
    exists e2; split; [exact H2|]. eapply keeps_resolved_trans; eauto.
Qed.

(** C5: an entry of the member map is still there after the roster
    merge, whatever the roster and the name and avatar lookups return
    and whether or not they return, and it is kept in the sense of
    [keeps_resolved]: an account name that differs from the id is
    unchanged (only one that still equals the id is backfilled), and the
    group nickname and the avatar are unchanged unless they were
    absent. *)
Theorem mergeGroupMembers_keeps (chatroomId : jsstring)
    (memberSet : gmap jsstring memberInfo) (includeAvatars : bool)
    (k : jsstring) (e : memberInfo) :
  memberSet !! k = Some e ->
  exists e',
    (mergeGroupMembers getGroupMembers getDisplayNames getAvatarUrls
       chatroomId memberSet includeAvatars).2 !! k = Some e'
    /\ keeps_resolved e e'.
Proof.
  intros Hk. unfold mergeGroupMembers.
  assert (Hsame : exists e', memberSet !! k = Some e' /\ keeps_resolved e e')
    by (exists e; split; [exact Hk|apply keeps_resolved_refl]).
  repeat match goal with
         | |- context [match ?x with Some _ => _ | None => _ end] =>
           destruct x; try exact Hsame
         | |- context [match ?x with [] => _ | _ :: _ => _ end] =>
           destruct x; try exact Hsame
         | |- context [if ?x then _ else _] => destruct x; try exact Hsame
         end.
  apply merge_members_keeps. exact Hk.
Qed.

(** When the three lookups resolve, so does the merge. *)
Lemma mergeGroupMembers_returns (chatroomId : jsstring)
    (memberSet : gmap jsstring memberInfo) (includeAvatars : bool) :
  is_Some (getGroupMembers chatroomId) ->
  (forall l, is_Some (getDisplayNames l)) -> (forall l, is_Some (getAvatarUrls l)) ->
  (mergeGroupMembers getGroupMembers getDisplayNames getAvatarUrls
     chatroomId memberSet includeAvatars).1 = Ret ().
Proof.
  intros [result Hr] Hn Ha. unfold mergeGroupMembers. rewrite Hr.
  destruct (members_success result); [|reflexivity].
  destruct (members result) as [[|m ms]|]; try reflexivity.
  match goal with |- context [match ?x with [] => _ | _ :: _ => _ end] =>
    destruct x as [|u us]; [reflexivity|]
  end.
  match goal with |- context [getDisplayNames ?l] =>
    destruct (Hn l) as [names Hnames]; rewrite Hnames;
    destruct includeAvatars; [destruct (Ha l) as [urls Hurls]; rewrite Hurls|]
  end; reflexivity.
Qed.
End Merge.

(** Alice, resolved at message time, keeps her name although the lookup
    knows her under another one; her missing group nickname is filled
    in. *)
Lemma mergeGroupMembers_keeps_witness :
  exists e',
    (mergeGroupMembers Scenario.roster Scenario.other_names Scenario.no_avatars
       (js "1234@chatroom") Scenario.spoken true).2 !! js "wxid_alice" = Some e'
    /\ keeps_resolved Scenario.alice e'.
Proof.
  apply (mergeGroupMembers_keeps Scenario.roster Scenario.other_names Scenario.no_avatars
           (js "1234@chatroom") Scenario.spoken true (js "wxid_alice") Scenario.alice).
  vm_compute. reflexivity.
Defined.

Example merge_keeps_Alice :
  (mergeGroupMembers Scenario.roster Scenario.other_names Scenario.no_avatars
     (js "1234@chatroom") Scenario.spoken true).2 !! js "wxid_alice"
  = Some {| member := {| platformId := js "wxid_alice"; accountName := js "Alice";
                         groupNickname := Some (js "Ali"); avatar := None |};
            avatarUrl := None |}.
Proof. vm_compute. reflexivity. Qed.

End IdentityFacts.

(** ** The media extractor *)

Module MediaFacts.
Import JS Regex Download Media.

Section WithWorld.
Variable S : Type.
Variable existsSync : jsstring -> S -> bool.
Variable mkdirSync : jsstring -> S -> option S.
Variable writeFileSync : jsstring -> buffer -> S -> option S.
Variable copyFileSync : jsstring -> jsstring -> S -> option S.
Variable path_join : list jsstring -> jsstring.
Variable path_extname : jsstring -> jsstring.
Variable fileURLToPath : jsstring -> option jsstring.
Variable Buffer_from_base64 : jsstring -> buffer.
Variable decryptImage :
  jsstring -> option jsstring -> option jsstring -> S -> option imageResult * S.
Variable resolveCachedImage :
  jsstring -> option jsstring -> option jsstring -> S -> option imageResult * S.
Variable getVoiceData : jsstring -> jsstring -> S -> option voiceResult * S.
Variable get : bool -> jsstring -> option Z -> S -> response * S.
Variable pipe_to_file : jsstring -> buffer -> S -> bool * S.

Local Abbreviation exportImage' :=
  (exportImage S existsSync mkdirSync writeFileSync copyFileSync path_join path_extname
    fileURLToPath Buffer_from_base64 decryptImage resolveCachedImage).
Local Abbreviation exportVoice' :=
  (exportVoice S existsSync mkdirSync writeFileSync path_join Buffer_from_base64 getVoiceData).
Local Abbreviation exportEmoji' :=
  (exportEmoji S existsSync mkdirSync path_join get pipe_to_file).

Lemma ensure_dir_present dir s log :
  existsSync dir s = true ->
  ensure_dir S existsSync mkdirSync dir (s, log) = Some (Ret (), (s, log)).
Proof.
  intros H. unfold ensure_dir, fs_exists, lift, mbind, io_bind. cbn. rewrite H. reflexivity.
Qed.

(** C3, the failing path: an image that the image service hands over as
    a data URL is written to its destination although the destination
    file is already there; the path returned is the one of the first
    export. *)
Theorem exportImage_rewrites_existing msg sessionId mediaDir s s1 s2 log url base64Data :
  let imagesDir := path_join [mediaDir; js "media"; js "images"] in
  let fileName :=
    file_name (por (imageMd5 msg) (imageDatName msg)) (localId msg) (getExtFromDataUrl url) in
  let destPath := path_join [imagesDir; fileName] in
  existsSync imagesDir s = true ->
  truthy (imageMd5 msg) = true ->
  decryptImage sessionId (imageMd5 msg) (imageDatName msg) s
    = (Some {| image_success := true; localPath := Some url |}, s1) ->
  startsWith url (js "data:") = true ->
  split_comma_1 url = Some base64Data ->
  existsSync destPath s1 = true ->
  writeFileSync destPath (Buffer_from_base64 base64Data) s1 = Some s2 ->
  exportImage' msg sessionId mediaDir (s, log)
  = Some (Ret (Some {| relativePath := js "media/images/" ++ fileName; kind := image |}),
          (s2, Wrote destPath :: log)).
Proof.
  intros imagesDir fileName destPath Hdir Hmd5 Hdec Hdata Hsplit Hthere Hwrite.
  unfold exportImage, io_try.
  fold imagesDir. unfold mbind at 1, io_bind at 1.
  rewrite (ensure_dir_present imagesDir s log Hdir).
  rewrite Hmd5. cbn [negb andb].
  unfold mbind at 1, io_bind at 1. unfold await at 1. cbn [fst snd]. rewrite Hdec.
  cbn [lift_throwing image_success localPath negb orb].
  assert (Hurl : truthy (Some url) = true).
  { destruct url; [discriminate|reflexivity]. }
  rewrite Hurl. cbn [negb].
  unfold mbind at 1, io_bind at 1. unfold mret at 1, io_ret at 1.
  rewrite Hdata. fold fileName. fold destPath.
  unfold mbind at 1, io_bind at 1. unfold io_pure at 1. rewrite Hsplit. cbn [lift_throwing].
  unfold mbind at 1, io_bind at 1. unfold fs_do at 1. cbn [fst snd]. rewrite Hwrite.
  reflexivity.
Qed.

(** An emoji whose file is there is not fetched again. *)
Lemma exportEmoji_skips_existing fuel msg sessionId mediaDir s log :
  let emojisDir := path_join [mediaDir; js "media"; js "emojis"] in
  let fileName := file_name (emojiMd5 msg) (localId msg) (emoji_ext (emojiCdnUrl msg)) in
  existsSync emojisDir s = true ->
  truthy (emojiCdnUrl msg) || truthy (emojiMd5 msg) = true ->
  existsSync (path_join [emojisDir; fileName]) s = true ->
  exportEmoji' fuel msg sessionId mediaDir (s, log)
  = Some (Ret (Some {| relativePath := js "media/emojis/" ++ fileName; kind := emoji |}),
          (s, log)).
Proof.
  intros emojisDir fileName Hdir Hkey Hthere.
  unfold exportEmoji, io_try. fold emojisDir.
  unfold mbind at 1, io_bind at 1. rewrite (ensure_dir_present emojisDir s log Hdir).
  apply orb_true_iff in Hkey.
  assert (Hk : negb (truthy (emojiCdnUrl msg)) && negb (truthy (emojiMd5 msg)) = false).
  { destruct Hkey as [-> | ->]; [reflexivity|apply andb_false_r]. }
  rewrite Hk. fold fileName.
  unfold mbind at 1, io_bind at 1. unfold fs_exists at 1, lift at 1. cbn [fst snd].
  rewrite Hthere. reflexivity.
Qed.

(** A voice message whose file is there is not fetched again. *)
Lemma exportVoice_skips_existing msg sessionId mediaDir s log :
  let voicesDir := path_join [mediaDir; js "media"; js "voices"] in
  let fileName := js "voice_" ++ String_of_Z (localId msg) ++ js ".wav" in
  existsSync voicesDir s = true ->
  existsSync (path_join [voicesDir; fileName]) s = true ->
  exportVoice' msg sessionId mediaDir (s, log)
  = Some (Ret (Some {| relativePath := js "media/voices/" ++ fileName; kind := voice |}),
          (s, log)).
Proof.
  intros voicesDir fileName Hdir Hthere.
  unfold exportVoice, io_try. fold voicesDir.
  unfold mbind at 1, io_bind at 1. rewrite (ensure_dir_present voicesDir s log Hdir).
  fold fileName.
  unfold mbind at 1, io_bind at 1. unfold fs_exists at 1, lift at 1. cbn [fst snd].
  rewrite Hthere. reflexivity.
Qed.

(** An image that the image service hands over as a file on disk, be
    it [decryptImage] or the fall-back [resolveCachedImage] that does,
    is not copied again when its destination is there; the file is
    named after the checksum of the message or, without one, after its
    DAT name. *)
Lemma exportImage_copy_skips_existing msg sessionId mediaDir s s1 log sourcePath :
  let imagesDir := path_join [mediaDir; js "media"; js "images"] in
  let fileName :=
    default [] (if truthy (imageMd5 msg) then imageMd5 msg else imageDatName msg)
      ++ or_else (path_extname sourcePath) (js ".jpg") in
  existsSync imagesDir s = true ->
  truthy (imageMd5 msg) || truthy (imageDatName msg) = true ->
  handed_over S decryptImage resolveCachedImage sessionId msg s sourcePath s1 ->
  truthy (Some sourcePath) = true ->
  startsWith sourcePath (js "data:") = false ->
  startsWith sourcePath (js "file://") = false ->
  existsSync sourcePath s1 = true ->
  existsSync (path_join [imagesDir; fileName]) s1 = true ->
  exportImage' msg sessionId mediaDir (s, log)
  = Some (Ret (Some {| relativePath := js "media/images/" ++ fileName; kind := image |}),
          (s1, log)).
Proof.
  intros imagesDir fileName Hdir Hkey (result & s0 & Hdec & Hres) Hsrc Hnd Hnf Hsource Hthere.
  assert (Hname : file_name (por (imageMd5 msg) (imageDatName msg)) (localId msg)
                    (or_else (path_extname sourcePath) (js ".jpg")) = fileName).
  { unfold file_name, por, fileName.
    destruct (truthy (imageMd5 msg)) eqn:Em; [rewrite Em; reflexivity|].
    cbn [orb] in Hkey. rewrite Hkey. reflexivity. }
  assert (Hnone : negb (truthy (imageMd5 msg)) && negb (truthy (imageDatName msg)) = false).
  { destruct (truthy (imageMd5 msg)); [reflexivity|]. cbn [orb] in Hkey. rewrite Hkey.
    reflexivity. }
  unfold exportImage, io_try.
  fold imagesDir. unfold mbind at 1, io_bind at 1.
  rewrite (ensure_dir_present imagesDir s log Hdir).
  rewrite Hnone.
  unfold mbind at 1, io_bind at 1. unfold await at 1. cbn [fst snd]. rewrite Hdec.
  cbn [lift_throwing].
  assert (Hres' :
    (if negb (image_success result) || negb (truthy (localPath result)) then
       thumbResult ← await S (resolveCachedImage sessionId (imageMd5 msg) (imageDatName msg));
       if negb (image_success thumbResult) || negb (truthy (localPath thumbResult))
       then mret None
       else mret (localPath thumbResult)
     else mret (localPath result)) (s0, log)
    = Some (Ret (Some sourcePath), (s1, log))).
  { destruct Hres as [(Hs & Hp & ->)|(Hfail & thumbResult & Hthumb & Hs & Hp)].
    - rewrite Hs, Hp, Hsrc. reflexivity.
    - assert (negb (image_success result) || negb (truthy (localPath result)) = true) as ->.
      { destruct Hfail as [-> | ->]; [reflexivity|apply orb_true_r]. }
      unfold mbind at 1, io_bind at 1. unfold await at 1. cbn [fst snd]. rewrite Hthumb.
      cbn [lift_throwing]. rewrite Hs, Hp, Hsrc. reflexivity. }
  unfold mbind at 1, io_bind at 1. rewrite Hres'.
  rewrite Hnd, Hnf.
  unfold mbind at 1, io_bind at 1. unfold mret at 1, io_ret at 1.
  unfold mbind at 1, io_bind at 1. unfold fs_exists at 1, lift at 1. cbn [fst snd].
  rewrite Hsource. rewrite Hname.
  unfold mbind at 1, io_bind at 1. unfold fs_exists at 1, lift at 1. cbn [fst snd].
  match goal with
  | |- context [existsSync ?p s1] =>
    replace (existsSync p s1) with true by (symmetry; exact Hthere)
  end.
  reflexivity.
Qed.
End WithWorld.

(** The data URL of the image service, with the destination in place. *)
Lemma exportImage_rewrites_existing_witness :
  exportImage () Scenario.everything_exists Scenario.mkdir_ok Scenario.write_ok
    Scenario.copy_ok Scenario.join Scenario.extname_none Scenario.no_file_url
    Scenario.base64_stub Scenario.decrypt_to_data_url Scenario.no_image
    Scenario.image_message (js "1234@chatroom") (js "out") ((), [])
  = Some (Ret (Some {| relativePath := js "media/images/0cc175b9c0f1b6a8.png";
                       kind := image |}),
          ((), [Wrote (js "out/media/images/0cc175b9c0f1b6a8.png")])).
Proof.
  pose proof (exportImage_rewrites_existing () Scenario.everything_exists Scenario.mkdir_ok
           Scenario.write_ok Scenario.copy_ok Scenario.join Scenario.extname_none
           Scenario.no_file_url Scenario.base64_stub Scenario.decrypt_to_data_url
           Scenario.no_image Scenario.image_message (js "1234@chatroom") (js "out")
           () () () [] Scenario.png_data_url (js "iVBORw0KGgo=")) as H.
  cbv zeta in H.
  do 7 (match type of H with ?P -> _ =>
          let p := fresh in
          assert (p : P) by (vm_compute; reflexivity); specialize (H p); clear p
        end).
  vm_compute in H. vm_compute. exact H.
Defined.


(** The emoji, the voice message and the copied image, each with its
    destination in place: nothing is written. *)
Lemma exportEmoji_skips_existing_witness :
  exportEmoji () Scenario.everything_exists Scenario.mkdir_ok Scenario.join
    Scenario.get_error accepting_pipe 3 Scenario.emoji_message (js "1234@chatroom")
    (js "out") ((), [])
  = Some (Ret (Some {| relativePath := js "media/emojis/92eb5ffee6ae2fec.png";
                       kind := emoji |}),
          ((), [])).
Proof.
  pose proof (exportEmoji_skips_existing () Scenario.everything_exists Scenario.mkdir_ok
                Scenario.join Scenario.get_error accepting_pipe 3 Scenario.emoji_message
                (js "1234@chatroom") (js "out") () []) as H.
  cbv zeta in H.
  do 3 (match type of H with ?P -> _ =>
          let p := fresh in
          assert (p : P) by (vm_compute; reflexivity); specialize (H p); clear p
        end).
  vm_compute in H. vm_compute. exact H.
Defined.

Lemma exportVoice_skips_existing_witness :
  exportVoice () Scenario.everything_exists Scenario.mkdir_ok Scenario.write_ok Scenario.join
    Scenario.base64_stub Scenario.no_voice Scenario.voice_message (js "1234@chatroom")
    (js "out") ((), [])
  = Some (Ret (Some {| relativePath := js "media/voices/voice_9.wav"; kind := voice |}),
          ((), [])).
Proof.
  pose proof (exportVoice_skips_existing () Scenario.everything_exists Scenario.mkdir_ok
                Scenario.write_ok Scenario.join Scenario.base64_stub Scenario.no_voice
                Scenario.voice_message (js "1234@chatroom") (js "out") () []) as H.
  cbv zeta in H.
  do 2 (match type of H with ?P -> _ =>
          let p := fresh in
          assert (p : P) by (vm_compute; reflexivity); specialize (H p); clear p
        end).
  vm_compute in H. vm_compute. exact H.
Defined.

Lemma exportImage_copy_skips_existing_witness :
  exportImage () Scenario.everything_exists Scenario.mkdir_ok Scenario.write_ok
    Scenario.copy_ok Scenario.join Scenario.extname_jpg Scenario.no_file_url
    Scenario.base64_stub Scenario.no_image Scenario.cached_thumbnail
    Scenario.dat_message (js "1234@chatroom") (js "out") ((), [])
  = Some (Ret (Some {| relativePath := js "media/images/a1b2c3d4_t.jpg";
                       kind := image |}),
          ((), [])).
Proof.
  pose proof (exportImage_copy_skips_existing () Scenario.everything_exists Scenario.mkdir_ok
                Scenario.write_ok Scenario.copy_ok Scenario.join Scenario.extname_jpg
                Scenario.no_file_url Scenario.base64_stub Scenario.no_image
                Scenario.cached_thumbnail Scenario.dat_message (js "1234@chatroom") (js "out")
                () () [] (js "C:/cache/a1b2c3d4_t.jpg")) as H.
  cbv zeta in H.
  do 2 (match type of H with ?P -> _ =>
          let p := fresh in
          assert (p : P) by (vm_compute; reflexivity); specialize (H p); clear p
        end).
  match type of H with ?P -> _ =>
    let p := fresh in
    assert (p : P);
      [eexists _, (); split; [reflexivity|]; right; split; [left; reflexivity|];
       eexists; repeat split; reflexivity
      |specialize (H p); clear p]
  end.
  do 5 (match type of H with ?P -> _ =>
          let p := fresh in
          assert (p : P) by (vm_compute; reflexivity); specialize (H p); clear p
        end).
  vm_compute in H. vm_compute. exact H.
Defined.

(** The same with an image service whose [decryptImage] has the file,
    for a message that has a checksum. *)
Example decrypted_image_not_copied_again :
  exportImage () Scenario.everything_exists Scenario.mkdir_ok Scenario.write_ok
    Scenario.copy_ok Scenario.join Scenario.extname_jpg Scenario.no_file_url
    Scenario.base64_stub Scenario.decrypt_to_path Scenario.no_image
    Scenario.image_message (js "1234@chatroom") (js "out") ((), [])
  = Some (Ret (Some {| relativePath := js "media/images/0cc175b9c0f1b6a8.jpg";
                       kind := image |}),
          ((), [])).
Proof. vm_compute. reflexivity. Qed.

End MediaFacts.

(** ** CDN downloads *)

Module DownloadFacts.
Import JS Regex Download.

Section WithNetwork.
Variable W : Type.
Variable get : bool -> jsstring -> option Z -> W -> response * W.
Variable pipe_to_file : jsstring -> buffer -> W -> bool * W.
Variable resolve_url : jsstring -> jsstring -> option jsstring.

(** [downloadToBuffer] resolves or rejects, whatever the network does,
    when every redirect target is an address. *)
Lemma downloadToBuffer_settles n :
  (forall loc url, is_Some (resolve_url loc url)) ->
  forall url w, is_Some (downloadToBuffer W get resolve_url url n w).
Proof.
  intros Hurl.
  induction n as [|n IH]; intros url w; cbn [downloadToBuffer];
    unfold mbind, io_bind, io_step; destruct (get _ url _ w) as [[| | |status loc body ct] w'];
    try (eexists; reflexivity);
    destruct ((300 <=? status) && (status <? 400)); try destruct loc as [[|c l]|];
    try (destruct (_ || _); eexists; reflexivity).
  destruct (Hurl (c :: l) url) as [u ->]. apply IH.
Qed.

(** It makes one request, and one more for each redirect it is allowed
    to follow: three with the default [remainingRedirects = 2]. *)
Lemma downloadToBuffer_requests n : forall url w k r w' k',
  downloadToBuffer (W * nat) (counting get) resolve_url url n (w, k) = Some (r, (w', k')) ->
  (k < k' <= k + S n)%nat.
Proof.
  induction n as [|n IH]; intros url w k r w' k'; cbn [downloadToBuffer];
    unfold mbind, io_bind, io_step, counting; cbn [fst snd];
    destruct (get _ url _ w) as [[| | |status loc body ct] w1];
    try (intros H; inversion H; subst; lia);
    destruct ((300 <=? status) && (status <? 400)); try destruct loc as [[|c l]|];
    try (destruct (_ || _); intros H; inversion H; subst; lia).
  destruct (resolve_url _ _); [|discriminate].
  intros H. apply IH in H. lia.
Qed.
End WithNetwork.

(** What is not a followed redirect ends [downloadFile] at once: an
    error, a timeout and a status other than 200 resolve to [false]. *)
Lemma downloadFile_resolves_false
    (W : Type) (get : bool -> jsstring -> option Z -> W -> response * W)
    (pipe_to_file : jsstring -> buffer -> W -> bool * W)
    (fuel : nat) (url destPath : jsstring) (w : W) (r : response) (w' : W) :
  get (startsWith url (js "https")) url (Some 30000) w = (r, w') ->
  match r with
  | GetThrows | RequestError | RequestTimeout => True
  | Response statusCode location _ _ =>
    statusCode <> 200
    /\ (statusCode = 301 \/ statusCode = 302 -> truthy location = false)
  end ->
  downloadFile W get pipe_to_file (S fuel) url destPath w = Some (Ret false, w').
Proof.
  intros Hget Hr. cbn [downloadFile]. unfold mbind, io_bind, io_step. rewrite Hget.
  destruct r as [| | |statusCode location body ct]; try reflexivity.
  destruct Hr as [H200 Hloc]. apply Z.eqb_neq in H200. rewrite H200. cbn [negb].
  destruct ((statusCode =? 301) || (statusCode =? 302)) eqn:E; [|reflexivity].
  assert (Ht : truthy location = false).
  { apply Hloc. apply orb_true_iff in E as [E|E]; apply Z.eqb_eq in E; auto. }
  destruct location as [[|c l]|]; try reflexivity. discriminate Ht.
Qed.

Lemma downloadFile_resolves_false_witness :
  downloadFile () Scenario.get_error accepting_pipe 1
    (js "http://emoji.example/a.gif") (js "media/emojis/a.gif") ()
  = Some (Ret false, ()).
Proof.
  apply (downloadFile_resolves_false () Scenario.get_error accepting_pipe 0
           (js "http://emoji.example/a.gif") (js "media/emojis/a.gif") () RequestError ());
    [reflexivity|exact I].
Defined.

(** On the server that redirects every request to itself, the avatar
    download gives up after its third request. *)
Lemma downloadToBuffer_requests_witness :
  downloadToBuffer (() * nat) (counting redirecting_get) Scenario.same_url
    (js "http://emoji.example/a.gif") 2 ((), 0%nat)
  = Some (Ret None, ((), 3%nat))
  /\ (0 < 3 <= 0 + 3)%nat.
Proof.
  split; [vm_compute; reflexivity|].
  eapply (downloadToBuffer_requests () redirecting_get Scenario.same_url 2
            (js "http://emoji.example/a.gif") () 0%nat).
  vm_compute. reflexivity.
Defined.

(** C10, the failing input: an address whose server answers 302 with
    the same address. However many requests are allowed, the promise of
    [downloadFile] is still unresolved after them: redirects are
    followed without a bound. *)
Theorem downloadFile_follows_redirects_forever (fuel : nat) :
  forall (c : Z) (u destPath : jsstring) (w : ()),
    downloadFile () redirecting_get accepting_pipe fuel (c :: u) destPath w = None.
Proof.
  induction fuel as [|fuel IH]; intros c u destPath w; [reflexivity|].
  cbn [downloadFile]. unfold mbind, io_bind, io_step, redirecting_get.
  change ((302 =? 301) || (302 =? 302)) with true. cbv iota. apply IH.
Qed.

Example emoji_download_unresolved_after_1000_requests :
  downloadFile () redirecting_get accepting_pipe 1000
    (js "http://emoji.example/a.gif") (js "media/emojis/a.gif") ()
  = None.
Proof. vm_compute. reflexivity. Qed.

End DownloadFacts.

(** ** The export orchestrator *)

Module OrchestratorFacts.
Import JS Regex Identity Media Orchestrator.

(** *** The final sort *)

Section Arranged.
Context {A : Type}.
Variable time : A -> number.

Local Abbreviation by_time := (fun a b => number_sub (time a) (time b)).
Local Abbreviation before := (fun a b => number_le (time a) (time b)).
Local Abbreviation at_instant :=
  (fun (t : Z) a => match time a with Num z => z =? t | NaN => false end).

Lemma sort_insert_perm (comparefn : A -> A -> Z) x l :
  Permutation (x :: l) (sort_insert comparefn x l).
Proof.
  induction l as [|y l IH]; cbn [sort_insert]; [reflexivity|].
  destruct (_ <=? _); [reflexivity|].
  rewrite perm_swap. apply perm_skip, IH.
Qed.

Lemma arranged_perm (comparefn : A -> A -> number) l :
  Permutation l (arranged comparefn l).
Proof.
  unfold arranged.
  induction l as [|x l IH]; cbn [foldr]; [reflexivity|].
  rewrite <- sort_insert_perm. apply perm_skip, IH.
Qed.

(** Times that are numbers make the comparator consistent. *)
Lemma consistent_by_time l :
  Forall (fun a => is_Num (time a) = true) l -> consistent by_time l = true.
Proof.
  intros Hl. rewrite List.Forall_forall in Hl. unfold consistent.
  apply forallb_forall. intros a Ha. apply forallb_forall. intros b Hb.
  apply forallb_forall. intros c Hc.
  apply Hl in Ha, Hb, Hc.
  unfold consistent_on, compared, number_sub.
  destruct (time a) as [x|], (time b) as [y|], (time c) as [z|]; try discriminate.
  cbn [is_Num andb]. rewrite Z.sub_diag. cbn [Z.eqb andb].
  repeat match goal with
         | |- context [?p =? ?q] => destruct (Z.eqb_spec p q)
         | |- context [?p <? ?q] => destruct (Z.ltb_spec p q)
         end; cbn [implb andb]; try reflexivity; lia.
Qed.

Lemma sort_insert_sorted x l :
  is_Num (time x) = true -> Forall (fun a => is_Num (time a) = true) l ->
  StronglySorted before l -> StronglySorted before (sort_insert (compared by_time) x l).
Proof.
  intros Hx Hl Hs. induction Hs as [|y l Hs IH Hy]; cbn [sort_insert].
  - repeat constructor.
  - apply Forall_cons in Hl as [Hynum Hl].
    assert (Ex : exists tx, time x = Num tx) by (destruct (time x); [eauto|discriminate]).
    assert (Ey : exists ty, time y = Num ty) by (destruct (time y); [eauto|discriminate]).
    destruct Ex as [tx Ex], Ey as [ty Ey].
    unfold compared at 1, number_sub at 1. rewrite Ex, Ey.
    destruct (Z.leb_spec (tx - ty) 0) as [Hle|Hgt].
    + constructor; [constructor; assumption|].
      constructor; [rewrite Ex, Ey; cbn; lia|].
      eapply Forall_impl; [exact Hy|]. cbn beta. intros a. rewrite Ex, Ey.
      destruct (time a); cbn; [lia|tauto].
    + constructor; [exact (IH Hl)|].
      rewrite <- sort_insert_perm. constructor; [rewrite Ex, Ey; cbn; lia|exact Hy].
Qed.

Lemma arranged_timed l :
  Forall (fun a => is_Num (time a) = true) l ->
  Forall (fun a => is_Num (time a) = true) (arranged by_time l).
Proof. intros H. rewrite <- arranged_perm. exact H. Qed.

Lemma arranged_sorted l :
  Forall (fun a => is_Num (time a) = true) l -> StronglySorted before (arranged by_time l).
Proof.
  induction 1 as [|x l Hx Hl IH]; [constructor|].
  change (arranged by_time (x :: l))
    with (sort_insert (compared by_time) x (arranged by_time l)).
  apply sort_insert_sorted; [exact Hx|apply arranged_timed; exact Hl|exact IH].
Qed.

Lemma sort_insert_stable t x l :
  List.filter (at_instant t) (sort_insert (compared by_time) x l)
  = List.filter (at_instant t) (x :: l).
Proof.
  induction l as [|y l IH]; cbn [sort_insert]; [reflexivity|].
  destruct (compared by_time x y <=? 0) eqn:E; [reflexivity|].
  cbn [List.filter] in *. rewrite IH.
  unfold compared, number_sub in E.
  destruct (time x) as [tx|], (time y) as [ty|]; try discriminate E.
  apply Z.leb_gt in E.
  destruct (Z.eqb_spec tx t), (Z.eqb_spec ty t); try reflexivity. lia.
Qed.

Lemma arranged_stable t l :
  List.filter (at_instant t) (arranged by_time l) = List.filter (at_instant t) l.
Proof.
  induction l as [|x l IH]; [reflexivity|].
  change (arranged by_time (x :: l))
    with (sort_insert (compared by_time) x (arranged by_time l)).
  rewrite sort_insert_stable. cbn [List.filter]. rewrite IH. reflexivity.
Qed.

End Arranged.

(** Two arrays whose elements carry the same times, pair by pair, are
    arranged alike. *)
Lemma sort_insert_Forall2 {A B} (R : A -> B -> Prop) (f : A -> A -> Z) (g : B -> B -> Z) :
  (forall a a' b b', R a b -> R a' b' -> f a a' = g b b') ->
  forall x y l l', R x y -> Forall2 R l l' ->
    Forall2 R (sort_insert f x l) (sort_insert g y l').
Proof.
  intros Hfg x y l l' Hxy H. induction H as [|a b l l' Hab H IH]; cbn [sort_insert].
  - repeat constructor. exact Hxy.
  - rewrite <- (Hfg _ _ _ _ Hxy Hab). destruct (f x a <=? 0).
    + constructor; [exact Hxy|]. constructor; assumption.
    + constructor; [exact Hab|exact IH].
Qed.

Lemma arranged_Forall2 {A B} (R : A -> B -> Prop) (f : A -> A -> number)
    (g : B -> B -> number) :
  (forall a a' b b', R a b -> R a' b' -> f a a' = g b b') ->
  forall l l', Forall2 R l l' -> Forall2 R (arranged f l) (arranged g l').
Proof.
  intros Hfg l l' H. induction H as [|a b l l' Hab H IH]; [constructor|].
  unfold arranged. cbn [foldr]. apply sort_insert_Forall2; [|exact Hab|exact IH].
  intros a1 a2 b1 b2 H1 H2. unfold compared. rewrite (Hfg _ _ _ _ H1 H2). reflexivity.
Qed.

Lemma sortMessages_timed rows :
  Forall timed rows -> sortMessages rows = Ret (arranged byCreateTime rows).
Proof.
  intros H. unfold sortMessages, Array_sort.
  replace (consistent byCreateTime rows) with true; [reflexivity|].
  symmetry. exact (consistent_by_time createTime rows H).
Qed.

(** *** Computations in [io] *)

Lemma io_bind_ret {W A B} (m : io W A) (f : A -> io W B) w b w' :
  (m ≫= f) w = Some (Ret b, w') ->
  exists a w1, m w = Some (Ret a, w1) /\ f a w1 = Some (Ret b, w').
Proof.
  unfold mbind, io_bind. destruct (m w) as [[[a| |] w1]|]; intros H; try discriminate; eauto.
Qed.

Lemma io_ret_ret {W A} (a b : A) (w w' : W) :
  (mret a : io W A) w = Some (Ret b, w') -> a = b /\ w = w'.
Proof. unfold mret, io_ret. intros H; inversion H; auto. Qed.

Lemma io_pure_ret {W A} (r : outcome A) (a : A) (w w' : W) :
  io_pure r w = Some (Ret a, w') -> r = Ret a /\ w = w'.
Proof. unfold io_pure. intros H. inversion H. auto. Qed.

Section ChatLab.
Variable S : Type.
Variable getVoiceTranscript : jsstring -> jsstring -> S -> option (bool * option jsstring) * S.

Lemma toChatLabMessage_renders sessionId memberSet options msg (w : world S) o w' :
  toChatLabMessage S getVoiceTranscript sessionId memberSet options msg w = Some (Ret o, w') ->
  renders msg o.
Proof.
  unfold toChatLabMessage. cbv zeta. intros H.
  apply io_bind_ret in H as (c1 & w1 & _ & H).
  apply io_bind_ret in H as (c2 & w2 & _ & H).
  apply io_ret_ret in H as [<- _]. split; reflexivity.
Qed.

Lemma mapM_renders sessionId memberSet options l : forall (w : world S) out w',
  mapM (toChatLabMessage S getVoiceTranscript sessionId memberSet options) l w
    = Some (Ret out, w') ->
  Forall2 renders l out.
Proof.
  induction l as [|m l IH]; intros w out w' H.
  - apply io_ret_ret in H as [<- _]. constructor.
  - cbn [mapM] in H.
    apply io_bind_ret in H as (o & w1 & Ho & H).
    apply io_bind_ret in H as (os & w2 & Hos & H).
    apply io_ret_ret in H as [<- _].
    constructor; [eapply toChatLabMessage_renders; eauto|eapply IH; eauto].
Qed.
End ChatLab.

(** *** The batch *)

Section Frames.

Variable S : Type.

Lemma same_counts_refl w : same_counts S w w.
Proof. repeat split. Qed.

Lemma same_counts_trans w1 w2 w3 :
  same_counts S w1 w2 -> same_counts S w2 w3 -> same_counts S w1 w3.
Proof. unfold same_counts. intros (?&?&?) (?&?&?). repeat split; congruence. Qed.

Lemma frames_ret {A} (a : A) : frames S (mret a).
Proof. intros w r w' H. inversion H; subst. apply same_counts_refl. Qed.

Lemma frames_bind {A B} (m : io (world S) A) (f : A -> io (world S) B) :
  frames S m -> (forall a, frames S (f a)) -> frames S (m ≫= f).
Proof.
  intros Hm Hf w r w' H. unfold mbind, io_bind in H.
  destruct (m w) as [[[a| |] w1]|] eqn:E; try discriminate.
  - eapply same_counts_trans; [eapply Hm; eauto|eapply Hf; eauto].
  - inversion H; subst. eapply Hm; eauto.
  - inversion H; subst. eapply Hm; eauto.
Qed.

Lemma returns_ret {A} (a : A) : returns S (mret a).
Proof. intros w. exists a, w. reflexivity. Qed.

Lemma returns_bind {A B} (m : io (world S) A) (f : A -> io (world S) B) :
  returns S m -> (forall a, returns S (f a)) -> returns S (m ≫= f).
Proof.
  intros Hm Hf w. destruct (Hm w) as (a & w1 & E). destruct (Hf a w1) as (b & w2 & E2).
  exists b, w2. unfold mbind, io_bind. rewrite E. exact E2.
Qed.

Lemma frames_read {A} (f : world S -> A) : frames S (read S f).
Proof. intros w r w' H. inversion H; subst. apply same_counts_refl. Qed.

Lemma returns_read {A} (f : world S -> A) : returns S (read S f).
Proof. intros w. eexists _, _. reflexivity. Qed.

Lemma frames_awaiting {A} (f : S -> option A * S) : frames S (awaiting S f).
Proof.
  intros w r w' H. unfold awaiting in H. destruct (f (outside S w)) as [a s'].
  inversion H; subst. repeat split.
Qed.

Lemma returns_awaiting {A} (f : S -> option A * S) :
  (forall s, is_Some (f s).1) -> returns S (awaiting S f).
Proof.
  intros Hf w. unfold awaiting. specialize (Hf (outside S w)).
  destruct (f (outside S w)) as [a s']. destruct Hf as [x Hx]. cbn in Hx. subst a.
  eexists _, _. reflexivity.
Qed.

Lemma frames_awaiting_all {A B} (f : S -> option A * S) (g : S -> option B * S) :
  frames S (awaiting_all S f g).
Proof.
  intros w r w' H. unfold awaiting_all in H.
  destruct (f (outside S w)) as [a s1]. destruct (g s1) as [b s2].
  inversion H; subst. repeat split.
Qed.

Lemma returns_awaiting_all {A B} (f : S -> option A * S) (g : S -> option B * S) :
  (forall s, is_Some (f s).1) -> (forall s, is_Some (g s).1) ->
  returns S (awaiting_all S f g).
Proof.
  intros Hf Hg w. unfold awaiting_all. specialize (Hf (outside S w)).
  destruct (f (outside S w)) as [a s1]. specialize (Hg s1). destruct (g s1) as [b s2].
  destruct Hf as [x Hx], Hg as [y Hy]. cbn in Hx, Hy. subst a b.
  eexists _, _. reflexivity.
Qed.

Lemma frames_outside_may_throw (f : S -> option S) : frames S (outside_may_throw S f).
Proof.
  intros w r w' H. unfold outside_may_throw in H. destruct (f (outside S w)).
  - inversion H; subst. repeat split.
  - inversion H; subst. apply same_counts_refl.
Qed.

Lemma returns_outside_may_throw (f : S -> option S) :
  (forall s, is_Some (f s)) -> returns S (outside_may_throw S f).
Proof.
  intros Hf w. unfold outside_may_throw. destruct (Hf (outside S w)) as [s' ->].
  eexists _, _. reflexivity.
Qed.

Lemma frames_cache_set u i : frames S (cache_set S u i).
Proof. intros w r w' H. inversion H; subst. repeat split. Qed.

Lemma returns_cache_set u i : returns S (cache_set S u i).
Proof. intros w. eexists _, _. reflexivity. Qed.

End Frames.

Section Batch.
Variable S : Type.
Variable config_get : jsstring -> S -> option jsstring.
Variable wcdb_open : jsstring -> jsstring -> jsstring -> S -> option bool * S.
Variable getDisplayNames : list jsstring -> S -> option mapResult * S.
Variable getAvatarUrls : list jsstring -> S -> option mapResult * S.
Variable existsSync : jsstring -> S -> bool.
Variable mkdirSync : jsstring -> S -> option S.
Variable path_join : list jsstring -> jsstring.
Variable onProgress : option (ExportProgress -> S -> option S).
Variable exportSessionToDetailedJson exportSessionToChatLab exportSessionToExcel :
  jsstring -> jsstring -> ExportOptions ->
  S * gmap jsstring contactInfo -> option (bool * (S * gmap jsstring contactInfo)).

Local Abbreviation getContactInfo' :=
  (getContactInfo S getDisplayNames getAvatarUrls).
Local Abbreviation report' :=
  (report S onProgress).
Local Abbreviation ensure_dir' :=
  (ensure_dir S existsSync mkdirSync).
Local Abbreviation exportOne' :=
  (exportOne S exportSessionToDetailedJson exportSessionToChatLab exportSessionToExcel).
Local Abbreviation sessions_loop' :=
  (sessions_loop S getDisplayNames getAvatarUrls existsSync mkdirSync path_join onProgress
    exportSessionToDetailedJson exportSessionToChatLab exportSessionToExcel).
Local Abbreviation ensureConnected' :=
  (ensureConnected S config_get wcdb_open).
Local Abbreviation exportSessions' :=
  (exportSessions S config_get wcdb_open getDisplayNames getAvatarUrls existsSync mkdirSync
    path_join onProgress exportSessionToDetailedJson exportSessionToChatLab
    exportSessionToExcel).

Hypothesis names_resolve : forall l s, is_Some (getDisplayNames l s).1.
Hypothesis avatars_resolve : forall l s, is_Some (getAvatarUrls l s).1.
Hypothesis mkdir_succeeds : forall p s, is_Some (mkdirSync p s).
Hypothesis progress_returns :
  forall callback, onProgress = Some callback -> forall p s, is_Some (callback p s).
Hypothesis exporters_finish : forall id path options x,
  is_Some (exportSessionToDetailedJson id path options x)
  /\ is_Some (exportSessionToChatLab id path options x)
  /\ is_Some (exportSessionToExcel id path options x).

Lemma getContactInfo_frames id : frames S (getContactInfo' id).
Proof.
  unfold getContactInfo.
  apply frames_bind; [apply frames_read|]. intros [info|]; [apply frames_ret|].
  apply frames_bind; [apply frames_awaiting_all|]. intros [names urls]. cbv zeta.
  apply frames_bind; [apply frames_cache_set|]. intros _. apply frames_ret.
Qed.

Lemma getContactInfo_returns id : returns S (getContactInfo' id).
Proof.
  unfold getContactInfo.
  apply returns_bind; [apply returns_read|]. intros [info|]; [apply returns_ret|].
  apply returns_bind;
    [apply returns_awaiting_all; [apply names_resolve|apply avatars_resolve]|].
  intros [names urls]. cbv zeta.
  apply returns_bind; [apply returns_cache_set|]. intros _. apply returns_ret.
Qed.

Lemma report_frames p : frames S (report' p).
Proof.
  unfold report. destruct onProgress; [apply frames_outside_may_throw|apply frames_ret].
Qed.

Lemma report_returns p : returns S (report' p).
Proof.
  unfold report. destruct onProgress as [cb|] eqn:E; [|apply returns_ret].
  apply returns_outside_may_throw. intros s. eapply progress_returns. reflexivity.
Qed.

Lemma ensure_dir_frames d : frames S (ensure_dir' d).
Proof.
  unfold ensure_dir. apply frames_bind; [apply frames_read|].
  intros [|]; [apply frames_ret|apply frames_outside_may_throw].
Qed.

Lemma ensure_dir_returns d : returns S (ensure_dir' d).
Proof.
  unfold ensure_dir. apply returns_bind; [apply returns_read|].
  intros [|]; [apply returns_ret|apply returns_outside_may_throw, mkdir_succeeds].
Qed.

Lemma ensureConnected_frames : frames S ensureConnected'.
Proof.
  unfold ensureConnected.
  apply frames_bind; [apply frames_read|]. intros wxid.
  apply frames_bind; [apply frames_read|]. intros dbPath.
  apply frames_bind; [apply frames_read|]. intros key. cbv zeta.
  destruct wxid as [[|]|]; try apply frames_ret;
  destruct dbPath as [[|]|]; try apply frames_ret;
  destruct key as [[|]|]; try apply frames_ret.
  apply frames_bind; [apply frames_awaiting|]. intros [|]; apply frames_ret.
Qed.

(** One conversation: an exporter call noted with its result, or for an
    unsupported format no call and a failed result. *)
Lemma exportOne_step id path options w :
  exists ok w1,
    exportOne' id path options w = Some (Ret ok, w1)
    /\ successCount S w1 = successCount S w /\ failCount S w1 = failCount S w
    /\ attempts S w1
       = (if supported (format options) then [(id, ok)] else []) ++ attempts S w
    /\ (supported (format options) = false -> ok = false).
Proof.
  unfold exportOne, call.
  destruct (exporters_finish id path options (outside S w, contactCache S w))
    as (Hj & Hc & He).
  destruct (format options); cbn [supported];
    try (exists false, w; repeat split; reflexivity);
    [ destruct Hc as [[ok [s' c']] ->]
    | destruct Hc as [[ok [s' c']] ->]
    | destruct Hj as [[ok [s' c']] ->]
    | destruct He as [[ok [s' c']] ->] ];
    eexists _, _; repeat split; intros; discriminate.
Qed.

Lemma sessions_loop_counts n outputDir options ids : forall i w,
  exists oks w',
    sessions_loop' i n ids outputDir options w = Some (Ret (), w')
    /\ length oks = length ids
    /\ successCount S w' = (successCount S w + count_of true oks)%nat
    /\ failCount S w' = (failCount S w + count_of false oks)%nat
    /\ attempts S w'
       = (if supported (format options) then rev (zip ids oks) else []) ++ attempts S w
    /\ (supported (format options) = false -> oks = replicate (length ids) false).
Proof.
  induction ids as [|id ids IH]; intros i w.
  - exists [], w. cbn. rewrite !Nat.add_0_r. destruct (supported _); repeat split.
  - cbn [sessions_loop].
    destruct (getContactInfo_returns id w) as (info & w1 & E1).
    pose proof (getContactInfo_frames id w _ _ E1) as (Hs1 & Hf1 & Ha1).
    unfold mbind at 1, io_bind at 1. rewrite E1.
    match goal with |- context [report' ?p] =>
      destruct (report_returns p w1) as ([] & w2 & E2);
      pose proof (report_frames p w1 _ _ E2) as (Hs2 & Hf2 & Ha2)
    end.
    unfold mbind at 1, io_bind at 1. rewrite E2. cbv zeta.
    match goal with |- context [ensure_dir' ?d] =>
      destruct (ensure_dir_returns d w2) as ([] & w3 & E3);
      pose proof (ensure_dir_frames d w2 _ _ E3) as (Hs3 & Hf3 & Ha3)
    end.
    unfold mbind at 1, io_bind at 1. rewrite E3.
    match goal with |- context [exportOne' ?a ?b ?c] =>
      destruct (exportOne_step a b c w3) as (ok & w4 & E4 & Hs4 & Hf4 & Ha4 & Hu4)
    end.
    unfold mbind at 1, io_bind at 1. rewrite E4.
    unfold mbind at 1, io_bind at 1. unfold count at 1.
    match goal with
    | |- context [sessions_loop' (Datatypes.S i) n ids outputDir options ?w5] =>
      destruct (IH (Datatypes.S i) w5) as (oks & w' & E5 & Hl & Hs5 & Hf5 & Ha5 & Hu5)
    end.
    rewrite E5.
    exists (ok :: oks), w'. split; [reflexivity|].
    split; [cbn; lia|].
    unfold count_of in *. cbn [List.filter].
    destruct ok; cbn [eqb length] in *; cbn in Hs5, Hf5, Ha5.
    + repeat split; try lia.
      * rewrite Ha5, Ha4, Ha3, Ha2, Ha1. destruct (supported _); [|reflexivity].
        cbn [zip zip_with rev]. rewrite <- app_assoc. reflexivity.
      * intros Hu. specialize (Hu4 Hu). discriminate.
    + repeat split; try lia.
      * rewrite Ha5, Ha4, Ha3, Ha2, Ha1. destruct (supported _); [|reflexivity].
        cbn [zip zip_with rev]. rewrite <- app_assoc. reflexivity.
      * intros Hu. cbn [replicate]. f_equal. apply Hu5, Hu.
Qed.

(** The accounting of a batch in which nothing goes wrong outside the
    exporters: when no step outside the three exporters throws (the
    name and avatar lookups, directory creation, the progress
    callback) and every exporter call finishes, then after a successful
    connection check the batch resolves with [success] set and with the
    counts of the conversations that succeeded and failed, which add up
    to the number of ids; for a supported format the exporter calls made
    are one per id, in order, and for another format none is made and
    every id counts as failed. After a failed connection check it
    resolves with no success, with every id counted as failed, and with
    no exporter call made. *)
Theorem exportSessions_accounting ids outputDir options w :
  (forall conn w1,
      ensureConnected' (fresh_counters S w) = Some (Ret conn, w1) -> conn_success conn = true ->
      exists oks w',
        exportSessions' ids outputDir options w
        = Some (Ret {| success := true; sum_successCount := count_of true oks;
                       sum_failCount := count_of false oks; error := None |}, w')
        /\ length oks = length ids
        /\ (count_of true oks + count_of false oks = length ids)%nat
        /\ attempts S w'
           = (if supported (format options) then rev (zip ids oks) else []) ++ attempts S w
        /\ (supported (format options) = false -> oks = replicate (length ids) false))
  /\ (forall conn w1,
        ensureConnected' (fresh_counters S w) = Some (Ret conn, w1) -> conn_success conn = false ->
        exportSessions' ids outputDir options w
        = Some (Ret {| success := false; sum_successCount := 0;
                       sum_failCount := length ids;
                       error := Message <$> conn_error conn |}, w1)
        /\ attempts S w1 = attempts S w).
Proof.
  split; intros conn w1 Hconn Hok.
  - pose proof (ensureConnected_frames _ _ _ Hconn) as (Hs1 & Hf1 & Ha1). cbn in Hs1, Hf1, Ha1.
    destruct (ensure_dir_returns outputDir w1) as ([] & w2 & E2).
    pose proof (ensure_dir_frames outputDir w1 _ _ E2) as (Hs2 & Hf2 & Ha2).
    destruct (sessions_loop_counts (length ids) outputDir options ids O w2)
      as (oks & w3 & E3 & Hl & Hs3 & Hf3 & Ha3 & Hu3).
    match type of E3 with sessions_loop' _ ?n _ _ _ _ = _ =>
      destruct (report_returns
                  {| current := n; total := n; currentSession := [];
                     progress_phase := complete |} w3) as ([] & w4 & E4);
      pose proof (report_frames _ w3 _ _ E4) as (Hs4 & Hf4 & Ha4)
    end.
    exists oks, w4. split.
    + unfold exportSessions.
      unfold mbind at 1, io_bind at 1. unfold reset_counters at 1.
      unfold io_try. unfold mbind at 1, io_bind at 1. rewrite Hconn, Hok.
      cbn [negb]. unfold mbind at 1, io_bind at 1. rewrite E2.
      unfold mbind at 1, io_bind at 1. rewrite E3.
      unfold mbind at 1, io_bind at 1. rewrite E4.
      unfold mbind, io_bind, read, mret, io_ret.
      rewrite Hs4, Hs3, Hs2, Hs1, Hf4, Hf3, Hf2, Hf1. reflexivity.
    + repeat split; auto.
      * rewrite <- Hl. unfold count_of. clear. induction oks as [|[|] oks IH]; cbn; lia.
      * rewrite Ha4, Ha3, Ha2, Ha1. reflexivity.
  - pose proof (ensureConnected_frames _ _ _ Hconn) as (Hs1 & Hf1 & Ha1). cbn in Ha1.
    split; [|exact Ha1].
    unfold exportSessions.
    unfold mbind at 1, io_bind at 1. unfold reset_counters at 1.
    unfold io_try. unfold mbind at 1, io_bind at 1. rewrite Hconn, Hok.
    reflexivity.
Qed.
End Batch.

(** *** A directory that cannot be created *)

Section Abort.
Variable S : Type.
Variable config_get : jsstring -> S -> option jsstring.
Variable wcdb_open : jsstring -> jsstring -> jsstring -> S -> option bool * S.
Variable getDisplayNames : list jsstring -> S -> option mapResult * S.
Variable getAvatarUrls : list jsstring -> S -> option mapResult * S.
Variable existsSync : jsstring -> S -> bool.
Variable mkdirSync : jsstring -> S -> option S.
Variable path_join : list jsstring -> jsstring.
Variable onProgress : option (ExportProgress -> S -> option S).
Variable exportSessionToDetailedJson exportSessionToChatLab exportSessionToExcel :
  jsstring -> jsstring -> ExportOptions ->
  S * gmap jsstring contactInfo -> option (bool * (S * gmap jsstring contactInfo)).

Local Abbreviation getContactInfo' :=
  (getContactInfo S getDisplayNames getAvatarUrls).
Local Abbreviation report' :=
  (report S onProgress).
Local Abbreviation ensure_dir' :=
  (ensure_dir S existsSync mkdirSync).
Local Abbreviation exportOne' :=
  (exportOne S exportSessionToDetailedJson exportSessionToChatLab exportSessionToExcel).
Local Abbreviation sessions_loop' :=
  (sessions_loop S getDisplayNames getAvatarUrls existsSync mkdirSync path_join onProgress
    exportSessionToDetailedJson exportSessionToChatLab exportSessionToExcel).
Local Abbreviation ensureConnected' :=
  (ensureConnected S config_get wcdb_open).
Local Abbreviation exportSessions' :=
  (exportSessions S config_get wcdb_open getDisplayNames getAvatarUrls existsSync mkdirSync
    path_join onProgress exportSessionToDetailedJson exportSessionToChatLab
    exportSessionToExcel).

Lemma report_counts p : frames S (report' p).
Proof.
  unfold report. destruct onProgress; [apply frames_outside_may_throw|apply frames_ret].
Qed.

(** One exporter call leaves the counters as they are. *)
Lemma exportOne_counts id path options w ok w1 :
  exportOne' id path options w = Some (Ret ok, w1) ->
  successCount S w1 = successCount S w /\ failCount S w1 = failCount S w.
Proof.
  unfold exportOne, call.
  destruct (format options);
    try (intros H; apply io_ret_ret in H as [_ <-]; split; reflexivity);
    match goal with
    | |- match ?e with _ => _ end = _ -> _ =>
      destruct e as [[ok' [s' c']]|]; [|discriminate]
    end;
    intros H; inversion H; subst; split; reflexivity.
Qed.

(** The conversations gone through are all counted, once each. *)
Lemma sessions_loop_counted n outputDir options ids : forall i w w',
  sessions_loop' i n ids outputDir options w = Some (Ret (), w') ->
  (successCount S w' + failCount S w'
   = successCount S w + failCount S w + length ids)%nat.
Proof.
  induction ids as [|id ids IH]; intros i w w' H; cbn [sessions_loop] in H.
  - apply io_ret_ret in H as [_ <-]. cbn [length]. lia.
  - apply io_bind_ret in H as (info & w1 & E1 & H).
    apply (getContactInfo_frames S getDisplayNames getAvatarUrls) in E1 as (Hs1 & Hf1 & _).
    apply io_bind_ret in H as ([] & w2 & E2 & H).
    apply report_counts in E2 as (Hs2 & Hf2 & _).
    cbv zeta in H.
    apply io_bind_ret in H as ([] & w3 & E3 & H).
    apply (ensure_dir_frames S existsSync mkdirSync) in E3 as (Hs3 & Hf3 & _).
    apply io_bind_ret in H as (ok & w4 & E4 & H).
    apply exportOne_counts in E4 as (Hs4 & Hf4).
    apply io_bind_ret in H as ([] & w5 & E5 & H).
    apply IH in H. cbn [length].
    unfold count in E5. inversion E5; subst w5; clear E5.
    destruct ok; cbn [successCount failCount] in H; lia.
Qed.

(** The loop over a list and then another is the loop over both. *)
Lemma sessions_loop_app n outputDir options done rest : forall i w,
  sessions_loop' i n (done ++ rest) outputDir options w
  = match sessions_loop' i n done outputDir options w with
    | Some (Ret _, w') => sessions_loop' (i + length done) n rest outputDir options w'
    | r => r
    end.
Proof.
  induction done as [|id done IH]; intros i w.
  - cbn [app sessions_loop length]. rewrite Nat.add_0_r. reflexivity.
  - cbn [app sessions_loop length]. unfold mbind, io_bind.
    destruct (getContactInfo' id w) as [[[info| |] w1]|]; try reflexivity.
    destruct (report' _ w1) as [[[[]| |] w2]|]; try reflexivity.
    destruct (ensure_dir' _ w2) as [[[[]| |] w3]|]; try reflexivity.
    destruct (exportOne' _ _ _ w3) as [[[ok| |] w4]|]; try reflexivity.
    unfold count. rewrite IH. rewrite Nat.add_succ_r. reflexivity.
Qed.

(** C2, the failing path: the connection check has succeeded, the
    conversations [done] have gone through, and the directory of the
    next conversation is not there and cannot be created. The batch
    stops: it resolves without [success], with the counts reached so
    far, which add up to the number of conversations gone through and
    not to the number of ids; the exporter is called neither for this
    conversation nor for those after it. *)
Theorem exportSessions_aborts_on_mkdir done sessionId rest outputDir options
    w conn w1 w2 w3 info w4 w5 :
  let ids := done ++ sessionId :: rest in
  let sessionDir := path_join [outputDir; safeName (displayName info)] in
  ensureConnected' (fresh_counters S w) = Some (Ret conn, w1) ->
  conn_success conn = true ->
  ensure_dir' outputDir w1 = Some (Ret (), w2) ->
  sessions_loop' 0 (length ids) done outputDir options w2 = Some (Ret (), w3) ->
  getContactInfo' sessionId w3 = Some (Ret info, w4) ->
  report' {| current := length done + 1; total := length ids;
             currentSession := displayName info; progress_phase := exporting |} w4
  = Some (Ret (), w5) ->
  existsSync sessionDir (outside S w5) = false ->
  mkdirSync sessionDir (outside S w5) = None ->
  exportSessions' ids outputDir options w
  = Some (Ret {| success := false; sum_successCount := successCount S w3;
                 sum_failCount := failCount S w3; error := Some OfException |}, w5)
  /\ (successCount S w3 + failCount S w3 = length done)%nat
  /\ (length done < length ids)%nat
  /\ attempts S w5 = attempts S w3.
Proof.
  intros ids sessionDir Hconn Hok Hdir Hdone Hinfo Hreport Hnone Hmkdir.
  pose proof (ensureConnected_frames S config_get wcdb_open _ _ _ Hconn) as (Hs1 & Hf1 & _).
  cbn [fresh_counters successCount failCount] in Hs1, Hf1.
  pose proof (ensure_dir_frames S existsSync mkdirSync _ _ _ _ Hdir) as (Hs2 & Hf2 & _).
  pose proof (sessions_loop_counted _ _ _ _ _ _ _ Hdone) as Hcount.
  pose proof (getContactInfo_frames S getDisplayNames getAvatarUrls _ _ _ _ Hinfo)
    as (Hs4 & Hf4 & Ha4).
  pose proof (report_counts _ _ _ _ Hreport) as (Hs5 & Hf5 & Ha5).
  split; [|split; [lia|split; [|congruence]]].
  - unfold exportSessions.
    unfold mbind at 1, io_bind at 1. unfold reset_counters at 1.
    unfold io_try. unfold mbind at 1, io_bind at 1. rewrite Hconn, Hok.
    cbn [negb]. unfold mbind at 1, io_bind at 1. rewrite Hdir.
    unfold mbind at 1, io_bind at 1. fold ids.
    unfold ids at 2. rewrite sessions_loop_app. rewrite Hdone.
    cbn [sessions_loop Nat.add].
    unfold mbind at 1, io_bind at 1. rewrite Hinfo.
    unfold mbind at 1, io_bind at 1. rewrite Hreport.
    cbv zeta. fold sessionDir.
    unfold mbind at 1, io_bind at 1. unfold ensure_dir at 1.
    unfold mbind at 1, io_bind at 1. unfold read at 1. rewrite Hnone.
    unfold outside_may_throw at 1. rewrite Hmkdir.
    unfold mbind, io_bind, read, mret, io_ret.
    rewrite Hs5, Hs4, Hf5, Hf4. reflexivity.
  - unfold ids. rewrite length_app. cbn [length]. lia.
Qed.

End Abort.

(** Three conversations, the second of which fails in its exporter: two
    successes and one failure. *)
Lemma exportSessions_accounting_witness :
  exists oks w',
    Scenario.batch_one_failing
    = Some (Ret {| success := true; sum_successCount := count_of true oks;
                   sum_failCount := count_of false oks; error := None |}, w')
    /\ length oks = length Scenario.three_sessions
    /\ (count_of true oks + count_of false oks = length Scenario.three_sessions)%nat
    /\ attempts () w'
       = (if supported (format Scenario.chatlab_options)
          then rev (zip Scenario.three_sessions oks) else [])
         ++ attempts () Scenario.start
    /\ (supported (format Scenario.chatlab_options) = false ->
        oks = replicate (length Scenario.three_sessions) false).
Proof.
  eapply (proj1 (exportSessions_accounting () Scenario.config_get Scenario.wcdb_open
                   Scenario.no_names Scenario.no_names Scenario.nothing_exists
                   Scenario.mkdir_ok Scenario.join None Scenario.exporter_picky
                   Scenario.exporter_picky Scenario.exporter_picky
                   ltac:(intros; eexists; reflexivity)
                   ltac:(intros; eexists; reflexivity)
                   ltac:(intros; eexists; reflexivity)
                   ltac:(intros ? H; discriminate H)
                   ltac:(intros; repeat split; eexists; reflexivity)
                   Scenario.three_sessions (js "out") Scenario.chatlab_options
                   Scenario.start)).
  - vm_compute. reflexivity.
  - reflexivity.
Defined.

(** The batch of [Scenario.batch_one_throwing]: of three conversations
    the first goes through, the directory of the second cannot be
    created, and the third is never attempted; one success and no
    failure are reported for three ids. *)
Lemma exportSessions_aborts_on_mkdir_witness :
  exists w',
    Scenario.batch_one_throwing
    = Some (Ret {| success := false; sum_successCount := 1; sum_failCount := 0;
                   error := Some OfException |}, w')
    /\ attempts () w' = [(js "alice", true)]
    /\ (1 + 0 < length Scenario.three_sessions)%nat.
Proof.
  edestruct (exportSessions_aborts_on_mkdir () Scenario.config_get Scenario.wcdb_open
               Scenario.no_names Scenario.no_names Scenario.nothing_exists
               Scenario.mkdir_refusing Scenario.join None Scenario.exporter_ok
               Scenario.exporter_ok Scenario.exporter_ok
               [js "alice"] (js "bad") [js "carol"] (js "out") Scenario.chatlab_options
               Scenario.start) as (Hrun & _ & Hless & Hattempts).
  - vm_compute. reflexivity.
  - reflexivity.
  - vm_compute. reflexivity.
  - vm_compute. reflexivity.
  - vm_compute. reflexivity.
  - vm_compute. reflexivity.
  - vm_compute. reflexivity.
  - vm_compute. reflexivity.
  - eexists. split; [exact Hrun|]. split; [rewrite Hattempts; reflexivity|exact Hless].
Defined.

(** The sibling path: a conversation that fails inside its exporter is
    counted, and the batch goes on to the next one. *)
Example batch_with_one_failure :
  Scenario.observed Scenario.batch_one_failing
  = Some ({| success := true; sum_successCount := 2; sum_failCount := 1; error := None |},
          [(js "carol", true); (js "bad", false); (js "alice", true)]).
Proof. vm_compute. reflexivity. Qed.

(** *** The order of the messages in the three documents *)

Lemma renders_timestamps l out :
  Forall2 renders l out -> List.map timestamp out = List.map createTime l.
Proof.
  induction 1 as [|m o l out [Ht _] _ IH]; cbn; [reflexivity|]. rewrite Ht, IH. reflexivity.
Qed.

Lemma sorted_times {A} (time : A -> number) l :
  StronglySorted (fun a b => number_le (time a) (time b)) l ->
  StronglySorted number_le (List.map time l).
Proof.
  induction 1 as [|m l _ IH Hm]; cbn; constructor; [exact IH|].
  clear IH. induction Hm as [|m' l' Hle _ IHm]; cbn; constructor; [exact Hle|exact IHm].
Qed.

Section Documents.
Variable Date_local : Z -> Exporters.localTime.

Local Abbreviation formatted := (Exporters.formatTimestamp Date_local).

Section DetailedJson.
Variable S : Type.
Variable getDisplayNames : list jsstring -> S -> option mapResult * S.
Variable getAvatarUrls : list jsstring -> S -> option mapResult * S.
Variable getVoiceTranscript : jsstring -> jsstring -> S -> option (bool * option jsstring) * S.

Lemma toDetailedMessage_details sessionId options pushed msg (w : world S) d w' :
  Exporters.toDetailedMessage Date_local S getDisplayNames getAvatarUrls getVoiceTranscript
    sessionId options pushed msg w = Some (Ret d, w') ->
  Exporters.details formatted msg d.
Proof.
  unfold Exporters.toDetailedMessage. cbv zeta. intros H.
  apply io_bind_ret in H as (info & w1 & _ & H).
  apply io_bind_ret in H as (c1 & w2 & _ & H).
  apply io_bind_ret in H as (c2 & w3 & _ & H).
  apply io_ret_ret in H as [<- _]. repeat split.
Qed.

Lemma detailed_loop_details sessionId options rows : forall allMessages (w : world S) out w',
  Exporters.detailed_loop Date_local S getDisplayNames getAvatarUrls getVoiceTranscript
    sessionId options allMessages rows w = Some (Ret out, w') ->
  exists pushed, out = allMessages ++ pushed /\ Forall2 (Exporters.details formatted) rows pushed.
Proof.
  induction rows as [|msg rows IH]; intros allMessages w out w' H;
    cbn [Exporters.detailed_loop] in H.
  - apply io_ret_ret in H as [<- _]. exists []. rewrite app_nil_r. split; constructor.
  - apply io_bind_ret in H as (d & w1 & Hd & H).
    apply toDetailedMessage_details in Hd.
    apply IH in H as (pushed & -> & Hall).
    exists (d :: pushed). rewrite <- app_assoc. split; [reflexivity|].
    constructor; assumption.
Qed.

Lemma detailedMessages_details sessionId rows options (w : world S) out w' :
  Forall timed rows ->
  Exporters.detailedMessages Date_local S getDisplayNames getAvatarUrls getVoiceTranscript
    sessionId rows options w = Some (Ret out, w') ->
  Forall2 (Exporters.details formatted) (arranged byCreateTime rows) out.
Proof.
  intros Htimed H. unfold Exporters.detailedMessages in H.
  apply io_bind_ret in H as (allMessages & w1 & Hloop & H).
  apply detailed_loop_details in Hloop as (pushed & -> & Hall). cbn [app] in H.
  apply io_pure_ret in H as [H _]. unfold Array_sort in H.
  destruct (consistent Exporters.byDetailedTime pushed); [|discriminate H].
  inversion H; subst out; clear H.
  apply arranged_Forall2; [|exact Hall].
  intros a a' b b' (Ha & _) (Ha' & _).
  unfold byCreateTime, Exporters.byDetailedTime. rewrite Ha, Ha'. reflexivity.
Qed.

End DetailedJson.

Section Excel.
Variable S : Type.
Variable existsSync : jsstring -> S -> bool.
Variable mkdirSync : jsstring -> S -> option S.
Variable writeFileSync : jsstring -> buffer -> S -> option S.
Variable copyFileSync : jsstring -> jsstring -> S -> option S.
Variable path_join : list jsstring -> jsstring.
Variable path_extname : jsstring -> jsstring.
Variable path_dirname : jsstring -> jsstring.
Variable fileURLToPath : jsstring -> option jsstring.
Variable Buffer_from_base64 : jsstring -> buffer.
Variable decryptImage :
  jsstring -> option jsstring -> option jsstring -> S -> option imageResult * S.
Variable resolveCachedImage :
  jsstring -> option jsstring -> option jsstring -> S -> option imageResult * S.
Variable getVoiceData : jsstring -> jsstring -> S -> option voiceResult * S.
Variable get : bool -> jsstring -> option Z -> S -> Download.response * S.
Variable pipe_to_file : jsstring -> buffer -> S -> bool * S.
Variable getVoiceTranscript : jsstring -> jsstring -> S -> option (bool * option jsstring) * S.
Variable getContact : jsstring -> S -> option Exporters.contactResult * S.
Variable onProgress : option (ExportProgress -> S -> option S).

Local Abbreviation sheet_row' :=
  (Exporters.sheet_row Date_local S existsSync mkdirSync writeFileSync copyFileSync path_join
     path_extname fileURLToPath Buffer_from_base64 decryptImage resolveCachedImage
     getVoiceData get pipe_to_file getVoiceTranscript getContact).
Local Abbreviation sheet_loop' :=
  (Exporters.sheet_loop Date_local S existsSync mkdirSync writeFileSync copyFileSync path_join
     path_extname fileURLToPath Buffer_from_base64 decryptImage resolveCachedImage
     getVoiceData get pipe_to_file getVoiceTranscript getContact onProgress).
Local Abbreviation sheetRows' :=
  (Exporters.sheetRows Date_local S existsSync mkdirSync writeFileSync copyFileSync path_join
     path_extname path_dirname fileURLToPath Buffer_from_base64 decryptImage
     resolveCachedImage getVoiceData get pipe_to_file getVoiceTranscript getContact
     onProgress).

Lemma sheet_row_shows fuel sessionId sessionDir me isGroup sessionInfo myInfo options compact
    i mediaCache msg (w : Exporters.sheet_world S) row mediaCache' w' :
  sheet_row' fuel sessionId sessionDir me isGroup sessionInfo myInfo options compact i
    mediaCache msg w = Some (Ret (row, mediaCache'), w') ->
  Exporters.shows formatted (Datatypes.S i, msg) row.
Proof.
  unfold Exporters.sheet_row. intros H.
  apply io_bind_ret in H as ([mediaItem cache1] & w1 & _ & H).
  apply io_bind_ret in H as ([[[nickname wxid] remark] role] & w2 & _ & H).
  apply io_bind_ret in H as (c1 & w3 & _ & H).
  apply io_bind_ret in H as (c2 & w4 & _ & H).
  cbv zeta in H. apply io_ret_ret in H as [H _]. inversion H; subst; clear H.
  unfold Exporters.shows. cbn [fst snd].
  replace (Z.of_nat (Datatypes.S i)) with (Z.of_nat i + 1) by lia.
  destruct compact; eexists; reflexivity.
Qed.

Lemma sheet_loop_shows fuel sessionId sessionDir me isGroup sessionInfo myInfo options compact
    n sortedMessages :
  forall i mediaCache sheet (w : Exporters.sheet_world S) out w',
  sheet_loop' fuel sessionId sessionDir me isGroup sessionInfo myInfo options compact i n
    mediaCache sheet sortedMessages w = Some (Ret out, w') ->
  exists written,
    out = sheet ++ written
    /\ Forall2 (Exporters.shows formatted)
         (zip (seq (Datatypes.S i) (length sortedMessages)) sortedMessages) written.
Proof.
  induction sortedMessages as [|msg rest IH]; intros i mediaCache sheet w out w' H;
    cbn [Exporters.sheet_loop] in H.
  - apply io_ret_ret in H as [<- _]. exists []. rewrite app_nil_r. split; constructor.
  - apply io_bind_ret in H as ([row cache1] & w1 & Hrow & H).
    apply sheet_row_shows in Hrow.
    apply io_bind_ret in H as ([] & w2 & _ & H).
    apply IH in H as (written & -> & Hall).
    exists (row :: written). rewrite <- app_assoc. split; [reflexivity|].
    cbn [length seq zip zip_with]. constructor; assumption.
Qed.

Lemma sheetRows_shows fuel sessionId outputPath me isGroup sessionInfo myInfo options compact
    rows (w : Exporters.sheet_world S) out w' :
  Forall timed rows ->
  sheetRows' fuel sessionId outputPath me isGroup sessionInfo myInfo options compact rows w
  = Some (Ret out, w') ->
  Forall2 (Exporters.shows formatted)
    (zip (seq 1 (length rows)) (arranged byCreateTime rows)) out.
Proof.
  intros Htimed H. unfold Exporters.sheetRows in H.
  apply io_bind_ret in H as (sorted & w1 & Hsort & H).
  apply io_pure_ret in Hsort as [Hsort _].
  rewrite (sortMessages_timed rows Htimed) in Hsort. inversion Hsort; subst sorted.
  apply sheet_loop_shows in H as (written & -> & Hall). cbn [app].
  rewrite <- (Permutation_length (arranged_perm byCreateTime rows)) in Hall. exact Hall.
Qed.

End Excel.

End Documents.

Lemma chatLabMessages_renders S getVoiceTranscript sessionId rows memberSet options
    (w : world S) out w' :
  Forall timed rows ->
  chatLabMessages S getVoiceTranscript sessionId rows memberSet options w
  = Some (Ret out, w') ->
  Forall2 renders (arranged byCreateTime rows) out.
Proof.
  intros Htimed H. unfold chatLabMessages in H.
  apply io_bind_ret in H as (sorted & w1 & Hsort & H).
  apply io_pure_ret in Hsort as [Hsort _].
  rewrite (sortMessages_timed rows Htimed) in Hsort. inversion Hsort; subst sorted.
  eapply mapM_renders. exact H.
Qed.

Lemma details_times formatted l out :
  Forall2 (Exporters.details formatted) l out ->
  List.map Exporters.d_createTime out = List.map createTime l.
Proof.
  induction 1 as [|m o l out [Ht _] _ IH]; cbn; [reflexivity|]. rewrite Ht, IH. reflexivity.
Qed.



(** Four rows fetched out of order, two of them of the same second, as
    the three documents hold them. *)
Example fetched_rows_exported_in_order :
  (fun r => match r with
            | Some (Ret out, _) => Some (List.map (fun o => (timestamp o, msg_content o)) out)
            | _ => None
            end)
    (chatLabMessages () Scenario.no_transcript (js "1234@chatroom") Scenario.fetched
       Scenario.spoken Scenario.chatlab_options Scenario.start)
  = Some [(Num 10, Some (js "first")); (Num 10, Some (js "also first"));
          (Num 20, Some (js "second")); (Num 30, Some (js "third"))].
Proof. vm_compute. reflexivity. Qed.

Example fetched_rows_detailed_in_order :
  (fun r => match r with
            | Some (Ret out, _) =>
              Some (List.map (fun d => (Exporters.d_localId d, Exporters.d_createTime d,
                                        Exporters.d_content d)) out)
            | _ => None
            end) Scenario.detailed_fetched
  = Some [(2%nat, Num 10, Some (js "first")); (4%nat, Num 10, Some (js "also first"));
          (3%nat, Num 20, Some (js "second")); (1%nat, Num 30, Some (js "third"))].
Proof. vm_compute. reflexivity. Qed.

Example fetched_rows_in_the_sheet :
  (fun r => match r with
            | Some (Ret out, _) => Some (List.map (fun row => (row !! 0%nat, row !! 4%nat)) out)
            | _ => None
            end) Scenario.sheet_fetched
  = Some [(Some (Exporters.Number 1), Some (Exporters.Text (js "first")));
          (Some (Exporters.Number 2), Some (Exporters.Text (js "also first")));
          (Some (Exporters.Number 3), Some (Exporters.Text (js "second")));
          (Some (Exporters.Number 4), Some (Exporters.Text (js "third")))].
Proof. vm_compute. reflexivity. Qed.

(** A row without a time has no place in a chronological sequence. *)
Lemma undated_unsortable (l out : list message) :
  Permutation l out -> (2 <= length l)%nat ->
  Exists (fun m => createTime m = NaN) l ->
  ~ StronglySorted earlier out.
Proof.
  intros Hperm Hlen Hnan Hsorted.
  rewrite (Permutation_length Hperm) in Hlen. rewrite Hperm in Hnan. clear Hperm l.
  destruct Hsorted as [|a out Hs Ha]; [cbn in Hlen; lia|].
  destruct out as [|b out]; [cbn in Hlen; lia|].
  apply Forall_cons in Ha as [Hab Ha].
  apply Exists_cons in Hnan as [Hnan|Hnan].
  - unfold earlier in Hab. rewrite Hnan in Hab. exact Hab.
  - apply Exists_exists in Hnan as (m & Hm & Hnan).
    assert (Him : earlier a m).
    { apply elem_of_cons in Hm as [->|Hm]; [exact Hab|].
      rewrite Forall_forall in Ha. apply Ha, Hm. }
    unfold earlier in Him. rewrite Hnan in Him. destruct (createTime a); exact Him.
Qed.


Example undated_rows_are_not_sorted :
  (fun r => match r with
            | Some (Ret c, _) => Some (sortMessages (Collector.rows c))
            | _ => None
            end) Scenario.undated_collection
  = Some Unmodelled.
Proof. vm_compute. reflexivity. Qed.

End OrchestratorFacts.


(** ** Runs of a character class *)

Module RunFacts.
Import JS Regex.

Section Run.
Variable ok : Z -> bool.

Lemma prev_after_cons prev c w : prev_after (Some c) w = prev_after prev (c :: w).
Proof. destruct w; reflexivity. Qed.

(** Whatever a quantified class matched is a run of its characters. *)
Lemma run_sound greedy k fuel : forall mn s prev caps z,
  RepeatMatcher (step ok) [] greedy k fuel mn None (MState s prev caps) = Some z ->
  exists w rest,
    s = w ++ rest /\ Forall (fun c => ok c = true) w /\ (mn <= length w)%nat
    /\ k (MState rest (prev_after prev w) caps) = Some z.
Proof.
  induction fuel as [|fuel IH]; intros mn s prev caps z; [discriminate|].
  cbn [RepeatMatcher]. cbv zeta.
  assert (Hstep :
    step ok (clear_caps [] (MState s prev caps))
      (fun y => if (mn =? 0)%nat && (length (m_rest y) =? length (m_rest (MState s prev caps)))%nat
                then None
                else RepeatMatcher (step ok) [] greedy k fuel (pred mn) (pred <$> None) y)
    = Some z ->
    exists w rest,
      s = w ++ rest /\ Forall (fun c => ok c = true) w /\ (mn <= length w)%nat
      /\ k (MState rest (prev_after prev w) caps) = Some z).
  { unfold step, clear_caps. cbn [m_rest m_prev m_caps foldr].
    destruct s as [|c s]; [discriminate|]. destruct (ok c) eqn:Hc; [|discriminate].
    cbn [length]. replace (length s =? S (length s))%nat with false
      by (symmetry; apply Nat.eqb_neq; lia).
    rewrite andb_false_r. intros H. apply IH in H as (w & rest & -> & Hw & Hmn & Hk).
    exists (c :: w), rest. repeat split.
    - constructor; assumption.
    - cbn [length]. lia.
    - rewrite <- prev_after_cons. exact Hk. }
  assert (Hstay : mn = 0%nat -> k (MState s prev caps) = Some z ->
    exists w rest,
      s = w ++ rest /\ Forall (fun c => ok c = true) w /\ (mn <= length w)%nat
      /\ k (MState rest (prev_after prev w) caps) = Some z).
  { intros -> H. exists [], s. repeat split; [constructor|cbn; lia|exact H]. }
  destruct (Nat.ltb_spec 0 mn) as [Hpos|Hzero]; [exact Hstep|].
  assert (mn = 0%nat) as Hmn by lia.
  destruct greedy; intros H; apply MatcherFacts.orelse_Some in H as [H|H]; auto.
Qed.

(** A greedy quantified class takes the whole run when what follows
    matches there. *)
Lemma run_greedy k caps z : forall w fuel mn rest prev,
  Forall (fun c => ok c = true) w -> (mn <= length w)%nat ->
  (length w < fuel)%nat ->
  match rest with c :: _ => ok c = false | [] => True end ->
  k (MState rest (prev_after prev w) caps) = Some z ->
  RepeatMatcher (step ok) [] true k fuel mn None (MState (w ++ rest) prev caps) = Some z.
Proof.
  induction w as [|c w IH]; intros fuel mn rest prev Hw Hmn Hfuel Hrest Hk.
  - destruct fuel as [|fuel]; [cbn in Hfuel; lia|]. cbn in Hmn.
    assert (mn = 0%nat) as -> by lia. cbn [RepeatMatcher]. cbv zeta.
    cbn [Nat.ltb Nat.leb app].
    assert (Hnone : forall d, step ok (clear_caps [] (MState rest prev caps)) d = None).
    { intros d. unfold step, clear_caps. cbn [m_rest m_prev m_caps foldr].
      destruct rest as [|c rest]; [reflexivity|]. rewrite Hrest. reflexivity. }
    rewrite Hnone. exact Hk.
  - destruct fuel as [|fuel]; [cbn in Hfuel; lia|].
    apply Forall_cons in Hw as [Hc Hw]. cbn [length] in Hmn, Hfuel.
    cbn [RepeatMatcher]. cbv zeta.
    assert (Hd :
      step ok (clear_caps [] (MState ((c :: w) ++ rest) prev caps))
        (fun y => if (mn =? 0)%nat
                     && (length (m_rest y)
                         =? length (m_rest (MState ((c :: w) ++ rest) prev caps)))%nat
                  then None
                  else RepeatMatcher (step ok) [] true k fuel (pred mn) (pred <$> None) y)
      = Some z).
    { unfold step, clear_caps. cbn [m_rest m_prev m_caps foldr app]. rewrite Hc.
      cbn [length]. replace (length (w ++ rest) =? S (length (w ++ rest)))%nat with false
        by (symmetry; apply Nat.eqb_neq; lia).
      rewrite andb_false_r. apply IH; try assumption; lia. }
    destruct (0 <? mn)%nat; [exact Hd|]. rewrite Hd. reflexivity.
Qed.

End Run.

Lemma forallb_Forall (f : Z -> bool) l :
  forallb f l = true <-> Forall (fun c => f c = true) l.
Proof.
  induction l as [|c l IH]; cbn [forallb]; [split; [constructor|reflexivity]|].
  rewrite andb_true_iff, Forall_cons, IH. reflexivity.
Qed.

(** A pattern anchored at the start matches at the start or nowhere. *)
Lemma search_anchored body n icase s : forall c idx,
  search (RegExp (Seq Bol body) n icase) (Some c) s idx = None.
Proof.
  induction s as [|d s IH]; intros c idx; cbn [search]; unfold match_here; cbn; [reflexivity|].
  apply IH.
Qed.

Lemma exec_anchored body n icase s :
  exec (RegExp (Seq Bol body) n icase) s
  = match_here (RegExp (Seq Bol body) n icase) None s O.
Proof.
  unfold exec. destruct s as [|c s]; cbn [search].
  - destruct (match_here _ _ _ _); reflexivity.
  - destruct (match_here _ _ _ _); [reflexivity|]. apply search_anchored.
Qed.

(** [/^[class]+$/.test(s)]: [s] is not empty and all of it is in the
    class. *)
Lemma test_all_in_class items s :
  test (RegExp (Seq Bol (Seq (Repeat 1 None true (Class false items)) Eol)) 0 false) s
  = negb (bool_decide (s = [])) && forallb (class_matches false false items) s.
Proof.
  unfold test. rewrite exec_anchored. unfold match_here.
  cbn [re_icase re_body re_groups rmatch m_prev m_rest groups_of].
  set (k := fun y : mstate => match m_rest y with [] => Some y | _ :: _ => None end).
  set (x := MState s None _).
  destruct (RepeatMatcher _ _ _ _ _ _ _ x) as [z|] eqn:E.
  - apply (run_sound (class_matches false false items)) in E
      as (w & rest & -> & Hw & Hlen & Hk).
    unfold k in Hk. cbn [m_rest] in Hk. destruct rest; [|discriminate].
    rewrite app_nil_r. symmetry.
    assert (Hall : forallb (class_matches false false items) w = true)
      by (apply forallb_Forall; exact Hw).
    rewrite Hall. destruct w; [cbn in Hlen; lia|].
    rewrite bool_decide_eq_false_2 by discriminate. 
    rewrite bool_decide_eq_true_2; [reflexivity|]. eexists; reflexivity.
  - rewrite bool_decide_eq_false_2 by (intros [? ?]; discriminate).
    symmetry. apply not_true_is_false. intros H. apply andb_prop in H as [Hne Hall].
    destruct s as [|c s]; [discriminate|].
    assert (Hw : Forall (fun c => class_matches false false items c = true) (c :: s))
      by (apply forallb_Forall; exact Hall).
    pose proof (run_greedy (class_matches false false items) k
                  (replicate 1 None) (MState [] (last (c :: s)) (replicate 1 None))
                  (c :: s) (S (1 + length (c :: s))) 1%nat [] None Hw) as R.
    rewrite app_nil_r in R. unfold x in E. cbn [m_rest] in E.
    assert (Hsome : None = Some (MState [] (last (c :: s)) (replicate 1 None)));
      [|discriminate Hsome].
    rewrite <- E. apply R; [cbn [length]; lia|lia|exact I|reflexivity].
Qed.

End RunFacts.

(** ** The decoder on text *)

Module WireFacts.
Import JS Regex Decoder Wire RunFacts.

Lemma mod_of_nat (n m : nat) :
  m <> 0%nat -> (Z.of_nat n mod Z.of_nat m =? 0) = (n mod m =? 0)%nat.
Proof.
  intros Hm. rewrite <- Nat2Z.inj_mod.
  destruct (Nat.eqb_spec (n mod m) 0) as [->|Hne]; [reflexivity|].
  apply Z.eqb_neq. lia.
Qed.

Ltac bool_cases :=
  repeat match goal with
         | |- context [?a <=? ?b] => destruct (a <=? b)
         | |- context [?a =? ?b] => destruct (a =? b)
         end; reflexivity.

Lemma looksLikeHex_spec (s : jsstring) :
  looksLikeHex s
  = (length s mod 2 =? 0)%nat && negb (bool_decide (s = [])) && forallb is_hex_digit s.
Proof.
  unfold looksLikeHex.
  assert (Hrx : rx "^[0-9a-fA-F]+$" ""
          = RegExp (Seq Bol (Seq (Repeat 1 None true
                      (Class false [CRange 48 57; CRange 97 102; CRange 65 70])) Eol)) 0 false)
    by (vm_compute; reflexivity).
  rewrite Hrx, test_all_in_class.
  assert (Hcls : forall l, forallb (class_matches false false
                     [CRange 48 57; CRange 97 102; CRange 65 70]) l = forallb is_hex_digit l).
  { induction l as [|c l IH]; [reflexivity|]. cbn [forallb]. rewrite IH. f_equal.
    unfold class_matches, is_hex_digit, is_digit. cbn [existsb xorb item_matches andb canon].
    bool_cases. }
  rewrite Hcls. change 2 with (Z.of_nat 2). rewrite mod_of_nat by discriminate.
  destruct (_ =? _)%nat; reflexivity.
Qed.

Lemma looksLikeBase64_spec (s : jsstring) :
  looksLikeBase64 s
  = (length s mod 4 =? 0)%nat && negb (bool_decide (s = [])) && forallb is_base64_char s.
Proof.
  unfold looksLikeBase64.
  assert (Hrx : rx "^[A-Za-z0-9+/=]+$" ""
          = RegExp (Seq Bol (Seq (Repeat 1 None true
                      (Class false [CRange 65 90; CRange 97 122; CRange 48 57;
                                    CChar 43; CChar 47; CChar 61])) Eol)) 0 false)
    by (vm_compute; reflexivity).
  rewrite Hrx, test_all_in_class.
  assert (Hcls : forall l, forallb (class_matches false false
                     [CRange 65 90; CRange 97 122; CRange 48 57;
                      CChar 43; CChar 47; CChar 61]) l = forallb is_base64_char l).
  { induction l as [|c l IH]; [reflexivity|]. cbn [forallb]. rewrite IH. f_equal.
    unfold class_matches, is_base64_char, is_digit, is_upper, is_lower.
    cbn [existsb xorb item_matches andb canon].
    rewrite (Z.eqb_sym 43 c), (Z.eqb_sym 47 c), (Z.eqb_sym 61 c). bool_cases. }
  rewrite Hcls. change 4 with (Z.of_nat 4). rewrite mod_of_nat by discriminate.
  destruct (_ =? _)%nat; reflexivity.
Qed.

Lemma hex_is_base64 c : is_hex_digit c = true -> is_base64_char c = true.
Proof.
  unfold is_hex_digit, is_base64_char, is_digit, is_upper, is_lower.
  intros H.
  repeat match goal with
         | H : context [?a <=? ?b] |- _ => destruct (Z.leb_spec a b)
         end; cbn in H; try discriminate H;
  repeat match goal with
         | |- context [?a <=? ?b] => destruct (Z.leb_spec a b)
         end; cbn; try reflexivity; lia.
Qed.

Section Decoder.
Variable fzstd_decompress : buffer -> option buffer.
Variable Buffer_from_base64 : jsstring -> buffer.

(** Text with a character outside the base64 alphabet is not taken for
    an encoding: the decoder returns it as it is. *)
Theorem decodeMaybeCompressed_plain_text (raw : jsstring) (c : Z) :
  c ∈ raw -> is_base64_char c = false ->
  decodeMaybeCompressed fzstd_decompress Buffer_from_base64 (VString raw) = Ret raw.
Proof.
  intros Hin Hc.
  assert (Hb : forallb is_base64_char raw = false).
  { apply not_true_is_false. intros H. apply forallb_Forall in H.
    rewrite Forall_forall in H. rewrite (H c Hin) in Hc. discriminate Hc. }
  assert (Hh : forallb is_hex_digit raw = false).
  { apply not_true_is_false. intros H. apply forallb_Forall in H.
    rewrite Forall_forall in H. rewrite (hex_is_base64 c (H c Hin)) in Hc. discriminate Hc. }
  unfold decodeMaybeCompressed. destruct raw as [|d raw]; [reflexivity|].
  rewrite looksLikeHex_spec, looksLikeBase64_spec, Hb, Hh, !andb_false_r. reflexivity.
Qed.

Lemma hex_value_digit c : is_hex_digit c = true -> exists v, hex_value c = Some v.
Proof.
  unfold is_hex_digit, hex_value.
  destruct (is_digit c); [eauto|].
  destruct ((0x41 <=? c) && (c <=? 0x46)); [eauto|].
  destruct ((0x61 <=? c) && (c <=? 0x66)); [eauto|discriminate].
Qed.

Lemma looksLikeHex_accepts (raw : jsstring) :
  raw <> [] -> (length raw mod 2 = 0)%nat -> Forall (fun c => is_hex_digit c = true) raw ->
  looksLikeHex raw = true.
Proof.
  intros Hne Heven Hhex. rewrite looksLikeHex_spec, Heven.
  rewrite (proj2 (forallb_Forall _ _) Hhex).
  rewrite bool_decide_eq_false_2 by exact Hne. reflexivity.
Qed.

Lemma Buffer_from_hex_some (raw : jsstring) :
  raw <> [] -> (length raw mod 2 = 0)%nat -> Forall (fun c => is_hex_digit c = true) raw ->
  (0 <? length (Buffer_from_hex raw))%nat = true.
Proof.
  intros Hne Heven Hhex. destruct raw as [|c [|d raw]]; [congruence|discriminate Heven|].
  apply Forall_cons in Hhex as [Hc Hhex]. apply Forall_cons in Hhex as [Hd _].
  cbn [Buffer_from_hex].
  destruct (hex_value_digit c Hc) as [x ->], (hex_value_digit d Hd) as [y ->].
  reflexivity.
Qed.

(** A string of hexadecimal digits, an even number of them, is decoded
    as the bytes it spells, also when it was meant as text: [1234] is
    the two bytes 0x12 and 0x34. *)
Theorem decodeMaybeCompressed_hex (raw : jsstring) :
  raw <> [] -> (length raw mod 2 = 0)%nat -> Forall (fun c => is_hex_digit c = true) raw ->
  decodeMaybeCompressed fzstd_decompress Buffer_from_base64 (VString raw)
  = decodeBinaryContent fzstd_decompress (Buffer_from_hex raw).
Proof.
  intros Hne Heven Hhex. unfold decodeMaybeCompressed.
  rewrite looksLikeHex_accepts, Buffer_from_hex_some by assumption.
  destruct raw; [congruence|reflexivity].
Qed.

(** A string in the base64 alphabet, a multiple of four long, that is
    not all hexadecimal digits is decoded as base64; the text itself is
    never the result. *)
Theorem decodeMaybeCompressed_base64 (raw : jsstring) (c : Z) :
  raw <> [] -> (length raw mod 4 = 0)%nat ->
  Forall (fun c => is_base64_char c = true) raw ->
  c ∈ raw -> is_hex_digit c = false ->
  decodeMaybeCompressed fzstd_decompress Buffer_from_base64 (VString raw)
  = decodeBinaryContent fzstd_decompress (Buffer_from_base64 raw).
Proof.
  intros Hne Hlen Hb64 Hin Hc. unfold decodeMaybeCompressed.
  destruct raw as [|d raw]; [congruence|].
  assert (Hh : forallb is_hex_digit (d :: raw) = false).
  { apply not_true_is_false. intros H. apply forallb_Forall in H.
    rewrite Forall_forall in H. rewrite (H c Hin) in Hc. discriminate Hc. }
  rewrite looksLikeHex_spec, looksLikeBase64_spec, Hh, Hlen, andb_false_r.
  rewrite (proj2 (forallb_Forall _ _) Hb64).
  rewrite bool_decide_eq_false_2 by discriminate. cbn [negb andb Nat.eqb].
  destruct (DecoderFacts.decodeBinaryContent_returns fzstd_decompress
              (Buffer_from_base64 (d :: raw))) as [r ->].
  reflexivity.
Qed.

Lemma hex_digit_of_ok n : 0 <= n < 16 ->
  is_hex_digit (hex_digit_of n) = true /\ hex_value (hex_digit_of n) = Some n.
Proof.
  intros H. unfold hex_digit_of, is_hex_digit, hex_value, is_digit.
  destruct (Z.ltb_spec n 10) as [Hlt|Hge].
  - replace ((0x30 <=? 0x30 + n) && (0x30 + n <=? 0x39)) with true
      by (symmetry; apply andb_true_intro; split; apply Z.leb_le; lia).
    split; [reflexivity|]. f_equal. lia.
  - replace ((0x30 <=? 0x61 + (n - 10)) && (0x61 + (n - 10) <=? 0x39)) with false
      by (symmetry; apply andb_false_iff; right; apply Z.leb_gt; lia).
    replace ((0x41 <=? 0x61 + (n - 10)) && (0x61 + (n - 10) <=? 0x46)) with false
      by (symmetry; apply andb_false_iff; right; apply Z.leb_gt; lia).
    replace ((0x61 <=? 0x61 + (n - 10)) && (0x61 + (n - 10) <=? 0x66)) with true
      by (symmetry; apply andb_true_intro; split; apply Z.leb_le; lia).
    split; [reflexivity|]. f_equal. lia.
Qed.

Lemma toString_hex_digits data :
  Forall is_byte data -> Forall (fun c => is_hex_digit c = true) (toString_hex data).
Proof.
  induction 1 as [|b data Hb _ IH]; [constructor|].
  unfold toString_hex. cbn [flat_map app]. unfold is_byte in Hb.
  constructor; [apply hex_digit_of_ok; apply Z.div_pos || idtac|constructor; [|exact IH]].
  - split; [apply Z.div_pos; lia|apply Z.div_lt_upper_bound; lia].
  - apply hex_digit_of_ok. apply Z.mod_pos_bound. lia.
Qed.

Lemma toString_hex_length data : length (toString_hex data) = (2 * length data)%nat.
Proof.
  induction data as [|b data IH]; [reflexivity|].
  unfold toString_hex in *. cbn [flat_map app length]. rewrite IH. lia.
Qed.

(** Hexadecimal text read back gives the bytes. *)
Lemma Buffer_from_hex_toString_hex data :
  Forall is_byte data -> Buffer_from_hex (toString_hex data) = data.
Proof.
  induction 1 as [|b data Hb _ IH]; [reflexivity|].
  unfold toString_hex in *. cbn [flat_map app Buffer_from_hex]. unfold is_byte in Hb.
  rewrite (proj2 (hex_digit_of_ok (b / 16)
             (conj (Z.div_pos b 16 ltac:(lia) ltac:(lia))
                   (Z.div_lt_upper_bound b 16 16 ltac:(lia) ltac:(lia))))).
  rewrite (proj2 (hex_digit_of_ok (b mod 16) (Z.mod_pos_bound b 16 ltac:(lia)))).
  rewrite IH. f_equal. pose proof (Z.div_mod b 16). lia.
Qed.

(** The UTF-8 decoding of a buffer that is not empty is not empty. *)
Lemma utf8_code_points_nonempty bs : forall st,
  bs <> [] \/ (exists n cp lo hi, st = U8Cont n cp lo hi) ->
  utf8_code_points st bs <> [].
Proof.
  induction bs as [|b bs IH]; intros st H.
  - destruct H as [H|(n & cp & lo & hi & ->)]; [congruence|]. discriminate.
  - clear H. cbn [utf8_code_points].
    assert (Hlead : forall out st', u8_lead b = (out, st') ->
              out <> [] \/ exists n cp lo hi, st' = U8Cont n cp lo hi).
    { unfold u8_lead. intros out st' E.
      repeat match type of E with
             | (if ?c then _ else _) = _ => destruct c
             end; inversion E; subst; eauto 10; left; discriminate. }
    destruct st as [|needed cp lower upper].
    + destruct (u8_lead b) as [out st'] eqn:E.
      destruct (Hlead out st' eq_refl) as [Hout|Hst].
      * destruct out; [congruence|discriminate].
      * intros Happ. apply app_eq_nil in Happ as [_ Happ]. revert Happ. apply IH. right. exact Hst.
    + destruct ((lower <=? b) && (b <=? upper)).
      * cbv zeta. destruct needed as [|[|n]]; try discriminate.
        apply IH. right. eauto 10.
      * destruct (u8_lead b) as [out st']. discriminate.
Qed.

Lemma toString_utf8_nonempty data : data <> [] -> toString_utf8 data <> [].
Proof.
  intros H. unfold toString_utf8.
  pose proof (utf8_code_points_nonempty data U8Start (or_introl H)) as Hcp.
  destruct (utf8_code_points U8Start data) as [|cp cps]; [congruence|].
  cbn [map concat]. unfold utf16_units. destruct (cp <? 0x10000); discriminate.
Qed.

Lemma filter_none {A} (p : A -> bool) l :
  length (List.filter p l) = 0%nat -> List.filter (fun a => negb (p a)) l = l.
Proof.
  induction l as [|a l IH]; [reflexivity|]. cbn [List.filter].
  destruct (p a); [discriminate|]. cbn [negb]. intros H. rewrite IH by exact H. reflexivity.
Qed.

(** The UTF-8 text of well-formed bytes is what the binary decoder
    returns for them. *)
Lemma decodeBinaryContent_well_formed data :
  data <> [] -> begins_with_magic data = false ->
  count_replacement (toString_utf8 data) = 0%nat ->
  decodeBinaryContent fzstd_decompress data = Ret (toString_utf8 data).
Proof.
  intros Hne Hm Hcount. unfold decodeBinaryContent.
  destruct data as [|b data]; [congruence|]. rewrite Hm. cbv zeta.
  unfold replacementCount.
  rewrite DecoderFacts.rx_replacement, RegexFacts.match_all_char_length,
    RegexFacts.replace_all_char.
  unfold count_replacement in Hcount. rewrite Hcount.
  pose proof (toString_utf8_nonempty (b :: data) Hne) as Hlen.
  destruct (toString_utf8 (b :: data)) as [|u us] eqn:E; [congruence|].
  cbn [length Nat.mul Nat.ltb Nat.leb]. rewrite filter_none by exact Hcount. reflexivity.
Qed.

(** Round trip: well-formed UTF-8 bytes written in hexadecimal, as
    [Buffer.prototype.toString('hex')] writes them, decode to their
    text. *)
Theorem decodeMaybeCompressed_hex_round_trip (data : buffer) :
  data <> [] -> Forall is_byte data -> begins_with_magic data = false ->
  count_replacement (toString_utf8 data) = 0%nat ->
  decodeMaybeCompressed fzstd_decompress Buffer_from_base64 (VString (toString_hex data))
  = Ret (toString_utf8 data).
Proof.
  intros Hne Hbytes Hm Hcount.
  assert (Hraw : toString_hex data <> []) by (destruct data; [congruence|discriminate]).
  assert (Heven : (length (toString_hex data) mod 2 = 0)%nat).
  { rewrite toString_hex_length, Nat.mul_comm. apply Nat.Div0.mod_mul. }
  pose proof (toString_hex_digits data Hbytes) as Hhex.
  unfold decodeMaybeCompressed.
  rewrite looksLikeHex_accepts, Buffer_from_hex_some by assumption.
  rewrite Buffer_from_hex_toString_hex by exact Hbytes.
  destruct (toString_hex data); [congruence|].
  apply decodeBinaryContent_well_formed; assumption.
Qed.

End Decoder.

(** A sentence: the blanks are not of the base64 alphabet. *)
Lemma decodeMaybeCompressed_plain_text_witness :
  decodeMaybeCompressed Scenario.zstd_fails Scenario.base64_of_one
    (VString (js "see you at 8"))
  = Ret (js "see you at 8").
Proof.
  apply (decodeMaybeCompressed_plain_text _ _ _ 0x20); [|reflexivity].
  apply (bool_decide_unpack _). vm_compute. exact I.
Defined.

(** A year as a message: the bytes 0x20 and 0x24, a blank and a dollar
    sign. *)
Lemma decodeMaybeCompressed_hex_witness :
  decodeMaybeCompressed Scenario.zstd_fails Scenario.base64_of_one (VString (js "2024"))
  = Ret (js " $").
Proof.
  rewrite decodeMaybeCompressed_hex;
    [vm_compute; reflexivity|discriminate|reflexivity|vm_compute; repeat constructor].
Defined.

(** The text [hi!] in base64. *)
Lemma decodeMaybeCompressed_base64_witness :
  decodeMaybeCompressed Scenario.zstd_fails Scenario.base64_of_one (VString (js "aGkh"))
  = Ret (js "hi!").
Proof.
  rewrite (decodeMaybeCompressed_base64 _ _ _ 0x47);
    [vm_compute; reflexivity|discriminate|reflexivity|vm_compute; repeat constructor
    |apply (bool_decide_unpack _); vm_compute; exact I|reflexivity].
Defined.

(** The bytes of [hi] written as [6869]. *)
Lemma decodeMaybeCompressed_hex_round_trip_witness :
  decodeMaybeCompressed Scenario.zstd_fails Scenario.base64_of_one
    (VString (toString_hex (bytes_of_string "hi")))
  = Ret (js "hi").
Proof.
  apply (decodeMaybeCompressed_hex_round_trip Scenario.zstd_fails Scenario.base64_of_one
           (bytes_of_string "hi"));
    [discriminate|repeat constructor; cbn; lia|reflexivity|reflexivity].
Defined.

End WireFacts.

(** ** The contact cache *)

Module CacheFacts.
Import JS Identity Orchestrator.

Section WithDatabase.
Variable S : Type.
Variable getDisplayNames : list jsstring -> S -> option mapResult * S.
Variable getAvatarUrls : list jsstring -> S -> option mapResult * S.

Local Abbreviation getContactInfo' := (getContactInfo S getDisplayNames getAvatarUrls).

(** A name that is in the cache is answered from it: the database is
    not asked and nothing changes. *)
Lemma getContactInfo_hit username info (w : world S) :
  contactCache S w !! username = Some info ->
  getContactInfo' username w = Some (Ret info, w).
Proof.
  intros H. unfold getContactInfo, mbind, io_bind, read. rewrite H. reflexivity.
Qed.

(** What a call returns is in the cache afterwards. *)
Lemma getContactInfo_stores username info (w w' : world S) :
  getContactInfo' username w = Some (Ret info, w') ->
  contactCache S w' !! username = Some info.
Proof.
  unfold getContactInfo, mbind, io_bind, read.
  destruct (contactCache S w !! username) as [cached|] eqn:E.
  - intros H. inversion H; subst. exact E.
  - unfold awaiting_all.
    destruct (getDisplayNames [username] (outside S w)) as [a s1].
    destruct (getAvatarUrls [username] s1) as [b s2].
    destruct a as [names|], b as [urls|]; try discriminate.
    unfold cache_set, mret, io_ret. intros H. inversion H; subst. cbn [contactCache].
    apply lookup_insert_eq.
Qed.

(** Asking for a contact twice is asking once: the second call gives
    the first call's answer and leaves the world as the first left it,
    and when the first call throws there is no second. *)
Theorem getContactInfo_twice username (w : world S) :
  (first ← getContactInfo' username; second ← getContactInfo' username;
   mret (first, second)) w
  = (first ← getContactInfo' username; mret (first, first)) w.
Proof.
  unfold mbind at 1 3, io_bind at 1 3.
  destruct (getContactInfo' username w) as [[[info| |] w1]|] eqn:E; try reflexivity.
  unfold mbind, io_bind.
  rewrite (getContactInfo_hit username info w1 (getContactInfo_stores _ _ _ _ E)).
  reflexivity.
Qed.

End WithDatabase.
End CacheFacts.

(** ** The collector *)

Module CollectorFacts.
Import JS Identity Media Orchestrator Fields Collector OrchestratorFacts.

Section WithDatabase.
Variable S : Type.
Variable openMessageCursor : jsstring -> Z -> bool -> Z -> Z -> S -> option cursorResult * S.
Variable fetchMessageBatch : Z -> S -> option batchResult * S.
Variable closeMessageCursor : Z -> S -> option () * S.
Variable getDisplayNames : list jsstring -> S -> option mapResult * S.
Variable getAvatarUrls : list jsstring -> S -> option mapResult * S.
Variable fzstd_decompress : buffer -> option buffer.
Variable Buffer_from_base64 : jsstring -> buffer.
Variable decodeURIComponent : jsstring -> option jsstring.

Local Abbreviation collect_row' :=
  (collect_row S getDisplayNames getAvatarUrls fzstd_decompress Buffer_from_base64
     decodeURIComponent).
Local Abbreviation collect_batches' :=
  (collect_batches S fetchMessageBatch getDisplayNames getAvatarUrls fzstd_decompress
     Buffer_from_base64 decodeURIComponent).
Local Abbreviation collectMessages' :=
  (collectMessages S openMessageCursor fetchMessageBatch closeMessageCursor getDisplayNames
     getAvatarUrls fzstd_decompress Buffer_from_base64 decodeURIComponent).

Lemma kept_nothing me dateRange : kept me dateRange nothing_collected.
Proof.
  repeat split; try constructor. intros k e H. cbn [nothing_collected memberSet] in H.
  rewrite lookup_empty in H. discriminate H.
Qed.

Lemma spans_snoc (c : collected) (row : message) members' :
  spans c ->
  spans {| rows := rows c ++ [row]; memberSet := members';
           firstTime := match firstTime c with
                        | Some t => if number_ltb (createTime row) t
                                    then Some (createTime row) else Some t
                        | None => Some (createTime row)
                        end;
           lastTime := match lastTime c with
                       | Some t => if number_ltb t (createTime row)
                                   then Some (createTime row) else Some t
                       | None => Some (createTime row)
                       end |}.
Proof.
  unfold spans. cbn [rows firstTime lastTime].
  destruct (rows c) as [|r rs] eqn:E.
  - intros [-> ->]. cbn [app]. destruct (createTime row) as [t|] eqn:Et; [|split; reflexivity].
    exists t, t. split; [reflexivity|]. split; [reflexivity|].
    split; [|split; apply Exists_cons_hd; exact Et].
    constructor; [|constructor]. intros t' Ht'. rewrite Et in Ht'. inversion Ht'. lia.
  - cbn [app]. destruct (createTime r) as [tr|] eqn:Er.
    + intros (lo & hi & -> & -> & Hall & Hlo & Hhi).
      change (r :: rs ++ [row]) with ((r :: rs) ++ [row]).
      assert (Hlohi : lo <= hi).
      { apply Forall_cons in Hall as [Hr _]. specialize (Hr _ Er). lia. }
      assert (Hwiden : forall lo' hi', lo' <= lo -> hi <= hi' ->
                Forall (fun m => forall t, createTime m = Num t -> lo' <= t <= hi') (r :: rs)).
      { intros lo' hi' H1 H2. eapply Forall_impl; [exact Hall|]. cbn beta.
        intros m Hm t Ht. specialize (Hm t Ht). lia. }
      destruct (createTime row) as [t|] eqn:Et; cbn [number_ltb].
      * assert (Hrow : forall lo' hi', lo' <= t <= hi' ->
                  forall t', createTime row = Num t' -> lo' <= t' <= hi').
        { intros lo' hi' Hb t' Ht'. rewrite Et in Ht'. inversion Ht'. lia. }
        destruct (Z.ltb_spec t lo), (Z.ltb_spec hi t); try lia; eexists _, _;
          (split; [reflexivity|]); (split; [reflexivity|]);
          rewrite Forall_app, !Exists_app, Forall_singleton.
        -- split; [split; [apply Hwiden; lia|apply Hrow; lia]|].
           split; [right; apply Exists_cons_hd; exact Et|left; exact Hhi].
        -- split; [split; [apply Hwiden; lia|apply Hrow; lia]|].
           split; [left; exact Hlo|right; apply Exists_cons_hd; exact Et].
        -- split; [split; [apply Hwiden; lia|apply Hrow; lia]|]. split; left; assumption.
      * exists lo, hi. split; [reflexivity|]. split; [reflexivity|].
        rewrite Forall_app, !Exists_app, Forall_singleton.
        split; [split; [exact Hall|]|split; left; assumption].
        intros t' Ht'. rewrite Et in Ht'. discriminate Ht'.
    + intros [-> ->]. destruct (createTime row); cbn [number_ltb]; split; reflexivity.
Qed.

Lemma collect_row_kept sessionId me dateRange acc row (w : world S) acc' w' :
  kept me dateRange acc ->
  collect_row' sessionId me dateRange acc row w = Some (Ret acc', w') ->
  kept me dateRange acc'.
Proof.
  intros (Hrange & Hlisted & Hkeyed & Hspans & Hsend) H. unfold collect_row in H.
  apply io_bind_ret in H as (time & w1 & _ & H).
  destruct (outside_range dateRange time) eqn:Hout.
  { apply io_ret_ret in H as [<- _]. repeat split; assumption. }
  apply io_bind_ret in H as (content & w2 & _ & H).
  apply io_bind_ret in H as (localType & w3 & _ & H).
  cbv zeta in H.
  apply io_bind_ret in H as (isSendRaw & w4 & _ & H).
  apply io_bind_ret in H as (localId & w5 & _ & H).
  apply io_bind_ret in H as (memberInfo & w6 & _ & H).
  apply io_ret_ret in H as [<- _].
  set (actualSender := if bool_decide (isSendRaw = Some 1) then me
                       else or_else (present_or (sender_username row) []) sessionId) in *.
  set (members' := match memberSet acc !! actualSender with
                   | Some _ => memberSet acc
                   | None => <[ actualSender := _ ]> (memberSet acc)
                   end).
  assert (Hgrow : forall k e, memberSet acc !! k = Some e -> members' !! k = Some e).
  { intros k e Hk. unfold members'.
    destruct (memberSet acc !! actualSender) eqn:Ha; [exact Hk|].
    rewrite lookup_insert_ne; [exact Hk|]. intros <-. congruence. }
  assert (Hnew : exists e, members' !! actualSender = Some e
                           /\ platformId (member e) = actualSender).
  { unfold members'. destruct (memberSet acc !! actualSender) as [e|] eqn:Ha.
    - exists e. split; [exact Ha|]. apply Hkeyed. exact Ha.
    - eexists. rewrite lookup_insert_eq. split; reflexivity. }
  split; [|split; [|split; [|split]]]; cbn [rows memberSet].
  - apply Forall_app. split; [exact Hrange|]. apply Forall_singleton.
    unfold in_range. cbn [Media.createTime].
    destruct dateRange as [[start end_]|], time as [t|]; try exact I.
    cbn [outside_range number_ltb] in Hout.
    apply orb_false_iff in Hout as [H1 H2]. apply Z.ltb_ge in H1, H2. lia.
  - apply Forall_app. split.
    + eapply Forall_impl; [exact Hlisted|]. intros r (e & He & Hp). exists e. split; auto.
    + apply Forall_singleton. exact Hnew.
  - intros k e. unfold members'.
    destruct (memberSet acc !! actualSender) eqn:Ha; [apply Hkeyed|].
    destruct (decide (actualSender = k)) as [<-|Hne].
    + rewrite lookup_insert_eq. intros He. inversion He. reflexivity.
    + rewrite lookup_insert_ne by exact Hne. apply Hkeyed.
  - match goal with |- spans {| rows := _ ++ [?r] |} =>
      exact (spans_snoc acc r members' Hspans)
    end.
  - apply Forall_app. split; [exact Hsend|]. apply Forall_singleton.
    cbn [Media.isSend Media.senderUsername]. unfold actualSender. intros ->. reflexivity.
Qed.

Lemma for_of_kept sessionId me dateRange batchRows : forall acc (w : world S) acc' w',
  kept me dateRange acc ->
  for_of (collect_row' sessionId me dateRange) acc batchRows w = Some (Ret acc', w') ->
  kept me dateRange acc'.
Proof.
  induction batchRows as [|row batchRows IH]; intros acc w acc' w' Hk H; cbn [for_of] in H.
  - apply io_ret_ret in H as [<- _]. exact Hk.
  - apply io_bind_ret in H as (acc1 & w1 & H1 & H).
    eapply IH; [|exact H]. eapply collect_row_kept; eauto.
Qed.

Lemma collect_batches_kept sessionId me dateRange handle fuel :
  forall acc (w : world S) acc' w',
  kept me dateRange acc ->
  collect_batches' fuel sessionId me dateRange handle acc w = Some (Ret acc', w') ->
  kept me dateRange acc'.
Proof.
  induction fuel as [|fuel IH]; intros acc w acc' w' Hk H; [discriminate|].
  cbn [collect_batches] in H.
  apply io_bind_ret in H as (batch & w1 & _ & H).
  destruct (batch_success batch); [|apply io_ret_ret in H as [<- _]; exact Hk].
  destruct (batch_rows batch) as [batchRows|]; [|apply io_ret_ret in H as [<- _]; exact Hk].
  apply io_bind_ret in H as (acc1 & w2 & H1 & H).
  apply for_of_kept in H1; [|exact Hk].
  destruct (hasMore batch); [eapply IH; eauto|].
  apply io_ret_ret in H as [<- _]. exact H1.
Qed.

Lemma io_finally_ret {W A B} (body : io W A) (cleanup : io W B) w a w' :
  io_finally body cleanup w = Some (Ret a, w') ->
  exists w1, body w = Some (Ret a, w1).
Proof.
  unfold io_finally. destruct (body w) as [[[a1| |] w1]|]; try discriminate.
  - destruct (cleanup w1) as [[[b| |] w2]|]; try discriminate.
    intros H. inversion H; subst. eauto.
  - destruct (cleanup w1) as [[[b| |] w2]|]; discriminate.
Qed.

Lemma collectMessages_kept fuel sessionId me dateRange (w : world S) c w' :
  collectMessages' fuel sessionId me dateRange w = Some (Ret c, w') ->
  kept me dateRange c.
Proof.
  unfold collectMessages. intros H.
  apply io_bind_ret in H as (opened & w1 & _ & H).
  destruct (cursor_success opened);
    [|apply io_ret_ret in H as [<- _]; apply kept_nothing].
  destruct (cursor opened) as [handle|];
    [|apply io_ret_ret in H as [<- _]; apply kept_nothing].
  destruct (handle =? 0); [apply io_ret_ret in H as [<- _]; apply kept_nothing|].
  apply io_finally_ret in H as (w2 & H).
  eapply collect_batches_kept; [apply kept_nothing|exact H].
Qed.

(** Every collected row has its sender in the member map, filed under
    the sender's id. *)
Theorem collectMessages_senders_listed fuel sessionId me dateRange (w : world S) c w' :
  collectMessages' fuel sessionId me dateRange w = Some (Ret c, w') ->
  well_keyed (memberSet c) /\ Forall (sender_listed (memberSet c)) (rows c).
Proof. intros H. apply collectMessages_kept in H. split; apply H. Qed.

(** [firstTime] and [lastTime] are [null] when nothing was collected.
    When the first collected row has a time that is a number, they are
    the earliest and the latest of the times that are numbers; when its
    time is [NaN], both are [NaN] whatever rows follow. *)
Theorem collectMessages_spans fuel sessionId me dateRange (w : world S) c w' :
  collectMessages' fuel sessionId me dateRange w = Some (Ret c, w') ->
  spans c.
Proof. intros H. apply collectMessages_kept in H. apply H. Qed.

(** A row the account sent is attributed to the account, whatever its
    sender column says. *)
Theorem collectMessages_own_rows fuel sessionId me dateRange (w : world S) c w' :
  collectMessages' fuel sessionId me dateRange w = Some (Ret c, w') ->
  Forall (fun row => isSend row = true -> senderUsername row = me) (rows c).
Proof. intros H. apply collectMessages_kept in H. apply H. Qed.

End WithDatabase.

(** *** A record beside the database *)

Section Silent.
Variable S L : Type.
Variable getDisplayNames : list jsstring -> S -> option mapResult * S.
Variable getAvatarUrls : list jsstring -> S -> option mapResult * S.
Variable fzstd_decompress : buffer -> option buffer.
Variable Buffer_from_base64 : jsstring -> buffer.
Variable decodeURIComponent : jsstring -> option jsstring.

Local Abbreviation W := (world (S * L)).
Local Abbreviation names := (fun l => @beside S L _ (getDisplayNames l)).
Local Abbreviation avatars := (fun l => @beside S L _ (getAvatarUrls l)).

Lemma silent_ret {A} (a : A) : silent (mret a : io W A).
Proof. intros w r w' H. inversion H. reflexivity. Qed.

Lemma silent_pure {A} (r : outcome A) : silent (io_pure r : io W A).
Proof. intros w r' w' H. inversion H. reflexivity. Qed.

Lemma silent_bind {A B} (m : io W A) (f : A -> io W B) :
  silent m -> (forall a, silent (f a)) -> silent (m ≫= f).
Proof.
  intros Hm Hf w r w' H. unfold mbind, io_bind in H.
  destruct (m w) as [[[a| |] w1]|] eqn:E; try discriminate.
  - rewrite (Hf a _ _ _ H). eapply Hm; eauto.
  - inversion H; subst. eapply Hm; eauto.
  - inversion H; subst. eapply Hm; eauto.
Qed.

Lemma getContactInfo_silent u :
  silent (getContactInfo (S * L) names avatars u).
Proof.
  unfold getContactInfo. apply silent_bind.
  { intros w r w' H. inversion H. reflexivity. }
  intros [info|]; [apply silent_ret|].
  apply silent_bind.
  { intros w r w' H. unfold awaiting_all, beside in H.
    destruct (getDisplayNames [u] (outside _ w).1) as [a s1].
    cbn [fst snd] in H. destruct (getAvatarUrls [u] s1) as [b s2].
    inversion H. reflexivity. }
  intros [displayNames avatarUrls]. cbv zeta. apply silent_bind; [|intros; apply silent_ret].
  intros w r w' H. inversion H. reflexivity.
Qed.

Lemma collect_row_silent sessionId me dateRange acc row :
  silent (collect_row (S * L) names avatars fzstd_decompress Buffer_from_base64
            decodeURIComponent sessionId me dateRange acc row).
Proof.
  unfold collect_row.
  apply silent_bind; [apply silent_pure|]. intros time.
  destruct (outside_range dateRange time); [apply silent_ret|].
  apply silent_bind; [apply silent_pure|]. intros content.
  apply silent_bind; [apply silent_pure|]. intros localType. cbv zeta.
  apply silent_bind; [apply silent_pure|]. intros isSendRaw.
  apply silent_bind; [apply silent_pure|]. intros localId.
  apply silent_bind; [apply getContactInfo_silent|]. intros memberInfo. apply silent_ret.
Qed.

Lemma for_of_silent sessionId me dateRange batchRows : forall acc,
  silent (for_of (collect_row (S * L) names avatars fzstd_decompress Buffer_from_base64
                    decodeURIComponent sessionId me dateRange) acc batchRows).
Proof.
  induction batchRows as [|row batchRows IH]; intros acc; cbn [for_of]; [apply silent_ret|].
  apply silent_bind; [apply collect_row_silent|]. intros acc'. apply IH.
Qed.

End Silent.

(** *** The rows the cursor delivers *)

Section Delivered.
Variable S : Type.
Variable openMessageCursor : jsstring -> Z -> bool -> Z -> Z -> S -> option cursorResult * S.
Variable fetchMessageBatch : Z -> S -> option batchResult * S.
Variable closeMessageCursor : Z -> S -> option () * S.
Variable getDisplayNames : list jsstring -> S -> option mapResult * S.
Variable getAvatarUrls : list jsstring -> S -> option mapResult * S.
Variable fzstd_decompress : buffer -> option buffer.
Variable Buffer_from_base64 : jsstring -> buffer.
Variable decodeURIComponent : jsstring -> option jsstring.

Local Abbreviation W := (world (S * list dbRow)).
Local Abbreviation names := (fun l => @beside S (list dbRow) _ (getDisplayNames l)).
Local Abbreviation avatars := (fun l => @beside S (list dbRow) _ (getAvatarUrls l)).
Local Abbreviation open :=
  (fun sessionId batchSize ascending start end_ =>
     @beside S (list dbRow) _ (openMessageCursor sessionId batchSize ascending start end_)).
Local Abbreviation close := (fun h => @beside S (list dbRow) _ (closeMessageCursor h)).
Local Abbreviation collect_row' :=
  (collect_row (S * list dbRow) names avatars fzstd_decompress Buffer_from_base64
     decodeURIComponent).

(** One delivered row gives one collected row, or none when its time is
    a number outside the range. *)
Lemma collect_row_made sessionId me dateRange acc row (w : W) acc' w' :
  collect_row' sessionId me dateRange acc row w = Some (Ret acc', w') ->
  exists new,
    rows acc' = rows acc ++ new
    /\ Forall2 made_from (List.filter (passes dateRange) [row]) new.
Proof.
  intros H. unfold collect_row in H.
  apply io_bind_ret in H as (time & w1 & Ht & H). apply io_pure_ret in Ht as [Ht _].
  cbn [List.filter]. unfold passes. rewrite Ht.
  destruct (outside_range dateRange time) eqn:Hout; cbn [negb].
  { apply io_ret_ret in H as [<- _]. exists []. rewrite app_nil_r. split; constructor. }
  apply io_bind_ret in H as (content & w2 & _ & H).
  apply io_bind_ret in H as (localType & w3 & _ & H).
  cbv zeta in H.
  apply io_bind_ret in H as (isSendRaw & w4 & _ & H).
  apply io_bind_ret in H as (localId & w5 & Hid & H). apply io_pure_ret in Hid as [Hid _].
  apply io_bind_ret in H as (memberInfo & w6 & _ & H).
  apply io_ret_ret in H as [<- _]. cbn [rows].
  eexists. split; [reflexivity|]. constructor; [|constructor].
  split; [exact Ht|exact Hid].
Qed.

Lemma for_of_made sessionId me dateRange batchRows : forall acc (w : W) acc' w',
  for_of (collect_row' sessionId me dateRange) acc batchRows w = Some (Ret acc', w') ->
  exists new,
    rows acc' = rows acc ++ new
    /\ Forall2 made_from (List.filter (passes dateRange) batchRows) new.
Proof.
  induction batchRows as [|row batchRows IH]; intros acc w acc' w' H; cbn [for_of] in H.
  - apply io_ret_ret in H as [<- _]. exists []. rewrite app_nil_r. split; constructor.
  - apply io_bind_ret in H as (acc1 & w1 & H1 & H).
    apply collect_row_made in H1 as (new1 & E1 & F1).
    apply IH in H as (new2 & E2 & F2).
    exists (new1 ++ new2). rewrite E2, E1, <- app_assoc. split; [reflexivity|].
    change (row :: batchRows) with ([row] ++ batchRows). rewrite List.filter_app.
    apply Forall2_app; assumption.
Qed.

Lemma collect_batches_made sessionId me dateRange handle fuel : forall acc (w : W) acc' w',
  collect_batches (S * list dbRow) (delivering fetchMessageBatch) names avatars
    fzstd_decompress Buffer_from_base64 decodeURIComponent fuel sessionId me dateRange handle
    acc w = Some (Ret acc', w') ->
  exists came new,
    delivered w' = delivered w ++ came
    /\ rows acc' = rows acc ++ new
    /\ Forall2 made_from (List.filter (passes dateRange) came) new.
Proof.
  induction fuel as [|fuel IH]; intros acc w acc' w' H; [discriminate|].
  cbn [collect_batches] in H. unfold mbind at 1, io_bind at 1 in H.
  unfold awaiting at 1, delivering at 1 in H.
  destruct (fetchMessageBatch handle (outside _ w).1) as [batch s1] eqn:Ef.
  cbn [fst snd] in H.
  set (w1 := World _ _ _ _ _ _) in H.
  assert (Hnone : acc' = acc -> delivered w' = delivered w ++ [] ->
            exists came new,
              delivered w' = delivered w ++ came
              /\ rows acc' = rows acc ++ new
              /\ Forall2 made_from (List.filter (passes dateRange) came) new).
  { intros -> E. rewrite app_nil_r in E. exists [], []. rewrite !app_nil_r.
    repeat split; [exact E|constructor]. }
  destruct batch as [[[|] [batchRows|] more]|]; cbn [lift_throwing batch_success batch_rows] in H;
    try discriminate H;
    try (apply io_ret_ret in H as [<- <-]; apply Hnone; reflexivity).
  assert (Hw1 : delivered w1 = delivered w ++ batchRows) by reflexivity.
  apply io_bind_ret in H as (acc1 & w2 & H1 & H).
  pose proof (for_of_silent S (list dbRow) getDisplayNames getAvatarUrls fzstd_decompress
                Buffer_from_base64 decodeURIComponent _ _ _ _ _ _ _ _ H1) as Hs2.
  apply for_of_made in H1 as (new1 & E1 & F1).
  cbn [hasMore] in H. destruct more.
  - apply IH in H as (came & new2 & Hd & E2 & F2).
    exists (batchRows ++ came), (new1 ++ new2).
    split; [|split].
    + rewrite Hd. unfold delivered at 1. rewrite Hs2. fold (delivered w1).
      rewrite Hw1, <- app_assoc. reflexivity.
    + rewrite E2, E1, <- app_assoc. reflexivity.
    + rewrite List.filter_app. apply Forall2_app; assumption.
  - apply io_ret_ret in H as [<- <-].
    exists batchRows, new1. split; [|split; [exact E1|exact F1]].
    unfold delivered at 1. rewrite Hs2. exact Hw1.
Qed.


End Delivered.

(** *** The cursor protocol *)

Section Cursor.
Variable S : Type.
Variable openMessageCursor : jsstring -> Z -> bool -> Z -> Z -> S -> option cursorResult * S.
Variable fetchMessageBatch : Z -> S -> option batchResult * S.
Variable closeMessageCursor : Z -> S -> option () * S.
Variable getDisplayNames : list jsstring -> S -> option mapResult * S.
Variable getAvatarUrls : list jsstring -> S -> option mapResult * S.
Variable fzstd_decompress : buffer -> option buffer.
Variable Buffer_from_base64 : jsstring -> buffer.
Variable decodeURIComponent : jsstring -> option jsstring.

Local Abbreviation W := (world (recorded S)).
Local Abbreviation names := (fun l => recording (getDisplayNames l)).
Local Abbreviation avatars := (fun l => recording (getAvatarUrls l)).
Local Abbreviation fetch := (fun h => recording_event (Fetched h) (fetchMessageBatch h)).
Local Abbreviation close := (fun h => recording_event (Closed h) (closeMessageCursor h)).

(** The batches of one cursor: nothing but fetches on it. *)
Lemma collect_batches_fetches sessionId me dateRange handle fuel : forall acc (w : W) r w',
  collect_batches (recorded S) fetch names avatars fzstd_decompress Buffer_from_base64
    decodeURIComponent fuel sessionId me dateRange handle acc w = Some (r, w') ->
  exists n, (0 < n <= fuel)%nat /\ events w' = replicate n (Fetched handle) ++ events w.
Proof.
  induction fuel as [|fuel IH]; intros acc w r w' H; [discriminate|].
  cbn [collect_batches] in H. unfold mbind at 1, io_bind at 1 in H.
  unfold awaiting at 1, recording_event at 1 in H.
  destruct (fetchMessageBatch handle (outside _ w).1) as [batch s1] eqn:Ef.
  cbn [fst snd] in H.
  set (w1 := World _ _ _ _ _ _) in H.
  assert (Hw1 : events w1 = Fetched handle :: events w) by reflexivity.
  assert (Hone : events w' = events w1 ->
            exists n, (0 < n <= Datatypes.S fuel)%nat
                      /\ events w' = replicate n (Fetched handle) ++ events w).
  { intros E. exists 1%nat. split; [lia|]. rewrite E, Hw1. reflexivity. }
  destruct batch as [batch|]; cbn [lift_throwing] in H;
    [|inversion H; subst; apply Hone; reflexivity].
  destruct (batch_success batch); [|inversion H; subst; apply Hone; reflexivity].
  destruct (batch_rows batch) as [batchRows|]; [|inversion H; subst; apply Hone; reflexivity].
  unfold mbind, io_bind in H.
  destruct (for_of _ acc batchRows w1) as [[[acc1| |] w2]|] eqn:E2; try discriminate;
    assert (Hs2 : events w2 = events w1)
      by exact (for_of_silent S (list cursor_event) getDisplayNames getAvatarUrls
                  fzstd_decompress Buffer_from_base64 decodeURIComponent sessionId me
                  dateRange batchRows acc w1 _ _ E2).
  - destruct (hasMore batch).
    + apply IH in H as (n & Hn & Hev). exists (Datatypes.S n). split; [lia|].
      rewrite Hev, Hs2, Hw1. cbn [replicate]. rewrite <- app_comm_cons.
      change (Fetched handle :: events w) with ([Fetched handle] ++ events w).
      rewrite app_assoc. f_equal.
      clear. induction n as [|n IHn]; [reflexivity|]. cbn [replicate app]. f_equal. exact IHn.
    + inversion H; subst. apply Hone. exact Hs2.
  - inversion H; subst. apply Hone. exact Hs2.
  - inversion H; subst. apply Hone. exact Hs2.
Qed.

(** A cursor that was opened is closed once, after the last fetch,
    whether the collection returns or throws. *)
Theorem collectMessages_closes_cursor fuel sessionId me dateRange (w : W) r w' :
  collectMessages (recorded S) (recording_open openMessageCursor) fetch close names avatars
    fzstd_decompress Buffer_from_base64 decodeURIComponent fuel sessionId me dateRange w
  = Some (r, w') ->
  r <> Unmodelled ->
  events w' = events w
  \/ exists handle n,
       (0 < n)%nat
       /\ events w' = Closed handle :: replicate n (Fetched handle) ++ Opened handle :: events w.
Proof.
  unfold collectMessages. intros H Hr. unfold mbind at 1, io_bind at 1 in H.
  unfold awaiting at 1, recording_open at 1 in H.
  destruct (openMessageCursor _ _ _ _ _ (outside _ w).1) as [opened s1] eqn:Eo.
  cbn [fst snd] in H.
  destruct opened as [[[|] [handle|]]|]; cbn [lift_throwing cursor_success cursor] in H;
    try (inversion H; subst; left; reflexivity).
  destruct (handle =? 0) eqn:Eh; [inversion H; subst; left; reflexivity|].
  right. exists handle. unfold io_finally in H.
  set (w1 := World _ _ _ _ _ _) in H.
  assert (Hw1 : events w1 = Opened handle :: events w) by reflexivity.
  destruct (collect_batches _ _ _ _ _ _ _ _ _ _ _ _ _ w1) as [[rb w2]|] eqn:Eb; [|discriminate].
  apply collect_batches_fetches in Eb as (n & [Hn _] & Hev). exists n.
  split; [exact Hn|].
  destruct rb as [c| |]; [| |inversion H; subst; congruence];
    (destruct (awaiting (recorded S) (close handle) w2) as [[rc w3]|] eqn:Ec;
       [|discriminate H]);
    (assert (Hc : events w3 = Closed handle :: events w2);
       [unfold awaiting, recording_event in Ec;
        destruct (closeMessageCursor handle (outside _ w2).1) as [c' s3];
        inversion Ec; reflexivity|]);
    destruct rc as [[]| |]; inversion H; subst; rewrite Hc, Hev, Hw1; reflexivity.
Qed.

End Cursor.

(** *** The conversation of [Scenario.batches] *)

Local Ltac collected_by lemma :=
  unfold Scenario.collection;
  match goal with
  | |- match ?run with _ => _ end =>
    destruct run as [[[c| |] w']|] eqn:E;
      [exact (lemma _ _ _ _ _ _ _ _ _ _ _ _ _ _ _ _ E)|vm_compute in E; discriminate E..]
  end.


Example delivered_and_collected :
  (fun r => match r with
            | Some (Ret c, w') =>
              Some (List.map create_time (delivered w'), List.map createTime (rows c))
            | _ => None
            end) Scenario.delivered_collection
  = Some ([Some (js "1700000005"); Some (js "1700000010"); Some (js "1700000015");
           Some (js "1700000025")],
          [Num 1700000010; Num 1700000015]).
Proof. vm_compute. reflexivity. Qed.

Lemma collectMessages_senders_listed_witness :
  match Scenario.collection with
  | Some (Ret c, _) =>
    well_keyed (memberSet c) /\ Forall (sender_listed (memberSet c)) (rows c)
  | _ => False
  end.
Proof. collected_by collectMessages_senders_listed. Defined.

Lemma collectMessages_spans_witness :
  match Scenario.collection with
  | Some (Ret c, _) => spans c
  | _ => False
  end.
Proof. collected_by collectMessages_spans. Defined.

Lemma collectMessages_own_rows_witness :
  match Scenario.collection with
  | Some (Ret c, _) =>
    Forall (fun row => isSend row = true -> senderUsername row = js "wxid_me") (rows c)
  | _ => False
  end.
Proof. collected_by collectMessages_own_rows. Defined.

(** Of the four rows the two within the range are collected, the one
    the account sent under the account's id. *)
Example rows_within_second_ten :
  (fun r => match r with
            | Some (Ret c, _) =>
              Some (List.map (fun row => (createTime row, senderUsername row, content row))
                             (rows c),
                    firstTime c, lastTime c)
            | _ => None
            end) Scenario.collection
  = Some ([(Num 1700000010, js "wxid_me", js "on my way");
           (Num 1700000015, js "wxid_bob", js "see you there")],
          Some (Num 1700000010), Some (Num 1700000015)).
Proof. vm_compute. reflexivity. Qed.

(** A row whose [create_time] is not numeric is collected under the
    same range; as the first row it fixes [firstTime] and [lastTime]. *)
Example undated_row_collected :
  (fun r => match r with
            | Some (Ret c, _) =>
              Some (List.map createTime (rows c), firstTime c, lastTime c)
            | _ => None
            end) Scenario.undated_collection
  = Some ([NaN; Num 1700000015; Num 1700000010], Some NaN, Some NaN).
Proof. vm_compute. reflexivity. Qed.

Lemma collectMessages_closes_cursor_witness :
  match Scenario.recorded_collection with
  | Some (_, w') => events w' = [Closed 7; Fetched 7; Fetched 7; Opened 7]
  | None => False
  end.
Proof.
  unfold Scenario.recorded_collection.
  match goal with
  | |- match ?run with _ => _ end =>
    destruct run as [[r w']|] eqn:E; [|vm_compute in E; discriminate E]
  end.
  assert (Hr : r <> Unmodelled) by (intros ->; vm_compute in E; discriminate E).
  destruct (collectMessages_closes_cursor _ _ _ _ _ _ _ _ _ _ _ _ _ _ _ _ E Hr)
    as [Hsame|(handle & n & Hn & Hev)];
    vm_compute in E; inversion E; reflexivity.
Defined.

End CollectorFacts.

(** ** The roster and the collected rows *)

Module RosterFacts.
Import JS Identity Media Collector IdentityFacts.

Section Merge.
Variable getGroupMembers : jsstring -> option membersResult.
Variable getDisplayNames : list jsstring -> option mapResult.
Variable getAvatarUrls : list jsstring -> option mapResult.

Lemma merge_member_well_keyed (includeAvatars : bool) (names urls : mapResult)
    (members : gmap jsstring memberInfo) (m : rawMember) :
  well_keyed members -> well_keyed (merge_member includeAvatars names urls members m).
Proof.
  intros Hk k e'. unfold merge_member.
  destruct (rm_username m) as [[|c u]|]; try apply Hk.
  remember (c :: u) as username eqn:Hu. clear Hu. cbv zeta.
  match goal with
  | |- context [match ?x with Some _ => _ | None => _ end] =>
    destruct x as [existing|] eqn:Hex
  end.
  - destruct (decide (username = k)) as [<-|Hne].
    + rewrite lookup_insert_eq. intros H. inversion H; subst e'; clear H. cbn [member].
      pose proof (Hk _ _ Hex) as Hp.
      destruct (_ && _ && _), (_ && _); cbn; exact Hp.
    + rewrite lookup_insert_ne by exact Hne. apply Hk.
  - destruct (decide (username = k)) as [<-|Hne].
    + rewrite lookup_insert_eq. intros H. inversion H. reflexivity.
    + rewrite lookup_insert_ne by exact Hne. apply Hk.
Qed.

Lemma merge_members_well_keyed (includeAvatars : bool) (names urls : mapResult)
    (rawMembers : list rawMember) : forall members,
  well_keyed members ->
  well_keyed (foldl (merge_member includeAvatars names urls) members rawMembers).
Proof.
  induction rawMembers as [|m ms IH]; intros members Hk; [exact Hk|].
  cbn [foldl]. apply IH, merge_member_well_keyed, Hk.
Qed.

(** The roster merge keeps the member map filed by id, and keeps every
    sender that was listed in it listed. *)
Theorem mergeGroupMembers_keeps_senders (chatroomId : jsstring)
    (members : gmap jsstring memberInfo) (includeAvatars : bool) (collectedRows : list message) :
  well_keyed members -> Forall (sender_listed members) collectedRows ->
  let merged := (mergeGroupMembers getGroupMembers getDisplayNames getAvatarUrls
                   chatroomId members includeAvatars).2 in
  well_keyed merged /\ Forall (sender_listed merged) collectedRows.
Proof.
  intros Hk Hrows. cbv zeta. unfold mergeGroupMembers.
  repeat match goal with
         | |- context [match ?x with Some _ => _ | None => _ end] =>
           destruct x; try (split; assumption)
         | |- context [match ?x with [] => _ | _ :: _ => _ end] =>
           destruct x; try (split; assumption)
         | |- context [if ?x then _ else _] => destruct x; try (split; assumption)
         end.
  cbn [snd]. split; [apply merge_members_well_keyed, Hk|].
  eapply Forall_impl; [exact Hrows|]. intros row (e & He & Hp).
  match goal with |- sender_listed (foldl (merge_member ?i ?n ?u) _ ?l) _ =>
    destruct (merge_members_keeps i n u l members _ e He) as (e' & He' & Hkeep)
  end.
  exists e'. split; [exact He'|]. destruct Hkeep as (Hpid & _). congruence.
Qed.

End Merge.

(** The group of [Scenario.spoken] and the rows of [Scenario.fetched],
    all from its one member. *)
Lemma mergeGroupMembers_keeps_senders_witness :
  let merged := (mergeGroupMembers Scenario.roster Scenario.other_names Scenario.no_avatars
                   (js "1234@chatroom") Scenario.spoken false).2 in
  well_keyed merged /\ Forall (sender_listed merged) Scenario.fetched.
Proof.
  apply mergeGroupMembers_keeps_senders.
  - intros k e H. unfold Scenario.spoken in H.
    apply lookup_singleton_Some in H as [<- <-]. reflexivity.
  - repeat constructor; exists Scenario.alice; split; reflexivity.
Defined.

End RosterFacts.

(** ** The ChatLab file *)

Module JsonFacts.
Import JS Json Wire Fields ChatLabFile Orchestrator.

Lemma jvalue_induction (P : jvalue -> Prop) :
  P JNull -> (forall b, P (JBool b)) -> (forall n, P (JNum n)) -> (forall s, P (JStr s)) ->
  (forall items, Forall P items -> P (JArr items)) ->
  (forall properties, Forall (fun kv => P kv.2) properties -> P (JObj properties)) ->
  forall v, P v.
Proof.
  intros HNull HBool HNum HStr HArr HObj. fix IH 1. intros [ |b|n|s|items|properties].
  - exact HNull.
  - apply HBool.
  - apply HNum.
  - apply HStr.
  - apply HArr. induction items as [|v items IHitems]; constructor; [apply IH|exact IHitems].
  - apply HObj. induction properties as [|[k v] properties IHp]; constructor;
      [apply IH|exact IHp].
Qed.

Lemma one_line_app a b : one_line a -> one_line b -> one_line (a ++ b).
Proof. intros Ha Hb. apply Forall_app. split; assumption. Qed.

Lemma toString_utf8_ascii (bytes : buffer) :
  Forall (fun b => 0 <= b < 0x80) bytes -> toString_utf8 bytes = bytes.
Proof.
  unfold toString_utf8. induction 1 as [|b bytes Hb _ IH]; [reflexivity|].
  cbn [utf8_code_points]. unfold u8_lead.
  destruct (Z.leb_spec b 0x7F); [|lia]. cbn [app map concat]. rewrite IH.
  unfold utf16_units. destruct (Z.ltb_spec b 0x10000); [reflexivity|lia].
Qed.

Lemma hex_digit_of_one_line n : 0 <= n < 16 -> hex_digit_of n <> 0xA.
Proof. unfold hex_digit_of. intros H. destruct (n <? 10); lia. Qed.

Lemma UnicodeEscape_one_line c : one_line (UnicodeEscape c).
Proof.
  unfold UnicodeEscape. apply one_line_app; [vm_compute; repeat constructor; discriminate|].
  repeat constructor; apply hex_digit_of_one_line, Z.mod_pos_bound; lia.
Qed.

Lemma quote_unit_one_line c : one_line (quote_unit c).
Proof.
  unfold quote_unit.
  repeat match goal with
         | |- one_line (if ?b then _ else _) => destruct b eqn:?
         end;
    try apply UnicodeEscape_one_line;
    try (repeat constructor; apply Z.eqb_neq; assumption);
    vm_compute; repeat constructor; discriminate.
Qed.

Lemma quote_units_cons c d rest :
  quote_units (c :: d :: rest)
  = if is_leading_surrogate c && is_trailing_surrogate d
    then c :: d :: quote_units rest
    else quote_unit c ++ quote_units (d :: rest).
Proof. reflexivity. Qed.

Lemma quote_units_one_line s : one_line (quote_units s).
Proof.
  assert (H : forall n s, (length s < n)%nat -> one_line (quote_units s)).
  { induction n as [|n IH]; intros t Hn; [lia|].
    destruct t as [|c [|d rest]].
    - constructor.
    - apply quote_unit_one_line.
    - rewrite quote_units_cons.
      destruct (is_leading_surrogate c && is_trailing_surrogate d) eqn:E.
      + apply andb_prop in E as [Hc Hd].
        unfold is_leading_surrogate in Hc. unfold is_trailing_surrogate in Hd.
        constructor; [lia|]. constructor; [lia|]. apply IH. cbn [length] in Hn. lia.
      + apply one_line_app; [apply quote_unit_one_line|]. apply IH. cbn [length] in *. lia. }
  apply (H (S (length s))). lia.
Qed.

Lemma QuoteJSONString_one_line s : one_line (QuoteJSONString s).
Proof.
  unfold QuoteJSONString. apply one_line_app; [repeat constructor; discriminate|].
  apply one_line_app; [apply quote_units_one_line|repeat constructor; discriminate].
Qed.

Lemma join_one_line sep parts :
  one_line sep -> Forall one_line parts -> one_line (join sep parts).
Proof.
  intros Hsep. induction 1 as [|x xs Hx Hxs IH]; [constructor|].
  cbn [join]. destruct xs as [|y ys]; [exact Hx|].
  apply one_line_app; [exact Hx|]. apply one_line_app; [exact Hsep|exact IH].
Qed.

(** Decimal digits and the sign. *)
Lemma string_of_uint_digits d :
  Forall (fun a => 0 <= Z.of_N (N_of_ascii a) < 0x80 /\ Z.of_N (N_of_ascii a) <> 0xA)
    (list_ascii_of_string (DecimalString.NilEmpty.string_of_uint d)).
Proof.
  induction d; cbn [DecimalString.NilEmpty.string_of_uint list_ascii_of_string];
    constructor; try exact IHd; cbn; lia.
Qed.

Lemma String_of_Z_one_line n : one_line (String_of_Z n).
Proof.
  unfold String_of_Z, js, bytes_of_string.
  set (text := DecimalString.NilZero.string_of_int (Z.to_int n)).
  assert (H : Forall (fun a => 0 <= Z.of_N (N_of_ascii a) < 0x80
                               /\ Z.of_N (N_of_ascii a) <> 0xA)
                (list_ascii_of_string text)).
  { unfold text, DecimalString.NilZero.string_of_int, DecimalString.NilZero.string_of_uint.
    destruct (Z.to_int n) as [d|d]; destruct d;
      cbn [list_ascii_of_string DecimalString.NilEmpty.string_of_uint];
      repeat (constructor; [cbn; lia|]);
      try apply string_of_uint_digits; try constructor. }
  rewrite toString_utf8_ascii.
  - apply Forall_map. eapply Forall_impl; [exact H|]. cbn beta. intros a [_ Ha]. exact Ha.
  - apply Forall_map. eapply Forall_impl; [exact H|]. cbn beta. intros a [Ha _]. exact Ha.
Qed.

Lemma all_of_Forall {A} (P : A -> Prop) (xs : list (outcome A)) (l : list A) :
  Forall (fun x => forall a, x = Ret a -> P a) xs -> all_of xs = Ret l -> Forall P l.
Proof.
  intros H. revert l. induction H as [|x xs Hx _ IH]; intros l E; cbn [all_of] in E.
  - inversion E. constructor.
  - destruct x as [a| |]; try discriminate E. cbn in E.
    destruct (all_of xs) as [rest| |]; try discriminate E. cbn in E. inversion E.
    constructor; [apply Hx; reflexivity|apply IH; reflexivity].
Qed.

Lemma Ret_inj {A} (a b : A) : Ret a = Ret b -> a = b.
Proof. intros H. inversion H. reflexivity. Qed.

(** A literal of the serializer. *)
Local Ltac literal := vm_compute; repeat constructor; discriminate.

(** [JSON.stringify(v)] is one line: no line feed is written as it
    is. *)
Lemma stringify_one_line v : forall indent s, serialize [] indent v = Ret s -> one_line s.
Proof.
  induction v as [ |b|n|t|items IH|properties IH] using jvalue_induction; intros indent s E;
    cbn [serialize] in E.
  - inversion E. literal.
  - destruct b; inversion E; literal.
  - unfold number_text in E. destruct (_ <? _); inversion E. apply String_of_Z_one_line.
  - inversion E. apply QuoteJSONString_one_line.
  - destruct (all_of _) as [parts| |] eqn:Ep; try discriminate E.
    cbn [mbind outcome_bind] in E. apply Ret_inj in E. subst s.
    assert (Hparts : Forall one_line parts).
    { eapply all_of_Forall; [|exact Ep]. apply List.Forall_map.
      eapply Forall_impl; [exact IH|]. cbn beta. intros v Hv a Ha. eapply Hv, Ha. }
    destruct parts as [|p parts]; [literal|].
    apply one_line_app; [literal|]. apply one_line_app; [|literal].
    apply join_one_line; [literal|exact Hparts].
  - destruct (all_of _) as [parts| |] eqn:Ep; try discriminate E.
    cbn [mbind outcome_bind] in E. apply Ret_inj in E. subst s.
    assert (Hparts : Forall one_line parts).
    { eapply all_of_Forall; [|exact Ep]. apply List.Forall_map.
      eapply Forall_impl; [exact IH|]. cbn beta. intros [k v] Hv a Ha. cbn [snd] in Hv.
      destruct (serialize [] (indent ++ []) v) as [text| |] eqn:Et; try discriminate Ha.
      cbn [mbind outcome_bind] in Ha. apply Ret_inj in Ha. subst a.
      apply one_line_app; [apply QuoteJSONString_one_line|].
      apply one_line_app; [literal|]. cbn [app]. eapply Hv, Et. }
    destruct parts as [|p parts]; [literal|].
    apply one_line_app; [literal|]. apply one_line_app; [|literal].
    apply join_one_line; [literal|exact Hparts].
Qed.

(** Splitting what was joined gives the parts back, when none holds
    the separator. *)
Lemma split_one_line sep s : Forall (fun c => c <> sep) s -> split sep s = [s].
Proof.
  induction 1 as [|c s Hc _ IH]; [reflexivity|]. cbn [split].
  destruct (Z.eqb_spec c sep); [contradiction|]. rewrite IH. reflexivity.
Qed.

Lemma split_app sep a b :
  Forall (fun c => c <> sep) a ->
  split sep (a ++ sep :: b) = a :: split sep b.
Proof.
  induction 1 as [|c a Hc _ IH]; cbn [app split].
  - rewrite Z.eqb_refl. reflexivity.
  - destruct (Z.eqb_spec c sep); [contradiction|]. rewrite IH. reflexivity.
Qed.

Lemma split_join sep parts :
  parts <> [] -> Forall (Forall (fun c => c <> sep)) parts ->
  split sep (join [sep] parts) = parts.
Proof.
  intros Hne H. induction H as [|x xs Hx Hxs IH]; [congruence|].
  cbn [join]. destruct xs as [|y ys]; [apply split_one_line, Hx|].
  cbn [app]. rewrite split_app by exact Hx. f_equal. apply IH. discriminate.
Qed.

(** The line-delimited file: its lines are the records, one for the
    header, one for each member and one for each message, in that
    order. *)
Theorem jsonl_lines (e : ChatLabExport) (text : jsstring) :
  file_text chatlab_jsonl e = Ret text ->
  all_of (List.map stringify (records e)) = Ret (split 0xA text)
  /\ length (split 0xA text) = (1 + length (members e) + length (messages e))%nat.
Proof.
  unfold file_text. intros E.
  destruct (all_of (List.map stringify (records e))) as [lines| |] eqn:El; try discriminate E.
  cbn in E. inversion E; subst text; clear E.
  assert (Hone : Forall one_line lines).
  { eapply all_of_Forall; [|exact El]. apply Forall_map, Forall_forall.
    intros v _ a Ha. eapply stringify_one_line, Ha. }
  assert (Hlen : length lines = length (records e)).
  { clear Hone. revert lines El. generalize (records e). intros vs.
    induction vs as [|v vs IH]; intros lines El; cbn [List.map all_of] in El.
    - inversion El. reflexivity.
    - destruct (stringify v) as [a| |]; try discriminate El. cbn in El.
      destruct (all_of (List.map stringify vs)) as [rest| |] eqn:Er; try discriminate El.
      cbn in El. inversion El. cbn [length]. f_equal. apply IH. reflexivity. }
  rewrite split_join; [|destruct lines; [discriminate Hlen|discriminate]|exact Hone].
  split; [reflexivity|]. rewrite Hlen. unfold records. cbn [length].
  rewrite length_app, !length_map. reflexivity.
Qed.

(** The document of [Scenario.document]: four lines, although a message
    in it has two. *)
Lemma jsonl_lines_witness :
  match file_text chatlab_jsonl Scenario.document with
  | Ret text => length (split 0xA text) = 4%nat
  | _ => False
  end.
Proof.
  destruct (file_text chatlab_jsonl Scenario.document) as [text| |] eqn:E;
    try (vm_compute in E; discriminate E).
  exact (proj2 (jsonl_lines _ _ E)).
Defined.

(** The line of the message of two lines. *)
Example message_of_two_lines :
  (fun r => match r with Ret text => last (split 0xA text) | _ => None end)
    (file_text chatlab_jsonl Scenario.document)
  = Some (js "{" ++ quote ++ js "_type" ++ quote ++ js ":" ++ quote ++ js "message" ++ quote
          ++ js "," ++ quote ++ js "sender" ++ quote ++ js ":" ++ quote ++ js "wxid_alice"
          ++ quote ++ js "," ++ quote ++ js "accountName" ++ quote ++ js ":" ++ quote
          ++ js "Alice" ++ quote ++ js "," ++ quote ++ js "timestamp" ++ quote
          ++ js ":1700000015," ++ quote ++ js "type" ++ quote ++ js ":0," ++ quote
          ++ js "content" ++ quote ++ js ":" ++ quote ++ js "see you\nthere" ++ quote
          ++ js "}").
Proof. vm_compute. reflexivity. Qed.

End JsonFacts.

(** ** The files of an export *)

Module FilesFacts.
Import JS Regex Download Media Files.

Section WithWorld.
Variable S : Type.
Variable existsSync : jsstring -> S -> bool.
Variable mkdirSync : jsstring -> S -> option S.
Variable writeFileSync : jsstring -> buffer -> S -> option S.
Variable copyFileSync : jsstring -> jsstring -> S -> option S.
Variable path_join : list jsstring -> jsstring.
Variable path_extname : jsstring -> jsstring.
Variable fileURLToPath : jsstring -> option jsstring.
Variable Buffer_from_base64 : jsstring -> buffer.
Variable decryptImage :
  jsstring -> option jsstring -> option jsstring -> S -> option imageResult * S.
Variable resolveCachedImage :
  jsstring -> option jsstring -> option jsstring -> S -> option imageResult * S.
Variable getVoiceData : jsstring -> jsstring -> S -> option voiceResult * S.
Variable get : bool -> jsstring -> option Z -> S -> response * S.
Variable pipe_to_file : jsstring -> buffer -> S -> bool * S.

Local Abbreviation exportImage' :=
  (exportImage S existsSync mkdirSync writeFileSync copyFileSync path_join path_extname
    fileURLToPath Buffer_from_base64 decryptImage resolveCachedImage).
Local Abbreviation exportVoice' :=
  (exportVoice S existsSync mkdirSync writeFileSync path_join Buffer_from_base64 getVoiceData).
Local Abbreviation exportEmoji' :=
  (exportEmoji S existsSync mkdirSync path_join get pipe_to_file).
Local Abbreviation quiet := (Files.quiet S).
Local Abbreviation leaves := (Files.leaves S).
Local Abbreviation body_leaves := (Files.body_leaves path_join).
Local Abbreviation tidy := (Files.tidy path_join).
Local Abbreviation exportMediaForMessage' :=
  (exportMediaForMessage S existsSync mkdirSync writeFileSync copyFileSync path_join
     path_extname fileURLToPath Buffer_from_base64 decryptImage resolveCachedImage
     getVoiceData get pipe_to_file).

Lemma quiet_ret {A} (a : A) : quiet (mret a).
Proof. intros w r w' H. inversion H. split; [reflexivity|discriminate]. Qed.

Lemma quiet_bind {A B} (m : io (world S) A) (f : A -> io (world S) B) :
  quiet m -> (forall a, quiet (f a)) -> quiet (m ≫= f).
Proof.
  intros Hm Hf w r w' H. unfold mbind, io_bind in H.
  destruct (m w) as [[[a| |] w1]|] eqn:E; try discriminate.
  - destruct (Hm _ _ _ E) as [E1 _]. destruct (Hf a _ _ _ H) as [E2 Hr].
    split; [congruence|exact Hr].
  - inversion H; subst. destruct (Hm _ _ _ E) as [E1 _]. split; [exact E1|discriminate].
  - destruct (Hm _ _ _ E) as [_ Hr]. congruence.
Qed.

Lemma quiet_await {A} (f : S -> option A * S) : quiet (await S f).
Proof.
  intros w r w' H. unfold await in H. destruct (f w.1) as [a s']. inversion H.
  split; [reflexivity|]. destruct a; discriminate.
Qed.

Lemma quiet_fs_exists p : quiet (fs_exists S existsSync p).
Proof.
  intros w r w' H. unfold fs_exists, lift in H. inversion H. split; [reflexivity|discriminate].
Qed.

Lemma quiet_pure {A} (a : option A) : quiet (io_pure (lift_throwing a)).
Proof.
  intros w r w' H. inversion H. split; [reflexivity|]. destruct a; discriminate.
Qed.

Lemma quiet_ensure_dir dir : quiet (ensure_dir S existsSync mkdirSync dir).
Proof.
  unfold ensure_dir. apply quiet_bind; [apply quiet_fs_exists|].
  intros [|]; [apply quiet_ret|].
  intros w r w' H. unfold fs_do in H. destruct (mkdirSync dir w.1); inversion H;
    (split; [reflexivity|discriminate]).
Qed.

(** After steps that create no file. *)
Lemma leaves_bind {A B} (Q : outcome B -> list effect -> Prop)
    (m : io (world S) A) (f : A -> io (world S) B) :
  quiet m -> Q Throw [] -> (forall a, leaves Q (f a)) -> leaves Q (m ≫= f).
Proof.
  intros Hm Hthrow Hf w r w' H. unfold mbind, io_bind in H.
  destruct (m w) as [[[a| |] w1]|] eqn:E; try discriminate.
  - destruct (Hm _ _ _ E) as [E1 _]. destruct (Hf a _ _ _ H) as (new & E2 & HQ).
    exists new. split; [congruence|exact HQ].
  - inversion H; subst. destruct (Hm _ _ _ E) as [E1 _]. exists []. split; [exact E1|exact Hthrow].
  - destruct (Hm _ _ _ E) as [_ Hr]. congruence.
Qed.

Lemma leaves_ret {A} (Q : outcome A -> list effect -> Prop) (a : A) :
  Q (Ret a) [] -> leaves Q (mret a).
Proof. intros HQ w r w' H. inversion H; subst. exists []. split; [reflexivity|exact HQ]. Qed.

(** One file, then the result. *)
Lemma leaves_file {A} (Q : outcome A -> list effect -> Prop) (f : S -> option S)
    (e : effect) (a : A) :
  Q (Ret a) [e] -> Q Throw [] -> leaves Q (fs_do S f [e] ≫= fun _ => mret a).
Proof.
  intros HQ Hthrow w r w' H. unfold mbind, io_bind, fs_do in H.
  destruct (f w.1) as [s'|]; inversion H; subst; cbn [snd].
  - exists [e]. split; [reflexivity|exact HQ].
  - exists []. split; [reflexivity|exact Hthrow].
Qed.

Lemma leaves_try dir k (body : io (world S) (option MediaExportItem)) :
  leaves (body_leaves dir k) body -> leaves (tidy dir k) (io_try body (mret None)).
Proof.
  intros Hb w r w' H. unfold io_try in H.
  destruct (body w) as [[[item| |] w1]|] eqn:E; try discriminate.
  - inversion H; subst. destruct (Hb _ _ _ E) as (new & E1 & HQ).
    exists new. split; [exact E1|]. exists item. split; [reflexivity|exact HQ].
  - inversion H; subst. destruct (Hb _ _ _ E) as (new & E1 & HQ). cbn in HQ. subst new.
    exists []. split; [exact E1|]. exists None. split; [reflexivity|exact I].
  - destruct (Hb _ _ _ E) as (new & _ & []).
Qed.

Lemma downloadFile_resolves fuel : forall url destPath (s : S) r s',
  downloadFile S get pipe_to_file fuel url destPath s = Some (r, s') -> exists b, r = Ret b.
Proof.
  induction fuel as [|fuel IH]; intros url destPath s r s' H; [discriminate|].
  cbn [downloadFile] in H. unfold mbind, io_bind, io_step, mret, io_ret in H.
  destruct (get _ url _ s) as [[ | | |statusCode location body contentType] s1];
    try (inversion H; eauto; fail).
  destruct ((statusCode =? 301) || (statusCode =? 302)).
  - destruct location as [[|c loc]|].
    + destruct (negb (statusCode =? 200)); [inversion H; eauto|].
      destruct (pipe_to_file destPath body s1). inversion H; eauto.
    + eapply IH, H.
    + destruct (negb (statusCode =? 200)); [inversion H; eauto|].
      destruct (pipe_to_file destPath body s1). inversion H; eauto.
  - destruct (negb (statusCode =? 200)); [inversion H; eauto|].
    destruct (pipe_to_file destPath body s1). inversion H; eauto.
Qed.

Local Ltac stream_settles H :=
  destruct (negb _);
    [inversion H; right; split; [reflexivity|left; reflexivity]|];
  cbn [fst snd] in H;
  match type of H with
  | context [pipe_to_file ?p ?b ?s] => destruct (pipe_to_file p b s) as [[|] ?]
  end;
  inversion H; [left; split; reflexivity|right; split; [reflexivity|right; reflexivity]].

(** What a download notes: the file when its stream finishes, the file
    when its stream fails, and nothing when no stream is opened. *)
Lemma download_notes fuel origin : forall url destPath (w : world S) r w',
  downloadFile (world S)
    (fun secure address timeout w =>
       let '(r, s') := get secure address timeout w.1 in (r, (s', w.2)))
    (fun path body w =>
       let '(finished, s') := pipe_to_file path body w.1 in
       (finished,
        (s', (if finished then Downloaded origin path else Started origin path) :: w.2)))
    fuel url destPath w = Some (r, w') ->
  (r = Ret true /\ w'.2 = Downloaded origin destPath :: w.2)
  \/ (r = Ret false /\ (w'.2 = w.2 \/ w'.2 = Started origin destPath :: w.2)).
Proof.
  induction fuel as [|fuel IH]; intros url destPath w r w' H; [discriminate|].
  cbn [downloadFile] in H. unfold mbind, io_bind, io_step, mret, io_ret in H.
  destruct (get _ url _ w.1) as [[ | | |statusCode location body contentType] s1];
    try (inversion H; right; split; [reflexivity|left; reflexivity]).
  destruct ((statusCode =? 301) || (statusCode =? 302)); [|stream_settles H].
  destruct location as [[|c loc]|]; [stream_settles H| |stream_settles H].
  apply IH in H. exact H.
Qed.

(** A download, then one of two results. *)
Lemma leaves_download {A} (Q : outcome A -> list effect -> Prop) fuel url destPath (a b : A) :
  Q (Ret a) [Downloaded url destPath] -> Q (Ret b) [] -> Q (Ret b) [Started url destPath] ->
  leaves Q (download S get pipe_to_file fuel url destPath
            ≫= fun downloaded : bool => if downloaded then mret a else mret b).
Proof.
  intros Ha Hb Hc w r w' H. unfold mbind, io_bind, download in H.
  destruct (downloadFile _ _ _ _ _ _ _) as [[rd w1]|] eqn:E; [|discriminate].
  apply download_notes in E as [[-> E]|[-> [E|E]]]; inversion H; subst; rewrite E.
  - exists [Downloaded url destPath]. split; [reflexivity|exact Ha].
  - exists []. split; [reflexivity|exact Hb].
  - exists [Started url destPath]. split; [reflexivity|exact Hc].
Qed.

Lemma body_none dir k : body_leaves dir k (Ret None) [].
Proof. exact I. Qed.

Lemma body_throw dir k : body_leaves dir k Throw [].
Proof. reflexivity. Qed.

Lemma body_there dir k prefix name :
  prefix = prefix_of k ->
  body_leaves dir k (Ret (Some {| relativePath := prefix ++ name; kind := k |})) [].
Proof. intros ->. split; [reflexivity|]. exists name. reflexivity. Qed.

Lemma body_new dir k prefix name e :
  prefix = prefix_of k -> dest e = path_join [dir; name] ->
  match e with Started _ _ => False | _ => True end ->
  body_leaves dir k (Ret (Some {| relativePath := prefix ++ name; kind := k |})) [e].
Proof.
  intros -> H He. exists name. split; [exact H|]. destruct e; [reflexivity..|destruct He].
Qed.

Lemma body_started dir k name url :
  body_leaves dir k (Ret None) [Started url (path_join [dir; name])].
Proof. exists name. split; reflexivity. Qed.

Local Ltac item_filed :=
  first [ apply body_none | apply body_throw | apply body_started
        | apply body_there; vm_compute; reflexivity
        | apply body_new; [vm_compute; reflexivity|reflexivity|exact I] ].

Lemma exportVoice_leaves msg sessionId mediaDir :
  leaves (tidy (path_join [mediaDir; js "media"; js "voices"]) voice)
         (exportVoice' msg sessionId mediaDir).
Proof.
  unfold exportVoice. apply leaves_try.
  apply leaves_bind; [apply quiet_ensure_dir|apply body_throw|]. intros _.
  apply leaves_bind; [apply quiet_fs_exists|apply body_throw|]. intros [|].
  { apply leaves_ret. item_filed. }
  apply leaves_bind; [apply quiet_await|apply body_throw|]. intros voiceResult.
  destruct (_ || _); [apply leaves_ret; item_filed|].
  apply leaves_file; item_filed.
Qed.

Lemma exportEmoji_leaves fuel msg sessionId mediaDir :
  leaves (tidy (path_join [mediaDir; js "media"; js "emojis"]) emoji)
         (exportEmoji' fuel msg sessionId mediaDir).
Proof.
  unfold exportEmoji. apply leaves_try.
  apply leaves_bind; [apply quiet_ensure_dir|apply body_throw|]. intros _.
  destruct (_ && _); [apply leaves_ret; item_filed|].
  apply leaves_bind; [apply quiet_fs_exists|apply body_throw|]. intros [|].
  { apply leaves_ret. item_filed. }
  destruct (emojiCdnUrl msg) as [[|c url]|]; try (apply leaves_ret; item_filed).
  apply leaves_download; item_filed.
Qed.

Lemma exportImage_leaves msg sessionId mediaDir :
  leaves (tidy (path_join [mediaDir; js "media"; js "images"]) image)
         (exportImage' msg sessionId mediaDir).
Proof.
  unfold exportImage. apply leaves_try.
  apply leaves_bind; [apply quiet_ensure_dir|apply body_throw|]. intros _.
  destruct (_ && _); [apply leaves_ret; item_filed|].
  apply leaves_bind; [apply quiet_await|apply body_throw|]. intros result.
  apply leaves_bind; [|apply body_throw|].
  { destruct (_ || _); [|apply quiet_ret].
    apply quiet_bind; [apply quiet_await|]. intros thumbResult.
    destruct (_ || _); apply quiet_ret. }
  intros [sourcePath|]; [|apply leaves_ret; item_filed].
  destruct (startsWith sourcePath (js "data:")).
  - apply leaves_bind; [apply quiet_pure|apply body_throw|]. intros base64Data.
    apply leaves_file; item_filed.
  - apply leaves_bind; [|apply body_throw|].
    { destruct (startsWith _ _); [apply quiet_pure|apply quiet_ret]. }
    intros path. apply leaves_bind; [apply quiet_fs_exists|apply body_throw|].
    intros [|]; [|apply leaves_ret; item_filed].
    apply leaves_bind; [apply quiet_fs_exists|apply body_throw|]. intros [|].
    + apply leaves_bind; [apply quiet_ret|apply body_throw|]. intros _.
      apply leaves_ret. item_filed.
    + apply leaves_file; item_filed.
Qed.

(** Whatever the disk, the image service, the voice service and the
    network do, [exportMediaForMessage] resolves with an item or [null]
    when it ends: it does not throw. *)
Theorem exportMediaForMessage_never_throws fuel msg sessionId mediaDir options
    (w : world S) r w' :
  exportMediaForMessage' fuel msg sessionId mediaDir options w = Some (r, w') ->
  exists item, r = Ret item.
Proof.
  unfold exportMediaForMessage. intros H.
  destruct (_ && _);
    [destruct (exportImage_leaves _ _ _ _ _ _ H) as (new & _ & item & -> & _); eauto|].
  destruct (_ && _); [inversion H; eauto|].
  destruct (_ && _);
    [destruct (exportVoice_leaves _ _ _ _ _ _ H) as (new & _ & item & -> & _); eauto|].
  destruct (_ && _);
    [destruct (exportEmoji_leaves _ _ _ _ _ _ _ H) as (new & _ & item & -> & _); eauto|].
  inversion H; eauto.
Qed.


End WithWorld.

(** An image that comes as a data URL, on a disk that refuses the
    file: the export gives [null]. *)
Lemma exportMediaForMessage_never_throws_witness :
  exists item w',
    exportMediaForMessage () Scenario.nothing_exists Scenario.mkdir_ok Scenario.write_refused
      Scenario.copy_ok Scenario.join Scenario.extname_none Scenario.no_file_url
      Scenario.base64_stub Scenario.decrypt_to_data_url Scenario.no_image Scenario.no_voice
      Scenario.get_error accepting_pipe 3 Scenario.image_message (js "1234@chatroom")
      (js "out") Scenario.every_media ((), [])
    = Some (Ret item, w').
Proof.
  destruct (exportMediaForMessage () Scenario.nothing_exists Scenario.mkdir_ok
              Scenario.write_refused Scenario.copy_ok Scenario.join Scenario.extname_none
              Scenario.no_file_url Scenario.base64_stub Scenario.decrypt_to_data_url
              Scenario.no_image Scenario.no_voice Scenario.get_error accepting_pipe 3
              Scenario.image_message (js "1234@chatroom") (js "out") Scenario.every_media
              ((), [])) as [[r w']|] eqn:E; [|vm_compute in E; discriminate E].
  destruct (exportMediaForMessage_never_throws _ _ _ _ _ _ _ _ _ _ _ _ _ _ _ _ _ _ _ _ _ _ E)
    as [item ->].
  exists item, w'. reflexivity.
Defined.


(** What that export returns and leaves. *)
Example image_written_once :
  exportMediaForMessage () Scenario.nothing_exists Scenario.mkdir_ok Scenario.write_ok
    Scenario.copy_ok Scenario.join Scenario.extname_none Scenario.no_file_url
    Scenario.base64_stub Scenario.decrypt_to_data_url Scenario.no_image
    Scenario.no_voice Scenario.get_error accepting_pipe 3 Scenario.image_message
    (js "1234@chatroom") (js "out") Scenario.every_media ((), [])
  = Some (Ret (Some {| relativePath := js "media/images/0cc175b9c0f1b6a8.png";
                       kind := image |}),
          ((), [Wrote (js "out/media/images/0cc175b9c0f1b6a8.png")])).
Proof. vm_compute. reflexivity. Qed.

(** An emoji whose download is answered and then fails in the stream:
    the file was opened, and the result is [null]. *)
Example emoji_download_abandoned :
  exportMediaForMessage () Scenario.nothing_exists Scenario.mkdir_ok Scenario.write_ok
    Scenario.copy_ok Scenario.join Scenario.extname_none Scenario.no_file_url
    Scenario.base64_stub Scenario.decrypt_to_data_url Scenario.no_image
    Scenario.no_voice Scenario.get_answer Scenario.failing_pipe 3 Scenario.emoji_message
    (js "1234@chatroom") (js "out") Scenario.every_media ((), [])
  = Some (Ret None,
          ((), [Started (js "http://emoji.example/a.png")
                        (js "out/media/emojis/92eb5ffee6ae2fec.png")])).
Proof. vm_compute. reflexivity. Qed.

End FilesFacts.

(** ** Type codes and transcripts *)

Module LabelFacts.
Import JS Regex Parser Identity Media Orchestrator.

Local Ltac listed := apply (bool_decide_unpack _); vm_compute; exact I.

(** The ChatLab type of a message is one of the codes of the format,
    and it is FILE, SHARE or REPLY only for an app message (localType
    49) that says so in its [type] element; for every other localType
    the content is not looked at. *)
Theorem convertMessageType_codes (localType : Z) (content : jsstring) :
  convertMessageType localType content ∈ [0; 1; 2; 3; 4; 5; 7; 8; 23; 24; 25; 27; 80; 99]
  /\ (convertMessageType localType content ∈ [4; 24; 25] -> localType = 49)
  /\ (localType <> 49 -> convertMessageType localType content = convertMessageType localType []).
Proof.
  assert (Hmap : default 99 (MESSAGE_TYPE_MAP !! localType)
                 ∈ [0; 1; 2; 3; 5; 7; 8; 23; 27; 80; 99]).
  { destruct (MESSAGE_TYPE_MAP !! localType) as [v|] eqn:E; cbn [default]; [|listed].
    apply (elem_of_list_to_map_2 (M := gmap Z)) in E.
    repeat (apply elem_of_cons in E as [E|E]; [inversion E; listed|]).
    apply elem_of_nil in E. contradiction. }
  unfold convertMessageType. destruct (localType =? 49) eqn:E49.
  - apply Z.eqb_eq in E49. split; [|split; [intros _; exact E49|congruence]].
    destruct (exec _ content) as [typeMatch|].
    + repeat match goal with |- context [if ?b then _ else _] => destruct b end; listed.
    + subst localType. listed.
  - split; [|split; [|reflexivity]].
    + revert Hmap. generalize (default 99 (MESSAGE_TYPE_MAP !! localType)). intros v Hv.
      repeat (apply elem_of_cons in Hv as [Hv|Hv]; [subst v; listed|]).
      apply elem_of_nil in Hv. contradiction.
    + revert Hmap. generalize (default 99 (MESSAGE_TYPE_MAP !! localType)). intros v Hv H.
      exfalso.
      repeat (apply elem_of_cons in Hv as [Hv|Hv];
              [subst v;
               repeat (apply elem_of_cons in H as [H|H]; [discriminate H|]);
               apply elem_of_nil in H; contradiction|]).
      apply elem_of_nil in Hv. contradiction.
Qed.

Section WithWorld.
Variable S : Type.
Variable getVoiceTranscript : jsstring -> jsstring -> S -> option (bool * option jsstring) * S.

(** [transcribeVoice] does not throw: a transcript that is there is
    returned behind its label, and a lookup that fails, gives nothing or
    is rejected gives the label of the failure. *)
Theorem transcribeVoice_labels sessionId msgId (w : world S) :
  exists text w',
    transcribeVoice S getVoiceTranscript sessionId msgId w = Some (Ret text, w')
    /\ match (getVoiceTranscript sessionId msgId (outside S w)).1 with
       | Some (true, Some ((_ :: _) as transcript)) => text = js "[语音转文字] " ++ transcript
       | _ => text = js "[语音消息 - 转文字失败]"
       end.
Proof.
  unfold transcribeVoice, io_try, mbind, io_bind, awaiting.
  destruct (getVoiceTranscript sessionId msgId (outside S w)) as [[[[|] [[|c t]|]]|] s'];
    cbn [fst lift_throwing]; eexists _, _; split; reflexivity.
Qed.

End WithWorld.
End LabelFacts.

(** ** The sender prefix *)

Module PrefixFacts.
Import JS Regex Parser Names RunFacts.

Local Abbreviation blank_class := (class_matches false false [CSpace false]).
Local Abbreviation id_class :=
  (class_matches false false
     [CRange 97 122; CRange 65 90; CRange 48 57; CChar 95; CChar 45]).

Lemma blank_class_space c : blank_class c = is_space c.
Proof. unfold class_matches. cbn [existsb item_matches xorb]. apply orb_false_r. Qed.

Lemma id_class_id c : id_class c = is_id_char c.
Proof.
  unfold class_matches, is_id_char, is_lower, is_upper, is_digit.
  cbn [existsb item_matches xorb andb canon].
  rewrite (Z.eqb_sym 95 c), (Z.eqb_sym 45 c), !orb_false_r, !orb_assoc. reflexivity.
Qed.

(** No character of an id is a blank. *)
Lemma id_not_space c : is_id_char c = true -> is_space c = false.
Proof.
  intros H.
  assert (Hc : 45 <= c <= 122).
  { revert H. unfold is_id_char, is_lower, is_upper, is_digit.
    rewrite !orb_true_iff, !andb_true_iff, !Z.leb_le, !Z.eqb_eq. lia. }
  apply not_true_is_false. unfold is_space.
  rewrite !orb_true_iff, !andb_true_iff, !Z.leb_le, !Z.eqb_eq. lia.
Qed.

Lemma Forall_class (f g : Z -> bool) l :
  (forall c, f c = g c) -> Forall (fun c => f c = true) l -> Forall (fun c => g c = true) l.
Proof. intros E H. eapply Forall_impl; [exact H|]. intros c. cbn beta. rewrite E. auto. Qed.

Lemma consumed_app w rest p p' caps caps' :
  consumed (MState (w ++ rest) p caps) (MState rest p' caps') = w.
Proof.
  unfold consumed. cbn [m_rest]. rewrite length_app.
  replace (length w + length rest - length rest)%nat with (length w) by lia.
  apply take_app_length.
Qed.

(** The pattern [//] at a position. *)
Lemma two_slashes rest p caps :
  rmatch false (Seq (Char 47) (Char 47)) (MState rest p caps) Some = None
  <-> startsWith rest (js "//") = false.
Proof.
  change (js "//") with [47; 47].
  cbn [rmatch startsWith]. unfold step. cbn [m_rest m_caps canon andb].
  destruct rest as [|c [|d rest]]; cbn [startsWith]; try tauto.
  - destruct (47 =? c); cbn [andb]; tauto.
  - replace (startsWith rest []) with true by (destruct rest; reflexivity).
    destruct (47 =? c), (47 =? d); cbn [andb]; split; (discriminate || reflexivity).
Qed.

Local Abbreviation prefix_pattern := (rx "^[\s]*([a-zA-Z0-9_-]+):(?!\/\/)" "").

Lemma prefix_pattern_parsed :
  prefix_pattern
  = RegExp
      (Seq Bol
         (Seq (Repeat 0 None true (Class false [CSpace false]))
            (Seq (Group 1
                    (Repeat 1 None true
                       (Class false
                          [CRange 97 122; CRange 65 90; CRange 48 57; CChar 95; CChar 45])))
               (Seq (Char 58) (Look true (Seq (Char 47) (Char 47)))))))
      1 false.
Proof. vm_compute. reflexivity. Qed.

(** What [stripSenderPrefix] takes off a message is at most blanks, a
    sender id and a colon, and what it leaves does not begin with two
    slashes. *)
Theorem stripSenderPrefix_removes (content : jsstring) :
  stripSenderPrefix content = content
  \/ exists blanks id,
       content = blanks ++ id ++ [0x3A] ++ stripSenderPrefix content
       /\ Forall (fun c => is_space c = true) blanks
       /\ id <> [] /\ Forall (fun c => is_id_char c = true) id
       /\ startsWith (stripSenderPrefix content) (js "//") = false.
Proof.
  unfold stripSenderPrefix, replace_first. rewrite prefix_pattern_parsed, exec_anchored.
  unfold match_here. cbn [re_icase re_body re_groups rmatch m_prev m_rest groups_of app].
  match goal with
  | |- context [RepeatMatcher ?m ?gs ?g ?k ?fuel ?mn ?mx ?x] =>
    destruct (RepeatMatcher m gs g k fuel mn mx x) as [z|] eqn:E; [|left; reflexivity]
  end.
  right.
  apply (run_sound blank_class) in E as (blanks & rest1 & -> & Hblanks & _ & E).
  cbn [m_rest m_prev m_caps] in E.
  apply (run_sound id_class) in E as (id & rest2 & -> & Hid & Hlen & E).
  cbn [m_rest m_prev m_caps] in E. rewrite consumed_app in E.
  unfold step in E. cbn [m_rest m_caps canon andb] in E.
  destruct rest2 as [|c rest]; [discriminate E|].
  destruct (58 =? c) eqn:Ec; [|discriminate E]. apply Z.eqb_eq in Ec. subst c.
  match type of E with
  | match ?l with Some _ => _ | None => _ end = _ => destruct l eqn:Hlook; [discriminate E|]
  end.
  inversion E; subst z; clear E. cbn [mr_index mr_after m_rest take app].
  apply (two_slashes rest (Some 58) (set_cap 1 (Some id) (replicate 2 None))) in Hlook.
  exists blanks, id. split; [reflexivity|]. split; [|split; [|split]].
  - eapply Forall_class; [apply blank_class_space|exact Hblanks].
  - destruct id; [cbn in Hlen; lia|discriminate].
  - eapply Forall_class; [apply id_class_id|exact Hid].
  - exact Hlook.
Qed.

(** Blanks, a sender id and a colon in front of a message are taken
    off, unless two slashes follow the colon. *)
Theorem stripSenderPrefix_strips (blanks id rest : jsstring) :
  Forall (fun c => is_space c = true) blanks ->
  id <> [] -> Forall (fun c => is_id_char c = true) id ->
  startsWith rest (js "//") = false ->
  stripSenderPrefix (blanks ++ id ++ [0x3A] ++ rest) = rest.
Proof.
  intros Hblanks Hne Hid Hrest.
  unfold stripSenderPrefix, replace_first. rewrite prefix_pattern_parsed, exec_anchored.
  unfold match_here. cbn [re_icase re_body re_groups rmatch m_prev m_rest groups_of app].
  set (caps1 := set_cap 1 (Some id) (replicate 2 None)).
  set (z := MState rest (Some 58) caps1).
  match goal with
  | |- context [RepeatMatcher ?m ?gs ?g ?k ?fuel ?mn ?mx ?x] =>
    assert (E : RepeatMatcher m gs g k fuel mn mx x = Some z)
  end.
  { assert (Hfirst : exists c id', id = c :: id' /\ is_id_char c = true).
    { destruct id as [|c id']; [congruence|]. apply Forall_cons in Hid as [Hc _]. eauto. }
    destruct Hfirst as (c0 & id' & Eid & Hc0).
    apply (run_greedy blank_class).
    - eapply Forall_class; [|exact Hblanks]. intros c. symmetry. apply blank_class_space.
    - lia.
    - rewrite length_app. lia.
    - rewrite Eid. cbn [app]. rewrite blank_class_space. apply id_not_space, Hc0.
    - cbn [m_rest m_prev m_caps].
      apply (run_greedy id_class).
      + eapply Forall_class; [|exact Hid]. intros c. symmetry. apply id_class_id.
      + destruct id; [congruence|cbn [length]; lia].
      + rewrite length_app. lia.
      + cbn [app]. reflexivity.
      + cbn [m_rest m_prev m_caps]. rewrite consumed_app.
        unfold step. cbn [m_rest m_caps canon andb app]. 
        change (58 =? 58) with true. cbv iota.
        match goal with
        | |- match ?look with Some _ => _ | None => _ end = _ =>
          replace look with (@None mstate);
            [reflexivity|symmetry; exact (proj2 (two_slashes rest (Some 58) caps1) Hrest)]
        end. }
  rewrite E. reflexivity.
Qed.

(** A message of a group as the database holds it: the sender's id, a
    colon and a line feed in front of the text. *)
Lemma stripSenderPrefix_strips_witness :
  stripSenderPrefix ([] ++ js "wxid_alice" ++ [0x3A] ++ [0xA] ++ js "see you there")
  = [0xA] ++ js "see you there".
Proof.
  apply stripSenderPrefix_strips;
    [constructor|discriminate|vm_compute; repeat constructor|vm_compute; reflexivity].
Defined.

(** An address is left as it is, and so is a time of day after a
    blank. *)
Example addresses_are_kept :
  List.map stripSenderPrefix [js "https://example.com/a"; js "at 10:30"; js "note: done"]
  = [js "https://example.com/a"; js "at 10:30"; js " done"].
Proof. vm_compute. reflexivity. Qed.

End PrefixFacts.

(** ** Runs of a fixed length, and runs that give characters back *)

Module BoundedRunFacts.
Import JS Regex MatcherFacts RunFacts.

Section Run.
Variable ok : Z -> bool.

(** A quantifier with the same lower and upper bound takes that many
    characters of the class. *)
Lemma run_exact greedy k caps : forall w fuel rest prev,
  Forall (fun c => ok c = true) w -> (length w < fuel)%nat ->
  RepeatMatcher (step ok) [] greedy k fuel (length w) (Some (length w))
    (MState (w ++ rest) prev caps)
  = k (MState rest (prev_after prev w) caps).
Proof.
  induction w as [|c w IH]; intros fuel rest prev Hw Hfuel;
    (destruct fuel as [|fuel]; [cbn in Hfuel; lia|]).
  - reflexivity.
  - apply Forall_cons in Hw as [Hc Hw]. cbn [length] in Hfuel.
    cbn [RepeatMatcher length]. cbv zeta. cbn [Nat.ltb Nat.leb Nat.eqb andb pred fmap option_fmap option_map].
    unfold step at 1, clear_caps. cbn [m_rest m_prev m_caps foldr app]. rewrite Hc.
    rewrite <- prev_after_cons. apply IH; [exact Hw|lia].
Qed.

Lemma run_exact_sound greedy k fuel : forall n s prev caps z,
  RepeatMatcher (step ok) [] greedy k fuel n (Some n) (MState s prev caps) = Some z ->
  exists w rest,
    s = w ++ rest /\ length w = n /\ Forall (fun c => ok c = true) w
    /\ k (MState rest (prev_after prev w) caps) = Some z.
Proof.
  induction fuel as [|fuel IH]; intros n s prev caps z; [discriminate|].
  destruct n as [|n].
  - cbn [RepeatMatcher]. intros H. exists [], s. repeat split; [constructor|exact H].
  - cbn [RepeatMatcher]. cbv zeta.
    cbn [Nat.ltb Nat.leb Nat.eqb andb pred fmap option_fmap option_map].
    unfold step at 1, clear_caps. cbn [m_rest m_prev m_caps foldr].
    destruct s as [|c s]; [discriminate|]. destruct (ok c) eqn:Hc; [|discriminate].
    intros H. apply IH in H as (w & rest & -> & Hlen & Hw & Hk).
    exists (c :: w), rest. repeat split.
    + cbn [length]. lia.
    + constructor; assumption.
    + rewrite <- prev_after_cons. exact Hk.
Qed.

(** A repetition whose continuation fails wherever it could end
    fails. *)
Lemma run_dead greedy k fuel mn mx x :
  (forall y, no_further x y -> k y = None) ->
  RepeatMatcher (step ok) [] greedy k fuel mn mx x = None.
Proof.
  intros Hk. destruct (RepeatMatcher _ _ _ _ _ _ _ x) as [z|] eqn:E; [|reflexivity].
  apply (RepeatMatcher_forward (step ok) [] greedy (step_forward ok)) in E as (y & Hy & E).
  rewrite (Hk y Hy) in E. discriminate E.
Qed.

(** A greedy quantified class gives characters back until what follows
    matches: when what follows cannot match any further on, the run
    ends where it first can. *)
Lemma run_greedy_back k caps z : forall w fuel mn rest prev,
  Forall (fun c => ok c = true) w -> (mn <= length w)%nat ->
  (length (w ++ rest) < fuel)%nat ->
  (forall y, (length (m_rest y) < length rest)%nat -> k y = None) ->
  k (MState rest (prev_after prev w) caps) = Some z ->
  RepeatMatcher (step ok) [] true k fuel mn None (MState (w ++ rest) prev caps) = Some z.
Proof.
  induction w as [|c w IH]; intros fuel mn rest prev Hw Hmn Hfuel Hdead Hk;
    (destruct fuel as [|fuel]; [cbn in Hfuel; lia|]).
  - cbn in Hmn. assert (mn = 0%nat) as -> by lia. cbn [RepeatMatcher]. cbv zeta.
    cbn [Nat.ltb Nat.leb app Nat.eqb andb pred fmap option_fmap option_map].
    unfold step at 1, clear_caps. cbn [m_rest m_prev m_caps foldr].
    destruct rest as [|c rest]; [exact Hk|]. destruct (ok c); [|exact Hk].
    cbn [length]. replace (length rest =? S (length rest))%nat with false
      by (symmetry; apply Nat.eqb_neq; lia).
    rewrite run_dead; [exact Hk|].
    intros y Hy. apply Hdead. unfold no_further in Hy. cbn [m_rest length] in *. lia.
  - apply Forall_cons in Hw as [Hc Hw]. cbn [length app] in Hmn, Hfuel.
    cbn [RepeatMatcher]. cbv zeta.
    assert (Hd :
      step ok (clear_caps [] (MState ((c :: w) ++ rest) prev caps))
        (fun y => if (mn =? 0)%nat
                     && (length (m_rest y)
                         =? length (m_rest (MState ((c :: w) ++ rest) prev caps)))%nat
                  then None
                  else RepeatMatcher (step ok) [] true k fuel (pred mn) (pred <$> None) y)
      = Some z).
    { unfold step, clear_caps. cbn [m_rest m_prev m_caps foldr app]. rewrite Hc.
      cbn [length]. replace (length (w ++ rest) =? S (length (w ++ rest)))%nat with false
        by (symmetry; apply Nat.eqb_neq; lia).
      rewrite andb_false_r. apply IH; [exact Hw|lia|lia|exact Hdead|].
      rewrite (prev_after_cons prev). exact Hk. }
    destruct (0 <? mn)%nat; [exact Hd|]. rewrite Hd. reflexivity.
Qed.

End Run.
End BoundedRunFacts.

(** ** Account directory names *)

Module AccountFacts.
Import JS Regex MatcherFacts Identity Names RunFacts PrefixFacts BoundedRunFacts.

Local Abbreviation wxid_pattern := (rx "^(wxid_[^_]+)" "i").

Lemma wxid_pattern_parsed :
  wxid_pattern
  = RegExp
      (Seq Bol
         (Group 1
            (Seq (Char 119) (Seq (Char 120) (Seq (Char 105) (Seq (Char 100) (Seq (Char 95)
               (Repeat 1 None true (Class true [CChar 95])))))))))
      1 true.
Proof. vm_compute. reflexivity. Qed.

(** A character that reads as a lower-case letter or an underscore of
    the pattern, whatever its case. *)
Lemma canon_lower (l d : Z) :
  95 <= l <= 122 -> l <> 96 ->
  (l =? (if is_upper d then d + 32 else d)) = true ->
  (canon true l =? canon true d) = true.
Proof.
  intros Hl Hl' H. apply Z.eqb_eq in H. apply Z.eqb_eq.
  unfold canon, is_lower, is_upper in *. cbn [andb].
  destruct (Z.leb_spec 65 d), (Z.leb_spec d 90), (Z.leb_spec 97 d), (Z.leb_spec d 122),
    (Z.leb_spec 97 l), (Z.leb_spec l 122); cbn [andb] in *; lia.
Qed.

Local Abbreviation not_underscore := (class_matches true true [CChar 95]).

Lemma not_underscore_spec c : not_underscore c = negb (c =? 95).
Proof.
  unfold class_matches. cbn [existsb item_matches xorb]. rewrite orb_false_r.
  change (canon true 95) with 95. unfold canon, is_lower. cbn [andb].
  destruct ((97 <=? c) && (c <=? 122)) eqn:E.
  - apply andb_prop in E as [E1 E2]. apply Z.leb_le in E1, E2.
    rewrite (proj2 (Z.eqb_neq 95 (c - 32))) by lia.
    rewrite (proj2 (Z.eqb_neq c 95)) by lia. reflexivity.
  - rewrite Z.eqb_sym. reflexivity.
Qed.

(** [wxid_] in any case, then characters other than the underscore up
    to the first underscore or the end: that much is kept. *)
Theorem cleanAccountDirName_wxid (dirName head id rest : jsstring) :
  trim dirName = head ++ id ++ rest ->
  length head = 5%nat -> startsWith_lower head (js "wxid_") = true ->
  id <> [] -> Forall (fun c => c <> 0x5F) id ->
  match rest with c :: _ => c = 0x5F | [] => True end ->
  cleanAccountDirName dirName = head ++ id.
Proof.
  intros Htrim Hlen Hhead Hne Hid Hrest. unfold cleanAccountDirName. rewrite Htrim.
  destruct head as [|a [|b [|c [|d [|e [|? ?]]]]]]; try discriminate Hlen. clear Hlen.
  change (js "wxid_") with [119; 120; 105; 100; 95] in *.
  cbn [startsWith_lower] in Hhead.
  apply andb_prop in Hhead as [Ha Hhead]. apply andb_prop in Hhead as [Hb Hhead].
  apply andb_prop in Hhead as [Hc Hhead]. apply andb_prop in Hhead as [Hd Hhead].
  apply andb_prop in Hhead as [He _].
  cbn [app startsWith_lower]. rewrite Ha, Hb, Hc, Hd, He. cbn [andb].
  replace (startsWith_lower (id ++ rest) []) with true by (destruct (id ++ rest); reflexivity).
  rewrite wxid_pattern_parsed, exec_anchored. unfold match_here.
  cbn [re_icase re_body re_groups rmatch m_prev m_rest groups_of app].
  unfold step at 1. cbn [m_rest m_caps]. rewrite (canon_lower 119 a) by (lia || exact Ha).
  unfold step at 1. cbn [m_rest m_caps]. rewrite (canon_lower 120 b) by (lia || exact Hb).
  unfold step at 1. cbn [m_rest m_caps]. rewrite (canon_lower 105 c) by (lia || exact Hc).
  unfold step at 1. cbn [m_rest m_caps]. rewrite (canon_lower 100 d) by (lia || exact Hd).
  unfold step at 1. cbn [m_rest m_caps]. rewrite (canon_lower 95 e) by (lia || exact He).
  set (kept := a :: b :: c :: d :: e :: id).
  set (z := MState rest (prev_after (Some e) id) (set_cap 1 (Some kept) (replicate 2 None))).
  match goal with
  | |- context [RepeatMatcher ?m ?gs ?g ?k ?fuel ?mn ?mx ?x] =>
    assert (E : RepeatMatcher m gs g k fuel mn mx x = Some z)
  end.
  { apply (run_greedy not_underscore).
    - eapply Forall_impl; [exact Hid|]. intros ch Hch. cbn beta.
      rewrite not_underscore_spec. apply negb_true_iff, Z.eqb_neq, Hch.
    - destruct id; [congruence|cbn [length]; lia].
    - rewrite length_app. lia.
    - destruct rest as [|ch rest']; [exact I|]. subst ch. reflexivity.
    - cbn [m_rest m_prev m_caps]. unfold z, kept. do 2 f_equal. f_equal.
      change (a :: b :: c :: d :: e :: id ++ rest) with ((a :: b :: c :: d :: e :: id) ++ rest).
      f_equal. apply consumed_app. }
  rewrite E. reflexivity.
Qed.

Local Abbreviation suffix_pattern := (rx "^(.+)_([a-zA-Z0-9]{4})$" "").
Local Abbreviation dot := (fun d : Z => negb (is_line_terminator d)).
Local Abbreviation alnum_class :=
  (class_matches false false [CRange 97 122; CRange 65 90; CRange 48 57]).

Lemma suffix_pattern_parsed :
  suffix_pattern
  = RegExp
      (Seq Bol
         (Seq (Group 1 (Repeat 1 None true Dot))
            (Seq (Char 95)
               (Seq (Group 2
                       (Repeat 4 (Some 4%nat) true
                          (Class false [CRange 97 122; CRange 65 90; CRange 48 57])))
                  Eol))))
      2 false.
Proof. vm_compute. reflexivity. Qed.

Lemma alnum_class_alnum c : alnum_class c = is_alnum c.
Proof.
  unfold class_matches, is_alnum, is_lower, is_upper, is_digit.
  cbn [existsb item_matches xorb andb canon]. rewrite !orb_false_r, !orb_assoc. reflexivity.
Qed.

(** What follows the name in the pattern: an underscore, four letters
    or digits, and the end. *)
Local Abbreviation tail_pattern :=
  (Seq (Char 95)
     (Seq (Group 2
             (Repeat 4 (Some 4%nat) true
                (Class false [CRange 97 122; CRange 65 90; CRange 48 57])))
        Eol)).

Lemma tail_pattern_sound y z :
  rmatch false tail_pattern y Some = Some z ->
  exists suffix,
    m_rest y = 95 :: suffix /\ length suffix = 4%nat
    /\ Forall (fun c => is_alnum c = true) suffix
    /\ m_rest z = [] /\ m_caps z = set_cap 2 (Some suffix) (m_caps y).
Proof.
  cbn [rmatch groups_of m_rest]. unfold step at 1.
  destruct (m_rest y) as [|c rest]; [discriminate|]. cbn [canon andb].
  destruct (95 =? c) eqn:Ec; [|discriminate]. apply Z.eqb_eq in Ec. subst c.
  intros H. apply (run_exact_sound alnum_class) in H as (w & rest' & -> & Hlen & Hw & H).
  cbn [m_rest m_prev m_caps] in H. destruct rest' as [|? ?]; [|discriminate H].
  inversion H; subst z; clear H. cbn [m_caps m_rest]. rewrite consumed_app, app_nil_r.
  exists w. repeat split; try assumption.
  eapply Forall_class; [apply alnum_class_alnum|exact Hw].
Qed.

Lemma tail_pattern_complete suffix prev caps :
  length suffix = 4%nat -> Forall (fun c => is_alnum c = true) suffix ->
  exists z,
    rmatch false tail_pattern (MState (95 :: suffix) prev caps) Some = Some z
    /\ m_caps z = set_cap 2 (Some suffix) caps.
Proof.
  intros Hlen Hw. cbn [rmatch groups_of m_rest]. unfold step at 1.
  cbn [m_rest m_caps canon andb]. change (95 =? 95) with true. cbv iota.
  rewrite Hlen.
  assert (Hclass : Forall (fun c => alnum_class c = true) suffix).
  { eapply Forall_class; [|exact Hw]. intros c. symmetry. apply alnum_class_alnum. }
  match goal with
  | |- exists z, RepeatMatcher ?m ?gs ?g ?k ?fuel _ _ ?x = Some z /\ _ =>
    pose proof (run_exact alnum_class g k caps suffix fuel [] (Some 95) Hclass) as R
  end.
  rewrite Hlen, app_nil_r in R. specialize (R ltac:(lia)). cbn [m_rest m_prev m_caps] in R.
  eexists. split; [etransitivity; [exact R|reflexivity]|]. cbn [m_caps]. f_equal. f_equal.
  rewrite <- (app_nil_r suffix) at 1. apply consumed_app.
Qed.

Lemma nonempty_match {A} (l : jsstring) (a b : A) :
  l <> [] -> match l with [] => a | _ :: _ => b end = b.
Proof. destruct l; congruence. Qed.

(** [name_xxxx], for a name that does not begin with [wxid_] and has no
    line break, and four letters or digits [xxxx]: the name is kept. *)
Theorem cleanAccountDirName_suffix (dirName name suffix : jsstring) :
  trim dirName = name ++ [0x5F] ++ suffix ->
  startsWith_lower (name ++ [0x5F] ++ suffix) (js "wxid_") = false ->
  name <> [] -> Forall (fun c => is_line_terminator c = false) name ->
  length suffix = 4%nat -> Forall (fun c => is_alnum c = true) suffix ->
  cleanAccountDirName dirName = name.
Proof.
  intros Htrim Hnot Hne Hname Hlen Hsuffix. unfold cleanAccountDirName. rewrite Htrim, Hnot.
  rewrite nonempty_match by (intros H; apply app_eq_nil in H as [H _]; congruence).
  rewrite suffix_pattern_parsed, exec_anchored. unfold match_here.
  cbn [re_icase re_body re_groups rmatch m_prev m_rest groups_of app].
  set (x := MState (name ++ 95 :: suffix) None (replicate 3 None)).
  match goal with
  | |- context [RepeatMatcher ?m ?gs ?g ?k ?fuel ?mn ?mx x] =>
    assert (E : exists z, RepeatMatcher m gs g k fuel mn mx x = Some z
                          /\ m_caps z = set_cap 2 (Some suffix)
                                          (set_cap 1 (Some name) (replicate 3 None)))
  end.
  { destruct (tail_pattern_complete suffix (prev_after None name)
                (set_cap 1 (Some name) (replicate 3 None)) Hlen Hsuffix) as (z & Hz & Hcaps).
    exists z. split; [|exact Hcaps].
    apply (run_greedy_back dot).
    - eapply Forall_impl; [exact Hname|]. intros c Hc. cbn beta. rewrite Hc. reflexivity.
    - destruct name; [congruence|cbn [length]; lia].
    - cbn [m_rest]. lia.
    - intros y Hy. cbn [length] in Hy. rewrite Hlen in Hy.
      match goal with |- ?l = None => destruct l as [z'|] eqn:E; [|reflexivity] end.
      apply tail_pattern_sound in E as (suffix' & E1 & E2 & _). cbn [m_rest] in E1.
      rewrite E1 in Hy. cbn [length] in Hy. lia.
    - cbn [m_rest m_prev m_caps]. unfold x. rewrite consumed_app. exact Hz. }
  destruct E as (z & -> & Hcaps). cbn [group mr_caps]. rewrite Hcaps. reflexivity.
Qed.

(** What [cleanAccountDirName] returns is the front of the trimmed name,
    and it is empty only when the trimmed name is. *)
Theorem cleanAccountDirName_prefix (dirName : jsstring) :
  exists rest,
    trim dirName = cleanAccountDirName dirName ++ rest
    /\ (cleanAccountDirName dirName = [] -> trim dirName = []).
Proof.
  unfold cleanAccountDirName. generalize (trim dirName). intros trimmed.
  assert (Hsame : exists rest, trimmed = trimmed ++ rest /\ (trimmed = [] -> trimmed = [])).
  { exists []. rewrite app_nil_r. auto. }
  destruct trimmed as [|t ts] eqn:Et; [exact Hsame|]. rewrite <- Et in *.
  assert (Hne : trimmed <> []) by (rewrite Et; discriminate). clear t ts Et.
  destruct (startsWith_lower trimmed (js "wxid_")).
  - rewrite wxid_pattern_parsed, exec_anchored. unfold match_here.
    cbn [re_icase re_body re_groups rmatch m_prev m_rest groups_of app].
    match goal with
    | |- context [match ?run with Some _ => _ | None => _ end] =>
      destruct run as [z|] eqn:E; [|exact Hsame]
    end.
    unfold step at 1 in E. cbn [m_rest m_caps] in E.
    destruct trimmed as [|a s]; [discriminate E|]. destruct (_ =? _); [|discriminate E].
    unfold step at 1 in E. cbn [m_rest m_caps] in E.
    destruct s as [|b s]; [discriminate E|]. destruct (_ =? _); [|discriminate E].
    unfold step at 1 in E. cbn [m_rest m_caps] in E.
    destruct s as [|c s]; [discriminate E|]. destruct (_ =? _); [|discriminate E].
    unfold step at 1 in E. cbn [m_rest m_caps] in E.
    destruct s as [|d s]; [discriminate E|]. destruct (_ =? _); [|discriminate E].
    unfold step at 1 in E. cbn [m_rest m_caps] in E.
    destruct s as [|e s]; [discriminate E|]. destruct (_ =? _); [|discriminate E].
    match type of E with
    | match ?run with Some _ => _ | None => _ end = _ =>
      destruct run as [y|] eqn:E2; [|discriminate E]
    end.
    inversion E; subst z; clear E.
    apply (run_sound not_underscore) in E2 as (w & rest & -> & _ & _ & E).
    inversion E; subst y; clear E. cbn [group mr_caps m_caps m_rest].
    change (a :: b :: c :: d :: e :: w ++ rest) with ((a :: b :: c :: d :: e :: w) ++ rest).
    rewrite consumed_app. cbn [set_cap replicate]. cbn.
    exists rest. split; [reflexivity|discriminate].
  - rewrite suffix_pattern_parsed, exec_anchored. unfold match_here.
    cbn [re_icase re_body re_groups rmatch m_prev m_rest groups_of app].
    match goal with
    | |- context [match ?run with Some _ => _ | None => _ end] =>
      destruct run as [z|] eqn:E; [|exact Hsame]
    end.
    match type of E with
    | match ?run with Some _ => _ | None => _ end = _ =>
      destruct run as [y|] eqn:E2; [|discriminate E]
    end.
    inversion E; subst z; clear E.
    apply (run_sound (fun d => negb (is_line_terminator d))) in E2
      as (w & rest & -> & _ & Hlen & E).
    apply tail_pattern_sound in E as (suffix & E1 & _ & _ & _ & Hcaps).
    cbn [m_rest m_caps] in E1, Hcaps. subst rest. rewrite consumed_app in Hcaps.
    cbn [group mr_caps]. rewrite Hcaps. cbn.
    exists (95 :: suffix). split; [reflexivity|].
    intros ->. cbn in Hlen. lia.
Qed.

(** The directory of an account, and a directory with a suffix. *)
Lemma cleanAccountDirName_wxid_witness :
  cleanAccountDirName (js "wxid_abc123_4f2a") = js "wxid_" ++ js "abc123".
Proof.
  apply (cleanAccountDirName_wxid (js "wxid_abc123_4f2a") (js "wxid_") (js "abc123")
           (js "_4f2a"));
    [vm_compute; reflexivity|vm_compute; reflexivity|vm_compute; reflexivity
    |vm_compute; discriminate
    |vm_compute; repeat (constructor; [discriminate|]); constructor
    |vm_compute; reflexivity].
Defined.

Lemma cleanAccountDirName_suffix_witness :
  cleanAccountDirName (js "alice_1a2b") = js "alice".
Proof.
  apply (cleanAccountDirName_suffix (js "alice_1a2b") (js "alice") (js "1a2b"));
    [vm_compute; reflexivity|vm_compute; reflexivity|vm_compute; discriminate
    |vm_compute; repeat constructor|vm_compute; reflexivity|vm_compute; repeat constructor].
Defined.

(** Names that are kept whole: an account id without a suffix, a name
    whose last part is not four letters or digits, a name of two
    lines. *)
Example names_kept_whole :
  List.map cleanAccountDirName
    [js "wxid_abc123"; js " bob_12345 "; js "a" ++ [0xA] ++ js "b_1a2b"; js "_1a2b"]
  = [js "wxid_abc123"; js "bob_12345"; js "a" ++ [0xA] ++ js "b_1a2b"; js "_1a2b"].
Proof. vm_compute. reflexivity. Qed.

End AccountFacts.

(** ** Literal texts in patterns and in contents *)

Module OccursFacts.
Import JS Regex Occurs.

Lemma rmatch_literal icase lit r k : forall rest prev caps,
  rmatch icase (literal lit r) (MState (lit ++ rest) prev caps) k
  = rmatch icase r (MState rest (prev_after prev lit) caps) k.
Proof.
  induction lit as [|a lit IH]; intros rest prev caps; [reflexivity|].
  cbn [literal rmatch app]. unfold step. cbn [m_rest m_caps]. rewrite Z.eqb_refl.
  rewrite IH. rewrite (RunFacts.prev_after_cons prev). reflexivity.
Qed.

(** A literal at the end of a pattern, whose last character is [c]. *)
Lemma rmatch_literal_end icase lit c k rest prev caps :
  rmatch icase (literal lit (Char c)) (MState (lit ++ c :: rest) prev caps) k
  = k (MState rest (Some c) caps).
Proof.
  rewrite rmatch_literal. cbn [rmatch]. unfold step. cbn [m_rest m_caps].
  rewrite Z.eqb_refl. reflexivity.
Qed.

Lemma rmatch_literal_begins icase lit r k : forall x z,
  rmatch icase (literal lit r) x k = Some z -> begins icase lit (m_rest x) = true.
Proof.
  induction lit as [|a lit IH]; intros x z H; [reflexivity|].
  cbn [literal rmatch] in H. unfold step in H.
  destruct (m_rest x) as [|c rest]; [discriminate H|]. cbn [begins].
  destruct (canon icase a =? canon icase c); [|discriminate H].
  apply IH in H. exact H.
Qed.

Lemma match_here_begins lit r n icase prev s idx m :
  match_here (RegExp (literal lit r) n icase) prev s idx = Some m ->
  begins icase lit s = true.
Proof.
  unfold match_here. cbn [re_body re_icase re_groups].
  destruct (rmatch _ _ _ Some) as [y|] eqn:E; [|discriminate].
  intros _. apply rmatch_literal_begins in E. exact E.
Qed.

Lemma match_here_elsewhere lit r n icase prev s idx :
  begins icase lit s = false ->
  match_here (RegExp (literal lit r) n icase) prev s idx = None.
Proof.
  intros H. destruct (match_here _ _ _ _) as [m|] eqn:E; [|reflexivity].
  apply match_here_begins in E. congruence.
Qed.

Lemma search_here rx prev s idx m :
  match_here rx prev s idx = Some m -> search rx prev s idx = Some m.
Proof. intros H. destruct s; cbn [search]; rewrite H; reflexivity. Qed.

(** The search goes over a text in which the literal does not begin. *)
Lemma search_skip lit r n icase pre : forall rest prev idx,
  none_begins icase lit pre rest = true ->
  search (RegExp (literal lit r) n icase) prev (pre ++ rest) idx
  = search (RegExp (literal lit r) n icase) (prev_after prev pre) rest (idx + length pre).
Proof.
  induction pre as [|c pre IH]; intros rest prev idx H.
  - cbn [app length prev_after]. rewrite Nat.add_0_r. reflexivity.
  - cbn [none_begins] in H. apply andb_prop in H as [Hc H].
    apply negb_true_iff in Hc.
    change ((c :: pre) ++ rest) with (c :: pre ++ rest) in *.
    cbn [search]. rewrite (match_here_elsewhere _ _ _ _ _ _ _ Hc).
    rewrite IH by exact H. rewrite (RunFacts.prev_after_cons prev). cbn [length].
    rewrite Nat.add_succ_r. reflexivity.
Qed.

Lemma exec_skip lit r n icase pre rest :
  none_begins icase lit pre rest = true ->
  exec (RegExp (literal lit r) n icase) (pre ++ rest)
  = search (RegExp (literal lit r) n icase) (prev_after None pre) rest (length pre).
Proof. intros H. unfold exec. rewrite search_skip by exact H. reflexivity. Qed.

Lemma search_nowhere lit r n icase s prev idx :
  lit <> [] -> none_begins icase lit s [] = true ->
  search (RegExp (literal lit r) n icase) prev s idx = None.
Proof.
  intros Hlit H. rewrite <- (app_nil_r s). rewrite search_skip by exact H.
  cbn [search]. rewrite match_here_elsewhere; [reflexivity|].
  destruct lit; [congruence|reflexivity].
Qed.

Lemma none_begins_app icase lit a b rest :
  none_begins icase lit (a ++ b) rest
  = none_begins icase lit a (b ++ rest) && none_begins icase lit b rest.
Proof.
  induction a as [|c a IH]; [reflexivity|].
  change ((c :: a) ++ b) with (c :: a ++ b).
  cbn [none_begins]. rewrite IH.
  change (c :: a ++ b) with ((c :: a) ++ b). rewrite <- app_assoc.
  rewrite andb_assoc. reflexivity.
Qed.

(** A text that begins across the end of [u] has, past what [u] holds
    of it, a character that is the one after [u]. *)
Lemma begins_across icase r0 rest : forall lit u,
  begins icase lit (u ++ r0 :: rest) = true ->
  begins icase lit u = true
  \/ Exists (fun b => canon icase b = canon icase r0) (drop (length u) lit).
Proof.
  induction lit as [|a lit IH]; intros u H; [left; destruct u; reflexivity|].
  destruct u as [|c u]; cbn [app begins length drop] in *.
  - apply andb_prop in H as [H _]. apply Z.eqb_eq in H. right. apply Exists_cons_hd. exact H.
  - apply andb_prop in H as [Hc H]. rewrite Hc. cbn [andb].
    apply IH in H. exact H.
Qed.

(** A literal that does not occur in [pre] does not begin within [pre]
    either, when what follows begins with a character that the literal
    holds at its head only. *)
Lemma none_begins_unmentioned icase a lit r0 rest : forall pre,
  mentions icase (a :: lit) pre = false ->
  Forall (fun b => canon icase b <> canon icase r0) lit ->
  none_begins icase (a :: lit) pre (r0 :: rest) = true.
Proof.
  intros pre Hm Hlit. induction pre as [|c pre IH]; [reflexivity|].
  cbn [mentions] in Hm. apply orb_false_elim in Hm as [Hb Hm].
  cbn [none_begins]. rewrite (IH Hm), andb_true_r. apply negb_true_iff.
  destruct (begins icase (a :: lit) ((c :: pre) ++ r0 :: rest)) eqn:E; [|reflexivity].
  apply begins_across in E as [E|E]; [congruence|].
  cbn [length drop] in E. apply Exists_exists in E as (b & Hin & Hb').
  rewrite Forall_forall in Hlit.
  exfalso. apply (Hlit b); [|exact Hb'].
  eapply subseteq_drop. exact Hin.
Qed.

(** A lazy run goes over a text in which what the continuation needs
    does not begin, and no further. *)
Lemma run_lazy (ok : Z -> bool) icase lit k caps z : forall w fuel rest prev,
  (forall y z', k y = Some z' -> begins icase lit (m_rest y) = true) ->
  Forall (fun c => ok c = true) w -> (length w < fuel)%nat ->
  none_begins icase lit w rest = true ->
  k (MState rest (prev_after prev w) caps) = Some z ->
  RepeatMatcher (step ok) [] false k fuel 0 None (MState (w ++ rest) prev caps) = Some z.
Proof.
  induction w as [|c w IH]; intros fuel rest prev Hk Hw Hfuel Hnone Hz;
    (destruct fuel as [|fuel]; [cbn in Hfuel; lia|]).
  - cbn [RepeatMatcher app]. cbv zeta. cbn [Nat.ltb Nat.leb].
    cbn [prev_after] in Hz. rewrite Hz. reflexivity.
  - apply Forall_cons in Hw as [Hc Hw]. cbn [none_begins] in Hnone.
    apply andb_prop in Hnone as [Hb Hnone]. apply negb_true_iff in Hb.
    change ((c :: w) ++ rest) with (c :: w ++ rest) in *.
    cbn [RepeatMatcher]. cbv zeta. cbn [Nat.ltb Nat.leb].
    assert (Hhere : k (MState (c :: w ++ rest) prev caps) = None).
    { destruct (k (MState (c :: w ++ rest) prev caps)) as [z'|] eqn:E; [|reflexivity].
      apply Hk in E. cbn [m_rest] in E. congruence. }
    rewrite Hhere. cbn [orelse]. unfold step, clear_caps.
    cbn [m_rest m_caps m_prev foldr]. rewrite Hc.
    cbn [Nat.eqb andb length].
    replace (length (w ++ rest) =? S (length (w ++ rest)))%nat with false
      by (symmetry; apply Nat.eqb_neq; lia).
    cbn [pred fmap option_fmap option_map].
    apply IH; try assumption. cbn [length] in Hfuel. lia.
Qed.

End OccursFacts.

(** ** Call and file messages *)

Module ContentFacts.
Import JS Regex Occurs OccursFacts Parser.

(** An element whose text a lazy group captures: the first one is
    found, and the group holds the text up to the first closing tag. *)
Lemma exec_lazy_element icase (ok : Z -> bool) atom L1 L2 c n pre inner post :
  rmatch icase atom = step ok -> groups_of atom = [] ->
  none_begins icase L1 pre (L1 ++ inner ++ L2 ++ [c] ++ post) = true ->
  forallb ok inner = true ->
  none_begins icase L2 inner (L2 ++ [c] ++ post) = true ->
  exists m,
    exec (RegExp (literal L1 (Seq (Group 1 (Repeat 0 None false atom)) (literal L2 (Char c))))
                 (S n) icase)
         (pre ++ L1 ++ inner ++ L2 ++ [c] ++ post) = Some m
    /\ group m 1 = Some inner.
Proof.
  intros Hatom Hgs Hpre Hok Hinner. apply RunFacts.forallb_Forall in Hok.
  rewrite exec_skip by exact Hpre.
  match goal with
  | |- exists m, search ?R ?p ?s ?i = Some m /\ _ =>
    cut (exists m, match_here R p s i = Some m /\ group m 1 = Some inner);
      [intros (m & Hm & Hg); exists m; split; [apply search_here, Hm|exact Hg]|]
  end.
  unfold match_here. cbn [re_body re_icase re_groups].
  rewrite rmatch_literal. cbn [rmatch]. rewrite Hgs, Hatom. cbn [m_rest Nat.add].
  erewrite (run_lazy ok icase L2); cycle 1.
  - intros y z' H. apply rmatch_literal_begins in H. exact H.
  - exact Hok.
  - rewrite length_app. lia.
  - exact Hinner.
  - cbn beta. cbn [m_rest m_prev m_caps].
    change ([c] ++ post) with (c :: post). rewrite rmatch_literal_end. reflexivity.
  - eexists. split; [reflexivity|].
    cbn [group mr_caps m_caps replicate set_cap]. cbn [lookup list_lookup insert list_insert].
    cbn [mjoin option_join]. rewrite PrefixFacts.consumed_app. reflexivity.
Qed.

(** An element whose text a greedy group of one class captures. *)
Lemma exec_greedy_element icase (ok : Z -> bool) atom L1 L2 c n pre inner post :
  rmatch icase atom = step ok -> groups_of atom = [] ->
  none_begins icase L1 pre (L1 ++ inner ++ L2 ++ [c] ++ post) = true ->
  (0 <? length inner)%nat = true -> forallb ok inner = true ->
  forallb ok (take 1 (L2 ++ [c])) = false ->
  exists m,
    exec (RegExp (literal L1 (Seq (Group 1 (Repeat 1 None true atom)) (literal L2 (Char c))))
                 (S n) icase)
         (pre ++ L1 ++ inner ++ L2 ++ [c] ++ post) = Some m
    /\ group m 1 = Some inner.
Proof.
  intros Hatom Hgs Hpre Hne Hok Hstop. apply RunFacts.forallb_Forall in Hok.
  apply Nat.ltb_lt in Hne.
  rewrite exec_skip by exact Hpre.
  match goal with
  | |- exists m, search ?R ?p ?s ?i = Some m /\ _ =>
    cut (exists m, match_here R p s i = Some m /\ group m 1 = Some inner);
      [intros (m & Hm & Hg); exists m; split; [apply search_here, Hm|exact Hg]|]
  end.
  unfold match_here. cbn [re_body re_icase re_groups].
  rewrite rmatch_literal. cbn [rmatch]. rewrite Hgs, Hatom. cbn [m_rest].
  erewrite (RunFacts.run_greedy ok); cycle 1.
  - exact Hok.
  - lia.
  - rewrite length_app. lia.
  - destruct L2 as [|d L2]; cbn [app take forallb] in Hstop |- *;
      rewrite andb_true_r in Hstop; exact Hstop.
  - cbn beta. cbn [m_rest m_prev m_caps].
    change ([c] ++ post) with (c :: post). rewrite rmatch_literal_end. reflexivity.
  - eexists. split; [reflexivity|].
    cbn [group mr_caps m_caps replicate set_cap]. cbn [lookup list_lookup insert list_insert].
    cbn [mjoin option_join]. rewrite PrefixFacts.consumed_app. reflexivity.
Qed.

Lemma begins_longer icase l1 l2 : forall s,
  begins icase (l1 ++ l2) s = true -> begins icase l1 s = true.
Proof.
  induction l1 as [|a l1 IH]; intros s H; [reflexivity|].
  destruct s as [|c s]; [discriminate H|]. cbn [app begins] in *.
  apply andb_prop in H as [-> H]. apply IH in H. exact H.
Qed.

Lemma none_begins_longer icase l1 l2 rest : forall w,
  none_begins icase l1 w rest = true -> none_begins icase (l1 ++ l2) w rest = true.
Proof.
  induction w as [|c w IH]; intros H; [reflexivity|]. cbn [none_begins] in *.
  apply andb_prop in H as [Hb H]. rewrite (IH H), andb_true_r.
  apply negb_true_iff. apply negb_true_iff in Hb.
  destruct (begins icase (l1 ++ l2) _) eqn:E; [|reflexivity].
  apply begins_longer in E. congruence.
Qed.

(** A text without the first character of the literal. *)
Lemma none_begins_without icase a lit rest : forall w,
  Forall (fun c => canon icase a <> canon icase c) w ->
  none_begins icase (a :: lit) w rest = true.
Proof.
  induction 1 as [|c w Hc _ IH]; [reflexivity|]. cbn [none_begins app begins].
  rewrite IH, andb_true_r. apply Z.eqb_neq in Hc. rewrite Hc. reflexivity.
Qed.

Lemma space_is_no_bracket icase a c :
  (a = 60 \/ a = 93) -> is_space c = true -> canon icase a <> canon icase c.
Proof.
  intros Ha Hc.
  assert (Hcc : (9 <= c <= 13) \/ c = 32 \/ 160 <= c).
  { revert Hc. unfold is_space.
    rewrite !orb_true_iff, !andb_true_iff, !Z.leb_le, !Z.eqb_eq. lia. }
  assert (E : canon icase c = c).
  { unfold canon, is_lower. destruct icase; [|reflexivity]. cbn [andb].
    destruct (Z.leb_spec 97 c), (Z.leb_spec c 122); cbn [andb]; try reflexivity. lia. }
  rewrite E. destruct Ha as [-> | ->]; destruct icase; cbn; lia.
Qed.

Lemma spaces_without icase a lit rest w :
  (a = 60 \/ a = 93) -> Forall (fun c => is_space c = true) w ->
  none_begins icase (a :: lit) w rest = true.
Proof.
  intros Ha Hw. apply none_begins_without. eapply Forall_impl; [exact Hw|].
  intros c Hc. apply space_is_no_bracket; assumption.
Qed.

(** A tag that does not occur in [pre] does not begin there, when an
    element follows. *)
Lemma unmentioned_before L tagtext tag more next next' pre rest :
  tagtext = 60 :: tag -> L = tagtext ++ more -> next = 60 :: next' ->
  forallb (fun b => negb (canon true b =? 60)) tag = true ->
  mentions true tagtext pre = false ->
  none_begins true L pre (next ++ rest) = true.
Proof.
  intros -> -> -> Htag Hm. apply none_begins_longer.
  cbn [app]. apply none_begins_unmentioned; [exact Hm|].
  apply RunFacts.forallb_Forall in Htag. eapply Forall_impl; [exact Htag|].
  intros b Hb. cbn beta in Hb. apply negb_true_iff, Z.eqb_neq in Hb. exact Hb.
Qed.

(** *** The call message *)

Lemma msg_pattern_parsed :
  rx "<msg><!\[CDATA\[(.*?)\]\]><\/msg>" "i"
  = RegExp (literal (js "<msg><![CDATA[")
              (Seq (Group 1 (Repeat 0 None false Dot)) (literal (js "]]></msg") (Char 62))))
           1 true.
Proof. vm_compute. reflexivity. Qed.

Lemma room_type_pattern_parsed :
  rx "<room_type>(\d+)<\/room_type>" "i"
  = RegExp (literal (js "<room_type>")
              (Seq (Group 1 (Repeat 1 None true (Class false [CDigit false])))
                   (literal (js "</room_type") (Char 62))))
           1 true.
Proof. vm_compute. reflexivity. Qed.




Example earlier_room_type_is_read :
  parseMessageContent Scenario.two_room_types 50 = Ret (Some (js "[视频通话] 01:23")).
Proof. vm_compute. reflexivity. Qed.

(** A payload that is not wrapped in CDATA is not read at all. *)
Example unwrapped_payload_is_not_read :
  parseMessageContent Scenario.unwrapped_call 50 = Ret (Some (js "[语音通话]")).
Proof. vm_compute. reflexivity. Qed.


(** *** Removing a literal *)

Lemma matches_nowhere L c f prev s idx :
  L <> [] -> none_begins false L s [] = true ->
  matches_from f (RegExp (literal L (Char c)) 0 false) prev s idx = [].
Proof.
  intros HL H. destruct f as [|f]; [reflexivity|]. cbn [matches_from].
  rewrite search_nowhere by assumption. reflexivity.
Qed.

Lemma replace_all_nowhere L c by_ s :
  L <> [] -> none_begins false L s [] = true ->
  replace_all (RegExp (literal L (Char c)) 0 false) by_ s = s.
Proof.
  intros HL H. unfold replace_all, match_all. rewrite matches_nowhere by assumption.
  reflexivity.
Qed.

(** The one occurrence of a literal is taken out. *)
Lemma replace_all_once L c a b :
  L <> [] ->
  none_begins false L a (L ++ [c] ++ b) = true ->
  none_begins false L b [] = true ->
  replace_all (RegExp (literal L (Char c)) 0 false) (fun _ => []) (a ++ L ++ [c] ++ b)
  = a ++ b.
Proof.
  intros HL Ha Hb. unfold replace_all, match_all. cbn [matches_from].
  rewrite search_skip by exact Ha.
  erewrite search_here; cycle 1.
  { unfold match_here. cbn [re_body re_icase re_groups].
    change ([c] ++ b) with (c :: b). rewrite rmatch_literal_end.
    replace (L ++ c :: b) with ((L ++ [c]) ++ b) by (rewrite <- app_assoc; reflexivity).
    rewrite PrefixFacts.consumed_app. reflexivity. }
  cbn [mr_text mr_after mr_index m_rest m_caps].
  assert (Htext : exists d text, L ++ [c] = d :: text).
  { destruct L as [|d L]; [congruence|]. eexists _, _. reflexivity. }
  destruct Htext as (d & text & Htext). rewrite Htext.
  rewrite matches_nowhere by assumption.
  cbn [map splice mr_index mr_text]. rewrite <- Htext.
  cbn [Nat.add]. rewrite Nat.sub_0_r, take_app_length.
  rewrite drop_app_add.
  replace (L ++ [c] ++ b) with ((L ++ [c]) ++ b) by (rewrite <- app_assoc; reflexivity).
  rewrite drop_app_length. reflexivity.
Qed.

(** *** Trimming *)

Lemma trimStart_spaces before : forall s,
  forallb is_space before = true -> trimStart (before ++ s) = trimStart s.
Proof.
  induction before as [|c before IH]; intros s H; [reflexivity|].
  cbn [forallb] in H. apply andb_prop in H as [Hc H].
  cbn [app trimStart]. rewrite Hc. apply IH, H.
Qed.

Lemma trim_padded before core after :
  forallb is_space before = true -> forallb is_space after = true ->
  trimStart core = core -> trimStart (rev core) = rev core -> core <> [] ->
  trim (before ++ core ++ after) = core.
Proof.
  intros Hb Ha Hs He Hne. unfold trim, trimEnd.
  rewrite trimStart_spaces by exact Hb.
  assert (E : trimStart (core ++ after) = core ++ after).
  { destruct core as [|c core]; [congruence|]. cbn [app trimStart] in *.
    destruct (is_space c); [|reflexivity].
    exfalso. apply (f_equal length) in Hs.
    assert (Hle : forall s, (length (trimStart s) <= length s)%nat).
    { clear. induction s as [|d s IH]; [reflexivity|]. cbn [trimStart].
      destruct (is_space d); cbn [length]; lia. }
    specialize (Hle core). cbn [length] in Hs. lia. }
  rewrite E, rev_app_distr.
  rewrite trimStart_spaces.
  - rewrite He. apply rev_involutive.
  - rewrite forallb_forall in Ha |- *. intros x Hx. apply Ha, in_rev, Hx.
Qed.

Lemma any_code_unit s : forallb (class_matches true false [CSpace false; CSpace true]) s = true.
Proof.
  induction s as [|c s IH]; [reflexivity|]. cbn [forallb]. rewrite IH, andb_true_r.
  unfold class_matches. cbn [existsb item_matches xorb]. destruct (is_space c); reflexivity.
Qed.

Lemma spaces_lt icase lit rest w :
  forallb is_space w = true -> none_begins icase (60 :: lit) w rest = true.
Proof. intros H. apply spaces_without; [left; reflexivity|apply RunFacts.forallb_Forall, H]. Qed.

Lemma spaces_bracket icase lit rest w :
  forallb is_space w = true -> none_begins icase (93 :: lit) w rest = true.
Proof. intros H. apply spaces_without; [right; reflexivity|apply RunFacts.forallb_Forall, H]. Qed.

Lemma cdata_open_parsed :
  rx "<!\[CDATA\[" "g" = RegExp (literal (js "<![CDATA") (Char 91)) 0 false.
Proof. vm_compute. reflexivity. Qed.

Lemma cdata_close_parsed :
  rx "\]\]>" "g" = RegExp (literal (js "]]") (Char 62)) 0 false.
Proof. vm_compute. reflexivity. Qed.

Local Ltac absent :=
  rewrite ?none_begins_app, ?andb_true_iff; repeat split;
  first [ vm_compute; reflexivity
        | match goal with H : forall w rest, _ -> none_begins _ _ w rest = true |- _ =>
            apply H; assumption
          end ].

(** The wrapper is taken off and the padding trimmed. *)
Lemma title_unwrapped (before after : jsstring) (wrapped : bool) :
  forallb is_space before = true -> forallb is_space after = true ->
  trim (strip_cdata
          (before ++ (if wrapped then js "<![CDATA[report.pdf]]>" else js "report.pdf")
                  ++ after))
  = js "report.pdf".
Proof.
  intros Hb Ha. unfold strip_cdata. rewrite cdata_open_parsed, cdata_close_parsed.
  assert (EL : js "<![CDATA" = 60 :: js "![CDATA") by (vm_compute; reflexivity).
  assert (ER : js "]]" = 93 :: [93]) by (vm_compute; reflexivity).
  assert (HL : js "<![CDATA" <> []) by (rewrite EL; discriminate).
  assert (HR : js "]]" <> []) by (rewrite ER; discriminate).
  assert (Hne : js "report.pdf" <> []).
  { intros E'. apply (f_equal length) in E'. vm_compute in E'. discriminate E'. }
  assert (Hlt : forall w rest, forallb is_space w = true ->
                  none_begins false (js "<![CDATA") w rest = true).
  { intros w rest H. rewrite EL. apply spaces_lt, H. }
  assert (Hbr : forall w rest, forallb is_space w = true ->
                  none_begins false (js "]]") w rest = true).
  { intros w rest H. rewrite ER. apply spaces_bracket, H. }
  destruct wrapped.
  - assert (E : js "<![CDATA[report.pdf]]>"
                = js "<![CDATA" ++ [91] ++ js "report.pdf" ++ js "]]" ++ [62])
      by (vm_compute; reflexivity).
    rewrite E. rewrite <- !app_assoc.
    rewrite (replace_all_once (js "<![CDATA") 91); [|exact HL|absent..].
    rewrite (app_assoc before).
    rewrite (replace_all_once (js "]]") 62); [|exact HR|absent..].
    rewrite <- app_assoc.
    apply trim_padded; try assumption; vm_compute; reflexivity.
  - rewrite (replace_all_nowhere (js "<![CDATA") 91); [|exact HL|absent].
    rewrite (replace_all_nowhere (js "]]") 62); [|exact HR|absent].
    apply trim_padded; try assumption; vm_compute; reflexivity.
Qed.

Lemma title_pattern_parsed :
  title_regex
  = RegExp (literal (js "<title>")
              (Seq (Group 1 (Repeat 0 None false (Class false [CSpace false; CSpace true])))
                   (literal (js "</title") (Char 62))))
           1 true.
Proof. vm_compute. reflexivity. Qed.

Lemma type_pattern_parsed :
  rx "<type>(\d+)<\/type>" "i"
  = RegExp (literal (js "<type>")
              (Seq (Group 1 (Repeat 1 None true (Class false [CDigit false])))
                   (literal (js "</type") (Char 62))))
           1 true.
Proof. vm_compute. reflexivity. Qed.

(** C9, as amended: a link-family message (localType 49) in which the
    first [<type>] element holds 6 and is followed by the first
    [<title>] element, whose text is report.pdf, bare or wrapped in
    CDATA, with white space around it or none: the message parses to
    report.pdf, the title without the wrapper and without the white
    space, and is classified as a file (ChatLab type 4, not the link
    type 7), whatever stands before and after the two elements. *)
Theorem file_link_is_a_file (pre before after post : jsstring) (wrapped : bool) :
  mentions true (js "<type>") pre = false ->
  mentions true (js "<title>") pre = false ->
  forallb is_space before = true -> forallb is_space after = true ->
  let title := if wrapped then js "<![CDATA[report.pdf]]>" else js "report.pdf" in
  let content :=
    pre ++ js "<type>6</type>" ++ js "<title>" ++ before ++ title ++ after ++ js "</title>"
        ++ post in
  parseMessageContent content 49 = Ret (Some (js "report.pdf"))
  /\ convertMessageType 49 content = 4.
Proof.
  intros Htype Htitle Hb Ha title content.
  assert (Etype : js "<type>6</type>" = js "<type>" ++ js "6" ++ js "</type" ++ [62])
    by (vm_compute; reflexivity).
  assert (Eclose : js "</title>" = js "</title" ++ [62]) by (vm_compute; reflexivity).
  assert (Elt : js "</title" = 60 :: js "/title") by (vm_compute; reflexivity).
  destruct (exec_lazy_element true (class_matches true false [CSpace false; CSpace true])
              (Class false [CSpace false; CSpace true]) (js "<title>") (js "</title") 62 0
              (pre ++ js "<type>6</type>") (before ++ title ++ after) post)
    as (t & Ht & Htg).
  { reflexivity. }
  { reflexivity. }
  { rewrite none_begins_app, andb_true_iff. split.
    - apply (unmentioned_before _ (js "<title>") (js "title>") [] _ (js "type>6</type>"));
        [vm_compute; reflexivity..|exact Htitle].
    - vm_compute. reflexivity. }
  { apply any_code_unit. }
  { rewrite !none_begins_app, !andb_true_iff. split; [|split].
    - rewrite Elt. apply spaces_lt, Hb.
    - unfold title. destruct wrapped; vm_compute; reflexivity.
    - rewrite Elt. apply spaces_lt, Ha. }
  destruct (exec_greedy_element true (class_matches true false [CDigit false])
              (Class false [CDigit false]) (js "<type>") (js "</type") 62 0 pre (js "6")
              (js "<title>" ++ before ++ title ++ after ++ js "</title>" ++ post))
    as (ty & Hy & Hyg).
  { reflexivity. }
  { reflexivity. }
  { apply (unmentioned_before _ (js "<type>") (js "type>") [] _ (js "type>"));
      [vm_compute; reflexivity..|exact Htype]. }
  { vm_compute. reflexivity. }
  { vm_compute. reflexivity. }
  { vm_compute. reflexivity. }
  rewrite <- title_pattern_parsed in Ht. rewrite <- type_pattern_parsed in Hy.
  rewrite Etype in Ht. rewrite Eclose in Hy. unfold content. rewrite Etype, Eclose.
  repeat rewrite <- app_assoc. repeat rewrite <- app_assoc in Ht.
  repeat rewrite <- app_assoc in Hy.
  apply (ParserFacts.file_link_of_captures _ (before ++ title ++ after) t ty Ht Htg); [|exact Hy|exact Hyg].
  apply title_unwrapped; assumption.
Qed.

(** An [appmsg] whose title is wrapped in CDATA and set on a line of its
    own. *)
Lemma file_link_is_a_file_witness :
  let content :=
    js "<appmsg>" ++ js "<type>6</type>" ++ js "<title>" ++ [0xA; 0x20]
      ++ js "<![CDATA[report.pdf]]>" ++ [0xA] ++ js "</title>" ++ js "</appmsg>" in
  parseMessageContent content 49 = Ret (Some (js "report.pdf"))
  /\ convertMessageType 49 content = 4.
Proof.
  apply (file_link_is_a_file (js "<appmsg>") [0xA; 0x20] [0xA] (js "</appmsg>") true);
    vm_compute; reflexivity.
Defined.

(** C9 as the specification words it fails: the content holds the
    fragment, but after an earlier [<title>] and an earlier [<type>]
    element, and those are the ones read. *)
Lemma earlier_title_and_type_decide :
  ~ (forall content,
        includes content (js "<type>6</type><title>report.pdf</title>") = true ->
        parseMessageContent content 49 = Ret (Some (js "report.pdf"))
        /\ convertMessageType 49 content = 4).
Proof.
  intros H. specialize (H Scenario.two_titles ltac:(vm_compute; reflexivity)).
  destruct H as [_ H]. vm_compute in H. discriminate H.
Qed.

Example earlier_title_is_read :
  parseMessageContent Scenario.two_titles 49 = Ret (Some (js "cover"))
  /\ convertMessageType 49 Scenario.two_titles = 7.
Proof. split; vm_compute; reflexivity. Qed.


End ContentFacts.

(** ** Avatars *)

Module AvatarFacts.
Import JS Regex Download Avatars OrchestratorFacts.

Section WithWorld.
Variable S : Type.
Variable existsSync : jsstring -> S -> bool.
Variable readFile : jsstring -> S -> option buffer * S.
Variable path_extname : jsstring -> jsstring.
Variable fileURLToPath : jsstring -> option jsstring.
Variable URL_pathname : jsstring -> option jsstring.
Variable Buffer_from_base64 : jsstring -> buffer.
Variable toString_base64 : buffer -> jsstring.
Variable get : bool -> jsstring -> option Z -> S -> response * S.
Variable resolve_url : jsstring -> jsstring -> option jsstring.

Local Abbreviation resolveAvatarFile' :=
  (resolveAvatarFile path_extname fileURLToPath URL_pathname Buffer_from_base64).
Local Abbreviation avatar_bytes' := (avatar_bytes S existsSync readFile get resolve_url).
Local Abbreviation avatar_url' :=
  (avatar_url S existsSync readFile toString_base64 get resolve_url).
Local Abbreviation export_avatar' :=
  (export_avatar S existsSync readFile path_extname fileURLToPath URL_pathname
     Buffer_from_base64 toString_base64 get resolve_url).
Local Abbreviation exportAvatars_from' :=
  (exportAvatars_from S existsSync readFile path_extname fileURLToPath URL_pathname
     Buffer_from_base64 toString_base64 get resolve_url).
Local Abbreviation obtained := (Avatars.obtained S existsSync readFile get resolve_url).
Local Abbreviation exported :=
  (Avatars.exported S existsSync readFile path_extname fileURLToPath URL_pathname
     Buffer_from_base64 toString_base64 get resolve_url).
Local Abbreviation modelled := (Avatars.modelled S).
Local Abbreviation exportAvatars' :=
  (exportAvatars S existsSync readFile path_extname fileURLToPath URL_pathname
     Buffer_from_base64 toString_base64 get resolve_url).

Lemma truthy_nonempty (s : option jsstring) : truthy s = true -> default [] s <> [].
Proof. destruct s as [[|c s]|]; (discriminate || (intros _; discriminate)). Qed.

Lemma inferImageMime_nonempty ext : inferImageMime ext <> [].
Proof.
  unfold inferImageMime.
  repeat match goal with |- context [if ?b then _ else _] => destruct b end;
    vm_compute; discriminate.
Qed.

(** What the bytes show is a type with a name. *)
Lemma detectMimeType_truthy data :
  truthy (detectMimeType data) = match detectMimeType data with Some _ => true | None => false end.
Proof.
  unfold detectMimeType.
  repeat match goal with |- context [if ?b then _ else _] => destruct b end; reflexivity.
Qed.

(** The type that line 1007 chooses. *)
Lemma finalMime_avatar_type data given ext :
  (if truthy (detectMimeType data) then default [] (detectMimeType data)
   else if truthy given then default [] given
   else inferImageMime ext)
  = avatar_type data given ext.
Proof.
  unfold avatar_type. rewrite detectMimeType_truthy.
  destruct (detectMimeType data) as [sniffed|]; [reflexivity|].
  destruct given as [[|c type]|]; reflexivity.
Qed.

Lemma avatar_type_nonempty data given ext : avatar_type data given ext <> [].
Proof.
  rewrite <- finalMime_avatar_type.
  destruct (truthy (detectMimeType data)) eqn:Hd; [apply truthy_nonempty, Hd|].
  destruct (truthy given) eqn:Hm; [apply truthy_nonempty, Hm|].
  apply inferImageMime_nonempty.
Qed.

(** The bytes that the loop has in hand are obtained from what the
    address resolved to. *)
Lemma avatar_bytes_obtained fileInfo (s : S) data given s' :
  avatar_bytes' fileInfo s = Some (Ret (Some data, given), s') -> obtained fileInfo data given.
Proof.
  unfold avatar_bytes, Avatars.obtained. destruct (file_data fileInfo) as [payload|].
  { intros H. apply io_ret_ret in H as [H _]. inversion H. split; reflexivity. }
  intros H. apply io_bind_ret in H as (there & s1 & Hthere & H).
  destruct there.
  - left. destruct (truthy (sourcePath fileInfo)) eqn:Hp;
      [|apply io_ret_ret in Hthere as [Hthere _]; discriminate Hthere].
    unfold io_step in Hthere. inversion Hthere as [[He Hs]]. subst s1.
    apply io_bind_ret in H as (read & s2 & Hread & H).
    apply io_ret_ret in H as [H _]. inversion H; subst read given.
    unfold awaited in Hread.
    destruct (readFile (default [] (sourcePath fileInfo)) s) as [[r|] s3] eqn:Er;
      inversion Hread; subst r s3.
    destruct (sourcePath fileInfo) as [[|c path]|]; try discriminate Hp.
    exists (c :: path), s, s2. repeat split; first [discriminate|exact He|exact Er].
  - right. destruct (truthy (sourceUrl fileInfo)) eqn:Hu;
      [|apply io_ret_ret in H as [H _]; discriminate H].
    apply io_bind_ret in H as (downloaded & s2 & Hdown & H).
    destruct downloaded as [[body served]|]; apply io_ret_ret in H as [H _];
      [|discriminate H].
    inversion H; subst body given.
    destruct (sourceUrl fileInfo) as [[|c url]|]; try discriminate Hu.
    exists (c :: url), s1, s2, served.
    split; [reflexivity|]. split; [discriminate|]. split; [|split; [exact Hdown|reflexivity]].
    destruct (truthy (sourcePath fileInfo)) eqn:Hp; [right|left; reflexivity].
    unfold io_step in Hthere. inversion Hthere as [[He Hs]]. reflexivity.
Qed.

(** What an avatar is exported as is the data URL of its bytes. *)
Lemma avatar_url_data fileInfo (s : S) url s' :
  avatar_url' fileInfo s = Some (Ret (Some url), s') ->
  exists data given,
    obtained fileInfo data given
    /\ url = js "data:" ++ avatar_type data given (ext fileInfo) ++ js ";base64,"
               ++ toString_base64 data.
Proof.
  unfold avatar_url. intros H. apply io_bind_ret in H as ([data given] & s1 & Hb & H).
  destruct data as [data|]; apply io_ret_ret in H as [H _]; [|discriminate H].
  inversion H; subst url; clear H. exists data, given.
  split; [eapply avatar_bytes_obtained, Hb|]. rewrite finalMime_avatar_type. reflexivity.
Qed.

(** Only an address that is there is resolved to a file. *)
Lemma resolveAvatarFile_some avatarUrl fileInfo :
  resolveAvatarFile' avatarUrl = Ret (Some fileInfo) -> truthy avatarUrl = true.
Proof. intros H. destruct avatarUrl as [[|c u]|]; [discriminate H|reflexivity|discriminate H]. Qed.

Lemma export_avatar_exported all result member (s : S) result' s' :
  member ∈ all -> exported all result ->
  export_avatar' result member s = Some (Ret result', s') ->
  exported all result'.
Proof.
  intros Hin Hres H. unfold export_avatar in H.
  apply io_bind_ret in H as (fileInfo & s1 & Hf & H).
  unfold io_pure in Hf. inversion Hf as [[Hf' Hs]]. clear Hf.
  destruct fileInfo as [fileInfo|]; [|apply io_ret_ret in H as [<- _]; exact Hres].
  apply io_bind_ret in H as (url & s2 & Hu & H).
  destruct url as [url|]; apply io_ret_ret in H as [<- _]; [|exact Hres].
  assert (Hdata : exists data given,
             obtained fileInfo data given
             /\ url = js "data:" ++ avatar_type data given (ext fileInfo) ++ js ";base64,"
                        ++ toString_base64 data).
  { unfold io_try in Hu.
    destruct (avatar_url' fileInfo s1) as [[[u| |] s3]|] eqn:E; try discriminate Hu.
    inversion Hu; subst. eapply avatar_url_data, E. }
  destruct Hdata as (data & given & Hob & Hurl).
  intros name url'. destruct (decide (username member = name)) as [<-|Hne].
  - rewrite lookup_insert_eq. intros Heq. inversion Heq; subst url'.
    exists member, fileInfo, data, given.
    split; [exact Hin|]. split; [reflexivity|].
    split; [eapply resolveAvatarFile_some; exact Hf'|].
    split; [exact Hf'|]. split; [exact Hob|].
    split; [apply avatar_type_nonempty|exact Hurl].
  - rewrite lookup_insert_ne by exact Hne. apply Hres.
Qed.

Lemma exportAvatars_from_exported all members : forall result (s : S) result' s',
  (forall member, member ∈ members -> member ∈ all) -> exported all result ->
  exportAvatars_from' result members s = Some (Ret result', s') ->
  exported all result'.
Proof.
  induction members as [|member members IH]; intros result s result' s' Hsub Hres H;
    cbn [exportAvatars_from] in H.
  - apply io_ret_ret in H as [<- _]. exact Hres.
  - apply io_bind_ret in H as (result1 & s1 & H1 & H).
    eapply IH; [|eapply export_avatar_exported; [|exact Hres|exact H1]|exact H].
    + intros m Hm. apply Hsub. right. exact Hm.
    + apply Hsub. left.
Qed.

(** Every avatar that [exportAvatars] returns is filed under the name
    of a member that has an avatar address, and is the data URL of the
    bytes obtained from what that address resolves to (the payload of
    a data URL, the file read, the body downloaded), with a type that
    is not empty: the one the bytes show, else the one declared or
    served with them, else the one the extension stands for. *)
Theorem exportAvatars_data_urls members (s : S) result s' :
  exportAvatars' members s = Some (Ret result, s') ->
  forall name url, result !! name = Some url ->
    exists member fileInfo data given,
      member ∈ members /\ username member = name /\ truthy (avatarUrl member) = true
      /\ resolveAvatarFile' (avatarUrl member) = Ret (Some fileInfo)
      /\ obtained fileInfo data given
      /\ avatar_type data given (ext fileInfo) <> []
      /\ url = js "data:" ++ avatar_type data given (ext fileInfo) ++ js ";base64,"
                 ++ toString_base64 data.
Proof.
  intros H. eapply exportAvatars_from_exported; [|  |exact H].
  - auto.
  - intros name url Hl. rewrite lookup_empty in Hl. discriminate Hl.
Qed.

(** *** Exceptions *)

Lemma modelled_ret {A} (a : A) : modelled (mret a).
Proof. intros s s' H. inversion H. Qed.

Lemma modelled_bind {A B} (m : io S A) (f : A -> io S B) :
  modelled m -> (forall a, modelled (f a)) -> modelled (m ≫= f).
Proof.
  intros Hm Hf s s' H. unfold mbind, io_bind in H.
  destruct (m s) as [[[a| |] s1]|] eqn:E; try discriminate H.
  - eapply Hf, H.
  - inversion H; subst. eapply Hm, E.
Qed.

Lemma downloadToBuffer_modelled n : forall url,
  modelled (downloadToBuffer S get resolve_url url n).
Proof.
  induction n as [|n IH]; intros url; cbn [downloadToBuffer];
    (apply modelled_bind; [intros s s' H; unfold io_step in H;
                           destruct (get _ url _ s); inversion H|]);
    intros [ | | |status location body contentType];
    try (intros s s' H; inversion H; fail);
    repeat match goal with
           | |- modelled (if ?b then _ else _) => destruct b
           | |- modelled (match ?l with Some _ => _ | None => _ end) => destruct l
           | |- modelled (match ?l with [] => _ | _ :: _ => _ end) => destruct l
           end;
    try apply modelled_ret; try apply IH; intros s s' H; inversion H.
Qed.

Lemma avatar_url_modelled fileInfo : modelled (avatar_url' fileInfo).
Proof.
  unfold avatar_url. apply modelled_bind.
  - unfold avatar_bytes. destruct (file_data fileInfo); [apply modelled_ret|].
    apply modelled_bind.
    { destruct (truthy _); [|apply modelled_ret].
      intros s s' H. unfold io_step in H. inversion H. }
    intros [|].
    + apply modelled_bind; [|intros; apply modelled_ret].
      intros s s' H. unfold awaited in H. destruct (readFile _ s) as [[r|] s1]; inversion H.
    + destruct (truthy _); [|apply modelled_ret].
      apply modelled_bind; [apply downloadToBuffer_modelled|].
      intros [[data served]|]; apply modelled_ret.
  - intros [[data|] mime]; apply modelled_ret.
Qed.

(** One member: when the address resolves without an exception, the
    turn of the loop ends without one. *)
Lemma export_avatar_returns result member (s : S) r s' :
  resolveAvatarFile' (avatarUrl member) <> Throw ->
  export_avatar' result member s = Some (r, s') -> exists result', r = Ret result'.
Proof.
  intros Hres H. unfold export_avatar in H. unfold mbind at 1, io_bind at 1, io_pure at 1 in H.
  destruct (resolveAvatarFile' (avatarUrl member)) as [[fileInfo|]| |] eqn:E;
    try congruence; try discriminate H.
  - unfold mbind, io_bind, io_try in H.
    pose proof (avatar_url_modelled fileInfo s) as Hm.
    destruct (avatar_url' fileInfo s) as [[[[url|]| |] s1]|]; inversion H; eauto.
    exfalso. eapply Hm. reflexivity.
  - inversion H. eauto.
  - destruct (avatarUrl member) as [[|c u]|]; try discriminate E.
    unfold resolveAvatarFile in E.
    destruct (startsWith _ (js "data:")); [destruct (exec _ _); discriminate E|].
    destruct (startsWith _ (js "file://")); [destruct (fileURLToPath _); discriminate E|].
    destruct (_ || _); [|discriminate E].
    destruct (URL_pathname _); discriminate E.
Qed.

(** Whatever the disk and the network do, [exportAvatars] resolves
    when it ends, provided every avatar address that begins with
    [http://] or [https://] is one that [new URL] accepts. *)
Theorem exportAvatars_resolves members (s : S) r s' :
  (forall member u, member ∈ members -> avatarUrl member = Some u ->
     startsWith u (js "http://") || startsWith u (js "https://") = true ->
     is_Some (URL_pathname u)) ->
  exportAvatars' members s = Some (r, s') -> exists result, r = Ret result.
Proof.
  unfold exportAvatars. generalize (∅ : gmap jsstring jsstring).
  revert s. induction members as [|member members IH]; intros s result Hurl H;
    cbn [exportAvatars_from] in H.
  - inversion H. eauto.
  - unfold mbind, io_bind in H.
    destruct (export_avatar' result member s) as [[r1 s1]|] eqn:E; [|discriminate H].
    apply export_avatar_returns in E as [result1 ->].
    + eapply IH; [|exact H]. intros m u Hm. apply Hurl. right. exact Hm.
    + destruct (avatarUrl member) as [[|c u]|] eqn:Eu; try discriminate.
      unfold resolveAvatarFile.
      destruct (startsWith (c :: u) (js "data:")).
      { destruct (exec _ _); discriminate. }
      destruct (startsWith (c :: u) (js "file://")).
      { destruct (fileURLToPath _); discriminate. }
      destruct (_ || _) eqn:Eh; [|discriminate].
      destruct (Hurl member (c :: u) ltac:(left) Eu Eh) as [pathname ->]. discriminate.
Qed.

End WithWorld.

(** Two members: one whose avatar is a data URL that says JPEG and
    holds the first bytes of a PNG file, one without an avatar. *)
Lemma exportAvatars_data_urls_witness :
  match Scenario.avatars_exported with
  | Some (Ret result, _) =>
    forall name url, result !! name = Some url ->
      exists member fileInfo data given,
        member ∈ Scenario.two_members /\ username member = name
        /\ truthy (avatarUrl member) = true
        /\ resolveAvatarFile Scenario.extname_none Scenario.no_file_url Scenario.url_path
             Scenario.png_bytes (avatarUrl member) = Ret (Some fileInfo)
        /\ Avatars.obtained () Scenario.nothing_exists Scenario.read_fails Scenario.get_error
             Scenario.same_url fileInfo data given
        /\ avatar_type data given (ext fileInfo) <> []
        /\ url = js "data:" ++ avatar_type data given (ext fileInfo) ++ js ";base64,"
                   ++ Scenario.base64_text data
  | _ => False
  end.
Proof.
  assert (Hrun : match Scenario.avatars_exported with
                 | Some (Ret _, _) => True
                 | _ => False
                 end) by (vm_compute; exact I).
  unfold Scenario.avatars_exported in *.
  match goal with
  | |- match ?run with _ => _ end =>
    destruct run as [[[result| |] s']|] eqn:E;
      [exact (exportAvatars_data_urls _ _ _ _ _ _ _ _ _ _ _ _ _ _ E)|exact Hrun..]
  end.
Defined.

(** The type in the data URL is the one the bytes show. *)
Example avatar_type_is_sniffed :
  (fun r => match r with
            | Some (Ret result, _) => map_to_list result
            | _ => []
            end) Scenario.avatars_exported
  = [(js "wxid_alice", js "data:image/png;base64,iVBORw0KGgo=")].
Proof. vm_compute. reflexivity. Qed.

(** A member whose avatar is on a server nobody answers on: the export
    resolves, without that avatar. *)
Lemma exportAvatars_resolves_witness :
  exists result s',
    exportAvatars () Scenario.nothing_exists Scenario.read_fails Scenario.extname_none
      Scenario.no_file_url Scenario.url_path Scenario.png_bytes Scenario.base64_text
      Scenario.get_error Scenario.same_url Scenario.remote_member ()
    = Some (Ret result, s').
Proof.
  destruct (exportAvatars () Scenario.nothing_exists Scenario.read_fails Scenario.extname_none
              Scenario.no_file_url Scenario.url_path Scenario.png_bytes Scenario.base64_text
              Scenario.get_error Scenario.same_url Scenario.remote_member ())
    as [[r s']|] eqn:E; [|vm_compute in E; discriminate E].
  destruct (exportAvatars_resolves _ _ _ _ _ _ _ _ _ _ _ _ _ _
              (fun member u _ _ _ => ex_intro _ (js "/a.png") eq_refl) E) as [result ->].
  exists result, s'. reflexivity.
Defined.

(** An address that begins with [http://] and that [new URL] rejects:
    the export is rejected, although the member before had an avatar. *)
Example exportAvatars_rejected :
  exportAvatars () Scenario.nothing_exists Scenario.read_fails Scenario.extname_none
    Scenario.no_file_url Scenario.no_url Scenario.png_bytes Scenario.base64_text
    Scenario.get_error Scenario.same_url
    (Scenario.two_members ++ Scenario.remote_member) ()
  = Some (Throw, ()).
Proof. vm_compute. reflexivity. Qed.

End AvatarFacts.
